(** * GD-EOS binding generator: header scanner, consolidation and struct
      classification of [eos_code_generator.py]

    The generator reads the SDK headers line by line, moves methods and
    callbacks to the handle that owns them, and classifies every struct by
    the way the API uses it.  This development embeds those parts of the
    script as executable functions and proves properties of them.

    Conventions of the embedding.
    - A Python [str] is a [string]; the headers are ASCII, so a character is
      an [ascii] and the case functions only touch the letters A-Z / a-z.
    - A Python [dict] is an association list in insertion order (iteration
      order is observable: it decides which handle gets a method and in which
      order flags are propagated).  Keys are unique; the operations below
      keep them unique.  A loop [for k in d: ... d[k] ...] over a table that
      it does not resize is a fold over the entries [(k, d[k])].
    - A Python exception ([IndexError], [KeyError]) that the script does not
      catch ends the run; fallible code returns a [result]. *)

From Stdlib Require Import List String Ascii Bool Arith Lia.
Import ListNotations.
Open Scope string_scope.
Open Scope list_scope.

(* ================================================================== *)
(** * Python string methods used by the script *)
(* ================================================================== *)

Module PyStr.

(** [c in chars] for a one-character [c]. *)
Fixpoint mem_char (c : ascii) (chars : string) : bool :=
  match chars with
  | EmptyString => false
  | String d r => Ascii.eqb c d || mem_char c r
  end.

(** [s.lstrip(chars)]: drops leading characters that occur in [chars]
    (a character set, not a prefix). *)
Fixpoint lstrip (chars s : string) : string :=
  match s with
  | EmptyString => EmptyString
  | String c r => if mem_char c chars then lstrip chars r else s
  end.

(** [s.rstrip(chars)]: drops trailing characters that occur in [chars]. *)
Fixpoint rstrip (chars s : string) : string :=
  match s with
  | EmptyString => EmptyString
  | String c r =>
      match rstrip chars r with
      | EmptyString =>
          if mem_char c chars then EmptyString else String c EmptyString
      | r' => String c r'
      end
  end.

(** [s.startswith(p)]. *)
Fixpoint startswith (s p : string) : bool :=
  match p, s with
  | EmptyString, _ => true
  | String _ _, EmptyString => false
  | String a p', String b s' => Ascii.eqb a b && startswith s' p'
  end.

(** [s.endswith(p)]. *)
Fixpoint endswith (s p : string) : bool :=
  if String.eqb s p then true
  else match s with
       | EmptyString => false
       | String _ r => endswith r p
       end.

(** [sub in s]. *)
Fixpoint contains (s sub : string) : bool :=
  if startswith s sub then true
  else match s with
       | EmptyString => false
       | String _ r => contains r sub
       end.

Fixpoint drop (n : nat) (s : string) : string :=
  match n, s with
  | 0, _ => s
  | S _, EmptyString => EmptyString
  | S k, String _ r => drop k r
  end.

Fixpoint take (n : nat) (s : string) : string :=
  match n, s with
  | 0, _ => EmptyString
  | S _, EmptyString => EmptyString
  | S k, String c r => String c (take k r)
  end.

(** [s.removeprefix(p)]. *)
Definition removeprefix (s p : string) : string :=
  if startswith s p then drop (String.length p) s else s.

(** [s.removesuffix(p)]. *)
Definition removesuffix (s p : string) : string :=
  match p with
  | EmptyString => s
  | _ => if endswith s p
         then take (String.length s - String.length p) s
         else s
  end.

(** Worker of [split]: [skip] counts the characters of a separator that
    was just matched and still has to be passed over, [n] the splits that
    are still allowed, [cur] the piece collected so far. *)
Fixpoint split_go (sep : string) (skip n : nat) (cur s : string)
  : list string :=
  match s with
  | EmptyString => [cur]
  | String c r =>
      match skip with
      | S k => split_go sep k n cur r
      | 0 =>
          if (0 <? n)%nat && startswith s sep
          then cur :: split_go sep (String.length sep - 1) (n - 1) "" r
          else split_go sep 0 n (cur ++ String c "") r
      end
  end.

(** [s.split(sep, maxsplit)] for a non-empty [sep]; [None] is Python's
    default of no limit. *)
Definition split (sep : string) (maxsplit : option nat) (s : string)
  : list string :=
  split_go sep 0
    (match maxsplit with Some n => n | None => S (String.length s) end)
    "" s.

Fixpoint srev (s : string) : string :=
  match s with
  | EmptyString => EmptyString
  | String c r => srev r ++ String c ""
  end.

(** [s.rsplit(sep, maxsplit)]: the same scan from the right. *)
Definition rsplit (sep : string) (maxsplit : option nat) (s : string)
  : list string :=
  rev (map srev (split (srev sep) maxsplit (srev s))).

(** [sep.join(l)]. *)
Fixpoint join (sep : string) (l : list string) : string :=
  match l with
  | [] => ""
  | [x] => x
  | x :: r => x ++ sep ++ join sep r
  end.

(** Worker of [replace], with the same [skip] counter as [split_go]. *)
Fixpoint replace_go (old new : string) (skip : nat) (s : string) : string :=
  match s with
  | EmptyString => EmptyString
  | String c r =>
      match skip with
      | S k => replace_go old new k r
      | 0 =>
          if startswith s old
          then new ++ replace_go old new (String.length old - 1) r
          else String c (replace_go old new 0 r)
      end
  end.

(** [s.replace(old, new)] for a non-empty [old]. *)
Definition replace (old new s : string) : string :=
  replace_go old new 0 s.

(** [c.isupper()], [c.islower()] on ASCII. *)
Definition isupper (c : ascii) : bool :=
  let n := nat_of_ascii c in ((65 <=? n) && (n <=? 90))%nat.

Definition islower (c : ascii) : bool :=
  let n := nat_of_ascii c in ((97 <=? n) && (n <=? 122))%nat.

Definition lower_char (c : ascii) : ascii :=
  if isupper c then ascii_of_nat (nat_of_ascii c + 32) else c.

Definition upper_char (c : ascii) : ascii :=
  if islower c then ascii_of_nat (nat_of_ascii c - 32) else c.

Fixpoint map_chars (f : ascii -> ascii) (s : string) : string :=
  match s with
  | EmptyString => EmptyString
  | String c r => String (f c) (map_chars f r)
  end.

(** [s.lower()], [s.upper()], [s.capitalize()]. *)
Definition lower (s : string) : string := map_chars lower_char s.
Definition upper (s : string) : string := map_chars upper_char s.
Definition capitalize (s : string) : string :=
  match s with
  | EmptyString => EmptyString
  | String c r => String (upper_char c) (lower r)
  end.

(** [x in l] for a list of strings. *)
Definition mem (x : string) (l : list string) : bool :=
  existsb (String.eqb x) l.

(** First and last character tests, used to state facts about the
    character-set strips. *)
Definition starts_with_any (chars s : string) : bool :=
  match s with
  | EmptyString => false
  | String c _ => mem_char c chars
  end.

Fixpoint ends_with_any (chars s : string) : bool :=
  match s with
  | EmptyString => false
  | String c EmptyString => mem_char c chars
  | String _ r => ends_with_any chars r
  end.

End PyStr.

Import PyStr.

(* ================================================================== *)
(** * Type decay *)
(* ================================================================== *)

(** [_decay_eos_type], source lines 1881-1892. *)
Definition _decay_eos_type (t : string) : string :=
  rstrip " "
    (lstrip " "
       (rstrip "&"
          (rstrip "*"
             (rstrip "&"
                (rstrip "*"
                   (lstrip " "
                      (lstrip "const" t))))))).

(* ================================================================== *)
(** * Python dictionaries *)
(* ================================================================== *)

Module Dict.
Section Ops.
Context {V : Type}.

Definition t := list (string * V).

(** [d.get(k)]; [d[k]] raises [KeyError] where this is [None]. *)
Fixpoint get (d : t) (k : string) : option V :=
  match d with
  | [] => None
  | (k', v) :: r => if String.eqb k k' then Some v else get r k
  end.

Definition keys (d : t) : list string := map fst d.
Definition values (d : t) : list V := map snd d.

(** [k in d]. *)
Definition mem (d : t) (k : string) : bool := PyStr.mem k (keys d).

(** [d[k] = v]: an existing key keeps its position, a new key goes to
    the end. *)
Fixpoint set (d : t) (k : string) (v : V) : t :=
  match d with
  | [] => [(k, v)]
  | (k', v') :: r =>
      if String.eqb k k' then (k, v) :: r else (k', v') :: set r k v
  end.

Fixpoint remove (d : t) (k : string) : t :=
  match d with
  | [] => []
  | (k', v') :: r =>
      if String.eqb k k' then r else (k', v') :: remove r k
  end.

(** [d.pop(k)] without a default: [None] is the [KeyError]. *)
Definition pop (d : t) (k : string) : option t :=
  if mem d k then Some (remove d k) else None.

(** [d[k][...] = ...]: in-place change of the value stored at [k].
    Used only where [k] is known to be present. *)
Definition update (d : t) (k : string) (f : V -> V) : t :=
  match get d k with
  | Some v => set d k (f v)
  | None => d
  end.
End Ops.
Arguments t : clear implicits.
End Dict.

(* ================================================================== *)
(** * Data model *)
(* ================================================================== *)

(** One argument, [{"type": ..., "name": ...}]. *)
Record arg := { type : string; name : string }.

(** A method or callback, [{"return": ..., "args": [...]}]. *)
Record method_info := { return_ : string; args : list arg }.

(** A handle, [{"methods": ..., "callbacks": ..., "enums": ...}]. *)
Record handle_info := {
  methods : Dict.t method_info;
  callbacks : Dict.t method_info;
  enums : Dict.t (list string)
}.

(** Fields of a struct, field name to field type, in declaration order. *)
Definition struct_fields := Dict.t string.

(** A value of the [interfaces] table: the entry the script starts with
    (["Platform"], which holds a table of its own) or an accessor method
    that consolidation stored. *)
Inductive interface_entry :=
| InitialPlatform
| Accessor (mi : method_info).

(** The module-level tables once consolidation is done. *)
Record model := {
  interfaces : Dict.t interface_entry;
  structs : Dict.t struct_fields;
  handles : Dict.t handle_info;
  release_methods : Dict.t method_info;
  unhandled_methods : Dict.t method_info;
  unhandled_callbacks : Dict.t method_info;
  unhandled_enums : Dict.t (list string)
}.

(** Generation options, source lines 43-44. *)
Definition max_options_fields_count_to_expend : nat := 3.
Definition max_callback_fields_count_to_expend : nat := 3.

(* ================================================================== *)
(** * Field predicates *)
(* ================================================================== *)

(** [_is_internal_struct_arr_field], source lines 1927-1938. *)
Definition struct_arr_map : Dict.t (list string) :=
  [ ("const EOS_Stats_IngestData*", ["Stats"]);
    ("const EOS_PresenceModification_DataRecordId*", ["Records"]);
    ("const EOS_Presence_DataRecord*", ["Records"]);
    ("const EOS_Leaderboards_UserScoresQueryStatInfo*", ["StatInfo"]);
    ("const EOS_Ecom_CheckoutEntry*", ["Entries"]);
    ("const EOS_AntiCheatCommon_RegisterEventParamDef*", ["ParamDefs"]);
    ("const EOS_AntiCheatCommon_LogEventParamPair*", ["Params"]) ].

Definition _is_internal_struct_arr_field (type field : string) : bool :=
  match Dict.get struct_arr_map type with
  | Some fields => PyStr.mem field fields
  | None => false
  end.

(** [_is_internal_struct_field], source lines 1912-1916. *)
Definition _is_internal_struct_field (g : model) (type field : string)
  : bool :=
  Dict.mem g.(structs) (_decay_eos_type type).

(** [_is_requested_channel_ptr_field], source lines 1941-1942. *)
Definition _is_requested_channel_ptr_field (type field : string) : bool :=
  String.eqb type "const uint8_t*" && String.eqb field "RequestedChannel".

(** [_is_arr_field], source lines 1945-1961. *)
Definition _is_arr_field (g : model) (type field : string) : bool :=
  if _is_internal_struct_arr_field type field then false
  else if _is_internal_struct_field g type field then false
  else if _is_requested_channel_ptr_field type field then false
  else if PyStr.mem type ["const char*"; "const void*"; "void*"] then false
  else if String.eqb type "const void*"
          && PyStr.mem field ["PlatformSpecificData";
                              "SystemMemoryMonitorReport"]
       then false
  else endswith type "*".

(* ================================================================== *)
(** * Role classifier *)
(* ================================================================== *)

Section Roles.
Variable g : model.

Definition arg_has_type (struct_type : string) (a : arg) : bool :=
  String.eqb (_decay_eos_type a.(type)) struct_type.

(** [__is_arg_out_struct], source lines 1273-1289. *)
Definition __is_arg_out_struct (struct_type : string) : bool :=
  existsb (fun infos =>
    existsb (fun method_info =>
      existsb (fun a =>
          arg_has_type struct_type a && startswith a.(name) "Out")
        method_info.(args))
      (Dict.values infos.(methods)))
    (Dict.values g.(handles))
  || existsb (fun method_info =>
       existsb (fun a =>
           arg_has_type struct_type a && startswith a.(name) "Out")
         method_info.(args))
       (Dict.values g.(unhandled_methods)).

(** The loop body shared by both halves of [__is_input_struct]: release
    methods are not inspected. *)
Definition input_in_methods (struct_type : string)
    (ms : Dict.t method_info) : bool :=
  existsb (fun '(method_name, method_info) =>
      if endswith method_name "Release" then false
      else existsb (fun a =>
               arg_has_type struct_type a
               && negb (startswith a.(name) "Out"))
             method_info.(args))
    ms.

(** [__is_input_struct], source lines 1292-1318. *)
Definition __is_input_struct (struct_type : string) : bool :=
  existsb (fun infos => input_in_methods struct_type infos.(methods))
    (Dict.values g.(handles))
  || input_in_methods struct_type g.(unhandled_methods).

(** [__is_output_struct], source lines 1321-1340. *)
Definition __is_output_struct (struct_type : string) : bool :=
  existsb (fun infos =>
      existsb (fun method_info =>
          String.eqb (_decay_eos_type method_info.(return_)) struct_type)
        (Dict.values infos.(methods))
      || existsb (fun callback_info =>
           existsb (arg_has_type struct_type) callback_info.(args))
           (Dict.values infos.(callbacks)))
    (Dict.values g.(handles))
  || existsb (fun method_info =>
         String.eqb (_decay_eos_type method_info.(return_)) struct_type)
       (Dict.values g.(unhandled_methods))
  || existsb (fun callback_info =>
         existsb (arg_has_type struct_type) callback_info.(args))
       (Dict.values g.(unhandled_callbacks)).

(** The loop of [__is_internal_struct] and [__is_internal_struct_of_arr]:
    [want_arr] tells which of the two tests on the field is made.  The
    result is the list the caller passed in as [r_owned_structs]: the
    structs that have such a field, each once, in table order. *)
Definition owners_of (want_arr : bool) (struct_type : string)
  : list string :=
  fold_left (fun r_owned_structs '(struct_name, fields) =>
      fold_left (fun r_owned_structs '(field, field_type) =>
          if negb (PyStr.mem struct_name r_owned_structs)
             && Bool.eqb (_is_internal_struct_arr_field field_type field)
                  want_arr
             && String.eqb (_decay_eos_type field_type) struct_type
          then r_owned_structs ++ [struct_name]
          else r_owned_structs)
        fields r_owned_structs)
    g.(structs) [].

Definition nonempty {A : Type} (l : list A) : bool :=
  match l with [] => false | _ => true end.

(** [__is_internal_struct], source lines 1343-1354: the returned flag and
    the filled list. *)
Definition __is_internal_struct (struct_type : string)
  : bool * list string :=
  let r_owned_structs := owners_of false struct_type in
  (nonempty r_owned_structs, r_owned_structs).

(** [__is_internal_struct_of_arr], source lines 1357-1368. *)
Definition __is_internal_struct_of_arr (struct_type : string)
  : bool * list string :=
  let r_owned_structs := owners_of true struct_type in
  (nonempty r_owned_structs, r_owned_structs).

(** [__is_method_input_only_struct], source lines 1371-1378.  Both
    operands of the first test call [__is_internal_struct_of_arr]. *)
Definition __is_method_input_only_struct (struct_type : string) : bool :=
  if fst (__is_internal_struct_of_arr struct_type)
     || fst (__is_internal_struct_of_arr struct_type)
  then false
  else if __is_arg_out_struct struct_type || __is_output_struct struct_type
  then false
  else true.

(** [__is_callback_output_only_struct], source lines 1381-1388. *)
Definition __is_callback_output_only_struct (struct_type : string)
  : bool :=
  if fst (__is_internal_struct_of_arr struct_type)
     || fst (__is_internal_struct_of_arr struct_type)
  then false
  else if __is_arg_out_struct struct_type || __is_input_struct struct_type
  then false
  else true.

End Roles.

(* ================================================================== *)
(** * Requirement deriver and expansion policy *)
(* ================================================================== *)

(** A value of [struct2additional_method_requirements]: the four keys
    ["set_from"], ["from"], ["set_to"], ["to"]. *)
Record flags := { set_from : bool; from : bool; set_to : bool; to : bool }.

Definition no_flags : flags :=
  {| set_from := false; from := false; set_to := false; to := false |}.

(** [d["set_to"] = True; d["to"] = True] *)
Definition mark_set_to_and_to (f : flags) : flags :=
  {| set_from := f.(set_from); from := f.(from);
     set_to := true; to := true |}.

(** [d["set_from"] = True; d["from"] = True] *)
Definition mark_set_from_and_from (f : flags) : flags :=
  {| set_from := true; from := true;
     set_to := f.(set_to); to := f.(to) |}.

(** [d["set_from"] = True] *)
Definition mark_set_from (f : flags) : flags :=
  {| set_from := true; from := f.(from);
     set_to := f.(set_to); to := f.(to) |}.

(** [d["set_to"] = True] *)
Definition mark_set_to (f : flags) : flags :=
  {| set_from := f.(set_from); from := f.(from);
     set_to := true; to := f.(to) |}.

(** [for k in src: if src[k]: dst[k] = True] *)
Definition inherit (src dst : flags) : flags :=
  {| set_from := dst.(set_from) || src.(set_from);
     from := dst.(from) || src.(from);
     set_to := dst.(set_to) || src.(set_to);
     to := dst.(to) || src.(to) |}.

(** The result of [_make_additional_method_requirements]: the two tables
    it fills. *)
Record requirements := {
  struct2additional_method_requirements : Dict.t flags;
  expended_as_args_structs : list string
}.

Section Requirements.
Variable g : model.

(** First loop, source lines 1393-1408: the struct's own roles. *)
Definition first_pass_step (req : Dict.t flags) (struct_name : string)
  : Dict.t flags :=
  let req := Dict.set req struct_name no_flags in
  let req :=
    if __is_input_struct g struct_name
    then Dict.update req struct_name mark_set_to_and_to else req in
  let req :=
    if __is_output_struct g struct_name
    then Dict.update req struct_name mark_set_from_and_from else req in
  if __is_arg_out_struct g struct_name
  then Dict.update req struct_name mark_set_from else req.

Definition first_pass (req : Dict.t flags) : Dict.t flags :=
  fold_left first_pass_step (Dict.keys g.(structs)) req.

(** Second loop, source lines 1410-1429: [struct_name] takes over the
    flags of the structs that hold it in a field. *)
Definition second_pass_step (req : Dict.t flags) (struct_name : string)
  : Dict.t flags :=
  let '(is_internal, owned_structs) := __is_internal_struct g struct_name in
  let req :=
    if is_internal
    then fold_left (fun req s =>
             match Dict.get req s with
             | Some src => Dict.update req struct_name (inherit src)
             | None => req
             end)
           owned_structs req
    else req in
  let '(is_of_arr, owned_structs) :=
    __is_internal_struct_of_arr g struct_name in
  if is_of_arr
  then fold_left (fun req s =>
           let req :=
             if __is_input_struct g s
             then Dict.update req struct_name mark_set_to else req in
           if __is_output_struct g s || __is_arg_out_struct g s
           then Dict.update req struct_name mark_set_from_and_from
           else req)
         owned_structs req
  else req.

Definition second_pass (req : Dict.t flags) : Dict.t flags :=
  fold_left second_pass_step (Dict.keys g.(structs)) req.

(** Third loop, source lines 1432-1445: both tests append to the one list
    [expended_as_args_structs]. *)
Definition expansion_step (expended : list string)
    (entry : string * struct_fields) : list string :=
  let '(struct_type, fields) := entry in
  let field_count := List.length fields in
  let expended :=
    if (0 <? max_options_fields_count_to_expend)%nat
       && (field_count <=? max_options_fields_count_to_expend)%nat
       && __is_method_input_only_struct g struct_type
    then expended ++ [struct_type] else expended in
  if (0 <? max_callback_fields_count_to_expend)%nat
     && (field_count <=? max_callback_fields_count_to_expend)%nat
     && __is_callback_output_only_struct g struct_type
  then expended ++ [struct_type] else expended.

(** [_make_additional_method_requirements], source lines 1391-1445,
    started on the empty tables of lines 18-19. *)
Definition _make_additional_method_requirements : requirements :=
  {| struct2additional_method_requirements :=
       second_pass (first_pass []);
     expended_as_args_structs :=
       fold_left expansion_step g.(structs) [] |}.

(** [_is_expended_struct], source lines 1214-1215. *)
Definition _is_expended_struct (struct_type : string) : bool :=
  PyStr.mem (_decay_eos_type struct_type)
    _make_additional_method_requirements.(expended_as_args_structs).

(** The flags a struct ends with ([None]: not a key of the table). *)
Definition flags_of (struct_name : string) : option flags :=
  Dict.get
    _make_additional_method_requirements
      .(struct2additional_method_requirements)
    struct_name.

End Requirements.

(* ================================================================== *)
(** * Count field / array field pairing *)
(* ================================================================== *)

(** [to_snake_case], source lines 1257-1270. *)
Fixpoint snake_chars (text : string) : string :=
  match text with
  | EmptyString => EmptyString
  | String char r =>
      if isupper char
      then String "_" (String (lower_char char) (snake_chars r))
      else String char (snake_chars r)
  end.

Definition to_snake_case (text : string) : string :=
  replace "n_a_t" "nat"
    (replace "p2_p_" "p2p_"
       (replace "k_w_s" "kws"
          (replace "u_i_" "ui_"
             (replace "r_t_c" "rtc"
                (replace "b_is" "is"
                   (replace "u_r_i" "uri"
                      (lstrip "_" (snake_chars text)))))))).

(** What [_find_count_field] writes to standard output. *)
Inductive printed :=
| PrintPairingError (field : string) (similars_fileds : list string)
| PrintFields (field : string) (fields : list string).

(** The suffix test of source lines 1975-1981. *)
Definition is_count_like (f : string) : bool :=
  endswith f "Count" || endswith f "Size" || endswith f "Length"
  || endswith f "LengthBytes" || endswith f "SizeBytes".

(** The inner loop of source lines 1983-1990: the number of leading tokens,
    among the first [n], that agree once the plural endings are removed;
    it stops at the first pair that differs. *)
Fixpoint similar_tokens (n : nat) (fsplited splited : list string) : nat :=
  match n, fsplited, splited with
  | S k, a :: fsplited', b :: splited' =>
      if String.eqb (removesuffix (removesuffix a "s") "y")
                    (removesuffix (removesuffix b "ies") "s")
      then S (similar_tokens k fsplited' splited')
      else 0
  | _, _, _ => 0
  end.

(** [min(2, len(fsplited), len(splited))] *)
Definition token_bound (fsplited splited : list string) : nat :=
  Nat.min 2 (Nat.min (List.length fsplited) (List.length splited)).

(** How one candidate compares with the array field. *)
Inductive match_kind := ExactMatch | PartialMatch | NoMatch.

Definition classify_candidate (splited : list string) (f : string)
  : match_kind :=
  if is_count_like f then
    let fsplited := split "_" None (to_snake_case f) in
    let similar :=
      similar_tokens (token_bound fsplited splited) fsplited splited in
    if (token_bound fsplited splited <=? similar)%nat then ExactMatch
    else if (0 <? similar)%nat then PartialMatch
    else NoMatch
  else NoMatch.

(** The loop of source lines 1972-1995.  [inl f] is the [return f] inside
    the loop, [inr similars_fileds] the list the loop leaves behind.  The
    test [f == fields] of line 1973 compares a string with the list and
    never holds. *)
Fixpoint count_field_loop (splited : list string) (fields : list string)
    (similars_fileds : list string) : string + list string :=
  match fields with
  | [] => inr similars_fileds
  | f :: rest =>
      match classify_candidate splited f with
      | ExactMatch => inl f
      | PartialMatch => count_field_loop splited rest (similars_fileds ++ [f])
      | NoMatch => count_field_loop splited rest similars_fileds
      end
  end.

(** [_find_count_field], source lines 1969-2001: the returned value
    ([None] when the function falls off its end, the call to [exit()] of
    line 2001 being commented out) and the lines printed. *)
Definition _find_count_field (field : string) (fields : list string)
  : option string * list printed :=
  let splited := split "_" None (to_snake_case field) in
  match count_field_loop splited fields [] with
  | inl f => (Some f, [])
  | inr [f] => (Some f, [])
  | inr similars_fileds =>
      (None, [PrintPairingError field similars_fileds;
              PrintFields field fields])
  end.

(** [is_deprecated_field], source lines 1049-1067. *)
Definition is_deprecated_field (field : string) : bool :=
  endswith field "_DEPRECATED"
  || String.eqb field "Reserved"
  || PyStr.mem field ["ReadFileDataCallback";
                      "FileTransferProgressCallback";
                      "WriteFileDataCallback"]
  || String.eqb field "PlatformSpecificOptions"
  || String.eqb field "SystemSpecificOptions"
  || String.eqb field "InitOptions"
  || String.eqb field "IntegratedPlatformOptionsContainerHandle"
  || String.eqb field "SystemMemoryMonitorReport".

(** The first loop of [_gen_struct], source lines 2017-2028, restricted to
    the count fields it collects: one entry per array field, [None] where
    the pairing found nothing, and the output of the calls. *)
Definition collect_count_fields (g : model) (fields : struct_fields)
  : list (option string) * list printed :=
  fold_left (fun '(count_fields, out) '(field, field_type) =>
      if is_deprecated_field field then (count_fields, out)
      else if _is_arr_field g field_type field
              || _is_internal_struct_arr_field field_type field
      then let '(r, p) := _find_count_field field (Dict.keys fields) in
           (count_fields ++ [r], out ++ p)
      else (count_fields, out))
    fields ([], []).

(* ================================================================== *)
(** * Uncaught exceptions *)
(* ================================================================== *)

Inductive error := IndexError | KeyError.

Inductive result (A : Type) :=
| Ok (a : A)
| Raise (e : error).
Arguments Ok {A} a.
Arguments Raise {A} e.

Definition bind {A B : Type} (r : result A) (k : A -> result B) : result B :=
  match r with
  | Ok a => k a
  | Raise e => Raise e
  end.

Notation "x <- r ;; k" := (bind r (fun x => k))
  (at level 61, r at next level, right associativity).
Notation "' p <- r ;; k" := (bind r (fun p => k))
  (at level 61, p pattern, r at next level, right associativity).

(** A loop whose body can raise. *)
Fixpoint foldM {A St : Type} (body : St -> A -> result St) (l : list A)
    (s : St) : result St :=
  match l with
  | [] => Ok s
  | a :: r => s' <- body s a ;; foldM body r s'
  end.

(** [d[k]] and [l[i]]. *)
Definition subscript {V : Type} (d : Dict.t V) (k : string) : result V :=
  match Dict.get d k with
  | Some v => Ok v
  | None => Raise KeyError
  end.

Definition index {A : Type} (l : list A) (i : nat) : result A :=
  match nth_error l i with
  | Some a => Ok a
  | None => Raise IndexError
  end.

(* ================================================================== *)
(** * Global consolidation *)
(* ================================================================== *)

(** The tables of one header file, a value of [file_lower2infos]. *)
Record file_info := {
  file_enums : Dict.t (list string);
  file_methods : Dict.t method_info;
  file_callbacks : Dict.t method_info;
  file_structs : Dict.t struct_fields;
  file_handles : Dict.t handle_info
}.

Definition with_methods (fi : file_info) (ms : Dict.t method_info)
  : file_info :=
  {| file_enums := fi.(file_enums); file_methods := ms;
     file_callbacks := fi.(file_callbacks);
     file_structs := fi.(file_structs);
     file_handles := fi.(file_handles) |}.

Definition with_callbacks (fi : file_info) (cbs : Dict.t method_info)
  : file_info :=
  {| file_enums := fi.(file_enums); file_methods := fi.(file_methods);
     file_callbacks := cbs;
     file_structs := fi.(file_structs);
     file_handles := fi.(file_handles) |}.

Definition with_handles (fi : file_info) (hs : Dict.t handle_info)
  : file_info :=
  {| file_enums := fi.(file_enums); file_methods := fi.(file_methods);
     file_callbacks := fi.(file_callbacks);
     file_structs := fi.(file_structs);
     file_handles := hs |}.

(** [h["methods"][k] = v], [h["callbacks"][k] = v], [h["enums"] = v]. *)
Definition add_method (k : string) (v : method_info) (h : handle_info)
  : handle_info :=
  {| methods := Dict.set h.(methods) k v;
     callbacks := h.(callbacks); enums := h.(enums) |}.

Definition add_callback (k : string) (v : method_info) (h : handle_info)
  : handle_info :=
  {| methods := h.(methods);
     callbacks := Dict.set h.(callbacks) k v; enums := h.(enums) |}.

Definition put_enums (v : Dict.t (list string)) (h : handle_info)
  : handle_info :=
  {| methods := h.(methods); callbacks := h.(callbacks); enums := v |}.

(** The initial value of [interfaces], source lines 21-28. *)
Definition initial_interfaces : Dict.t interface_entry :=
  [("Platform", InitialPlatform)].

(** Source line 168. *)
Definition is_interface_getter (method_name : string) : bool :=
  contains method_name "_Get" && endswith method_name "Interface".

(** The body of the loop of source lines 170-176 on one token. *)
Definition interface_token (tok : string) : string :=
  let tok := if PyStr.mem tok ["EOS"; "Platform"] then "" else tok in
  let tok := if startswith tok "Get" then removeprefix tok "Get" else tok in
  match removesuffix tok "Interface" with
  | EmptyString => tok
  | stripped => stripped
  end.

(** The key under which an accessor is stored, source lines 169-177. *)
Definition interface_key (method_name : string) : string :=
  join "" (map interface_token (split "_" None method_name)).

(** What the loop over one file's methods carries: the handles of the
    file of the outer loop ([_handles]), the callbacks of the file of the
    inner loop ([infos["callbacks"]]), the two global tables and the
    names to remove. *)
Record mstate := {
  m_handles : Dict.t handle_info;
  m_callbacks : Dict.t method_info;
  m_interfaces : Dict.t interface_entry;
  m_release : Dict.t method_info;
  to_remove_methods : list string
}.

(** What the loop over the arguments of one method carries. *)
Record astate := {
  a_handles : Dict.t handle_info;
  a_to_remove : list string;
  handle_type : string;
  callback_type : string
}.

(** Source lines 182-195, one argument. *)
Definition arg_step (method_name : string) (mi : method_info)
    (s : astate) (a : arg) : astate :=
  let arg_type := _decay_eos_type a.(type) in
  let s :=
    if Dict.mem s.(a_handles) arg_type
       && negb (PyStr.mem method_name s.(a_to_remove))
    then {| a_handles :=
              Dict.update s.(a_handles) arg_type (add_method method_name mi);
            a_to_remove := s.(a_to_remove) ++ [method_name];
            handle_type := arg_type;
            callback_type := s.(callback_type) |}
    else s in
  if endswith arg_type "Callback" || endswith arg_type "CallbackV2"
  then {| a_handles := s.(a_handles); a_to_remove := s.(a_to_remove);
          handle_type := s.(handle_type); callback_type := arg_type |}
  else s.

(** Source lines 163-208, one method of the file of the inner loop. *)
Definition method_step (s : mstate) (entry : string * method_info)
  : result mstate :=
  let '(method_name, mi) := entry in
  if is_interface_getter method_name then
    Ok {| m_handles := s.(m_handles); m_callbacks := s.(m_callbacks);
          m_interfaces :=
            Dict.set s.(m_interfaces) (interface_key method_name)
              (Accessor mi);
          m_release := s.(m_release);
          to_remove_methods := s.(to_remove_methods) ++ [method_name] |}
  else
    let a := fold_left (arg_step method_name mi) mi.(args)
               {| a_handles := s.(m_handles);
                  a_to_remove := s.(to_remove_methods);
                  handle_type := ""; callback_type := "" |} in
    if endswith method_name "_Release" then
      Ok {| m_handles := a.(a_handles); m_callbacks := s.(m_callbacks);
            m_interfaces := s.(m_interfaces);
            m_release := Dict.set s.(m_release) method_name mi;
            to_remove_methods := a.(a_to_remove) ++ [method_name] |}
    else if negb (String.eqb a.(handle_type) "")
            && negb (String.eqb a.(callback_type) "")
    then
      cb <- subscript s.(m_callbacks) a.(callback_type) ;;
      Ok {| m_handles :=
              Dict.update a.(a_handles) a.(handle_type)
                (add_callback a.(callback_type) cb);
            m_callbacks := Dict.remove s.(m_callbacks) a.(callback_type);
            m_interfaces := s.(m_interfaces);
            m_release := s.(m_release);
            to_remove_methods := a.(a_to_remove) |}
    else
      Ok {| m_handles := a.(a_handles); m_callbacks := s.(m_callbacks);
            m_interfaces := s.(m_interfaces);
            m_release := s.(m_release);
            to_remove_methods := a.(a_to_remove) |}.

(** Source lines 210-211: [for m in to_remove_methods: methods.pop(m)]. *)
Definition pop_all (ms : Dict.t method_info) (names : list string)
  : result (Dict.t method_info) :=
  foldM (fun ms m =>
           match Dict.pop ms m with
           | Some ms' => Ok ms'
           | None => Raise KeyError
           end)
        names ms.

(** What the two outer loops carry. *)
Record cstate := {
  file_lower2infos : Dict.t file_info;
  c_interfaces : Dict.t interface_entry;
  c_release : Dict.t method_info
}.

(** Source lines 160-211: the file [jl] of the inner loop, under the
    handles of the file [il] of the outer loop.  [_handles] and [infos]
    may be tables of the same file; they are then different entries of
    it. *)
Definition inner_step (il : string) (c : cstate) (jl : string)
  : result cstate :=
  outer <- subscript c.(file_lower2infos) il ;;
  infos <- subscript c.(file_lower2infos) jl ;;
  s <- foldM method_step infos.(file_methods)
         {| m_handles := outer.(file_handles);
            m_callbacks := infos.(file_callbacks);
            m_interfaces := c.(c_interfaces);
            m_release := c.(c_release);
            to_remove_methods := [] |} ;;
  ms <- pop_all infos.(file_methods) s.(to_remove_methods) ;;
  let files :=
    Dict.update c.(file_lower2infos) jl
      (fun fi => with_methods (with_callbacks fi s.(m_callbacks)) ms) in
  let files :=
    Dict.update files il (fun fi => with_handles fi s.(m_handles)) in
  Ok {| file_lower2infos := files;
        c_interfaces := s.(m_interfaces);
        c_release := s.(m_release) |}.

(** Source lines 158-211. *)
Definition outer_step (c : cstate) (il : string) : result cstate :=
  foldM (inner_step il) (Dict.keys c.(file_lower2infos)) c.

Definition move_methods_and_callbacks (files : Dict.t file_info)
  : result cstate :=
  foldM outer_step (Dict.keys files)
    {| file_lower2infos := files;
       c_interfaces := initial_interfaces;
       c_release := [] |}.

(** [_convert_interface_class_name], source lines 1685-1715. *)
Definition class_name_token (tok : string) : string :=
  if PyStr.mem tok ["rtc"; "p2p"; "ui"] then upper tok
  else if String.eqb tok "playerdatastorage" then "PlayerDataStorage"
  else if String.eqb tok "p2p" then "P2P"
  else if String.eqb tok "sdk" then "Platform"
  else if String.eqb tok "userinfo" then "UserInfo"
  else if String.eqb tok "titlestorage" then "TitleStorage"
  else if String.eqb tok "anticheatserver" then "AntiCheatServer"
  else if String.eqb tok "anticheatclient" then "AntiCheatClient"
  else if String.eqb tok "progressionsnapshot" then "ProgressionSnapshot"
  else if String.eqb tok "kws" then "KWS"
  else if String.eqb tok "custominvites" then "CustomInvites"
  else if String.eqb tok "integratedplatform" then "IntegratedPlatform"
  else capitalize tok.

Definition _convert_interface_class_name (interface_name_lower : string)
  : string :=
  "EOS" ++ join "" (map class_name_token
                      (split "_" None
                         (removeprefix interface_name_lower "eos_"))).

(** Source lines 214-223: every file's handles, then every file's structs,
    go to the global tables. *)
Definition move_handles (files : Dict.t file_info) : Dict.t handle_info :=
  fold_left (fun handles '(il, fi) =>
      fold_left (fun handles '(h, hi) => Dict.set handles h hi)
        fi.(file_handles) handles)
    files [].

Definition move_structs (files : Dict.t file_info) : Dict.t struct_fields :=
  fold_left (fun structs '(il, fi) =>
      fold_left (fun structs '(s, fields) => Dict.set structs s fields)
        fi.(file_structs) structs)
    files [].

(** Source lines 226-233, one file: its enums go to the handle of its
    interface, or to [unhandled_enums]. *)
Definition enum_step (interfaces : Dict.t interface_entry)
    (acc : Dict.t handle_info * Dict.t (list string))
    (entry : string * file_info)
  : result (Dict.t handle_info * Dict.t (list string)) :=
  let '(handles, unhandled_enums) := acc in
  let '(il, fi) := entry in
  let interface := removeprefix (_convert_interface_class_name il) "EOS" in
  if Dict.mem interfaces interface then
    _ <- subscript handles ("EOS_H" ++ interface) ;;
    Ok (Dict.update handles ("EOS_H" ++ interface)
          (put_enums fi.(file_enums)),
        unhandled_enums)
  else
    Ok (handles,
        fold_left (fun unhandled_enums '(e, members) =>
                     Dict.set unhandled_enums e members)
          fi.(file_enums) unhandled_enums).

(** Source lines 236-243. *)
Definition move_unhandled (files : Dict.t file_info)
  : Dict.t method_info * Dict.t method_info :=
  fold_left (fun '(unhandled_callbacks, unhandled_methods) '(il, fi) =>
      (fold_left (fun d '(cb, info) => Dict.set d cb info)
         fi.(file_callbacks) unhandled_callbacks,
       fold_left (fun d '(m, info) => Dict.set d m info)
         fi.(file_methods) unhandled_methods))
    files ([], []).

(** The consolidation part of [parse_all_file], source lines 157-243, on
    the per-file tables that the scanning part (lines 113-154) built. *)
Definition consolidate (files : Dict.t file_info) : result model :=
  c <- move_methods_and_callbacks files ;;
  let files := c.(file_lower2infos) in
  let handles := move_handles files in
  let structs := move_structs files in
  '(handles, unhandled_enums) <-
     foldM (enum_step c.(c_interfaces)) files (handles, []) ;;
  let '(unhandled_callbacks, unhandled_methods) := move_unhandled files in
  Ok {| interfaces := c.(c_interfaces);
        structs := structs;
        handles := handles;
        release_methods := c.(c_release);
        unhandled_methods := unhandled_methods;
        unhandled_callbacks := unhandled_callbacks;
        unhandled_enums := unhandled_enums |}.

(* ================================================================== *)
(** * Declaration scanner *)
(* ================================================================== *)

Definition tab : string := String (ascii_of_nat 9) EmptyString.
Definition nl : string := String (ascii_of_nat 10) EmptyString.

(** What [_parse_file] prints: the two lines of source lines 1592-1593
    (inside a union) and of source lines 1618-1619 (a plain field), each
    with the line number and the text of the line. *)
Inductive parse_print :=
| PrintUnionError (i : nat) (line : string)
| PrintError (i : nat) (line : string).

(** What one turn of a loop over the lines decides: go on at line [i], or
    leave the loop. *)
Inductive turn (St R : Type) :=
| Continue (s : St) (i : nat)
| Break (r : R).
Arguments Continue {St R} s i.
Arguments Break {St R} r.

(** A [while] loop that reads [lines[i]] at its head and only moves [i]
    forward.  [rest] is the part of [lines] from position [pos] on; lines
    before [i] are passed over.  [body s i line after] is one turn at
    [line = lines[i]], with [after = lines[i+1:]] for the loops nested in
    it; [at_end s] is what happens when [i] has run off the list. *)
Fixpoint scan_lines {St R : Type}
    (body : St -> nat -> string -> list string -> result (turn St R))
    (at_end : St -> result R)
    (rest : list string) (pos i : nat) (s : St) : result R :=
  match rest with
  | [] => at_end s
  | line :: after =>
      if (pos <? i)%nat then scan_lines body at_end after (S pos) i s
      else
        t <- body s i line after ;;
        match t with
        | Continue s' i' => scan_lines body at_end after (S pos) i' s'
        | Break r => Ok r
        end
  end.

(** Source lines 1565-1570 and 1581-1586. *)
Definition is_skipped_line (line : string) : bool :=
  startswith line "/" || startswith line "*" || startswith line " "
  || (String.length line =? 0)%nat.

(** Enum block, source lines 1486-1496: one turn of the loop. *)
Definition enum_turn (members : list string) (i : nat) (line0 : string)
    (after : list string) : result (turn (list string) (list string * nat)) :=
  if startswith line0 ");" then Ok (Break (members, i))
  else
    let line := rstrip "," (rstrip nl (lstrip tab line0)) in
    if startswith line " " || startswith line "/"
    then Ok (Continue members (i + 1))
    else
      splited0 <- index (split " = " None line) 0 ;;
      Ok (Continue (members ++ [splited0]) (i + 1)).

(** Union block, source lines 1579-1596: one turn of the loop.  The loop
    ends on the line that closes the union; the caller reads the field
    name from it. *)
Definition union_turn (s : Dict.t string * list parse_print) (i : nat)
    (line0 : string) (after : list string)
  : result (turn (Dict.t string * list parse_print)
                 (Dict.t string * list parse_print * nat * string)) :=
  let '(union_fileds, out) := s in
  if startswith (lstrip tab line0) "}"
  then Ok (Break (union_fileds, out, i, line0))
  else
    let line := rstrip nl (lstrip tab line0) in
    if is_skipped_line line then Ok (Continue s (i + 1))
    else
      line <- index (rsplit ";" None line) 0 ;;
      match rsplit " " (Some 1) line with
      | [t; f] => Ok (Continue (Dict.set union_fileds f t, out) (i + 1))
      | _ => Ok (Continue (union_fileds, out ++ [PrintUnionError i line0])
                   (i + 1))
      end.

(** Source lines 1598-1601. *)
Definition union_type_of (union_fileds : Dict.t string) : string :=
  rstrip "," (rstrip " "
    (fold_left (fun union_type '(union_f, t) =>
                  (union_type ++ t ++ " : " ++ union_f ++ ", ")%string)
       union_fileds "Union{")) ++ "}".

(** Struct block, source lines 1563-1625: one turn of the loop. *)
Definition struct_turn (s : Dict.t string * list parse_print) (i : nat)
    (line0 : string) (after : list string)
  : result (turn (Dict.t string * list parse_print)
                 (Dict.t string * list parse_print * nat)) :=
  let '(fields, out) := s in
  if startswith line0 "));" then Ok (Break (fields, out, i))
  else
    let line := rstrip nl (lstrip tab line0) in
    if is_skipped_line line then Ok (Continue s (i + 1))
    else
      line <- index (rsplit ";" None line) 0 ;;
      if startswith line "union" then
        '(union_fileds, out, j, closing) <-
           scan_lines union_turn (fun _ => Raise IndexError)
             after (i + 1) (i + 2) ([], out) ;;
        let field :=
          rstrip ";" (rstrip nl (lstrip " " (lstrip "}"
            (lstrip tab closing)))) in
        Ok (Continue (Dict.set fields field (union_type_of union_fileds), out)
              (j + 1))
      else
        match rsplit " " (Some 1) line with
        | [t; f] => Ok (Continue (Dict.set fields f t, out) (i + 1))
        | _ => Ok (Continue (fields, out ++ [PrintError i line0]) (i + 1))
        end.

(** What [_parse_file] fills: the tables of the file, the global list of
    version macros, and its output. *)
Record pstate := {
  p_info : file_info;
  api_latest_macros : list string;
  p_out : list parse_print
}.

Definition empty_handle : handle_info :=
  {| methods := []; callbacks := []; enums := [] |}.

(** Source lines 1515-1527: the arguments of a function declaration. *)
Definition parse_args (args : list string) : result (list arg) :=
  foldM (fun acc a =>
      if (String.length a <=? 0)%nat then Ok acc
      else
        let splited := rsplit " " (Some 1) a in
        splited0 <- index splited 0 ;;
        if String.eqb splited0 "void" then Ok acc
        else
          splited1 <- index splited 1 ;;
          Ok (acc ++ [{| type := splited0; name := splited1 |}]))
    args [].

(** [_parse_file], source lines 1453-1632: one turn of the main loop. *)
Definition file_turn (s : pstate) (i : nat) (line : string)
    (after : list string) : result (turn pstate pstate) :=
  let fi := s.(p_info) in
  if startswith line "#define EOS_" && contains line "_API_LATEST" then
    macro <- index (split " " (Some 2) line) 1 ;;
    Ok (Continue {| p_info := fi;
                    api_latest_macros := s.(api_latest_macros) ++ [macro];
                    p_out := s.(p_out) |} (i + 1))
  else if contains line "typedef struct " && contains line "Handle*" then
    x <- index (split "* " (Some 1) line) 1 ;;
    handle_type <- index (split ";" (Some 1) x) 0 ;;
    Ok (Continue {| p_info :=
                      with_handles fi
                        (Dict.set fi.(file_handles) handle_type empty_handle);
                    api_latest_macros := s.(api_latest_macros);
                    p_out := s.(p_out) |} (i + 1))
  else if startswith line "EOS_ENUM("
          && negb (match split "(" None line with
                   | x :: _ => PyStr.mem x ["EOS_ENUM_START"; "EOS_ENUM_END";
                                            "EOS_ENUM_BOOLEAN_OPERATORS"]
                   | [] => false
                   end) then
    x <- index (split "(" None line) 1 ;;
    enum_type <- index (rsplit "," None x) 0 ;;
    '(members, j) <-
       scan_lines enum_turn (fun _ => Raise IndexError)
         after (i + 1) (i + 1) [] ;;
    Ok (Continue {| p_info :=
                      {| file_enums :=
                           Dict.set fi.(file_enums) enum_type members;
                         file_methods := fi.(file_methods);
                         file_callbacks := fi.(file_callbacks);
                         file_structs := fi.(file_structs);
                         file_handles := fi.(file_handles) |};
                    api_latest_macros := s.(api_latest_macros);
                    p_out := s.(p_out) |} (j + 1))
  else if startswith line "EOS_DECLARE_FUNC" then
    x <- index (split ") " (Some 1) line) 1 ;;
    method_name <- index (split "(" None x) 0 ;;
    if PyStr.mem method_name
         ["EOS_Achievements_AddNotifyAchievementsUnlocked"]
    then Ok (Continue s (i + 1))
    else
      r0 <- index (split " " (Some 1) line) 0 ;;
      r1 <- index (split "(" None r0) 1 ;;
      a0 <- index (split " " (Some 1) line) 1 ;;
      a1 <- index (split "(" (Some 1) a0) 1 ;;
      a2 <- index (rsplit ")" (Some 1) a1) 0 ;;
      args <- parse_args (split ", " None a2) ;;
      Ok (Continue
            {| p_info :=
                 with_methods fi
                   (Dict.set fi.(file_methods) method_name
                      {| return_ := rstrip ")" r1; args := args |});
               api_latest_macros := s.(api_latest_macros);
               p_out := s.(p_out) |} (i + 1))
  else if startswith line "EOS_DECLARE_CALLBACK" then
    let has_return := startswith line "EOS_DECLARE_CALLBACK_RETVALUE" in
    x <- index (split "(" (Some 1) line) 1 ;;
    y <- index (rsplit ")" None x) 0 ;;
    let args := split ", " None y in
    callback_name <- index args (if has_return then 1 else 0) ;;
    ret <- (if has_return then index args 0 else Ok "") ;;
    last <- index args (List.length args - 1) ;;
    t <- index (rsplit " " (Some 1) last) 0 ;;
    n <- index (rsplit " " (Some 1) last) 1 ;;
    Ok (Continue
          {| p_info :=
               with_callbacks fi
                 (Dict.set fi.(file_callbacks) callback_name
                    {| return_ := ret;
                       args := [{| type := t; name := n |}] |});
             api_latest_macros := s.(api_latest_macros);
             p_out := s.(p_out) |} (i + 1))
  else if startswith line "EOS_STRUCT" then
    let struct_name :=
      rstrip ", (" (rstrip nl (lstrip "(" (lstrip "EOS_STRUCT" line))) in
    '(fields, out, j) <-
       scan_lines struct_turn (fun _ => Raise IndexError)
         after (i + 1) (i + 1) ([], s.(p_out)) ;;
    Ok (Continue {| p_info :=
                      {| file_enums := fi.(file_enums);
                         file_methods := fi.(file_methods);
                         file_callbacks := fi.(file_callbacks);
                         file_structs :=
                           Dict.set fi.(file_structs) struct_name fields;
                         file_handles := fi.(file_handles) |};
                    api_latest_macros := s.(api_latest_macros);
                    p_out := out |} (j + 1))
  else Ok (Continue s (i + 1)).

(** [_parse_file] on the lines read from the file, started on the tables
    [s] has for it. *)
Definition _parse_file (lines : list string) (s : pstate) : result pstate :=
  scan_lines file_turn (fun s => Ok s) lines 0 0 s.

Definition empty_file : file_info :=
  {| file_enums := []; file_methods := []; file_callbacks := [];
     file_structs := []; file_handles := [] |}.

(* ================================================================== *)
(** * The whole run *)
(* ================================================================== *)

(** What the script reads: the regular files of the include directory in
    the order of [os.listdir], each with its lines, and the three tables
    that are read by their own functions. *)
Record sdk_include := {
  listing : list (string * list string);
  eos_result_h : list string;
  eos_ui_keys_h : list string;
  eos_ui_buttons_h : list string
}.

Definition backslash : string := String (ascii_of_nat 92) EmptyString.

(** [_convert_to_interface_lower], source lines 97-109. *)
Definition _convert_to_interface_lower (file_name : string) : string :=
  let splited := rsplit backslash (Some 1) file_name in
  let f := List.last splited "" in
  if String.eqb f "eos_types.h" then "platform"
  else
    removeprefix
      (replace "_sdk" "_platform"
         (removesuffix (removesuffix f "_types.h") ".h"))
      "eos_".

(** The files of source lines 130-138, which the main loop leaves out. *)
Definition special_headers : list string :=
  ["eos_base.h"; "eos_platform_prereqs.h"; "eos_version.h"; "eos_init.h";
   "eos_result.h"; "eos_ui_keys.h"; "eos_ui_buttons.h"].

(** What the scanning part carries from file to file. *)
Record scan_state := {
  s_files : Dict.t file_info;
  s_macros : list string;
  s_out : list parse_print
}.

(** Source lines 122-150, one file of the directory. *)
Definition scan_file (s : scan_state) (entry : string * list string)
  : result scan_state :=
  let '(f, lines) := entry in
  if contains f "deprecated" then Ok s
  else if PyStr.mem f special_headers then Ok s
  else
    let interface_lower := _convert_to_interface_lower f in
    let files :=
      if Dict.mem s.(s_files) interface_lower then s.(s_files)
      else Dict.set s.(s_files) interface_lower empty_file in
    fi <- subscript files interface_lower ;;
    p <- _parse_file lines
           {| p_info := fi; api_latest_macros := s.(s_macros);
              p_out := s.(s_out) |} ;;
    Ok {| s_files := Dict.set files interface_lower p.(p_info);
          s_macros := p.(api_latest_macros);
          s_out := p.(p_out) |}.

Definition with_enums (fi : file_info) (es : Dict.t (list string))
  : file_info :=
  {| file_enums := es; file_methods := fi.(file_methods);
     file_callbacks := fi.(file_callbacks);
     file_structs := fi.(file_structs);
     file_handles := fi.(file_handles) |}.

(** The shape shared by the three readers of source lines 841-891: the
    enum [enum_type] of the file [interface_lower] gets one member for
    every line that starts with [prefix]. *)
Definition read_enum_table (interface_lower enum_type prefix : string)
    (member : string -> result string) (lines : list string)
    (files : Dict.t file_info) : result (Dict.t file_info) :=
  fi <- subscript files interface_lower ;;
  members <- foldM (fun acc line =>
                 if negb (startswith line prefix) then Ok acc
                 else m <- member line ;; Ok (acc ++ [m]))
               lines [] ;;
  Ok (Dict.set files interface_lower
        (with_enums fi (Dict.set fi.(file_enums) enum_type members))).

(** [_get_EOS_EResult], source lines 841-855. *)
Definition _get_EOS_EResult (lines : list string) (files : Dict.t file_info)
  : result (Dict.t file_info) :=
  read_enum_table (_convert_to_interface_lower "eos_common.h") "EOS_EResult"
    "EOS_RESULT_VALUE"
    (fun line =>
       x <- index (split "(" (Some 1) line) 1 ;;
       index (split ", " (Some 1) x) 0)
    lines files.

(** The member of source lines 866-869 and 884-887. *)
Definition ui_key_member (line : string) : result string :=
  x <- index (split "(" (Some 1) line) 1 ;;
  y <- index (rsplit ")" None x) 0 ;;
  let splited := split ", " None y in
  splited0 <- index splited 0 ;;
  splited1 <- index splited 1 ;;
  Ok (splited0 ++ splited1)%string.

(** [_get_EOS_UI_EKeyCombination], source lines 858-873. *)
Definition _get_EOS_UI_EKeyCombination (lines : list string)
    (files : Dict.t file_info) : result (Dict.t file_info) :=
  read_enum_table (_convert_to_interface_lower "eos_ui_types.h")
    "EOS_UI_EKeyCombination" "EOS_UI_KEY_" ui_key_member lines files.

(** [_get_EOS_UI_EInputStateButtonFlags], source lines 876-891. *)
Definition _get_EOS_UI_EInputStateButtonFlags (lines : list string)
    (files : Dict.t file_info) : result (Dict.t file_info) :=
  read_enum_table (_convert_to_interface_lower "eos_ui_types.h")
    "EOS_UI_EInputStateButtonFlags" "EOS_UI_KEY_" ui_key_member lines files.

(** The scanning part of [parse_all_file], source lines 113-154. *)
Definition scan_headers (sdk : sdk_include) : result scan_state :=
  s <- foldM scan_file sdk.(listing)
         {| s_files :=
              [(_convert_to_interface_lower "eos_common.h", empty_file)];
            s_macros := []; s_out := [] |} ;;
  files <- _get_EOS_EResult sdk.(eos_result_h) s.(s_files) ;;
  files <- _get_EOS_UI_EKeyCombination sdk.(eos_ui_keys_h) files ;;
  files <- _get_EOS_UI_EInputStateButtonFlags sdk.(eos_ui_buttons_h) files ;;
  Ok {| s_files := files; s_macros := s.(s_macros); s_out := s.(s_out) |}.

(** [parse_all_file], source lines 112-258: the model, the requirements
    and what the scanner printed. *)
Definition parse_all_file (sdk : sdk_include)
  : result (model * requirements * list parse_print) :=
  s <- scan_headers sdk ;;
  g <- consolidate s.(s_files) ;;
  Ok (g, _make_additional_method_requirements g, s.(s_out)).


(* ================================================================== *)
(** * Notions used to state the properties *)
(* ================================================================== *)

(** A base type name as it stands between [const ] and the pointer mark:
    no blank in front, no blank, [*] or [&] behind. *)
Definition is_base_type_name (X : string) : bool :=
  negb (starts_with_any " " X) && negb (ends_with_any "*& " X).

Definition is_exact (k : match_kind) : bool :=
  match k with ExactMatch => true | _ => false end.

Definition is_partial (k : match_kind) : bool :=
  match k with PartialMatch => true | _ => false end.

(** The tokens of the array field that candidates are compared with. *)
Definition tokens_of (field : string) : list string :=
  split "_" None (to_snake_case field).

(** The fields for which the first loop of [_gen_struct] asks for a count
    field. *)
Definition wants_count_field (g : model) (entry : string * string) : bool :=
  let '(field, field_type) := entry in
  negb (is_deprecated_field field)
  && (_is_arr_field g field_type field
      || _is_internal_struct_arr_field field_type field).

(** The flags that the first loop of the requirement derivation gives a
    struct for its own roles. *)
Definition own_flags (g : model) (struct_name : string) : flags :=
  {| set_from := __is_output_struct g struct_name
                 || __is_arg_out_struct g struct_name;
     from := __is_output_struct g struct_name;
     set_to := __is_input_struct g struct_name;
     to := __is_input_struct g struct_name |}.

(** Every flag of [a] is a flag of [b]. *)
Definition flags_le (a b : flags) : Prop :=
  (a.(set_from) = true -> b.(set_from) = true)
  /\ (a.(from) = true -> b.(from) = true)
  /\ (a.(set_to) = true -> b.(set_to) = true)
  /\ (a.(to) = true -> b.(to) = true).

(** Struct [X] of the table has a field, not an array field of the fixed
    list when [arr] is [false], whose decayed type is [Y]. *)
Definition holds_field_of (g : model) (arr : bool) (X Y : string) : Prop :=
  exists fields field field_type,
    In (X, fields) g.(structs)
    /\ In (field, field_type) fields
    /\ _is_internal_struct_arr_field field_type field = arr
    /\ _decay_eos_type field_type = Y.

(** A table [r'] extends [r]: same keys present, flags only added. *)
Definition extends (r r' : Dict.t flags) : Prop :=
  forall k f, Dict.get r k = Some f ->
    exists f', Dict.get r' k = Some f' /\ flags_le f f'.

(** One field in the loop of [owners_of]. *)
Definition owner_field_step (want_arr : bool) (struct_type struct_name : string)
    (r_owned_structs : list string) (entry : string * string)
  : list string :=
  let '(field, field_type) := entry in
  if negb (PyStr.mem struct_name r_owned_structs)
     && Bool.eqb (_is_internal_struct_arr_field field_type field) want_arr
     && String.eqb (_decay_eos_type field_type) struct_type
  then r_owned_structs ++ [struct_name]
  else r_owned_structs.

(** The test under which the first [if] of the third loop of the
    requirement derivation appends a struct. *)
Definition expands_as_input (g : model) (struct_type : string)
    (fields : struct_fields) : bool :=
  (0 <? max_options_fields_count_to_expend)%nat
  && (List.length fields <=? max_options_fields_count_to_expend)%nat
  && __is_method_input_only_struct g struct_type.

(** The test under which the second [if] of that loop appends it. *)
Definition expands_as_output (g : model) (struct_type : string)
    (fields : struct_fields) : bool :=
  (0 <? max_callback_fields_count_to_expend)%nat
  && (List.length fields <=? max_callback_fields_count_to_expend)%nat
  && __is_callback_output_only_struct g struct_type.

(* ------------------------------------------------------------------ *)
(** ** Lines of a header *)

(** The test of the second branch of the main loop of [_parse_file]. *)
Definition is_handle_typedef (line : string) : bool :=
  contains line "typedef struct " && contains line "Handle*".

(** A line that opens a struct block, and one that opens an enum block:
    the main loop takes the branch of source line 1555, respectively of
    source line 1476. *)
Definition is_struct_header (line : string) : bool :=
  negb (is_handle_typedef line) && startswith line "EOS_STRUCT".

Definition is_enum_header (line : string) : bool :=
  negb (is_handle_typedef line) && startswith line "EOS_ENUM(".

(** The text of a line of a struct block that the scanner tries to split
    into a type and a name: [None] for the terminator, for blank and
    comment lines and for the line that opens a union. *)
Definition declaration_text (line0 : string) : option string :=
  if startswith line0 "));" then None
  else
    let line := rstrip nl (lstrip tab line0) in
    if is_skipped_line line then None
    else match rsplit ";" None line with
         | d :: _ => if startswith d "union" then None else Some d
         | [] => None
         end.

(** [len(d.rsplit(" ", 1)) != 2] *)
Definition unsplittable (d : string) : bool :=
  negb (List.length (rsplit " " (Some 1) d) =? 2)%nat.

(* ------------------------------------------------------------------ *)
(** ** Ownership of methods *)

(** Handle [h] of the table [hs] has method [m]. *)
Definition owns (hs : Dict.t handle_info) (h m : string) : Prop :=
  exists hi, Dict.get hs h = Some hi /\ In m (Dict.keys hi.(methods)).

(** The decayed type of the first argument that names one of the handles
    [hs]. *)
Fixpoint first_handle_arg (hs : list string) (args : list arg)
  : option string :=
  match args with
  | [] => None
  | a :: rest =>
      if PyStr.mem (_decay_eos_type a.(type)) hs
      then Some (_decay_eos_type a.(type))
      else first_handle_arg hs rest
  end.

(** The handle that gets a method with the arguments [args]: the files are
    tried in table order, and in the first file that declares a handle
    named by an argument, the first such argument decides. *)
Fixpoint owner_of (files : Dict.t file_info) (args : list arg)
  : option string :=
  match files with
  | [] => None
  | (_, fi) :: rest =>
      match first_handle_arg (Dict.keys fi.(file_handles)) args with
      | Some h => Some h
      | None => owner_of rest args
      end
  end.

Definition all_method_names (files : Dict.t file_info) : list string :=
  flat_map (fun entry => Dict.keys (snd entry).(file_methods)) files.

Definition all_handle_names (files : Dict.t file_info) : list string :=
  flat_map (fun entry => Dict.keys (snd entry).(file_handles)) files.

(** The per-file tables as the scanner leaves them: keys of a dictionary
    are unique, no two files declare the same method or the same handle,
    and the handles have no methods yet. *)
Record wf_files (files : Dict.t file_info) : Prop := {
  wf_keys : NoDup (Dict.keys files);
  wf_methods : NoDup (all_method_names files);
  wf_handles : NoDup (all_handle_names files);
  wf_fresh : forall il fi h hi,
    In (il, fi) files -> In (h, hi) fi.(file_handles) ->
    hi.(methods) = []
}.

(** The tables of file [k] in a state of the consolidation loops. *)
Definition methods_of (files : Dict.t file_info) (k : string)
  : Dict.t method_info :=
  match Dict.get files k with
  | Some fi => fi.(file_methods)
  | None => []
  end.

Definition handles_of (files : Dict.t file_info) (k : string)
  : Dict.t handle_info :=
  match Dict.get files k with
  | Some fi => fi.(file_handles)
  | None => []
  end.

(** The handle, among those named [hs], that the loop body of source
    lines 163-208 gives the method [x] to. *)
Definition claimed_by (hs : list string) (x : string) (xi : method_info)
  : option string :=
  if is_interface_getter x then None else first_handle_arg hs xi.(args).

(** The method [x] is put on the list of methods to remove. *)
Definition removed (hs : list string) (x : string) (xi : method_info)
  : bool :=
  is_interface_getter x
  || match first_handle_arg hs xi.(args) with Some _ => true | None => false end
  || endswith x "_Release".

(** What the consolidation loops keep of the tables [files0] they started
    from: the files, the handles each file declares, and that a file's
    method table only loses entries. *)
Definition loop_inv (files0 : Dict.t file_info) (c : cstate) : Prop :=
  Dict.keys c.(file_lower2infos) = Dict.keys files0
  /\ (forall k, Dict.keys (handles_of c.(file_lower2infos) k)
                = Dict.keys (handles_of files0 k))
  /\ (forall k m mi, In (m, mi) (methods_of c.(file_lower2infos) k) ->
                     In (m, mi) (methods_of files0 k))
  /\ (forall k, NoDup (Dict.keys (methods_of c.(file_lower2infos) k))).

(** Method [m] of file [jm] has not been looked at under a file that
    declares a handle for it: it is still in its file and no handle has
    it. *)
Definition pending (jm m : string) (mi : method_info) (c : cstate) : Prop :=
  In (m, mi) (methods_of c.(file_lower2infos) jm)
  /\ forall k h, ~ owns (handles_of c.(file_lower2infos) k) h m.

(** Method [m] has been given to handle [h] of file [il]: no file has it
    any more and no other handle has it. *)
Definition settled (il h m : string) (c : cstate) : Prop :=
  (forall k xi, ~ In (m, xi) (methods_of c.(file_lower2infos) k))
  /\ forall k h', owns (handles_of c.(file_lower2infos) k) h' m
                  <-> (k = il /\ h' = h).

(** The accessor [m] has left the per-file tables and its key is in the
    interface table. *)
Definition extracted (m : string) (c : cstate) : Prop :=
  (forall k xi, ~ In (m, xi) (methods_of c.(file_lower2infos) k))
  /\ In (interface_key m) (Dict.keys c.(c_interfaces)).

(** Every handle of the tables is as the scanner creates it, without
    methods. *)
Definition handles_fresh (hs : Dict.t handle_info) : Prop :=
  forall h hi, In (h, hi) hs -> hi.(methods) = [].

Definition files_fresh (files : Dict.t file_info) : Prop :=
  forall k fi, In (k, fi) files -> handles_fresh fi.(file_handles).

(* ================================================================== *)
(** * Example headers *)
(* ================================================================== *)

Definition header_line (s : string) : string := (s ++ nl)%string.
Definition member_line (s : string) : string := (tab ++ s ++ nl)%string.

Definition start_state : pstate :=
  {| p_info := empty_file; api_latest_macros := []; p_out := [] |}.

Definition no_tables : model :=
  {| interfaces := []; structs := []; handles := [];
     release_methods := []; unhandled_methods := [];
     unhandled_callbacks := []; unhandled_enums := [] |}.

(** The per-file tables and the model that a run reaches ([[]] and
    [no_tables] if it raises). *)
Definition tables_of (sdk : sdk_include) : Dict.t file_info :=
  match scan_headers sdk with
  | Ok s => s.(s_files)
  | Raise _ => []
  end.

Definition model_of (sdk : sdk_include) : model :=
  match parse_all_file sdk with
  | Ok (g, _, _) => g
  | Raise _ => no_tables
  end.

(** An include directory with the given headers, the header of the UI
    interface, and a result table with one value. *)
Definition include_dir (headers : list (string * list string))
  : sdk_include :=
  {| listing := headers ++ [("eos_ui.h", [])];
     eos_result_h := [header_line "EOS_RESULT_VALUE(EOS_Success, 0)"];
     eos_ui_keys_h := [];
     eos_ui_buttons_h := [] |}.

(** A struct block whose second field line has no name. *)
Definition struct_with_bad_line : list string :=
  [ header_line "EOS_STRUCT(EOS_Foo_Options, (";
    member_line "/** API version. */";
    member_line "int32_t ApiVersion;";
    member_line "uint32_t;";
    member_line "const char* Name;";
    header_line "));" ].

(** A struct block and an enum block that are never closed. *)
Definition open_struct : list string :=
  [ header_line "EOS_STRUCT(EOS_Foo_Options, (";
    member_line "int32_t ApiVersion;" ].

Definition open_enum : list string :=
  [ header_line "EOS_ENUM(EOS_EFoo,";
    member_line "EOS_F_First = 0," ].

(** [eos_foo.h].  [EOS_Foo_CopyInfoOptions] is input only and holds
    [EOS_Foo_Range] in a field; [EOS_Foo_Info] is out-argument only;
    [EOS_Foo_DoneCallbackInfo] is output only and holds [EOS_Foo_Detail]
    in a field. *)
Definition eos_foo_h : list string :=
  [ header_line "typedef struct EOS_FooHandle* EOS_HFoo;";
    header_line "EOS_STRUCT(EOS_Foo_Range, (";
    member_line "uint32_t First;";
    member_line "uint32_t Last;";
    header_line "));";
    header_line "EOS_STRUCT(EOS_Foo_CopyInfoOptions, (";
    member_line "int32_t ApiVersion;";
    member_line "EOS_Foo_Range Range;";
    header_line "));";
    header_line "EOS_STRUCT(EOS_Foo_Info, (";
    member_line "int32_t ApiVersion;";
    header_line "));";
    header_line "EOS_STRUCT(EOS_Foo_Detail, (";
    member_line "int32_t Code;";
    header_line "));";
    header_line "EOS_STRUCT(EOS_Foo_DoneCallbackInfo, (";
    member_line "EOS_EResult ResultCode;";
    member_line "const EOS_Foo_Detail* Detail;";
    header_line "));";
    header_line "EOS_DECLARE_CALLBACK(EOS_Foo_OnDoneCallback, const EOS_Foo_DoneCallbackInfo* Data);";
    header_line "EOS_DECLARE_FUNC(EOS_EResult) EOS_Foo_CopyInfo(EOS_HFoo Handle, const EOS_Foo_CopyInfoOptions* Options, EOS_Foo_Info** OutInfo);";
    header_line "EOS_DECLARE_FUNC(void) EOS_Foo_Do(EOS_HFoo Handle, const EOS_Foo_CopyInfoOptions* Options, void* ClientData, const EOS_Foo_OnDoneCallback CompletionDelegate);" ].

Definition foo_sdk : sdk_include := include_dir [("eos_foo.h", eos_foo_h)].

Definition foo_model : model := Eval vm_compute in model_of foo_sdk.

(** [eos_bar.h].  [EOS_Bar_Entry] is delivered by a callback;
    [EOS_Bar_Page], which holds it in a field, is used by no method or
    callback. *)
Definition eos_bar_h : list string :=
  [ header_line "typedef struct EOS_BarHandle* EOS_HBar;";
    header_line "EOS_STRUCT(EOS_Bar_Page, (";
    member_line "const EOS_Bar_Entry* Entry;";
    header_line "));";
    header_line "EOS_STRUCT(EOS_Bar_Entry, (";
    member_line "int32_t Id;";
    header_line "));";
    header_line "EOS_DECLARE_CALLBACK(EOS_Bar_OnEntryCallback, const EOS_Bar_Entry* Data);";
    header_line "EOS_DECLARE_FUNC(void) EOS_Bar_Query(EOS_HBar Handle, void* ClientData, const EOS_Bar_OnEntryCallback CompletionDelegate);" ].

Definition bar_sdk : sdk_include := include_dir [("eos_bar.h", eos_bar_h)].

Definition bar_model : model := Eval vm_compute in model_of bar_sdk.

(** [eos_players.h]: an array field with two count-like fields that
    share its first token. *)
Definition eos_players_h : list string :=
  [ header_line "EOS_STRUCT(EOS_Players_List, (";
    member_line "uint32_t PlayerCount;";
    member_line "uint32_t PlayerSize;";
    member_line "const EOS_ProductUserId* PlayerNames;";
    header_line "));" ].

Definition players_sdk : sdk_include :=
  include_dir [("eos_players.h", eos_players_h)].

Definition players_model : model := Eval vm_compute in model_of players_sdk.

Definition player_names_struct : struct_fields :=
  [("PlayerCount", "uint32_t"); ("PlayerSize", "uint32_t");
   ("PlayerNames", "const EOS_ProductUserId*")].

(** [eos_foo.h] with nothing but the accessor of the interface [Bar]. *)
Definition getter_sdk : sdk_include :=
  include_dir
    [("eos_foo.h",
      [header_line "EOS_DECLARE_FUNC(EOS_HBar) Foo_GetBarInterface(void);"])].

Definition getter_files : Dict.t file_info :=
  Eval vm_compute in tables_of getter_sdk.

Definition getter_model : model := Eval vm_compute in model_of getter_sdk.

(** [eos_lobby.h] and [eos_sessions.h], each with a handle; the method of
    the second header names the handle of its own header first and the
    handle of the first header second. *)
Definition sessions_sdk : sdk_include :=
  include_dir
    [("eos_lobby.h",
      [header_line "typedef struct EOS_LobbyHandle* EOS_HLobby;"]);
     ("eos_sessions.h",
      [header_line "typedef struct EOS_SessionsHandle* EOS_HSessions;";
       header_line "EOS_DECLARE_FUNC(void) EOS_Sessions_Attach(EOS_HSessions Handle, EOS_HLobby Lobby);"])].

Definition sessions_files : Dict.t file_info :=
  Eval vm_compute in tables_of sessions_sdk.

Definition sessions_model : model :=
  Eval vm_compute in model_of sessions_sdk.

Definition attach_args : list arg :=
  [ {| type := "EOS_HSessions"; name := "Handle" |};
    {| type := "EOS_HLobby"; name := "Lobby" |} ].

(** [eos_types.h] and [eos_sdk.h]: the platform handle and an accessor
    that takes it. *)
Definition platform_sdk : sdk_include :=
  include_dir
    [("eos_types.h",
      [header_line "typedef struct EOS_PlatformHandle* EOS_HPlatform;"]);
     ("eos_sdk.h",
      [header_line "EOS_DECLARE_FUNC(EOS_HFoo) EOS_Platform_GetFooInterface(EOS_HPlatform Handle);"])].

Definition platform_files : Dict.t file_info :=
  Eval vm_compute in tables_of platform_sdk.

Definition platform_model : model :=
  Eval vm_compute in model_of platform_sdk.

(** [eos_h.h]: a handle, an options struct and a method that takes
    both. *)
Definition eos_h_h : list string :=
  [ header_line "typedef struct EOS_HHandle* EOS_HH;";
    header_line "EOS_STRUCT(EOS_H_SetNameOptions, (";
    member_line "int32_t ApiVersion;";
    member_line "const char* Name;";
    header_line "));";
    header_line "EOS_DECLARE_FUNC(void) EOS_H_SetName(EOS_HH Handle, const EOS_H_SetNameOptions* Options);" ].

Definition h_sdk : sdk_include := include_dir [("eos_h.h", eos_h_h)].

Definition h_model : model := Eval vm_compute in model_of h_sdk.

(* ================================================================== *)
(** * Notions used to state further properties *)
(* ================================================================== *)

(** The generated class calls [set_to_eos] from [to_eos] and
    [set_from_eos] from [from_eos]: flags are coherent when the second
    method of each pair is not required without the first. *)
Definition coherent (f : flags) : Prop :=
  (f.(to) = true -> f.(set_to) = true)
  /\ (f.(from) = true -> f.(set_from) = true).

(** A property that holds of every entry of a requirement table. *)
Definition table_all (P : flags -> Prop) (req : Dict.t flags) : Prop :=
  forall k f, Dict.get req k = Some f -> P f.

(** The release method [m] has been set aside: no file has it any more,
    no handle has it, and it is in the table of release methods. *)
Definition released (m : string) (c : cstate) : Prop :=
  (forall k xi, ~ In (m, xi) (methods_of c.(file_lower2infos) k))
  /\ (forall k h, ~ owns (handles_of c.(file_lower2infos) k) h m)
  /\ In m (Dict.keys c.(c_release)).

(** [eos_thing.h]: a handle and the method that releases it. *)
Definition thing_sdk : sdk_include :=
  include_dir
    [("eos_thing.h",
      [header_line "typedef struct EOS_ThingHandle* EOS_HThing;";
       header_line "EOS_DECLARE_FUNC(void) EOS_Thing_Release(EOS_HThing Handle);"])].

Definition thing_files : Dict.t file_info :=
  Eval vm_compute in tables_of thing_sdk.

Definition thing_model : model := Eval vm_compute in model_of thing_sdk.

Definition release_args : list arg :=
  [ {| type := "EOS_HThing"; name := "Handle" |} ].

(** Per-file tables in which the first file declares the handle that a
    release method takes. *)
Definition early_handle_file : file_info :=
  {| file_enums := [];
     file_methods :=
       [("EOS_Thing_Release",
         {| return_ := "void"; args := release_args |})];
     file_callbacks := []; file_structs := [];
     file_handles := [("EOS_HThing", empty_handle)] |}.

(** The files of the include directory that the main loop of
    [parse_all_file] hands to [_parse_file] (source lines 127-140). *)
Definition is_scanned (f : string) : bool :=
  negb (contains f "deprecated") && negb (PyStr.mem f special_headers).

(** An include directory whose only header is [eos_foo.h]. *)
Definition lone_foo_sdk : sdk_include :=
  {| listing := [("eos_foo.h", eos_foo_h)];
     eos_result_h := []; eos_ui_keys_h := []; eos_ui_buttons_h := [] |}.

(* ================================================================== *)
(** * Names of enums in the generated code *)
(* ================================================================== *)

(** What [_convert_enum_type] prints (source line 969). *)
Inductive enum_print :=
| PrintUnsupported (ori : string).

(** [l[i] = v] on a list that has the position [i]. *)
Fixpoint set_item {A : Type} (l : list A) (i : nat) (v : A) : list A :=
  match l, i with
  | [], _ => []
  | _ :: r, 0 => v :: r
  | x :: r, S k => x :: set_item r k v
  end.

(** [_convert_enum_type], source lines 960-970: the returned name and
    what is printed. *)
Definition _convert_enum_type (ori : string)
  : result (string * list enum_print) :=
  if startswith ori "EOS_E" then Ok (replace "EOS_E" "" ori, [])
  else if contains ori "_E" then
    let splited := split "_" None ori in
    splited2 <- index splited 2 ;;
    let splited := set_item splited 2 (removeprefix splited2 "E") in
    match splited with
    | [] => Raise IndexError
    | _ :: splited => Ok (join "_" splited, [])
    end
  else Ok (ori, [PrintUnsupported ori]).

(** [_convert_enum_value], source lines 973-974. *)
Definition _convert_enum_value (ori : string) : string :=
  removeprefix ori "EOS_".

(** [_is_need_skip_struct], source lines 977-981. *)
Definition _is_need_skip_struct (struct_type : string) : bool :=
  PyStr.mem struct_type
    ["EOS_AntiCheatCommon_Quat"; "EOS_AntiCheatCommon_Vec3f"].

(** [_is_need_skip_enum_type], source lines 995-1002. *)
Definition _is_need_skip_enum_type (ori_enum_type : string) : bool :=
  PyStr.mem ori_enum_type ["EOS_EAttributeType"; "EOS_EComparisonOp"].

(* ================================================================== *)
(** * Types in the generated code *)
(* ================================================================== *)

(** The module-level lists of source lines 8 and 13.  The script never
    adds to them, so they are empty whenever a generator reads them. *)
Definition enum_types : list string := [].
Definition all_structs : Dict.t struct_fields := [].

(** [__is_struct_type], source lines 361-362. *)
Definition __is_struct_type (g : model) (type : string) : bool :=
  Dict.mem g.(structs) type.

(** The table [uion_field_map] of source lines 1078-1082. *)
Definition uion_field_map : Dict.t string :=
  [ ("ParamValue", "Variant");
    ("Value", "Variant");
    ("AccountId", "String") ].

(** The table [simple_remap] of source lines 1134-1183. *)
Definition simple_remap : Dict.t string :=
  [ ("void", "void");
    ("uint8_t", "uint8_t");
    ("int64_t", "int64_t");
    ("int32_t", "int32_t");
    ("uint16_t", "uint16_t");
    ("uint32_t", "uint32_t");
    ("uint64_t", "uint64_t");
    ("EOS_UI_EventId", "uint64_t");
    ("EOS_Bool", "bool");
    ("float", "float");
    ("EOS_ProductUserId", "String");
    ("EOS_EpicAccountId", "String");
    ("EOS_LobbyId", "String");
    ("const char*", "String");
    ("EOS_Ecom_SandboxId", "String");
    ("const EOS_Ecom_CatalogItemId*", "PackedStringArray");
    ("int16_t*", "PackedInt32Array");
    ("EOS_AntiCheatCommon_Vec3f*", "Vector3");
    ("EOS_AntiCheatCommon_Quat*", "Quaternion");
    ("const char**", "PackedStringArray");
    ("EOS_Ecom_CatalogOfferId", "String");
    ("EOS_Ecom_EntitlementId", "String");
    ("EOS_Ecom_CatalogItemId", "String");
    ("EOS_Ecom_EntitlementName", "String");
    ("EOS_Ecom_EntitlementId*", "PackedStringArray");
    ("EOS_Ecom_CatalogItemId*", "PackedStringArray");
    ("EOS_ProductUserId*", "PackedStringArray");
    ("const EOS_ProductUserId*", "PackedStringArray");
    ("EOS_Ecom_SandboxId*", "PackedStringArray");
    ("const char* const*", "PackedStringArray");
    ("EOS_Ecom_EntitlementName*", "PackedStringArray");
    ("EOS_OnlinePlatformType", "uint32_t");
    ("const uint32_t*", "PackedInt64Array");
    ("EOS_IntegratedPlatformType", "String");
    ("Union{EOS_AntiCheatCommon_ClientHandle : ClientHandle, const char* : String, uint32_t : UInt32, in, EOS_AntiCheatCommon_Vec3f : Vec3f, EOS_AntiCheatCommon_Quat : Quat}",
     "Variant");
    ("Union{int64_t : AsInt64, double : AsDouble, EOS_Bool : AsBool, const char* : AsUtf8}",
     "Vaiant");
    ("Union{EOS_EpicAccountId : Epic, const char* : External}",
     "String");
    ("EOS_ContinuanceToken", "Ref<EOSGContinuanceToken>");
    ("EOS_HLobbyDetails", "Ref<EOSGLobbyDetails>");
    ("EOS_HLobbyModification", "Ref<EOSGLobbyModification>");
    ("EOS_HPresenceModification", "Ref<EOSGPresenceModification>");
    ("EOS_HSessionModification", "Ref<EOSGSessionModification>");
    ("EOS_HSessionDetails", "Ref<EOSGSessionDetails>");
    ("EOS_HIntegratedPlatformOptionsContainer",
     "Ref<EOSGIntegratedPlatformOptionsContainer>");
    ("EOS_AntiCheatCommon_ClientHandle", "EOSAntiCheatCommon_Client *") ].

(** The table [condition_remap] of source lines 1185-1207. *)
Definition condition_remap : Dict.t (Dict.t string) :=
  [ ("void*",
     [ ("ClientData", "Variant") ]);
    ("const void*",
     [ ("DataChunk", "PackedByteArray");
       ("MessageData", "PackedByteArray");
       ("Data", "PackedByteArray");
       ("SystemSpecificOptions", "Variant");
       ("PlatformSpecificData", "Variant");
       ("InitOptions", "Variant");
       ("SystemMemoryMonitorReport", "Variant") ]);
    ("char",
     [ ("SocketName[EOS_P2P_SOCKETID_SOCKETNAME_SIZE]", "String") ]);
    ("const uint8_t*",
     [ ("RequestedChannel", "int16_t") ]);
    ("const EOS_Auth_AccountFeatureRestrictedInfo*",
     [ ("AccountFeatureRestrictedInfo_DEPRECATED", "Dictionary") ]) ].
(** [remap_type], source lines 1070-1211.  The table [todo_types] of
    lines 1085-1132 is built and never read. *)
Definition remap_type (g : model) (type field : string) : result string :=
  if PyStr.mem type enum_types then Ok type
  else if __is_struct_type g type
  then Ok ("Ref<" ++ replace "EOS_" "EOS" type ++ ">")%string
  else if startswith type "Union" then subscript uion_field_map field
  else
    match Dict.get condition_remap type with
    | Some by_field =>
        Ok (match Dict.get by_field field with
            | Some t => t
            | None => "Variant"
            end)
    | None =>
        Ok (match Dict.get simple_remap type with
            | Some t => t
            | None => "Variant"
            end)
    end.

(* ================================================================== *)
(** * Declarations as the headers write them *)
(* ================================================================== *)

(** An argument as it stands in a declaration: the type, a blank, the
    name. *)
Definition render_arg (a : arg) : string :=
  (a.(type) ++ " " ++ a.(name))%string.

(** An argument that the scanner can read back: no comma in it, no blank
    in the name, and a type other than [void]. *)
Definition plain_arg (a : arg) : bool :=
  negb (mem_char "," a.(type)) && negb (mem_char "," a.(name))
  && negb (mem_char " " a.(name)) && negb (String.eqb a.(type) "void").

(** [EOS_DECLARE_FUNC(<ret>) <name>(<args>);] followed by the rest of
    the line. *)
Definition declare_func (ret name : string) (args : list arg)
    (tail : string) : string :=
  ("EOS_DECLARE_FUNC(" ++ ret ++ ") " ++ name ++ "("
   ++ join ", " (map render_arg args) ++ ");" ++ tail)%string.

(** [EOS_DECLARE_CALLBACK(<name>, <args>);] followed by the rest of the
    line. *)
Definition declare_callback (name : string) (args : list arg)
    (tail : string) : string :=
  ("EOS_DECLARE_CALLBACK(" ++ name ++ ", "
   ++ join ", " (map render_arg args) ++ ");" ++ tail)%string.

(** No closing parenthesis in an argument. *)
Definition no_paren_arg (a : arg) : bool :=
  negb (mem_char ")" a.(type)) && negb (mem_char ")" a.(name)).

(** A field of a struct block: a tab, the type, a blank, the name and a
    semicolon. *)
Definition struct_member (entry : string * string) : string :=
  let '(field, field_type) := entry in
  (tab ++ field_type ++ " " ++ field ++ ";" ++ nl)%string.

(** [EOS_STRUCT(<name>, (], the fields, [));]. *)
Definition struct_block (struct_name : string) (fields : struct_fields)
  : list string :=
  ("EOS_STRUCT(" ++ struct_name ++ ", (" ++ nl)%string
  :: map struct_member fields ++ [("));" ++ nl)%string].

(** A field that the scanner can read back: a type that is not empty, does
    not begin with a tab, [/], [*] or a blank nor with [union], no
    semicolon in the type or the name, and no blank in the name. *)
Definition plain_field (entry : string * string) : bool :=
  let '(field, field_type) := entry in
  negb (String.eqb field_type "")
  && negb (starts_with_any (tab ++ "/* ") field_type)
  && negb (startswith field_type "union")
  && negb (mem_char ";" field_type)
  && negb (mem_char ";" field)
  && negb (mem_char " " field).

(** A member of an enum block: a tab, the name, [ = ], the value and a
    comma. *)
Definition enum_member (entry : string * string) : string :=
  let '(member, value) := entry in
  (tab ++ member ++ " = " ++ value ++ "," ++ nl)%string.

(** [EOS_ENUM(<name>,], the members, [);]. *)
Definition enum_block (enum_type : string)
    (members : list (string * string)) : list string :=
  ("EOS_ENUM(" ++ enum_type ++ "," ++ nl)%string
  :: map enum_member members ++ [(");" ++ nl)%string].

(** A member name that the scanner can read back: not empty, not
    beginning with a tab, a blank or [/], and without blank. *)
Definition plain_member (member : string) : bool :=
  negb (String.eqb member "")
  && negb (starts_with_any (tab ++ " /") member)
  && negb (mem_char " " member).

(* ================================================================== *)
(** * Class names of handles *)
(* ================================================================== *)

(** [_convert_handle_class_name], source lines 284-287. *)
Definition _convert_handle_class_name (handle_type : string) : string :=
  _convert_interface_class_name
    (to_snake_case (removeprefix handle_type "EOS_H")).

(** A word of a handle name: no upper-case letter and no underscore after
    its first character. *)
Definition is_word_tail (l : string) : Prop :=
  forall c, In c (list_ascii_of_string l) ->
    isupper c = false /\ c <> "_"%char.

(* ================================================================== *)
(** * Generator of the enum bindings *)
(* ================================================================== *)

Definition quote : string := String (ascii_of_nat 34) EmptyString.

(** Source lines 918-926, one enum of a handle: the macro that binds its
    values. *)
Definition bind_enum_block (entry : string * list string) : list string :=
  let '(enum_type, members) := entry in
  if _is_need_skip_enum_type enum_type then []
  else
    [("#define _BIND_ENUM_" ++ enum_type ++ "()" ++ backslash)%string]
    ++ map (fun e =>
              (tab ++ "_BIND_ENUM_CONSTANT(" ++ enum_type ++ ", " ++ e
               ++ ", " ++ quote ++ _convert_enum_value e ++ quote ++ ");"
               ++ backslash)%string)
         members
    ++ [""].

(** Source lines 930-933, one enum. *)
Definition bind_enum_use (entry : string * list string) : list string :=
  let '(enum_type, _) := entry in
  if _is_need_skip_enum_type enum_type then []
  else [(tab ++ "_BIND_ENUM_" ++ enum_type ++ "()" ++ backslash)%string].

(** Source lines 938-941, one enum; [_convert_enum_type] can raise and
    can print. *)
Definition using_step (acc : list string * list enum_print)
    (entry : string * list string)
  : result (list string * list enum_print) :=
  let '(lines, out) := acc in
  let '(enum_type, _) := entry in
  if _is_need_skip_enum_type enum_type then Ok (lines, out)
  else
    '(converted, p) <- _convert_enum_type enum_type ;;
    Ok (lines ++ [(tab ++ "using " ++ converted ++ " = " ++ enum_type
                   ++ ";" ++ backslash)%string],
        out ++ p).

(** Source lines 946-951, one enum. *)
Definition cast_step (h : string) (acc : list string * list enum_print)
    (entry : string * list string)
  : result (list string * list enum_print) :=
  let '(lines, out) := acc in
  let '(enum_type, _) := entry in
  if _is_need_skip_enum_type enum_type then Ok (lines, out)
  else
    '(converted, p) <- _convert_enum_type enum_type ;;
    Ok (lines ++ [(tab ++ "VARIANT_ENUM_CAST(godot::"
                   ++ _convert_interface_class_name h ++ "::" ++ converted
                   ++ ");" ++ backslash)%string],
        out ++ p).

(** Source lines 910-952, one handle.  The test of line 911 never holds:
    a handle always has its three tables. *)
Definition gen_enums_handle (acc : list string * list enum_print)
    (entry : string * handle_info)
  : result (list string * list enum_print) :=
  let '(lines, out) := acc in
  let '(h, hi) := entry in
  let lines := lines ++ [("// ==== " ++ h ++ " ====")%string] in
  let interface_class_name := _convert_interface_class_name h in
  let interface_enums := hi.(enums) in
  let lines := lines ++ flat_map bind_enum_block interface_enums in
  let lines :=
    lines ++ [("#define _BIND_ENUMS_" ++ interface_class_name ++ "()"
               ++ backslash)%string] in
  let lines := lines ++ flat_map bind_enum_use interface_enums in
  let lines := lines ++ [""] in
  let lines :=
    lines ++ [("#define _USING_ENUMS_" ++ _convert_interface_class_name h
               ++ "()" ++ backslash)%string] in
  '(lines, out) <- foldM using_step interface_enums (lines, out) ;;
  let lines := lines ++ [""] in
  let lines :=
    lines ++ [("#define _CAST_ENUMS_" ++ _convert_interface_class_name h
               ++ "()" ++ backslash)%string] in
  '(lines, out) <- foldM (cast_step h) interface_enums (lines, out) ;;
  Ok (lines ++ [""], out).

(** The lines that [gen_enums] joins, source lines 895-955, and what it
    prints.  [dir] is what [os.listdir] returns for the include
    directory. *)
Definition gen_enums_lines (dir : list string) (g : model)
  : result (list string * list enum_print) :=
  let lines := ["#pragma once"; ""] in
  let lines :=
    lines ++ map (fun f => ("#include <" ++ f ++ ">")%string)
               (filter (fun f => endswith f "_types.h") dir) in
  let lines :=
    lines ++ ["#include <eos_ui_types.h>"; "#include <eos_common.h>"; "";
              "namespace godot {"; ""] in
  '(lines, out) <- foldM gen_enums_handle g.(handles) (lines, []) ;;
  Ok (lines ++ ["} // namespace godot"; ""], out).

(** [gen_enums], source lines 894-957. *)
Definition gen_enums (dir : list string) (g : model)
  : result (string * list enum_print) :=
  '(lines, out) <- gen_enums_lines dir g ;;
  Ok (join nl lines, out).

(** An enum name in which [_convert_enum_type] looks for a third part
    that is not there. *)
Definition short_enum_name (e : string) : bool :=
  negb (startswith e "EOS_E") && contains e "_E"
  && (List.length (split "_" None e) <=? 2)%nat.

(** The enums that the generator writes for: those of the handles, in
    table order, without the skipped ones. *)
Definition bound_enums (g : model) : list string :=
  flat_map (fun entry =>
              filter (fun e => negb (_is_need_skip_enum_type e))
                (Dict.keys (snd entry).(enums)))
    g.(handles).

Definition is_bind_enum_header (line : string) : bool :=
  startswith line "#define _BIND_ENUM_".

(** A handle table to run the generator on. *)
Definition auth_handles : Dict.t handle_info :=
  [("EOS_HAuth",
    {| methods := []; callbacks := [];
       enums := [("EOS_ELoginStatus", ["EOS_LS_NotLoggedIn"]);
                 ("EOS_EAttributeType", ["EOS_AT_BOOLEAN"]);
                 ("EOS_Auth_EScopeFlags", ["EOS_AS_NoFlags"])] |})].

Definition auth_model : model :=
  {| interfaces := []; structs := []; handles := auth_handles;
     release_methods := []; unhandled_methods := [];
     unhandled_callbacks := [];
     unhandled_enums := [("EOS_EResult", ["EOS_Success"])] |}.

(* ================================================================== *)
(** * Generator of the struct classes *)
(* ================================================================== *)

(** A generator returns, raises an exception or calls [exit()]; what it
    has printed until then stays printed. *)
Inductive stop := Raised (e : error) | Exited.

Inductive gen_print :=
| PrintPairing (p : printed)
| PrintMacroError (struct_type : string).

Inductive outcome (A : Type) :=
| Done (a : A)
| Stopped (s : stop).
Arguments Done {A} a.
Arguments Stopped {A} s.

Definition gen (A : Type) : Type := (outcome A * list gen_print)%type.

Definition gret {A : Type} (a : A) : gen A := (Done a, []).

Definition gbind {A B : Type} (m : gen A) (k : A -> gen B) : gen B :=
  match m with
  | (Done a, p) => let '(r, q) := k a in (r, p ++ q)
  | (Stopped s, p) => (Stopped s, p)
  end.

Notation "x <~ m ;; k" := (gbind m (fun x => k))
  (at level 61, m at next level, right associativity).
Notation "' p <~ m ;; k" := (gbind m (fun p => k))
  (at level 61, p pattern, m at next level, right associativity).

(** [print(...)]. *)
Definition say (p : list gen_print) : gen unit := (Done tt, p).

Definition lift {A : Type} (r : result A) : gen A :=
  match r with
  | Ok a => gret a
  | Raise e => (Stopped (Raised e), [])
  end.

Fixpoint gfold {A St : Type} (body : St -> A -> gen St) (l : list A)
    (s : St) : gen St :=
  match l with
  | [] => gret s
  | a :: r => s' <~ body s a ;; gfold body r s'
  end.

(** A call of [_find_count_field] whose result is used. *)
Definition find_count (field : string) (fields : list string)
  : gen (option string) :=
  let '(r, p) := _find_count_field field fields in
  (Done r, map PrintPairing p).

(** [f"{x}"] for a value that is a string or [None]. *)
Definition format_optional (x : option string) : string :=
  match x with
  | Some s => s
  | None => "None"
  end.

(** [__get_api_latest_macro], source lines 521-543. *)
Definition __get_api_latest_macro (api_latest_macros : list string)
    (struct_type : string) : gen string :=
  if PyStr.mem (upper struct_type ++ "_API_LATEST") api_latest_macros
  then gret (upper struct_type ++ "_API_LATEST")%string
  else if PyStr.mem (upper (removesuffix struct_type "Options")
                     ++ "_API_LATEST") api_latest_macros
  then gret (upper (removesuffix struct_type "Options")
             ++ "_API_LATEST")%string
  else if PyStr.mem (upper struct_type ++ "OPTIONS_API_LATEST")
            api_latest_macros
  then gret (upper struct_type ++ "OPTIONS_API_LATEST")%string
  else if PyStr.mem (upper struct_type ++ "_OPTIONS_API_LATEST")
            api_latest_macros
  then gret (upper struct_type ++ "_OPTIONS_API_LATEST")%string
  else if PyStr.mem struct_type
            ["EOS_UserInfo"; "EOS_UserInfo_CopyUserInfoOptions"]
  then gret "EOS_USERINFO_COPYUSERINFO_API_LATEST"
  else if String.eqb struct_type "EOS_SessionSearch_SetMaxResultsOptions"
  then gret "EOS_SESSIONSEARCH_SETMAXSEARCHRESULTS_API_LATEST"
  else (Stopped Exited, [PrintMacroError struct_type]).

(** Source lines 1908-1909, 1919-1924 and 1964-1966. *)
Definition _is_client_data_field (type field : string) : bool :=
  String.eqb type "void*" && String.eqb field "ClientData".

Definition _is_anti_cheat_client_handle_type (type : string) : bool :=
  String.eqb type "EOS_AntiCheatCommon_ClientHandle".

Definition _is_variant_union_type (type field : string) : bool :=
  startswith type "Union" && negb (String.eqb field "AccountId").

Definition _is_handle_type (type filed : string) : bool :=
  startswith type "EOS_H" || PyStr.mem type ["EOS_ContinuanceToken"].

(** The first loop of [_gen_struct], source lines 2017-2034, for the
    second list it fills: the fields named after a union field with
    [Type] behind. *)
Definition collect_union_type_fields (fields : struct_fields)
  : list string :=
  fold_left (fun variant_union_type_fileds '(field, field_type) =>
      if is_deprecated_field field then variant_union_type_fileds
      else if _is_variant_union_type field_type field
      then fold_left (fun acc f =>
                        if String.eqb f (field ++ "Type")
                        then acc ++ [f] else acc)
             (Dict.keys fields) variant_union_type_fileds
      else variant_union_type_fileds)
    fields [].

(** [field in count_fields], for a list that can hold [None]. *)
Definition in_count_fields (field : string)
    (count_fields : list (option string)) : bool :=
  existsb (fun c => match c with
                    | Some f => String.eqb field f
                    | None => false
                    end)
    count_fields.

Section GenStruct.
Variable g : model.
Variable api_latest_macros : list string.
Variable struct_type : string.
Variable fields : struct_fields.
Variable count_fields : list (option string).
Variable variant_union_type_fileds : list string.

(** Source lines 2039-2053, one field. *)
Definition member_step (lines : list string) (entry : string * string)
  : gen (list string) :=
  let '(field, field_type) := entry in
  if is_deprecated_field field then gret lines
  else if in_count_fields field count_fields then gret lines
  else
    type <~ lift (remap_type g field_type field) ;;
    initialize_expression <~
      (if startswith type "Ref"
       then gret ("{ memnew(" ++ field_type ++ ") }")%string
       else if String.eqb type "int32_t" && String.eqb field "ApiVersion"
       then
         api_verision_macro <~
           __get_api_latest_macro api_latest_macros struct_type ;;
         gret ("{ " ++ api_verision_macro ++ " }")%string
       else gret "") ;;
    gret (lines ++ [(tab ++ type ++ " " ++ to_snake_case field
                     ++ initialize_expression ++ ";")%string]).

(** The three tests that open the later loops. *)
Definition is_left_out (field : string) : bool :=
  is_deprecated_field field
  || in_count_fields field count_fields
  || PyStr.mem field variant_union_type_fileds.

(** Source lines 2062-2074, one field. *)
Definition setget_step (lines : list string) (entry : string * string)
  : gen (list string) :=
  let '(field, field_type) := entry in
  if is_deprecated_field field then gret lines
  else if in_count_fields field count_fields then gret lines
  else if PyStr.mem field variant_union_type_fileds then gret lines
  else
    type <~ lift (remap_type g field_type field) ;;
    if String.eqb type "bool"
    then gret (lines ++ [(tab ++ "_DEFINE_SETGET_BOOL("
                          ++ to_snake_case field ++ ")")%string])
    else gret (lines ++ [(tab ++ "_DEFINE_SETGET("
                          ++ to_snake_case field ++ ")")%string]).

(** Source lines 2099-2111, one field. *)
Definition bind_step (r_structs_cpp : list string)
    (entry : string * string) : gen (list string) :=
  let '(field, field_type) := entry in
  if is_deprecated_field field then gret r_structs_cpp
  else if in_count_fields field count_fields then gret r_structs_cpp
  else if PyStr.mem field variant_union_type_fileds then gret r_structs_cpp
  else
    type <~ lift (remap_type g field_type field) ;;
    if String.eqb type "bool"
    then gret (r_structs_cpp ++ [(tab ++ "_BIND_PROP_BOOL("
                                  ++ to_snake_case field ++ ")")%string])
    else gret (r_structs_cpp ++ [(tab ++ "_BIND_PROP("
                                  ++ to_snake_case field ++ ")")%string]).

(** Source lines 2133-2177, one field.  The test of line 2170 is an [if],
    not an [elif]: it is made for every field, also for one that one of
    the tests before it has already written a line for. *)
Definition from_eos_step (r_structs_cpp : list string)
    (entry : string * string) : gen (list string) :=
  let '(field, field_type) := entry in
  if is_deprecated_field field then gret r_structs_cpp
  else if in_count_fields field count_fields then gret r_structs_cpp
  else if PyStr.mem field variant_union_type_fileds then gret r_structs_cpp
  else
    let item := (to_snake_case field ++ ", p_origin." ++ field ++ ");")%string
    in
    r_structs_cpp <~
      (if _is_anti_cheat_client_handle_type field_type
       then gret (r_structs_cpp
                  ++ [(tab ++ "_FROM_EOS_FIELD_ANTICHEAT_CLIENT_HANDLE("
                       ++ item)%string])
       else if _is_requested_channel_ptr_field field_type field
       then gret (r_structs_cpp
                  ++ [(tab ++ "_FROM_EOS_FIELD_REQUESTED_CHANNEL("
                       ++ item)%string])
       else if startswith field_type "Union"
       then gret (r_structs_cpp
                  ++ [(tab ++ "_FROM_EOS_FIELD_UNION(" ++ item)%string])
       else if _is_handle_type field_type field
       then gret (r_structs_cpp
                  ++ [(tab ++ "_FROM_EOS_FIELD_HANDLER(" ++ item)%string])
       else if _is_client_data_field field_type field
       then gret (r_structs_cpp
                  ++ [(tab ++ "_FROM_EOS_FIELD_CLIENT_DATA("
                       ++ item)%string])
       else if _is_internal_struct_arr_field field_type field
       then
         count <~ find_count field (Dict.keys fields) ;;
         gret (r_structs_cpp
               ++ [(tab ++ "_FROM_EOS_FIELD_STRUCT_ARR("
                    ++ replace "EOS_" "EOS" (_decay_eos_type field_type)
                    ++ ", " ++ to_snake_case field ++ ", p_origin." ++ field
                    ++ ", p_origin." ++ format_optional count
                    ++ ");")%string])
       else if _is_internal_struct_field g field_type field
       then gret (r_structs_cpp
                  ++ [(tab ++ "_FROM_EOS_FIELD_STRUCT(" ++ item)%string])
       else gret r_structs_cpp) ;;
    if _is_arr_field g field_type field
    then
      count <~ find_count field (Dict.keys fields) ;;
      gret (r_structs_cpp
            ++ [(tab ++ "_FROM_EOS_FIELD_ARR(" ++ to_snake_case field
                 ++ ", p_origin." ++ field ++ ", p_origin."
                 ++ format_optional count ++ ");")%string])
    else gret (r_structs_cpp
               ++ [(tab ++ "_FROM_EOS_FIELD(" ++ item)%string]).

(** Source lines 2184-2228, one field. *)
Definition to_eos_step (r_structs_cpp : list string)
    (entry : string * string) : gen (list string) :=
  let '(field, field_type) := entry in
  if is_deprecated_field field then gret r_structs_cpp
  else if in_count_fields field count_fields then gret r_structs_cpp
  else if PyStr.mem field variant_union_type_fileds then gret r_structs_cpp
  else
    let item := ("p_data." ++ field ++ ", " ++ to_snake_case field
                 ++ ");")%string in
    if _is_anti_cheat_client_handle_type field_type
    then gret (r_structs_cpp
               ++ [(tab ++ "_TO_EOS_FIELD_ANTICHEAT_CLIENT_HANDLE("
                    ++ item)%string])
    else if _is_requested_channel_ptr_field field_type field
    then gret (r_structs_cpp
               ++ [(tab ++ "_TO_EOS_FIELD_REQUESTED_CHANNEL("
                    ++ item)%string])
    else if startswith field_type "Union"
    then gret (r_structs_cpp
               ++ [(tab ++ "_TO_EOS_FIELD_UNION(" ++ item)%string])
    else if _is_handle_type field_type field
    then gret (r_structs_cpp
               ++ [(tab ++ "_TO_EOS_FIELD_HANDLER(" ++ item)%string])
    else if _is_client_data_field field_type field
    then gret (r_structs_cpp
               ++ [(tab ++ "_TO_EOS_FIELD_CLIENT_DATA(" ++ item)%string])
    else if _is_internal_struct_arr_field field_type field
    then
      count <~ find_count field (Dict.keys fields) ;;
      gret (r_structs_cpp
            ++ [(tab ++ "_TO_EOS_FIELD_STRUCT_ARR("
                 ++ replace "EOS_" "EOS" (_decay_eos_type field_type)
                 ++ ", p_data." ++ field ++ ", " ++ to_snake_case field
                 ++ ", p_data." ++ format_optional count ++ ");")%string])
    else if _is_internal_struct_field g field_type field
    then gret (r_structs_cpp
               ++ [(tab ++ "_TO_EOS_FIELD_STRUCT(" ++ item)%string])
    else if _is_arr_field g field_type field
    then
      count <~ find_count field (Dict.keys fields) ;;
      gret (r_structs_cpp
            ++ [(tab ++ "_TO_EOS_FIELD_ARR(p_data." ++ field ++ ", "
                 ++ to_snake_case field ++ ", p_data."
                 ++ format_optional count ++ ");")%string])
    else gret (r_structs_cpp
               ++ [(tab ++ "_TO_EOS_FIELD(" ++ item)%string]).

End GenStruct.

(** Source lines 2009-2015 and 2038-2093 of [_gen_struct]: the
    declaration of the class. *)
Definition struct_declaration (g : model) (api_latest_macros : list string)
    (struct_type : string) (fields : struct_fields)
    (count_fields : list (option string))
    (variant_union_type_fileds : list string)
    (addtional_methods_requirements : flags) : gen (list string) :=
  let lines := [""] in
  let typename := replace "EOS_" "EOS" struct_type in
  let lines :=
    lines ++ [("class " ++ typename ++ ": public EOSDataClass {")%string;
              (tab ++ "GDCLASS(" ++ typename ++ ", EOSDataClass)")%string;
              ""] in
  lines <~ gfold (member_step g api_latest_macros struct_type count_fields)
             fields lines ;;
  let lines :=
    if addtional_methods_requirements.(to)
    then lines ++ [""; (tab ++ struct_type ++ " m_eos_data;")%string]
    else lines in
  let lines := lines ++ [""; "public:"] in
  lines <~ gfold (setget_step g count_fields variant_union_type_fileds)
             fields lines ;;
  let lines := lines ++ [""] in
  let lines :=
    if addtional_methods_requirements.(set_from)
    then lines ++ [(tab ++ "void set_from_eos(" ++ struct_type
                    ++ " &p_origin);")%string]
    else lines in
  let lines :=
    if addtional_methods_requirements.(from)
    then lines ++ [(tab ++ "static Ref<" ++ typename ++ "> from_eos("
                    ++ struct_type ++ " &p_origin);")%string]
    else lines in
  let lines :=
    if addtional_methods_requirements.(set_to)
    then lines ++ [(tab ++ "void set_to_eos(" ++ struct_type
                    ++ " &p_origin);")%string]
    else lines in
  let lines :=
    if addtional_methods_requirements.(to)
    then lines ++ [(tab ++ struct_type
                    ++ " &to_eos() {set_to_eos(m_eos_data); return m_eos_data;}")%string]
    else lines in
  gret (lines ++ ["protected:";
                  (tab ++ "static void _bind_methods();")%string;
                  "};"; ""]).

(** Source lines 2096-2114: the method that binds the properties. *)
Definition struct_bind_methods (g : model) (struct_type : string)
    (fields : struct_fields) (count_fields : list (option string))
    (variant_union_type_fileds : list string) (r_structs_cpp : list string)
  : gen (list string) :=
  let typename := replace "EOS_" "EOS" struct_type in
  let r_structs_cpp :=
    r_structs_cpp
    ++ [("void godot::" ++ typename ++ "::_bind_methods() {")%string;
        (tab ++ "using namespace godot;")%string;
        (tab ++ "_BIND_BEGIN(" ++ typename ++ ")")%string] in
  r_structs_cpp <~
    gfold (bind_step g count_fields variant_union_type_fileds)
      fields r_structs_cpp ;;
  gret (r_structs_cpp ++ [(tab ++ "_BIND_END()")%string; "}"; ""]).

(** Source lines 2117-2126. *)
Definition struct_from_eos (struct_type : string)
    (addtional_methods_requirements : flags) (r_structs_cpp : list string)
  : list string :=
  let typename := replace "EOS_" "EOS" struct_type in
  if addtional_methods_requirements.(from)
  then r_structs_cpp
       ++ [("Ref<" ++ typename ++ "> godot::" ++ typename
            ++ "::from_eos(" ++ struct_type ++ " &p_origin) {")%string;
           (tab ++ "using namespace godot;")%string;
           (tab ++ "Ref<" ++ typename ++ "> ret;")%string;
           (tab ++ "ret.instantiate();")%string;
           (tab ++ "ret->set_from_eos(p_origin);")%string;
           (tab ++ "return ret;")%string;
           "}"]
  else r_structs_cpp.

(** Source lines 2128-2178. *)
Definition struct_set_from_eos (g : model) (struct_type : string)
    (fields : struct_fields) (count_fields : list (option string))
    (variant_union_type_fileds : list string)
    (addtional_methods_requirements : flags) (r_structs_cpp : list string)
  : gen (list string) :=
  let typename := replace "EOS_" "EOS" struct_type in
  if addtional_methods_requirements.(set_from)
  then
    let r_structs_cpp :=
      r_structs_cpp
      ++ [("void godot::" ++ typename ++ "::set_from_eos("
           ++ struct_type ++ " &p_origin) {")%string;
          (tab ++ "using namespace godot;")%string] in
    r_structs_cpp <~
      gfold (from_eos_step g fields count_fields variant_union_type_fileds)
        fields r_structs_cpp ;;
    gret (r_structs_cpp ++ ["}"])
  else gret r_structs_cpp.

(** Source lines 2179-2229. *)
Definition struct_set_to_eos (g : model) (struct_type : string)
    (fields : struct_fields) (count_fields : list (option string))
    (variant_union_type_fileds : list string)
    (addtional_methods_requirements : flags) (r_structs_cpp : list string)
  : gen (list string) :=
  let typename := replace "EOS_" "EOS" struct_type in
  if addtional_methods_requirements.(set_to)
  then
    let r_structs_cpp :=
      r_structs_cpp
      ++ [("void godot::" ++ typename ++ "::set_to_eos("
           ++ struct_type ++ " &p_data) {")%string;
          (tab ++ "memset(&m_eos_data, 0, sizeof(" ++ struct_type
           ++ "));")%string] in
    r_structs_cpp <~
      gfold (to_eos_step g fields count_fields variant_union_type_fileds)
        fields r_structs_cpp ;;
    gret (r_structs_cpp ++ ["}"])
  else gret r_structs_cpp.

(** [_gen_struct], source lines 2004-2231: the returned lines and the
    list [r_structs_cpp] as the call leaves it.  The first loop (lines
    2017-2034) fills its two lists and prints; the requirement flags are
    looked up (line 2036); the class declaration is written to the
    returned lines, then the method bodies to [r_structs_cpp]. *)
Definition _gen_struct (g : model) (api_latest_macros : list string)
    (struct_type : string) (fields : struct_fields)
    (r_structs_cpp : list string)
  : gen (list string * list string) :=
  let '(count_fields, out) := collect_count_fields g fields in
  let variant_union_type_fileds := collect_union_type_fields fields in
  _ <~ say (map PrintPairing out) ;;
  addtional_methods_requirements <~
    lift (subscript
            (_make_additional_method_requirements g)
              .(struct2additional_method_requirements)
            struct_type) ;;
  lines <~
    struct_declaration g api_latest_macros struct_type fields count_fields
      variant_union_type_fileds addtional_methods_requirements ;;
  r_structs_cpp <~
    struct_bind_methods g struct_type fields count_fields
      variant_union_type_fileds r_structs_cpp ;;
  let r_structs_cpp :=
    struct_from_eos struct_type addtional_methods_requirements
      r_structs_cpp in
  r_structs_cpp <~
    struct_set_from_eos g struct_type fields count_fields
      variant_union_type_fileds addtional_methods_requirements
      r_structs_cpp ;;
  r_structs_cpp <~
    struct_set_to_eos g struct_type fields count_fields
      variant_union_type_fileds addtional_methods_requirements
      r_structs_cpp ;;
  gret (lines, r_structs_cpp).

(** One struct in the loop of [gen_structs], source lines 1228-1234. *)
Definition gen_structs_step (g : model) (api_latest_macros : list string)
    (acc : list string * list string) (entry : string * struct_fields)
  : gen (list string * list string) :=
  let '(lines, r_cpp_lines) := acc in
  let '(struct_type, fields) := entry in
  if _is_expended_struct g struct_type then gret acc
  else if _is_need_skip_struct struct_type then gret acc
  else
    '(added, r_cpp_lines) <~
       _gen_struct g api_latest_macros struct_type fields r_cpp_lines ;;
    gret (lines ++ added, r_cpp_lines).

(** The loop of source lines 1244-1252, over the keys of [all_structs].
    Its two tests read the variable [struct_type] that the loop of line
    1228 left behind, the last key of [structs]; with [structs] empty the
    variable is unbound, which only a turn of this loop could notice. *)
Definition register_lines (g : model) (lines : list string)
  : list string :=
  let struct_type := List.last (Dict.keys g.(structs)) "" in
  fold_left (fun lines st =>
      if _is_expended_struct g struct_type then lines
      else if _is_need_skip_struct struct_type then lines
      else lines ++ [(tab ++ "GDREGISTER_ABSTRACT_CLASS(godot::"
                      ++ replace "EOS_" "EOS" st ++ ");"
                      ++ backslash)%string])
    (Dict.keys all_structs) lines.

(** The lines that [gen_structs] joins, source lines 1218-1253, and the
    list [r_cpp_lines] as the call leaves it. *)
Definition gen_structs_lines (g : model) (api_latest_macros : list string)
    (r_cpp_lines : list string) : gen (list string * list string) :=
  let r_cpp_lines := r_cpp_lines ++ [""] in
  let lines := ["#pragma once"; "";
                "#include <godot_cpp/classes/ref_counted.hpp>";
                "namespace godot {"] in
  '(lines, r_cpp_lines) <~
     gfold (gen_structs_step g api_latest_macros) g.(structs)
       (lines, r_cpp_lines) ;;
  let lines := lines ++ [""] in
  let r_cpp_lines := r_cpp_lines ++ [""] in
  let lines :=
    lines ++ ["} // namespace godot"; ""; "// ====================";
              ("#define REGISTER_DATA_CLASSES()" ++ backslash)%string] in
  let lines := register_lines g lines in
  gret (lines ++ [""], r_cpp_lines).

(** [gen_structs], source lines 1218-1254. *)
Definition gen_structs (g : model) (api_latest_macros : list string)
    (r_cpp_lines : list string) : gen (string * list string) :=
  '(lines, r_cpp_lines) <~ gen_structs_lines g api_latest_macros r_cpp_lines ;;
  gret (join nl lines, r_cpp_lines).

(** What the member loop of [_gen_struct] needs of a field that it does
    not pass over: a type for it, and a version macro if it is the
    version field. *)
Definition member_ready (g : model) (api_latest_macros : list string)
    (struct_type : string) (count_fields : list (option string))
    (entry : string * string) : Prop :=
  is_deprecated_field (fst entry) = false ->
  in_count_fields (fst entry) count_fields = false ->
  exists type,
    remap_type g (snd entry) (fst entry) = Ok type
    /\ (type = "int32_t" -> fst entry = "ApiVersion" ->
        exists m,
          fst (__get_api_latest_macro api_latest_macros struct_type)
          = Done m).

(** The header of a class in the generated declarations. *)
Definition is_class_header (line : string) : bool :=
  startswith line "class ".

Definition class_header (struct_type : string) : string :=
  ("class " ++ replace "EOS_" "EOS" struct_type
   ++ ": public EOSDataClass {")%string.

(** The structs that the loop of [gen_structs] does not pass over. *)
Definition gets_class (g : model) (struct_type : string) : bool :=
  negb (_is_expended_struct g struct_type)
  && negb (_is_need_skip_struct struct_type).

(** Tables to run the generator on: a struct that a method returns
    through a pointer, a struct of options with four fields, and one with
    a single field, which is expanded into arguments. *)
Definition token_fields : struct_fields :=
  [("ApiVersion", "int32_t"); ("App", "const char*");
   ("Handle", "EOS_HAuth"); ("Items", "const int32_t*");
   ("ItemsCount", "uint32_t"); ("ClientData", "void*")].

Definition token_model : model :=
  {| interfaces := [];
     structs :=
       [("EOS_Auth_Token", token_fields);
        ("EOS_Auth_CopyOptions",
         [("ApiVersion", "int32_t"); ("A", "int32_t"); ("B", "int32_t");
          ("C", "int32_t"); ("D", "int32_t")]);
        ("EOS_Auth_LogoutOptions",
         [("ApiVersion", "int32_t"); ("LocalUserId", "EOS_EpicAccountId")])];
     handles :=
       [("EOS_HAuth",
         {| methods :=
              [("EOS_Auth_Copy",
                {| return_ := "EOS_EResult";
                   args := [{| type := "EOS_HAuth"; name := "Handle" |};
                            {| type := "const EOS_Auth_CopyOptions*";
                               name := "Options" |};
                            {| type := "EOS_Auth_Token**";
                               name := "OutToken" |}] |});
               ("EOS_Auth_Logout",
                {| return_ := "void";
                   args := [{| type := "EOS_HAuth"; name := "Handle" |};
                            {| type := "const EOS_Auth_LogoutOptions*";
                               name := "Options" |}] |})];
            callbacks := []; enums := [] |})];
     release_methods := []; unhandled_methods := [];
     unhandled_callbacks := []; unhandled_enums := [] |}.

Definition token_macros : list string :=
  ["EOS_AUTH_TOKEN_API_LATEST"; "EOS_AUTH_COPY_API_LATEST"].

(* ================================================================== *)
(** * Where the enums go *)
(* ================================================================== *)

(** The enums of file [k] in a state of the consolidation loops. *)
Definition enums_of (files : Dict.t file_info) (k : string)
  : Dict.t (list string) :=
  match Dict.get files k with
  | Some fi => fi.(file_enums)
  | None => []
  end.

(** The interface name that source line 227 derives from a file key. *)
Definition interface_of (interface_lower : string) : string :=
  removeprefix (_convert_interface_class_name interface_lower) "EOS".

(** The handle [EOS_H<interface>] of the table [hs] holds the enums of
    one of the files [files] with that interface. *)
Definition holds_enums_of (files : Dict.t file_info)
    (hs : Dict.t handle_info) (interface : string) : Prop :=
  exists hi il fi,
    Dict.get hs ("EOS_H" ++ interface) = Some hi
    /\ In (il, fi) files
    /\ interface_of il = interface
    /\ hi.(enums) = fi.(file_enums).

(** Tables with an interface file and a file without interface. *)
Definition enum_files : Dict.t file_info :=
  [("common",
    {| file_enums := [("EOS_ELoginStatus", ["EOS_LS_NotLoggedIn"])];
       file_methods := []; file_callbacks := []; file_structs := [];
       file_handles := [] |});
   ("platform",
    {| file_enums := [("EOS_ENetworkStatus", ["EOS_NS_Disabled"])];
       file_methods := []; file_callbacks := []; file_structs := [];
       file_handles := [("EOS_HPlatform", empty_handle)] |})].

(* ================================================================== *)
(** * Where a capability flag comes from *)
(* ================================================================== *)

(** The keys of a flag table, [for k in d] of source line 1414. *)
Inductive flag_key := SetFrom | From | SetTo | To.

(** [d[k]] *)
Definition flag (k : flag_key) (f : flags) : bool :=
  match k with
  | SetFrom => f.(set_from)
  | From => f.(from)
  | SetTo => f.(set_to)
  | To => f.(to)
  end.

(** The flags that the second loop of the requirement derivation sets
    for a struct on account of a struct [s] that holds it in an array
    field of the fixed list (source lines 1420-1429). *)
Definition element_flags (g : model) (s : string) : flags :=
  {| set_from := __is_output_struct g s || __is_arg_out_struct g s;
     from := __is_output_struct g s || __is_arg_out_struct g s;
     set_to := __is_input_struct g s;
     to := false |}.

(** The three places a flag of [struct_name] can come from: the roles of
    the struct itself, the flags of a struct that holds it in a field
    that is not an array field of the fixed list, and the roles of a
    struct that holds it in such an array field. *)
Definition flag_has_source (g : model) (struct_name : string)
    (k : flag_key) : Prop :=
  flag k (own_flags g struct_name) = true
  \/ (exists Z fZ,
        holds_field_of g false Z struct_name
        /\ flags_of g Z = Some fZ /\ flag k fZ = true)
  \/ (exists Z,
        holds_field_of g true Z struct_name
        /\ flag k (element_flags g Z) = true).



(* ================================================================== *)
(** * Facts about the string methods *)
(* ================================================================== *)

Lemma lstrip_unchanged (chars s : string) :
  starts_with_any chars s = false -> lstrip chars s = s.
Proof.
  destruct s as [|c r]; simpl; intros H; [reflexivity|].
  now rewrite H.
Qed.

Lemma rstrip_unchanged (chars s : string) :
  ends_with_any chars s = false -> rstrip chars s = s.
Proof.
  induction s as [|c r IH]; simpl; [reflexivity|].
  destruct r as [|d r'].
  - simpl. intros ->. reflexivity.
  - intros H. rewrite (IH H). reflexivity.
Qed.

Lemma rstrip_last_in (chars s : string) (c : ascii) :
  mem_char c chars = true ->
  rstrip chars (s ++ String c "") = rstrip chars s.
Proof.
  intros Hc. induction s as [|d r IH]; simpl.
  - now rewrite Hc.
  - now rewrite IH.
Qed.

Lemma ends_with_any_weaken (chars chars' s : string) :
  (forall c, mem_char c chars' = true -> mem_char c chars = true) ->
  ends_with_any chars s = false -> ends_with_any chars' s = false.
Proof.
  intros Hsub. induction s as [|c r IH]; simpl; [reflexivity|].
  destruct r as [|d r'].
  - intros H. destruct (mem_char c chars') eqn:E; [|reflexivity].
    apply Hsub in E. congruence.
  - exact IH.
Qed.

Lemma lstrip_length (chars s : string) :
  String.length (lstrip chars s) <= String.length s.
Proof.
  induction s as [|c r IH]; simpl; [lia|].
  destruct (mem_char c chars); simpl; lia.
Qed.

Lemma rstrip_length (chars s : string) :
  String.length (rstrip chars s) <= String.length s.
Proof.
  induction s as [|c r IH]; simpl; [lia|].
  destruct (rstrip chars r); [destruct (mem_char c chars)|]; simpl in *; lia.
Qed.

Lemma lstrip_shortens (chars s : string) :
  starts_with_any chars s = true ->
  String.length (lstrip chars s) < String.length s.
Proof.
  destruct s as [|c r]; simpl; [discriminate|].
  intros ->. pose proof (lstrip_length chars r). lia.
Qed.

(* ================================================================== *)
(** * Type decay *)
(* ================================================================== *)

Lemma _decay_eos_type_length (t : string) :
  String.length (_decay_eos_type t) <= String.length (lstrip "const" t).
Proof.
  unfold _decay_eos_type.
  repeat match goal with
  | |- String.length (rstrip ?c ?s) <= _ =>
      apply Nat.le_trans with (String.length s); [apply rstrip_length|]
  | |- String.length (lstrip " " ?s) <= _ =>
      apply Nat.le_trans with (String.length s); [apply lstrip_length|]
  end.
  apply Nat.le_refl.
Qed.

Lemma decay_const_pointer (X : string) :
  is_base_type_name X = true ->
  _decay_eos_type ("const " ++ X ++ "*") = X.
Proof.
  unfold is_base_type_name. rewrite andb_true_iff, !negb_true_iff.
  intros [Hfront Hback].
  assert (Hstar : ends_with_any "*" X = false).
  { apply ends_with_any_weaken with (chars := "*& "); [|exact Hback].
    intros c; simpl. intros H. rewrite orb_false_r in H. now rewrite H. }
  assert (Hamp : ends_with_any "&" X = false).
  { apply ends_with_any_weaken with (chars := "*& "); [|exact Hback].
    intros c; simpl. intros H. rewrite orb_false_r in H.
    rewrite H. now rewrite orb_true_r. }
  assert (Hsp : ends_with_any " " X = false).
  { apply ends_with_any_weaken with (chars := "*& "); [|exact Hback].
    intros c; simpl. intros H. rewrite orb_false_r in H.
    rewrite H. now rewrite !orb_true_r. }
  unfold _decay_eos_type.
  change (lstrip "const" ("const " ++ X ++ "*"))
    with (" " ++ (X ++ "*"))%string.
  change (lstrip " " (" " ++ (X ++ "*")))
    with (lstrip " " (X ++ "*")).
  assert (H1 : lstrip " " (X ++ "*") = (X ++ "*")%string).
  { destruct X as [|c r]; [reflexivity|]. simpl in *. now rewrite Hfront. }
  rewrite H1.
  rewrite (rstrip_last_in "*" X "*") by reflexivity.
  rewrite (rstrip_unchanged "*" X Hstar).
  rewrite (rstrip_unchanged "&" X Hamp).
  rewrite (rstrip_unchanged "*" X Hstar).
  rewrite (rstrip_unchanged "&" X Hamp).
  rewrite (lstrip_unchanged " " X Hfront).
  apply rstrip_unchanged, Hsp.
Qed.

Lemma decay_corrupts (B : string) :
  starts_with_any "const" B = true -> _decay_eos_type B <> B.
Proof.
  intros H E.
  pose proof (_decay_eos_type_length B) as L1.
  pose proof (lstrip_shortens "const" B H) as L2.
  rewrite E in L1. lia.
Qed.

(** C10.  The decay helper strips leading characters of the set
    {c, o, n, s, t}, not the word [const ]: for a base type name [X] that
    begins with a character outside that set, [const X*] decays to [X];
    a type that begins with a character of the set never decays to itself,
    and [char*] decays to [har]. *)
Theorem C10_decay_strips_const_charset (X : string)
    (Hname : is_base_type_name X = true)
    (Hfirst : starts_with_any "const" X = false) :
  _decay_eos_type ("const " ++ X ++ "*") = X
  /\ (forall B, starts_with_any "const" B = true -> _decay_eos_type B <> B)
  /\ _decay_eos_type "char*" = "har".
Proof.
  split; [apply decay_const_pointer, Hname|].
  split; [exact decay_corrupts | reflexivity].
Qed.

Lemma C10_witness :
  _decay_eos_type "const EOS_Platform_Options*" = "EOS_Platform_Options".
Proof.
  exact (proj1 (C10_decay_strips_const_charset "EOS_Platform_Options"
                  eq_refl eq_refl)).
Defined.

(* ================================================================== *)
(** * Count field / array field pairing *)
(* ================================================================== *)

Lemma count_field_loop_first_exact (splited pre post : list string)
    (f : string) :
  forall similars_fileds,
  Forall (fun p => is_exact (classify_candidate splited p) = false) pre ->
  is_exact (classify_candidate splited f) = true ->
  count_field_loop splited (pre ++ f :: post) similars_fileds = inl f.
Proof.
  induction pre as [|p pre IH]; intros acc Hpre Hf; simpl.
  - destruct (classify_candidate splited f); try discriminate. reflexivity.
  - inversion Hpre as [|? ? Hp Hrest]; subst.
    destruct (classify_candidate splited p); try discriminate;
      apply IH; assumption.
Qed.

Lemma count_field_loop_no_exact (splited fields : list string) :
  forall similars_fileds,
  Forall (fun p => is_exact (classify_candidate splited p) = false) fields ->
  count_field_loop splited fields similars_fileds
  = inr (similars_fileds
         ++ filter (fun p => is_partial (classify_candidate splited p))
              fields).
Proof.
  induction fields as [|p fields IH]; intros acc H; simpl.
  - now rewrite app_nil_r.
  - inversion H as [|? ? Hp Hrest]; subst.
    destruct (classify_candidate splited p); try discriminate; simpl.
    + rewrite IH by assumption. now rewrite <- app_assoc.
    + apply IH; assumption.
Qed.

(** C6, counterexample.  For the fields [FileCount] and [Records] the
    tokens [file] and [record] differ: no field is returned, and the
    failure is printed with an empty candidate list. *)
Lemma C6_counterexample :
  _find_count_field "Records" ["FileCount"; "Records"]
  = (None, [PrintPairingError "Records" [];
            PrintFields "Records" ["FileCount"; "Records"]])
  /\ fst (_find_count_field "Records" ["FileCount"; "Records"])
     <> Some "FileCount".
Proof. split; [reflexivity | discriminate]. Qed.

(** C6, amended.  Pairing succeeds by exact token match when a count-like
    field agrees with the array field on the leading tokens: the first
    such field in declaration order is returned and nothing is printed.
    This is the case of [RecordsCount] for [Records]; for [FileCount] and
    [Records] no field is returned. *)
Theorem C6_pairing_by_exact_tokens (field f : string)
    (pre post : list string)
    (Hpre : Forall (fun p =>
               is_exact (classify_candidate (tokens_of field) p) = false)
              pre)
    (Hf : is_exact (classify_candidate (tokens_of field) f) = true) :
  _find_count_field field (pre ++ f :: post) = (Some f, [])
  /\ fst (_find_count_field "Records" ["FileCount"; "Records"]) = None.
Proof.
  split; [|reflexivity].
  unfold _find_count_field. fold (tokens_of field).
  now rewrite count_field_loop_first_exact.
Qed.

Lemma C6_witness :
  _find_count_field "Records" ([] ++ "RecordsCount" :: ["Records"])
  = (Some "RecordsCount", [])
  /\ fst (_find_count_field "Records" ["FileCount"; "Records"]) = None.
Proof.
  apply (C6_pairing_by_exact_tokens "Records" "RecordsCount" [] ["Records"]).
  - constructor.
  - reflexivity.
Defined.

(** What the first loop of [_gen_struct] does with an array field does
    not depend on the pairings made before it: every field that is an
    array field and not deprecated gets its entry, in order. *)
Lemma collect_count_fields_entries (g : model) (fields : struct_fields) :
  fst (collect_count_fields g fields)
  = map (fun entry => fst (_find_count_field (fst entry) (Dict.keys fields)))
      (filter (wants_count_field g) fields).
Proof.
  unfold collect_count_fields.
  generalize (Dict.keys fields) as names.
  intros names.
  assert (G : forall (l : struct_fields) acc out,
    fst (fold_left (fun '(count_fields, out) '(field, field_type) =>
           if is_deprecated_field field then (count_fields, out)
           else if _is_arr_field g field_type field
                   || _is_internal_struct_arr_field field_type field
           then let '(r, p) := _find_count_field field names in
                (count_fields ++ [r], out ++ p)
           else (count_fields, out)) l (acc, out))
    = acc ++ map (fun entry => fst (_find_count_field (fst entry) names))
               (filter (wants_count_field g) l)).
  { induction l as [|[field ty] l IH]; intros acc out; simpl.
    - now rewrite app_nil_r.
    - destruct (is_deprecated_field field); simpl; [apply IH|].
      destruct (_is_arr_field g ty field
                || _is_internal_struct_arr_field ty field); simpl;
        [|apply IH].
      destruct (_find_count_field field names) as [r p] eqn:E.
      rewrite IH. simpl. now rewrite <- app_assoc. }
  apply (G fields [] []).
Qed.

(** C7, counterexample.  [RecordsCount] and [RecordsSize] match the array
    field [Records] equally well; the first is returned and nothing is
    printed. *)
Lemma C7_counterexample :
  is_exact (classify_candidate (tokens_of "Records") "RecordsCount") = true
  /\ is_exact (classify_candidate (tokens_of "Records") "RecordsSize") = true
  /\ _find_count_field "Records" ["RecordsCount"; "RecordsSize"; "Records"]
     = (Some "RecordsCount", []).
Proof. repeat split. Qed.

(** C7, amended.  When no candidate matches exactly and two or more
    candidates share a partial overlap with the array field, the pairing
    returns no field and prints the error with the list of candidates;
    the loop that collects the count fields of the struct goes on and
    records an entry for every array field. *)
Theorem C7_ambiguous_pairing_reported (g : model) (fields : struct_fields)
    (field field_type : string)
    (Hexact : Forall (fun p =>
                 is_exact (classify_candidate (tokens_of field) p) = false)
                (Dict.keys fields))
    (Hmany : 2 <= List.length
               (filter (fun p =>
                          is_partial (classify_candidate (tokens_of field) p))
                  (Dict.keys fields)))
    (Hin : In (field, field_type) fields)
    (Harr : wants_count_field g (field, field_type) = true) :
  _find_count_field field (Dict.keys fields)
  = (None,
     [PrintPairingError field
        (filter (fun p => is_partial (classify_candidate (tokens_of field) p))
           (Dict.keys fields));
      PrintFields field (Dict.keys fields)])
  /\ In None (fst (collect_count_fields g fields))
  /\ List.length (fst (collect_count_fields g fields))
     = List.length (filter (wants_count_field g) fields).
Proof.
  assert (E : _find_count_field field (Dict.keys fields)
    = (None,
       [PrintPairingError field
          (filter (fun p =>
                     is_partial (classify_candidate (tokens_of field) p))
             (Dict.keys fields));
        PrintFields field (Dict.keys fields)])).
  { unfold _find_count_field. fold (tokens_of field).
    rewrite count_field_loop_no_exact by assumption. simpl.
    destruct (filter _ (Dict.keys fields)) as [|a [|b l]];
      simpl in Hmany; try lia; reflexivity. }
  split; [exact E|].
  rewrite collect_count_fields_entries. split.
  - apply in_map_iff. exists (field, field_type). simpl. rewrite E.
    split; [reflexivity|]. apply filter_In. split; assumption.
  - apply length_map.
Qed.

Lemma C7_witness :
  _find_count_field "PlayerNames" (Dict.keys player_names_struct)
  = (None,
     [PrintPairingError "PlayerNames" ["PlayerCount"; "PlayerSize"];
      PrintFields "PlayerNames" ["PlayerCount"; "PlayerSize"; "PlayerNames"]])
  /\ In None (fst (collect_count_fields players_model player_names_struct))
  /\ List.length (fst (collect_count_fields players_model player_names_struct))
     = 1.
Proof.
  apply (C7_ambiguous_pairing_reported players_model player_names_struct
           "PlayerNames" "const EOS_ProductUserId*").
  - repeat constructor.
  - vm_compute. lia.
  - simpl. tauto.
  - reflexivity.
Defined.

(* ================================================================== *)
(** * Facts about dictionaries *)
(* ================================================================== *)

Section DictFacts.
Context {V : Type}.
Implicit Types (d : Dict.t V) (k : string) (v : V).

Lemma mem_true_iff (x : string) (l : list string) :
  PyStr.mem x l = true <-> In x l.
Proof.
  unfold PyStr.mem. rewrite existsb_exists. split.
  - intros [y [Hin Heq]]. apply String.eqb_eq in Heq. now subst.
  - intros Hin. exists x. split; [assumption | apply String.eqb_refl].
Qed.

Lemma mem_false_iff (x : string) (l : list string) :
  PyStr.mem x l = false <-> ~ In x l.
Proof.
  rewrite <- mem_true_iff. destruct (PyStr.mem x l); split; congruence.
Qed.

Lemma get_set d k v k' :
  Dict.get (Dict.set d k v) k'
  = if String.eqb k' k then Some v else Dict.get d k'.
Proof.
  induction d as [|[k0 v0] d IH]; simpl.
  - reflexivity.
  - destruct (String.eqb k k0) eqn:E; simpl.
    + apply String.eqb_eq in E. subst k0.
      destruct (String.eqb k' k); reflexivity.
    + rewrite IH. destruct (String.eqb k' k0) eqn:E0; [|reflexivity].
      apply String.eqb_eq in E0. subst k0.
      destruct (String.eqb k' k) eqn:E1; [|reflexivity].
      apply String.eqb_eq in E1. subst. rewrite String.eqb_refl in E.
      discriminate.
Qed.

Lemma get_update d k (f : V -> V) k' :
  Dict.get (Dict.update d k f) k'
  = if String.eqb k' k then option_map f (Dict.get d k) else Dict.get d k'.
Proof.
  unfold Dict.update. destruct (Dict.get d k) eqn:E.
  - rewrite get_set. reflexivity.
  - destruct (String.eqb k' k) eqn:E'; [|reflexivity].
    apply String.eqb_eq in E'. subst. now rewrite E.
Qed.

Lemma get_some_in d k v : Dict.get d k = Some v -> In (k, v) d.
Proof.
  induction d as [|[k0 v0] d IH]; simpl; [discriminate|].
  destruct (String.eqb k k0) eqn:E.
  - apply String.eqb_eq in E. intros [= ->]. subst. now left.
  - intros H. right. now apply IH.
Qed.

Lemma get_in_keys d k : Dict.get d k <> None <-> In k (Dict.keys d).
Proof.
  induction d as [|[k0 v0] d IH]; simpl.
  - split; [congruence | tauto].
  - destruct (String.eqb k k0) eqn:E.
    + apply String.eqb_eq in E. subst. split; [now left | congruence].
    + rewrite IH. split; [now right|].
      intros [H|H]; [|assumption]. subst.
      rewrite String.eqb_refl in E. discriminate.
Qed.

Lemma in_keys d k v : In (k, v) d -> In k (Dict.keys d).
Proof. intros H. apply (in_map fst) in H. exact H. Qed.

End DictFacts.

(* ================================================================== *)
(** * Requirement derivation *)
(* ================================================================== *)

Lemma flags_le_refl (a : flags) : flags_le a a.
Proof. unfold flags_le. tauto. Qed.

Lemma flags_le_trans (a b c : flags) :
  flags_le a b -> flags_le b c -> flags_le a c.
Proof. unfold flags_le. tauto. Qed.

Lemma flags_le_inherit_src (src dst : flags) : flags_le src (inherit src dst).
Proof.
  unfold flags_le, inherit; simpl.
  repeat split; intros ->; apply orb_true_r.
Qed.

Lemma flags_le_inherit_dst (src dst : flags) : flags_le dst (inherit src dst).
Proof.
  unfold flags_le, inherit; simpl.
  repeat split; intros ->; reflexivity.
Qed.

Lemma flags_le_mark_set_to (f : flags) : flags_le f (mark_set_to f).
Proof. unfold flags_le; simpl; tauto. Qed.

Lemma flags_le_mark_set_from_and_from (f : flags) :
  flags_le f (mark_set_from_and_from f).
Proof. unfold flags_le; simpl; tauto. Qed.

Lemma extends_refl r : extends r r.
Proof. intros k f H. exists f. split; [assumption | apply flags_le_refl]. Qed.

Lemma extends_trans r1 r2 r3 :
  extends r1 r2 -> extends r2 r3 -> extends r1 r3.
Proof.
  intros H12 H23 k f H.
  destruct (H12 k f H) as [f2 [G2 L2]].
  destruct (H23 k f2 G2) as [f3 [G3 L3]].
  exists f3. split; [assumption | eapply flags_le_trans; eassumption].
Qed.

Lemma extends_update r k (h : flags -> flags) :
  (forall f, flags_le f (h f)) -> extends r (Dict.update r k h).
Proof.
  intros Hh k' f H. rewrite get_update.
  destruct (String.eqb k' k) eqn:E.
  - apply String.eqb_eq in E. subst. rewrite H. simpl.
    exists (h f). split; [reflexivity | apply Hh].
  - exists f. split; [assumption | apply flags_le_refl].
Qed.

Lemma extends_fold {A : Type} (step : Dict.t flags -> A -> Dict.t flags)
    (l : list A) :
  (forall r a, extends r (step r a)) ->
  forall r, extends r (fold_left step l r).
Proof.
  intros Hstep. induction l as [|a l IH]; intros r; simpl.
  - apply extends_refl.
  - eapply extends_trans; [apply Hstep | apply IH].
Qed.

Section RequirementFacts.
Variable g : model.

Lemma first_pass_step_get req s k :
  Dict.get (first_pass_step g req s) k
  = if String.eqb k s then Some (own_flags g s) else Dict.get req k.
Proof.
  unfold first_pass_step, own_flags.
  destruct (__is_input_struct g s), (__is_output_struct g s),
    (__is_arg_out_struct g s);
    repeat rewrite ?get_update, ?get_set;
    destruct (String.eqb k s) eqn:E; try reflexivity;
    apply String.eqb_eq in E; subst;
    repeat (rewrite ?get_update, ?get_set, ?String.eqb_refl; simpl);
    reflexivity.
Qed.

Lemma first_pass_get (l : list string) : forall req k,
  Dict.get (fold_left (first_pass_step g) l req) k
  = if PyStr.mem k l then Some (own_flags g k) else Dict.get req k.
Proof.
  induction l as [|s l IH]; intros req k; simpl; [reflexivity|].
  rewrite IH, first_pass_step_get. unfold PyStr.mem; simpl.
  destruct (existsb (String.eqb k) l); [now rewrite orb_true_r|].
  rewrite orb_false_r.
  destruct (String.eqb k s) eqn:E'; [|reflexivity].
  apply String.eqb_eq in E'. now subst.
Qed.

Lemma second_pass_step_extends req s : extends req (second_pass_step g req s).
Proof.
  unfold second_pass_step, __is_internal_struct, __is_internal_struct_of_arr.
  eapply extends_trans.
  - instantiate (1 :=
      if nonempty (owners_of g false s)
      then fold_left (fun req0 s0 =>
               match Dict.get req0 s0 with
               | Some src => Dict.update req0 s (inherit src)
               | None => req0
               end) (owners_of g false s) req
      else req).
    destruct (nonempty (owners_of g false s)); [|apply extends_refl].
    apply extends_fold. intros r a.
    destruct (Dict.get r a); [|apply extends_refl].
    apply extends_update. intros f0. apply flags_le_inherit_dst.
  - destruct (nonempty (owners_of g true s)); [|apply extends_refl].
    apply extends_fold. intros r a.
    eapply extends_trans.
    + instantiate (1 := if __is_input_struct g a
                        then Dict.update r s mark_set_to else r).
      destruct (__is_input_struct g a); [|apply extends_refl].
      apply extends_update, flags_le_mark_set_to.
    + destruct (__is_output_struct g a || __is_arg_out_struct g a);
        [|apply extends_refl].
      apply extends_update, flags_le_mark_set_from_and_from.
Qed.

Lemma second_pass_extends (l : list string) req :
  extends req (fold_left (second_pass_step g) l req).
Proof. apply extends_fold. intros r a. apply second_pass_step_extends. Qed.

(** Every struct of the table ends with flags, and these include the
    flags of its own roles. *)
Lemma flags_of_own (struct_name : string) :
  In struct_name (Dict.keys g.(structs)) ->
  exists f, flags_of g struct_name = Some f
            /\ flags_le (own_flags g struct_name) f.
Proof.
  intros Hin. unfold flags_of; simpl. unfold second_pass.
  apply second_pass_extends.
  unfold first_pass. rewrite first_pass_get.
  apply mem_true_iff in Hin. now rewrite Hin.
Qed.

End RequirementFacts.

(** C3, counterexample.  In the run on [eos_foo.h], [EOS_Foo_Info] is only
    ever an out-argument; it gets [set_from] but not [from]. *)
Lemma C3_counterexample :
  parse_all_file foo_sdk
  = Ok (foo_model, _make_additional_method_requirements foo_model, [])
  /\ __is_arg_out_struct foo_model "EOS_Foo_Info" = true
  /\ In "EOS_Foo_Info" (Dict.keys foo_model.(structs))
  /\ flags_of foo_model "EOS_Foo_Info"
     = Some {| set_from := true; from := false;
               set_to := false; to := false |}.
Proof. repeat split. simpl. tauto. Qed.

(* ------------------------------------------------------------------ *)
(** ** Owners of a struct *)

Section OwnerFacts.
Variable g : model.

Lemma owner_fields_grow b Y X (fields : struct_fields) : forall acc s,
  In s acc -> In s (fold_left (owner_field_step b Y X) fields acc).
Proof.
  induction fields as [|[field ty] fields IH]; intros acc s Hs; simpl;
    [assumption|].
  apply IH. destruct (_ && _); [apply in_or_app; now left | assumption].
Qed.

Lemma owner_fields_found b Y X (fields : struct_fields) field ty :
  In (field, ty) fields ->
  _is_internal_struct_arr_field ty field = b ->
  _decay_eos_type ty = Y ->
  forall acc, In X (fold_left (owner_field_step b Y X) fields acc).
Proof.
  intros Hin Harr Hty.
  induction fields as [|[field0 ty0] fields IH]; intros acc; simpl;
    [contradiction|].
  destruct Hin as [Heq | Hin].
  - injection Heq as -> ->. apply owner_fields_grow.
    rewrite Harr, Hty, eqb_reflx, String.eqb_refl, !andb_true_r.
    destruct (PyStr.mem X acc) eqn:E; simpl.
    + now apply mem_true_iff.
    + apply in_or_app. right. now left.
  - now apply IH.
Qed.

Lemma owners_of_fold b Y :
  owners_of g b Y
  = fold_left (fun acc (entry : string * struct_fields) =>
                 fold_left (owner_field_step b Y (fst entry)) (snd entry) acc)
      g.(structs) [].
Proof.
  unfold owners_of.
  assert (G : forall (l : Dict.t struct_fields) acc,
    fold_left (fun r_owned_structs '(struct_name, fields) =>
        fold_left (fun r_owned_structs '(field, field_type) =>
            if negb (PyStr.mem struct_name r_owned_structs)
               && Bool.eqb (_is_internal_struct_arr_field field_type field) b
               && String.eqb (_decay_eos_type field_type) Y
            then r_owned_structs ++ [struct_name]
            else r_owned_structs)
          fields r_owned_structs) l acc
    = fold_left (fun acc (entry : string * struct_fields) =>
                 fold_left (owner_field_step b Y (fst entry)) (snd entry) acc)
        l acc).
  { induction l as [|[X fields] l IH]; intros acc; simpl; [reflexivity|].
    apply IH. }
  apply G.
Qed.

Lemma owners_of_found b X Y :
  holds_field_of g b X Y -> In X (owners_of g b Y).
Proof.
  intros (fields & field & ty & HX & Hf & Harr & Hty).
  rewrite owners_of_fold.
  assert (G : forall (l' : Dict.t struct_fields) acc', In X acc' ->
    In X (fold_left (fun acc (entry : string * struct_fields) =>
               fold_left (owner_field_step b Y (fst entry)) (snd entry) acc)
            l' acc')).
  { induction l' as [|[X1 f1] l' IH']; intros acc' H; simpl;
      [assumption|].
    apply IH'. now apply owner_fields_grow. }
  assert (F : forall (l : Dict.t struct_fields) acc, In (X, fields) l ->
    In X (fold_left (fun acc (entry : string * struct_fields) =>
               fold_left (owner_field_step b Y (fst entry)) (snd entry) acc)
            l acc)).
  { induction l as [|[X0 fields0] l IH]; intros acc HX'; simpl;
      [contradiction|].
    destruct HX' as [Heq | HX'].
    - injection Heq as -> ->. apply G.
      eapply owner_fields_found; eassumption.
    - now apply IH. }
  apply F, HX.
Qed.

Lemma owners_of_nonempty b X Y :
  holds_field_of g b X Y -> nonempty (owners_of g b Y) = true.
Proof.
  intros H. apply owners_of_found in H.
  destruct (owners_of g b Y); [contradiction | reflexivity].
Qed.

(** The first loop nest of the second pass hands the flags of every owner
    to the struct. *)
Lemma inherit_from_owner (X Y : string) (owners : list string) : forall req,
  In X owners ->
  (exists fx, Dict.get req X = Some fx /\ flags_le (own_flags g X) fx) ->
  Dict.get req Y <> None ->
  exists fy,
    Dict.get
      (fold_left (fun req s =>
           match Dict.get req s with
           | Some src => Dict.update req Y (inherit src)
           | None => req
           end) owners req) Y = Some fy
    /\ flags_le (own_flags g X) fy.
Proof.
  induction owners as [|s owners IH]; intros req HX HfX HfY; simpl;
    [contradiction|].
  assert (Hstep : forall r a, extends r
            match Dict.get r a with
            | Some src => Dict.update r Y (inherit src)
            | None => r
            end).
  { intros r a. destruct (Dict.get r a); [|apply extends_refl].
    apply extends_update. intros f0. apply flags_le_inherit_dst. }
  destruct (String.eqb s X) eqn:E.
  - apply String.eqb_eq in E. subst s.
    destruct HfX as [fx [GX LX]]. rewrite GX.
    destruct (Dict.get req Y) as [fy0|] eqn:GY; [|congruence].
    assert (G1 : Dict.get (Dict.update req Y (inherit fx)) Y
                 = Some (inherit fx fy0)).
    { rewrite get_update, String.eqb_refl, GY. reflexivity. }
    destruct (extends_fold _ owners Hstep _ _ _ G1) as [fy [G2 L2]].
    exists fy. split; [exact G2|].
    eapply flags_le_trans; [exact LX|].
    eapply flags_le_trans; [apply flags_le_inherit_src | exact L2].
  - destruct HX as [HX | HX];
      [subst; rewrite String.eqb_refl in E; discriminate|].
    apply IH; [assumption | |].
    + destruct HfX as [fx [GX LX]].
      destruct (Hstep req s _ _ GX) as [fx' [GX' LX']].
      exists fx'. split; [assumption | eapply flags_le_trans; eassumption].
    + destruct (Dict.get req Y) as [fy0|] eqn:GY; [|congruence].
      destruct (Hstep req s _ _ GY) as [fy' [GY' _]]. congruence.
Qed.

Lemma second_pass_step_inherits (X Y : string) (req : Dict.t flags) :
  holds_field_of g false X Y ->
  (exists fx, Dict.get req X = Some fx /\ flags_le (own_flags g X) fx) ->
  Dict.get req Y <> None ->
  exists fy, Dict.get (second_pass_step g req Y) Y = Some fy
             /\ flags_le (own_flags g X) fy.
Proof.
  intros Hfield HfX HfY.
  pose proof (owners_of_found false X Y Hfield) as Hin.
  pose proof (owners_of_nonempty false X Y Hfield) as Hne.
  destruct (inherit_from_owner X Y (owners_of g false Y) req Hin HfX HfY)
    as [fy [G L]].
  unfold second_pass_step, __is_internal_struct, __is_internal_struct_of_arr.
  rewrite Hne.
  set (req1 := fold_left _ (owners_of g false Y) req) in *.
  assert (Hext : extends req1
    (if nonempty (owners_of g true Y)
     then fold_left (fun req0 s =>
              let req2 :=
                if __is_input_struct g s
                then Dict.update req0 Y mark_set_to else req0 in
              if __is_output_struct g s || __is_arg_out_struct g s
              then Dict.update req2 Y mark_set_from_and_from
              else req2) (owners_of g true Y) req1
     else req1)).
  { destruct (nonempty (owners_of g true Y)); [|apply extends_refl].
    apply extends_fold. intros r a. cbv zeta.
    eapply extends_trans.
    - instantiate (1 := if __is_input_struct g a
                        then Dict.update r Y mark_set_to else r).
      destruct (__is_input_struct g a); [|apply extends_refl].
      apply extends_update, flags_le_mark_set_to.
    - destruct (__is_output_struct g a || __is_arg_out_struct g a);
        [|apply extends_refl].
      apply extends_update, flags_le_mark_set_from_and_from. }
  destruct (Hext Y fy G) as [fy' [G' L']].
  exists fy'. split; [exact G' | eapply flags_le_trans; eassumption].
Qed.

End OwnerFacts.

(** C4, counterexample.  In the run on [eos_bar.h], [EOS_Bar_Page] holds
    [EOS_Bar_Entry] in a field that is not an array field; the member
    ends with [set_from] and [from], the container with no flag. *)
Lemma C4_counterexample :
  parse_all_file bar_sdk
  = Ok (bar_model, _make_additional_method_requirements bar_model, [])
  /\ holds_field_of bar_model false "EOS_Bar_Page" "EOS_Bar_Entry"
  /\ flags_of bar_model "EOS_Bar_Entry"
     = Some {| set_from := true; from := true;
               set_to := false; to := false |}
  /\ flags_of bar_model "EOS_Bar_Page" = Some no_flags.
Proof.
  split; [reflexivity|]. split; [|split; reflexivity].
  exists [("Entry", "const EOS_Bar_Entry*")], "Entry",
    "const EOS_Bar_Entry*".
  simpl. repeat split; tauto.
Qed.


(* ------------------------------------------------------------------ *)
(** ** Expansion policy *)

Section ExpansionFacts.
Variable g : model.

Lemma expansion_step_app (acc : list string) s0 fields0 :
  expansion_step g acc (s0, fields0)
  = acc ++ (if expands_as_input g s0 fields0 then [s0] else [])
        ++ (if expands_as_output g s0 fields0 then [s0] else []).
Proof.
  unfold expansion_step, expands_as_input, expands_as_output.
  destruct (_ && _ && __is_method_input_only_struct g s0),
    (_ && _ && __is_callback_output_only_struct g s0);
    simpl; rewrite <- ?app_assoc, ?app_nil_r; reflexivity.
Qed.

Lemma expansion_fold_in (l : Dict.t struct_fields) : forall acc s,
  In s (fold_left (expansion_step g) l acc)
  <-> In s acc
      \/ exists fields, In (s, fields) l
           /\ (expands_as_input g s fields = true
               \/ expands_as_output g s fields = true).
Proof.
  induction l as [|[s0 fields0] l IH]; intros acc s.
  - simpl. split; [now left | intros [H | [? [[] _]]]; assumption].
  - cbn [fold_left]. rewrite IH, expansion_step_app. clear IH.
    rewrite !in_app_iff. split.
    + intros [[H | [H | H]] | [fields [Hin Hc]]].
      * now left.
      * destruct (expands_as_input g s0 fields0) eqn:E; [|contradiction].
        destruct H as [<- | []]. right. exists fields0.
        split; [now left | now left].
      * destruct (expands_as_output g s0 fields0) eqn:E; [|contradiction].
        destruct H as [<- | []]. right. exists fields0.
        split; [now left | now right].
      * right. exists fields. split; [now right | assumption].
    + intros [H | [fields [[Heq | Hin] Hc]]].
      * left. now left.
      * injection Heq as -> ->. left. right.
        destruct Hc as [Hc | Hc]; rewrite Hc; [left | right]; now left.
      * right. exists fields. split; assumption.
Qed.

Lemma expended_iff (s : string) :
  In s (_make_additional_method_requirements g).(expended_as_args_structs)
  <-> exists fields, In (s, fields) g.(structs)
        /\ (expands_as_input g s fields = true
            \/ expands_as_output g s fields = true).
Proof.
  simpl. rewrite expansion_fold_in. split.
  - intros [[] | H]. exact H.
  - intros H. now right.
Qed.

(** A struct that is the element of an array field of the fixed list is
    never in the list of expanded structs. *)
Lemma expended_not_of_arr (s X : string) :
  In s (_make_additional_method_requirements g).(expended_as_args_structs) ->
  ~ holds_field_of g true X s.
Proof.
  intros Hin Hfield. apply expended_iff in Hin.
  apply owners_of_nonempty in Hfield.
  destruct Hin as [fields [_ [H | H]]];
    [unfold expands_as_input in H | unfold expands_as_output in H];
    apply andb_true_iff in H; destruct H as [_ H];
    [unfold __is_method_input_only_struct in H
    |unfold __is_callback_output_only_struct in H];
    unfold __is_internal_struct_of_arr in H; simpl in H;
    rewrite Hfield in H; simpl in H; discriminate.
Qed.

End ExpansionFacts.


(** C2, at the failing input.  In the run on [eos_foo.h],
    [EOS_Foo_Range] is held in a field of [EOS_Foo_CopyInfoOptions], and
    it is in the list of expanded structs: the test of
    [__is_method_input_only_struct] asks twice whether the struct is an
    array element and never whether it is held in a field. *)
Theorem C2_internal_struct_expanded :
  parse_all_file foo_sdk
  = Ok (foo_model, _make_additional_method_requirements foo_model, [])
  /\ holds_field_of foo_model false "EOS_Foo_CopyInfoOptions"
       "EOS_Foo_Range"
  /\ fst (__is_internal_struct foo_model "EOS_Foo_Range") = true
  /\ __is_method_input_only_struct foo_model "EOS_Foo_Range" = true
  /\ In "EOS_Foo_Range"
       (_make_additional_method_requirements foo_model)
         .(expended_as_args_structs)
  /\ _is_expended_struct foo_model "const EOS_Foo_Range*" = true.
Proof.
  split; [reflexivity|]. split.
  - exists [("ApiVersion", "int32_t"); ("Range", "EOS_Foo_Range")],
      "Range", "EOS_Foo_Range".
    simpl. repeat split; tauto.
  - repeat split. vm_compute. tauto.
Qed.

(* ================================================================== *)
(** * Declaration scanner *)
(* ================================================================== *)

Lemma startswith_nil (s : string) : startswith s "" = true.
Proof. destruct s; reflexivity. Qed.

Lemma startswith_app (p r : string) : startswith (p ++ r) p = true.
Proof.
  induction p as [|c p IH]; simpl; [destruct r; reflexivity|].
  now rewrite Ascii.eqb_refl.
Qed.

Lemma startswith_split (s p : string) :
  startswith s p = true -> exists r, s = (p ++ r)%string.
Proof.
  revert s. induction p as [|c p IH]; intros s H.
  - now exists s.
  - destruct s as [|d s]; [discriminate|]. simpl in H.
    apply andb_true_iff in H. destruct H as [Hc Hs].
    apply Ascii.eqb_eq in Hc. subst d.
    destruct (IH s Hs) as [r ->]. now exists r.
Qed.

Lemma index_raise {A : Type} (l : list A) (i : nat) (e : error) :
  index l i = Raise e -> e = IndexError.
Proof. unfold index. destruct (nth_error l i); congruence. Qed.

(** A loop over the lines raises nothing but what its turns raise. *)
Lemma scan_lines_raise {St R : Type}
    (body : St -> nat -> string -> list string -> result (turn St R))
    (at_end : St -> result R) :
  (forall s i line after e, body s i line after = Raise e -> e = IndexError) ->
  (forall s e, at_end s = Raise e -> e = IndexError) ->
  forall rest pos i s e,
    scan_lines body at_end rest pos i s = Raise e -> e = IndexError.
Proof.
  intros Hbody Hend. induction rest as [|line after IH];
    intros pos i s e; simpl.
  - apply Hend.
  - destruct (pos <? i)%nat; [apply IH|].
    destruct (body s i line after) as [[s' i'|r]|e'] eqn:E; simpl.
    + apply IH.
    + discriminate.
    + intros [= <-]. eapply Hbody, E.
Qed.

(** A loop that has to find its terminator and never finds it ends in
    [IndexError]. *)
Lemma scan_lines_unterminated {St R : Type}
    (body : St -> nat -> string -> list string -> result (turn St R))
    (stops : string -> bool) :
  (forall s i line after e, body s i line after = Raise e -> e = IndexError) ->
  (forall s i line after r,
     body s i line after = Ok (Break r) -> stops line = true) ->
  forall rest pos i s,
    Forall (fun line => stops line = false) rest ->
    scan_lines body (fun _ => Raise IndexError) rest pos i s
    = Raise IndexError.
Proof.
  intros Hraise Hbreak. induction rest as [|line after IH];
    intros pos i s Hall; simpl; [reflexivity|].
  inversion Hall as [|? ? Hline Hafter]; subst.
  destruct (pos <? i)%nat; [now apply IH|].
  destruct (body s i line after) as [[s' i'|r]|e'] eqn:E; simpl.
  - now apply IH.
  - apply Hbreak in E. congruence.
  - f_equal. eapply Hraise, E.
Qed.

Lemma enum_turn_raise members i line after e :
  enum_turn members i line after = Raise e -> e = IndexError.
Proof.
  unfold enum_turn.
  destruct (startswith line ");"); [discriminate|].
  destruct (_ || _); [discriminate|].
  destruct (index _ 0) eqn:E; simpl; [discriminate|].
  intros [= <-]. eapply index_raise, E.
Qed.

Lemma enum_turn_break members i line after r :
  enum_turn members i line after = Ok (Break r) ->
  startswith line ");" = true.
Proof.
  unfold enum_turn.
  destruct (startswith line ");"); [reflexivity|].
  destruct (_ || _); [discriminate|].
  destruct (index _ 0); simpl; discriminate.
Qed.

Lemma union_turn_raise s i line after e :
  union_turn s i line after = Raise e -> e = IndexError.
Proof.
  unfold union_turn. destruct s as [union_fileds out].
  destruct (startswith (lstrip tab line) "}"); [discriminate|].
  destruct (is_skipped_line _); [discriminate|].
  destruct (index _ 0) eqn:E; simpl.
  - destruct (rsplit " " (Some 1) a) as [|? [|? [|? ?]]]; discriminate.
  - intros [= <-]. eapply index_raise, E.
Qed.

Lemma struct_turn_raise s i line after e :
  struct_turn s i line after = Raise e -> e = IndexError.
Proof.
  unfold struct_turn. destruct s as [fields out].
  destruct (startswith line "));"); [discriminate|].
  destruct (is_skipped_line _); [discriminate|].
  destruct (index _ 0) eqn:E; simpl.
  - destruct (startswith a "union").
    + destruct (scan_lines union_turn _ after (i + 1) (i + 2) ([], out))
        as [[[[u o] j] c]|e'] eqn:Eu; simpl; [discriminate|].
      intros [= <-].
      eapply (scan_lines_raise union_turn); [| |exact Eu].
      * intros. eapply union_turn_raise; eassumption.
      * intros ? ? [= <-]. reflexivity.
    + destruct (rsplit " " (Some 1) a) as [|? [|? [|? ?]]]; discriminate.
  - intros [= <-]. eapply index_raise, E.
Qed.

Lemma struct_turn_break s i line after r :
  struct_turn s i line after = Ok (Break r) ->
  startswith line "));" = true.
Proof.
  unfold struct_turn. destruct s as [fields out].
  destruct (startswith line "));"); [reflexivity|].
  destruct (is_skipped_line _); [discriminate|].
  destruct (index _ 0) eqn:E; simpl; [|discriminate].
  destruct (startswith a "union").
  - destruct (scan_lines union_turn _ after (i + 1) (i + 2) ([], out))
      as [[[[u o] j] c]|e']; simpl; discriminate.
  - destruct (rsplit " " (Some 1) a) as [|? [|? [|? ?]]]; discriminate.
Qed.

(** An unsplittable declaration is printed with its line number, no field
    is recorded for it, and the loop goes on with the next line. *)
Lemma struct_turn_unsplittable fields out i line0 after d :
  declaration_text line0 = Some d ->
  unsplittable d = true ->
  struct_turn (fields, out) i line0 after
  = Ok (Continue (fields, out ++ [PrintError i line0]) (i + 1)).
Proof.
  unfold declaration_text, unsplittable, struct_turn, index.
  destruct (startswith line0 "));"); [discriminate|].
  destruct (is_skipped_line _); [discriminate|].
  destruct (rsplit ";" None _) as [|d0 ?]; [discriminate|]. simpl.
  destruct (startswith d0 "union"); [discriminate|].
  intros [= ->] H.
  destruct (rsplit " " (Some 1) d) as [|? [|? [|? ?]]];
    try reflexivity. discriminate.
Qed.

(** The main loop at a struct header, and at an enum header, with no
    terminator below. *)
Lemma file_turn_open_struct s i header body :
  is_struct_header header = true ->
  Forall (fun line => startswith line "));" = false) body ->
  file_turn s i header body = Raise IndexError.
Proof.
  unfold is_struct_header, is_handle_typedef. intros H Hbody.
  apply andb_true_iff in H. destruct H as [Ht Hs].
  apply negb_true_iff in Ht.
  destruct (startswith_split _ _ Hs) as [r ->].
  unfold file_turn. rewrite Ht. simpl. rewrite startswith_nil.
  rewrite (scan_lines_unterminated struct_turn
             (fun line => startswith line "));")).
  - reflexivity.
  - intros. eapply struct_turn_raise; eassumption.
  - intros. eapply struct_turn_break; eassumption.
  - exact Hbody.
Qed.

Lemma split_enum_header (r : string) :
  exists rest, split "(" None ("EOS_ENUM(" ++ r) = "EOS_ENUM" :: rest.
Proof.
  unfold split. simpl. rewrite startswith_nil. eexists. reflexivity.
Qed.

Lemma file_turn_open_enum s i header body :
  is_enum_header header = true ->
  Forall (fun line => startswith line ");" = false) body ->
  file_turn s i header body = Raise IndexError.
Proof.
  unfold is_enum_header, is_handle_typedef. intros H Hbody.
  apply andb_true_iff in H. destruct H as [Ht Hs].
  apply negb_true_iff in Ht.
  destruct (startswith_split _ _ Hs) as [r ->].
  destruct (split_enum_header r) as [rest Hsplit].
  unfold file_turn. rewrite Ht, Hs, Hsplit. simpl.
  destruct (index _ 1) as [x|e] eqn:E1; simpl;
    [|f_equal; eapply index_raise, E1].
  destruct (index _ 0) as [enum_type|e] eqn:E0; simpl;
    [|f_equal; eapply index_raise, E0].
  rewrite (scan_lines_unterminated enum_turn
             (fun line => startswith line ");")).
  - reflexivity.
  - intros. eapply enum_turn_raise; eassumption.
  - intros. eapply enum_turn_break; eassumption.
  - exact Hbody.
Qed.

(** C8, counterexample.  The second field line of the block has no name:
    the scan prints the line with its number, records the other fields
    and ends normally. *)
Lemma C8_counterexample :
  declaration_text (member_line "uint32_t;") = Some "uint32_t"
  /\ unsplittable "uint32_t" = true
  /\ _parse_file struct_with_bad_line start_state
     = Ok {| p_info :=
               {| file_enums := []; file_methods := [];
                  file_callbacks := [];
                  file_structs :=
                    [("EOS_Foo_Options",
                      [("ApiVersion", "int32_t"); ("Name", "const char*")])];
                  file_handles := [] |};
             api_latest_macros := [];
             p_out := [PrintError 3 (member_line "uint32_t;")] |}.
Proof. repeat split. Qed.

(** C8, amended.  A declaration line of a struct block that cannot be
    split into a type and a name is reported, with its line number and
    its text, and skipped: the scan of the block goes on with the next
    line and the fields recorded so far.  A struct block or an enum block
    that never reaches its terminator makes the scan raise [IndexError]
    instead of ending normally. *)
Theorem C8_scanner_reports_and_raises :
  (forall fields out pos line0 after d,
     declaration_text line0 = Some d ->
     unsplittable d = true ->
     scan_lines struct_turn (fun _ => Raise IndexError)
       (line0 :: after) pos pos (fields, out)
     = scan_lines struct_turn (fun _ => Raise IndexError)
         after (S pos) (S pos) (fields, out ++ [PrintError pos line0]))
  /\ (forall s pos header body,
        is_struct_header header = true ->
        Forall (fun line => startswith line "));" = false) body ->
        scan_lines file_turn (fun s => Ok s) (header :: body) pos pos s
        = Raise IndexError)
  /\ (forall s pos header body,
        is_enum_header header = true ->
        Forall (fun line => startswith line ");" = false) body ->
        scan_lines file_turn (fun s => Ok s) (header :: body) pos pos s
        = Raise IndexError).
Proof.
  split; [|split].
  - intros fields out pos line0 after d Hd Hu. cbn [scan_lines].
    rewrite Nat.ltb_irrefl.
    rewrite (struct_turn_unsplittable fields out pos line0 after d Hd Hu).
    cbn [bind]. now rewrite Nat.add_1_r.
  - intros s pos header body Hh Hb. simpl.
    rewrite Nat.ltb_irrefl, file_turn_open_struct by assumption.
    reflexivity.
  - intros s pos header body Hh Hb. simpl.
    rewrite Nat.ltb_irrefl, file_turn_open_enum by assumption.
    reflexivity.
Qed.

Lemma C8_witness :
  scan_lines struct_turn (fun _ => Raise IndexError)
    [member_line "uint32_t;"; member_line "const char* Name;";
     header_line "));"] 3 3
    ([("ApiVersion", "int32_t")], [])
  = scan_lines struct_turn (fun _ => Raise IndexError)
      [member_line "const char* Name;"; header_line "));"] 4 4
      ([("ApiVersion", "int32_t")], [PrintError 3 (member_line "uint32_t;")])
  /\ _parse_file open_struct start_state = Raise IndexError
  /\ _parse_file open_enum start_state = Raise IndexError.
Proof.
  destruct C8_scanner_reports_and_raises as (Hline & Hstruct & Henum).
  split; [|split].
  - apply (Hline [("ApiVersion", "int32_t")] [] 3
             (member_line "uint32_t;")
             [member_line "const char* Name;"; header_line "));"]
             "uint32_t");
      reflexivity.
  - apply (Hstruct start_state 0
             (header_line "EOS_STRUCT(EOS_Foo_Options, (")
             [member_line "int32_t ApiVersion;"]).
    + reflexivity.
    + repeat constructor.
  - apply (Henum start_state 0 (header_line "EOS_ENUM(EOS_EFoo,")
             [member_line "EOS_F_First = 0,"]).
    + reflexivity.
    + repeat constructor.
Defined.

(* ================================================================== *)
(** * More facts about dictionaries *)
(* ================================================================== *)

Section DictFacts2.
Context {V : Type}.
Implicit Types (d : Dict.t V) (k : string) (v : V).

Lemma keys_set_in d k v :
  In k (Dict.keys d) -> Dict.keys (Dict.set d k v) = Dict.keys d.
Proof.
  induction d as [|[k0 v0] d IH]; simpl; [contradiction|].
  destruct (String.eqb k k0) eqn:E; simpl.
  - apply String.eqb_eq in E. now subst.
  - intros [H | H].
    + subst. rewrite String.eqb_refl in E. discriminate.
    + now rewrite IH.
Qed.

Lemma keys_set_new d k v :
  ~ In k (Dict.keys d) -> Dict.keys (Dict.set d k v) = Dict.keys d ++ [k].
Proof.
  induction d as [|[k0 v0] d IH]; simpl; [reflexivity|].
  intros H. destruct (String.eqb k k0) eqn:E; simpl.
  - apply String.eqb_eq in E. subst. tauto.
  - rewrite IH; tauto.
Qed.

Lemma in_keys_set d k v x :
  In x (Dict.keys (Dict.set d k v)) <-> x = k \/ In x (Dict.keys d).
Proof.
  destruct (in_dec string_dec k (Dict.keys d)) as [H | H].
  - rewrite keys_set_in by assumption. split; [now right|].
    intros [-> | H']; assumption.
  - rewrite keys_set_new, in_app_iff by assumption. simpl.
    split; [intros [H' | [<- | []]]; tauto | intros [-> | H']; tauto].
Qed.

Lemma keys_update d k (f : V -> V) :
  Dict.keys (Dict.update d k f) = Dict.keys d.
Proof.
  unfold Dict.update. destruct (Dict.get d k) eqn:E; [|reflexivity].
  apply keys_set_in. apply get_in_keys. congruence.
Qed.

Lemma nodup_keys_set d k v :
  NoDup (Dict.keys d) -> NoDup (Dict.keys (Dict.set d k v)).
Proof.
  intros H. destruct (in_dec string_dec k (Dict.keys d)) as [Hin | Hin].
  - now rewrite keys_set_in.
  - rewrite keys_set_new by assumption.
    apply NoDup_app; [assumption | repeat constructor; tauto |].
    intros x Hx [<- | []]. tauto.
Qed.

Lemma in_get d k v : NoDup (Dict.keys d) -> In (k, v) d -> Dict.get d k = Some v.
Proof.
  induction d as [|[k0 v0] d IH]; simpl; [contradiction|].
  intros Hnd [Heq | Hin].
  - injection Heq as -> ->. now rewrite String.eqb_refl.
  - inversion Hnd as [|? ? Hk0 Hd]; subst.
    destruct (String.eqb k k0) eqn:E.
    + apply String.eqb_eq in E. subst. exfalso. apply Hk0.
      eapply in_keys, Hin.
    + now apply IH.
Qed.

Lemma in_remove d k x v :
  In (x, v) (Dict.remove d k) -> In (x, v) d.
Proof.
  induction d as [|[k0 v0] d IH]; simpl; [tauto|].
  destruct (String.eqb k k0); simpl; [tauto|].
  intros [H | H]; [now left | right; now apply IH].
Qed.

Lemma in_remove_other d k x v :
  x <> k -> In (x, v) d -> In (x, v) (Dict.remove d k).
Proof.
  intros Hne. induction d as [|[k0 v0] d IH]; simpl; [tauto|].
  destruct (String.eqb k k0) eqn:E; simpl.
  - apply String.eqb_eq in E. subst.
    intros [[= <- <-] | H]; [congruence | assumption].
  - intros [H | H]; [now left | right; now apply IH].
Qed.

Lemma keys_remove_nodup d k :
  NoDup (Dict.keys d) -> NoDup (Dict.keys (Dict.remove d k)).
Proof.
  induction d as [|[k0 v0] d IH]; simpl; [constructor|].
  intros Hnd. inversion Hnd as [|? ? Hk0 Hd]; subst.
  destruct (String.eqb k k0); simpl; [assumption|].
  constructor; [|now apply IH].
  intros Hin. apply Hk0. apply in_map_iff in Hin.
  destruct Hin as [[x v] [Hx Hin]]. simpl in Hx. subst.
  eapply in_keys, in_remove, Hin.
Qed.

Lemma not_in_keys_remove d k :
  NoDup (Dict.keys d) -> ~ In k (Dict.keys (Dict.remove d k)).
Proof.
  induction d as [|[k0 v0] d IH]; simpl; [tauto|].
  intros Hnd. inversion Hnd as [|? ? Hk0 Hd]; subst.
  destruct (String.eqb k k0) eqn:E; simpl.
  - apply String.eqb_eq in E. now subst.
  - intros [H | H]; [subst; rewrite String.eqb_refl in E; discriminate|].
    now apply IH.
Qed.

End DictFacts2.

Lemma foldM_app {A St : Type} (body : St -> A -> result St) (l1 l2 : list A)
    (s : St) :
  foldM body (l1 ++ l2) s = (s' <- foldM body l1 s ;; foldM body l2 s').
Proof.
  revert s. induction l1 as [|a l1 IH]; intros s; simpl; [reflexivity|].
  destruct (body s a); simpl; [apply IH | reflexivity].
Qed.

(** An invariant of every turn is an invariant of the loop. *)
Lemma foldM_invariant {A St : Type} (body : St -> A -> result St)
    (P : St -> Prop) (l : list A) :
  (forall s a s', In a l -> P s -> body s a = Ok s' -> P s') ->
  forall s s', P s -> foldM body l s = Ok s' -> P s'.
Proof.
  induction l as [|a l IH]; intros Hbody s s' HP; simpl.
  - now intros [= <-].
  - destruct (body s a) as [s1|] eqn:E; simpl; [|discriminate].
    apply IH.
    + intros s0 a0 s0' Hin. apply Hbody. now right.
    + eapply Hbody; [now left | exact HP | exact E].
Qed.

(* ================================================================== *)
(** * Global consolidation *)
(* ================================================================== *)

(* ------------------------------------------------------------------ *)
(** ** The loop over the arguments of a method *)

Lemma arg_step_fields (x : string) (xi : method_info) (s : astate) (a : arg) :
  let hit := Dict.mem s.(a_handles) (_decay_eos_type a.(type))
             && negb (PyStr.mem x s.(a_to_remove)) in
  a_handles (arg_step x xi s a)
  = (if hit
     then Dict.update s.(a_handles) (_decay_eos_type a.(type))
            (add_method x xi)
     else s.(a_handles))
  /\ a_to_remove (arg_step x xi s a)
     = (if hit then s.(a_to_remove) ++ [x] else s.(a_to_remove))
  /\ handle_type (arg_step x xi s a)
     = (if hit then _decay_eos_type a.(type) else s.(handle_type)).
Proof.
  unfold arg_step.
  destruct (Dict.mem (a_handles s) (_decay_eos_type (type a))
            && negb (PyStr.mem x (a_to_remove s)));
    destruct (_ || _); simpl; repeat split.
Qed.

Lemma arg_loop_done (x : string) (xi : method_info) (args : list arg) :
  forall s, In x s.(a_to_remove) ->
  a_handles (fold_left (arg_step x xi) args s) = a_handles s
  /\ a_to_remove (fold_left (arg_step x xi) args s) = a_to_remove s
  /\ handle_type (fold_left (arg_step x xi) args s) = handle_type s.
Proof.
  induction args as [|a args IH]; intros s Hin; simpl; [repeat split|].
  destruct (arg_step_fields x xi s a) as (H1 & H2 & H3).
  apply mem_true_iff in Hin. rewrite Hin, andb_false_r in H1, H2, H3.
  destruct (IH (arg_step x xi s a)) as (G1 & G2 & G3).
  - rewrite H2. now apply mem_true_iff.
  - rewrite G1, G2, G3. repeat split; assumption.
Qed.

Lemma arg_loop_spec (x : string) (xi : method_info) (args : list arg) :
  forall s, ~ In x s.(a_to_remove) ->
  match first_handle_arg (Dict.keys s.(a_handles)) args with
  | None =>
      a_handles (fold_left (arg_step x xi) args s) = a_handles s
      /\ a_to_remove (fold_left (arg_step x xi) args s) = a_to_remove s
      /\ handle_type (fold_left (arg_step x xi) args s) = handle_type s
  | Some h =>
      In h (Dict.keys s.(a_handles))
      /\ a_handles (fold_left (arg_step x xi) args s)
         = Dict.update s.(a_handles) h (add_method x xi)
      /\ a_to_remove (fold_left (arg_step x xi) args s)
         = a_to_remove s ++ [x]
      /\ handle_type (fold_left (arg_step x xi) args s) = h
  end.
Proof.
  induction args as [|a args IH]; intros s Hnin; simpl; [repeat split|].
  destruct (arg_step_fields x xi s a) as (H1 & H2 & H3).
  apply mem_false_iff in Hnin. rewrite Hnin, andb_true_r in H1, H2, H3.
  unfold Dict.mem in H1, H2, H3.
  destruct (PyStr.mem (_decay_eos_type (type a)) (Dict.keys (a_handles s)))
    eqn:Hmem.
  - destruct (arg_loop_done x xi args (arg_step x xi s a)) as (G1 & G2 & G3).
    + rewrite H2. apply in_or_app. right. now left.
    + rewrite G1, G2, G3, H1, H2, H3.
      split; [now apply mem_true_iff | repeat split].
  - specialize (IH (arg_step x xi s a)).
    rewrite H1, H2 in IH. apply mem_false_iff in Hnin.
    specialize (IH Hnin).
    destruct (first_handle_arg (Dict.keys (a_handles s)) args);
      rewrite ?H3 in IH; exact IH.
Qed.

(* ------------------------------------------------------------------ *)
(** ** Ownership under the updates of a handle table *)

Lemma owns_add_method hs h x xi h' m :
  In h (Dict.keys hs) ->
  owns (Dict.update hs h (add_method x xi)) h' m
  <-> owns hs h' m \/ (h' = h /\ m = x).
Proof.
  intros Hh. unfold owns. split.
  - intros [hi [G Hin]]. rewrite get_update in G.
    destruct (String.eqb h' h) eqn:E.
    + apply String.eqb_eq in E. subst h'.
      destruct (Dict.get hs h) as [hi0|] eqn:G0; simpl in G; [|discriminate].
      injection G as <-. simpl in Hin. apply in_keys_set in Hin.
      destruct Hin as [-> | Hin]; [now right|].
      left. now exists hi0.
    + left. now exists hi.
  - intros [[hi [G Hin]] | [-> ->]].
    + rewrite get_update. destruct (String.eqb h' h) eqn:E.
      * apply String.eqb_eq in E. subst h'. rewrite G. simpl.
        eexists. split; [reflexivity|]. simpl. apply in_keys_set. now right.
      * now exists hi.
    + apply get_in_keys in Hh.
      destruct (Dict.get hs h) as [hi0|] eqn:G0; [|congruence].
      rewrite get_update, String.eqb_refl, G0. simpl.
      eexists. split; [reflexivity|]. simpl. apply in_keys_set. now left.
Qed.

Lemma owns_add_callback hs h cb ci h' m :
  owns (Dict.update hs h (add_callback cb ci)) h' m <-> owns hs h' m.
Proof.
  unfold owns. split; intros [hi [G Hin]].
  - rewrite get_update in G. destruct (String.eqb h' h) eqn:E.
    + apply String.eqb_eq in E. subst h'.
      destruct (Dict.get hs h) as [hi0|] eqn:G0; simpl in G; [|discriminate].
      injection G as <-. simpl in Hin. now exists hi0.
    + now exists hi.
  - rewrite get_update. destruct (String.eqb h' h) eqn:E.
    + apply String.eqb_eq in E. subst h'. rewrite G. simpl.
      eexists. split; [reflexivity | exact Hin].
    + now exists hi.
Qed.

Lemma owns_put_enums hs h es h' m :
  owns (Dict.update hs h (put_enums es)) h' m <-> owns hs h' m.
Proof.
  unfold owns. split; intros [hi [G Hin]].
  - rewrite get_update in G. destruct (String.eqb h' h) eqn:E.
    + apply String.eqb_eq in E. subst h'.
      destruct (Dict.get hs h) as [hi0|] eqn:G0; simpl in G; [|discriminate].
      injection G as <-. simpl in Hin. now exists hi0.
    + now exists hi.
  - rewrite get_update. destruct (String.eqb h' h) eqn:E.
    + apply String.eqb_eq in E. subst h'. rewrite G. simpl.
      eexists. split; [reflexivity | exact Hin].
    + now exists hi.
Qed.

(* ------------------------------------------------------------------ *)
(** ** The loop over the methods of a file *)

Lemma method_step_spec (s s' : mstate) (x : string) (xi : method_info) :
  ~ In x s.(to_remove_methods) ->
  method_step s (x, xi) = Ok s' ->
  Dict.keys s'.(m_handles) = Dict.keys s.(m_handles)
  /\ (forall h m, owns s'.(m_handles) h m
        <-> owns s.(m_handles) h m
            \/ (claimed_by (Dict.keys s.(m_handles)) x xi = Some h /\ m = x))
  /\ (forall m, In m s'.(to_remove_methods)
        <-> In m s.(to_remove_methods)
            \/ (m = x /\ removed (Dict.keys s.(m_handles)) x xi = true))
  /\ (forall k, In k (Dict.keys s.(m_interfaces)) ->
                In k (Dict.keys s'.(m_interfaces)))
  /\ (is_interface_getter x = true ->
      In (interface_key x) (Dict.keys s'.(m_interfaces))).
Proof.
  intros Hnin. unfold method_step, claimed_by, removed.
  destruct (is_interface_getter x) eqn:Hget.
  - intros [= <-]. simpl. repeat split; try tauto.
    + intros [H | [[=] _]]. exact H.
    + rewrite in_app_iff. simpl. intros [H | [<- | []]]; tauto.
    + rewrite in_app_iff. simpl. intros [H | [-> _]]; tauto.
    + intros k Hk. apply in_keys_set. now right.
    + intros _. apply in_keys_set. now left.
  - set (a0 := {| a_handles := m_handles s;
                  a_to_remove := to_remove_methods s;
                  handle_type := ""; callback_type := "" |}).
    pose proof (arg_loop_spec x xi xi.(args) a0 Hnin) as Hspec.
    simpl in Hspec.
    set (a := fold_left (arg_step x xi) (args xi) a0) in *.
    assert (Hcore :
      Dict.keys (a_handles a) = Dict.keys (m_handles s)
      /\ (forall h m, owns (a_handles a) h m
            <-> owns (m_handles s) h m
                \/ (first_handle_arg (Dict.keys (m_handles s)) (args xi)
                    = Some h /\ m = x))
      /\ (forall m, In m (a_to_remove a)
            <-> In m (to_remove_methods s)
                \/ (m = x
                    /\ match first_handle_arg (Dict.keys (m_handles s))
                               (args xi) with
                       | Some _ => true
                       | None => false
                       end = true))).
    { destruct (first_handle_arg (Dict.keys (m_handles s)) (args xi))
        as [h0|].
      - destruct Hspec as (Hin & H1 & H2 & H3). rewrite H1, H2.
        split; [apply keys_update|]. split.
        + intros h m. rewrite owns_add_method by assumption.
          split; intros [H | [Hh Hm]]; try tauto.
          * right. subst. tauto.
          * right. injection Hh as <-. tauto.
        + intros m. rewrite in_app_iff. simpl.
          split; intros [H | H]; try tauto.
          * destruct H as [<- | []]. tauto.
          * destruct H as [-> _]. tauto.
      - destruct Hspec as (H1 & H2 & H3). rewrite H1, H2.
        split; [reflexivity|]. split.
        + intros h m. split; [tauto | intros [H | [[=] _]]; exact H].
        + intros m. split; [tauto | intros [H | [_ [=]]]; exact H]. }
    destruct Hcore as (Hk & Ho & Hr).
    destruct (endswith x "_Release") eqn:Hrel.
    + intros [= <-]. simpl. split; [exact Hk|]. split; [exact Ho|].
      split; [|split; [tauto | discriminate]].
      intros m. rewrite in_app_iff, Hr, orb_true_r. simpl.
      split; [intros [[H | [-> _]] | [<- | []]]; tauto | ].
      intros [H | [-> _]]; tauto.
    + rewrite orb_false_r.
      destruct (negb (handle_type a =? "") && negb (callback_type a =? "")).
      * destruct (subscript (m_callbacks s) (callback_type a)) as [cb|];
          simpl; [|discriminate].
        intros [= <-]. simpl. rewrite keys_update.
        split; [exact Hk|].
        split; [|split; [exact Hr | split; [tauto | discriminate]]].
        intros h m. rewrite owns_add_callback. apply Ho.
      * intros [= <-]. simpl.
        split; [exact Hk|].
        split; [exact Ho | split; [exact Hr | split; [tauto | discriminate]]].
Qed.

Lemma method_loop_spec (ms : Dict.t method_info) : forall s s',
  NoDup (Dict.keys ms) ->
  (forall m, In m s.(to_remove_methods) -> ~ In m (Dict.keys ms)) ->
  foldM method_step ms s = Ok s' ->
  Dict.keys s'.(m_handles) = Dict.keys s.(m_handles)
  /\ (forall h m, owns s'.(m_handles) h m
        <-> owns s.(m_handles) h m
            \/ exists xi, In (m, xi) ms
                 /\ claimed_by (Dict.keys s.(m_handles)) m xi = Some h)
  /\ (forall m, In m s'.(to_remove_methods)
        <-> In m s.(to_remove_methods)
            \/ exists xi, In (m, xi) ms
                 /\ removed (Dict.keys s.(m_handles)) m xi = true)
  /\ (forall k, In k (Dict.keys s.(m_interfaces)) ->
                In k (Dict.keys s'.(m_interfaces)))
  /\ (forall m xi, In (m, xi) ms -> is_interface_getter m = true ->
        In (interface_key m) (Dict.keys s'.(m_interfaces))).
Proof.
  induction ms as [|[x xi] ms IH]; intros s s' Hnd Hfresh; cbn [foldM].
  - intros [= <-]. simpl. repeat split; try tauto.
    + intros [H | [? [[] _]]]. exact H.
    + intros [H | [? [[] _]]]. exact H.
  - destruct (method_step s (x, xi)) as [s1|] eqn:E1; cbn [bind];
      [|discriminate].
    intros E2. simpl in Hnd. inversion Hnd as [|? ? Hx Hnd']; subst.
    assert (Hnin : ~ In x (to_remove_methods s)).
    { intros H. apply (Hfresh x H). now left. }
    destruct (method_step_spec s s1 x xi Hnin E1)
      as (K1 & O1 & R1 & I1 & G1).
    destruct (IH s1 s' Hnd') as (K2 & O2 & R2 & I2 & G2); [|exact E2|].
    { intros m Hm. apply R1 in Hm. destruct Hm as [Hm | [-> _]].
      - intros Hin. apply (Hfresh m Hm). now right.
      - exact Hx. }
    rewrite K1 in *. split; [exact K2|].
    split; [|split; [|split]].
    + intros h m. rewrite O2, O1. split.
      * intros [[H | [H ->]] | [xi' [Hin H]]].
        -- now left.
        -- right. exists xi. split; [now left | exact H].
        -- right. exists xi'. split; [now right | exact H].
      * intros [H | [xi' [Hin H]]]; [left; now left|].
        destruct Hin as [[= <- <-] | Hin].
        -- left. right. tauto.
        -- right. exists xi'. tauto.
    + intros m. rewrite R2, R1. split.
      * intros [[H | [-> H]] | [xi' [Hin H]]].
        -- now left.
        -- right. exists xi. split; [now left | exact H].
        -- right. exists xi'. split; [now right | exact H].
      * intros [H | [xi' [Hin H]]]; [left; now left|].
        destruct Hin as [[= <- <-] | Hin].
        -- left. right. tauto.
        -- right. exists xi'. tauto.
    + intros k Hk. apply I2, I1, Hk.
    + intros m xi' [[= <- <-] | Hin] Hg.
      * apply I2, G1, Hg.
      * eapply G2; eassumption.
Qed.

Lemma pop_all_spec (names : list string) : forall ms ms',
  NoDup (Dict.keys ms) ->
  pop_all ms names = Ok ms' ->
  NoDup (Dict.keys ms')
  /\ (forall m mi, In (m, mi) ms' <-> In (m, mi) ms /\ ~ In m names).
Proof.
  unfold pop_all.
  induction names as [|n names IH]; intros ms ms' Hnd; simpl.
  - intros [= <-]. split; [assumption | tauto].
  - unfold Dict.pop. destruct (Dict.mem ms n); simpl; [|discriminate].
    intros E. destruct (IH _ _ (keys_remove_nodup ms n Hnd) E) as [N1 H1].
    split; [exact N1|].
    intros m mi. rewrite H1. split.
    + intros [Hin Hnot]. split; [eapply in_remove, Hin|].
      intros [<- | H]; [|tauto].
      apply (not_in_keys_remove ms n Hnd). eapply in_keys, Hin.
    + intros [Hin Hnot]. split; [|tauto].
      apply in_remove_other; [|exact Hin]. intros ->. tauto.
Qed.

(* ------------------------------------------------------------------ *)
(** ** One file under the handles of another *)

Lemma in_unique {V : Type} (d : Dict.t V) (k : string) (v v' : V) :
  NoDup (Dict.keys d) -> In (k, v) d -> In (k, v') d -> v = v'.
Proof.
  intros Hnd H H'. apply (in_get d k v Hnd) in H.
  apply (in_get d k v' Hnd) in H'. congruence.
Qed.

Lemma subscript_ok {V : Type} (d : Dict.t V) (k : string) (v : V) :
  subscript d k = Ok v -> Dict.get d k = Some v.
Proof. unfold subscript. destruct (Dict.get d k); congruence. Qed.

Lemma inner_step_tables (il jl : string) (c c' : cstate) :
  inner_step il c jl = Ok c' ->
  exists outer infos s ms',
    Dict.get c.(file_lower2infos) il = Some outer
    /\ Dict.get c.(file_lower2infos) jl = Some infos
    /\ foldM method_step infos.(file_methods)
         {| m_handles := outer.(file_handles);
            m_callbacks := infos.(file_callbacks);
            m_interfaces := c.(c_interfaces);
            m_release := c.(c_release);
            to_remove_methods := [] |} = Ok s
    /\ pop_all infos.(file_methods) s.(to_remove_methods) = Ok ms'
    /\ Dict.keys c'.(file_lower2infos) = Dict.keys c.(file_lower2infos)
    /\ (forall k, methods_of c'.(file_lower2infos) k
                  = if String.eqb k jl then ms'
                    else methods_of c.(file_lower2infos) k)
    /\ (forall k, handles_of c'.(file_lower2infos) k
                  = if String.eqb k il then s.(m_handles)
                    else handles_of c.(file_lower2infos) k)
    /\ c'.(c_interfaces) = s.(m_interfaces).
Proof.
  unfold inner_step.
  destruct (subscript _ il) as [outer|] eqn:E1; cbn [bind]; [|discriminate].
  destruct (subscript _ jl) as [infos|] eqn:E2; cbn [bind]; [|discriminate].
  destruct (foldM method_step _ _) as [s|] eqn:E3; cbn [bind];
    [|discriminate].
  destruct (pop_all _ _) as [ms'|] eqn:E4; cbn [bind]; [|discriminate].
  intros [= <-]. apply subscript_ok in E1, E2.
  exists outer, infos, s, ms'. cbn [file_lower2infos c_interfaces].
  repeat split; try assumption.
  - now rewrite !keys_update.
  - intros k. unfold methods_of. rewrite !get_update.
    destruct (String.eqb k il) eqn:Ki, (String.eqb k jl) eqn:Kj;
      try reflexivity.
    + apply String.eqb_eq in Ki, Kj. subst.
      rewrite String.eqb_refl, E2. reflexivity.
    + apply String.eqb_eq in Ki. subst. rewrite Kj, E1. reflexivity.
    + apply String.eqb_eq in Kj. subst. rewrite E2. reflexivity.
  - intros k. unfold handles_of. rewrite !get_update.
    destruct (String.eqb k il) eqn:Ki, (String.eqb k jl) eqn:Kj;
      try reflexivity.
    + apply String.eqb_eq in Ki, Kj. subst.
      rewrite String.eqb_refl, E2. reflexivity.
    + apply String.eqb_eq in Ki. subst. rewrite Kj, E1. reflexivity.
    + apply String.eqb_eq in Kj. subst. rewrite E2. reflexivity.
Qed.

Lemma inner_step_spec (il jl : string) (c c' : cstate) :
  NoDup (Dict.keys (methods_of c.(file_lower2infos) jl)) ->
  inner_step il c jl = Ok c' ->
  Dict.keys c'.(file_lower2infos) = Dict.keys c.(file_lower2infos)
  /\ (forall k, Dict.keys (handles_of c'.(file_lower2infos) k)
                = Dict.keys (handles_of c.(file_lower2infos) k))
  /\ (forall k h m,
        owns (handles_of c'.(file_lower2infos) k) h m
        <-> owns (handles_of c.(file_lower2infos) k) h m
            \/ (k = il
                /\ exists xi,
                     In (m, xi) (methods_of c.(file_lower2infos) jl)
                     /\ claimed_by
                          (Dict.keys (handles_of c.(file_lower2infos) il))
                          m xi = Some h))
  /\ (forall k m mi,
        In (m, mi) (methods_of c'.(file_lower2infos) k)
        <-> In (m, mi) (methods_of c.(file_lower2infos) k)
            /\ (k = jl ->
                removed (Dict.keys (handles_of c.(file_lower2infos) il))
                  m mi = false))
  /\ (forall k, NoDup (Dict.keys (methods_of c.(file_lower2infos) k)) ->
                NoDup (Dict.keys (methods_of c'.(file_lower2infos) k)))
  /\ (forall k, In k (Dict.keys c.(c_interfaces)) ->
                In k (Dict.keys c'.(c_interfaces)))
  /\ (forall m xi, In (m, xi) (methods_of c.(file_lower2infos) jl) ->
        is_interface_getter m = true ->
        In (interface_key m) (Dict.keys c'.(c_interfaces))).
Proof.
  intros Hnd Hstep.
  destruct (inner_step_tables il jl c c' Hstep)
    as (outer & infos & s & ms' & G1 & G2 & Hloop & Hpop & HK & HM & HH & HI).
  assert (Hms : methods_of c.(file_lower2infos) jl = infos.(file_methods)).
  { unfold methods_of. now rewrite G2. }
  assert (Hhs : handles_of c.(file_lower2infos) il = outer.(file_handles)).
  { unfold handles_of. now rewrite G1. }
  rewrite Hms in *. rewrite Hhs.
  edestruct (method_loop_spec infos.(file_methods))
    as (K & O & R & I & G); [exact Hnd | | exact Hloop |];
    [intros m [] |].
  cbn [m_handles to_remove_methods m_interfaces] in K, O, R, I, G.
  destruct (pop_all_spec _ _ _ Hnd Hpop) as (N & P).
  split; [exact HK|]. split; [|split; [|split; [|split; [|split]]]].
  - intros k. rewrite HH. destruct (String.eqb k il) eqn:E; [|reflexivity].
    apply String.eqb_eq in E. subst. now rewrite K, Hhs.
  - intros k h m. rewrite HH. destruct (String.eqb k il) eqn:E.
    + apply String.eqb_eq in E. subst k. rewrite Hhs, O. tauto.
    + split; [now left|]. intros [H | [-> _]]; [exact H|].
      rewrite String.eqb_refl in E. discriminate.
  - intros k m mi. rewrite HM. destruct (String.eqb k jl) eqn:E.
    + apply String.eqb_eq in E. subst k. rewrite Hms, P, R. split.
      * intros [Hin Hnot]. split; [exact Hin|]. intros _.
        destruct (removed _ m mi) eqn:Er; [|reflexivity].
        exfalso. apply Hnot. right. exists mi. tauto.
      * intros [Hin Hrem]. split; [exact Hin|].
        intros [[] | [xi [Hin' Hr]]].
        rewrite (in_unique _ _ _ _ Hnd Hin' Hin) in Hr.
        rewrite Hrem in Hr by reflexivity. discriminate.
    + apply String.eqb_neq in E. tauto.
  - intros k Hk. rewrite HM. destruct (String.eqb k jl) eqn:E; [|exact Hk].
    exact N.
  - intros k Hk. rewrite HI. now apply I.
  - intros m xi Hin Hg. rewrite HI. eapply G; eassumption.
Qed.

(* ------------------------------------------------------------------ *)
(** ** What the loops keep *)

Lemma nodup_flat_map_each {A B : Type} (f : A -> list B) (l : list A) (a : A) :
  NoDup (flat_map f l) -> In a l -> NoDup (f a).
Proof.
  induction l as [|c l IH]; simpl; [contradiction|].
  intros Hnd [-> | Hin].
  - eapply NoDup_app_remove_r, Hnd.
  - apply IH; [|exact Hin]. eapply NoDup_app_remove_l, Hnd.
Qed.

Lemma nodup_flat_map_unique {A B : Type} (f : A -> list B) (l : list A)
    (a b : A) (x : B) :
  NoDup (flat_map f l) -> In a l -> In b l -> In x (f a) -> In x (f b) ->
  a = b.
Proof.
  induction l as [|c l IH]; simpl; [contradiction|].
  intros Hnd Ha Hb Hxa Hxb.
  assert (Hdis : forall y, In y (f c) -> ~ In y (flat_map f l)).
  { intros y Hy Hy'. revert Hnd Hy Hy'. generalize (flat_map f l) as r.
    induction (f c) as [|z fc IHfc]; simpl; intros r Hnd Hy Hy';
      [contradiction|].
    inversion Hnd as [|? ? Hz Hnd']; subst.
    destruct Hy as [-> | Hy].
    - apply Hz. apply in_or_app. now right.
    - eapply IHfc; eassumption. }
  destruct Ha as [-> | Ha], Hb as [-> | Hb].
  - reflexivity.
  - exfalso. apply (Hdis x Hxa). apply in_flat_map. now exists b.
  - exfalso. apply (Hdis x Hxb). apply in_flat_map. now exists a.
  - apply IH; try assumption. eapply NoDup_app_remove_l, Hnd.
Qed.

Lemma methods_of_in (files : Dict.t file_info) (k m : string)
    (mi : method_info) :
  In (m, mi) (methods_of files k) ->
  exists fi, In (k, fi) files /\ In (m, mi) fi.(file_methods).
Proof.
  unfold methods_of. destruct (Dict.get files k) as [fi|] eqn:G;
    [|contradiction].
  intros H. exists fi. split; [now apply get_some_in | exact H].
Qed.

Lemma handles_of_in (files : Dict.t file_info) (k h : string)
    (hi : handle_info) :
  In (h, hi) (handles_of files k) ->
  exists fi, In (k, fi) files /\ In (h, hi) fi.(file_handles).
Proof.
  unfold handles_of. destruct (Dict.get files k) as [fi|] eqn:G;
    [|contradiction].
  intros H. exists fi. split; [now apply get_some_in | exact H].
Qed.

Section Wellformed.
Variable files0 : Dict.t file_info.
Hypothesis Hwf : wf_files files0.

Lemma wf_methods_nodup (k : string) :
  NoDup (Dict.keys (methods_of files0 k)).
Proof.
  unfold methods_of. destruct (Dict.get files0 k) as [fi|] eqn:G;
    [|constructor].
  apply (nodup_flat_map_each
           (fun entry : string * file_info =>
              Dict.keys (snd entry).(file_methods)) files0 (k, fi)).
  - apply (wf_methods _ Hwf).
  - now apply get_some_in.
Qed.

Lemma wf_method_unique (k k' m : string) (xi xi' : method_info) :
  In (m, xi) (methods_of files0 k) ->
  In (m, xi') (methods_of files0 k') ->
  k = k' /\ xi = xi'.
Proof.
  intros H H'.
  destruct (methods_of_in _ _ _ _ H) as [fi [Hfi Hm]].
  destruct (methods_of_in _ _ _ _ H') as [fi' [Hfi' Hm']].
  assert (E : (k, fi) = (k', fi')).
  { apply (nodup_flat_map_unique
             (fun entry : string * file_info =>
                Dict.keys (snd entry).(file_methods)) files0 _ _ m).
    - apply (wf_methods _ Hwf).
    - exact Hfi.
    - exact Hfi'.
    - simpl. eapply in_keys, Hm.
    - simpl. eapply in_keys, Hm'. }
  injection E as <- <-. split; [reflexivity|].
  eapply in_unique; [|exact Hm|exact Hm'].
  apply (nodup_flat_map_each
           (fun entry : string * file_info =>
              Dict.keys (snd entry).(file_methods)) files0 (k, fi)).
  - apply (wf_methods _ Hwf).
  - exact Hfi.
Qed.

Lemma wf_no_owner (k h m : string) : ~ owns (handles_of files0 k) h m.
Proof.
  intros [hi [G Hin]]. apply get_some_in in G.
  destruct (handles_of_in _ _ _ _ G) as [fi [Hfi Hh]].
  rewrite (wf_fresh _ Hwf _ _ _ _ Hfi Hh) in Hin. exact Hin.
Qed.

Lemma loop_inv_start interfaces release :
  loop_inv files0 {| file_lower2infos := files0;
                     c_interfaces := interfaces;
                     c_release := release |}.
Proof.
  unfold loop_inv; simpl. repeat split; try tauto.
  apply wf_methods_nodup.
Qed.

Lemma inner_step_inv (il jl : string) (c c' : cstate) :
  loop_inv files0 c -> inner_step il c jl = Ok c' -> loop_inv files0 c'.
Proof.
  intros (IK & IH & IM & IN) Hstep.
  destruct (inner_step_spec il jl c c' (IN jl) Hstep)
    as (SK & SH & _ & SM & SN & _).
  unfold loop_inv. repeat split.
  - congruence.
  - intros k. now rewrite SH.
  - intros k m mi Hin. apply SM in Hin. apply IM. tauto.
  - intros k. apply SN, IN.
Qed.

Lemma outer_step_inv (il : string) (c c' : cstate) :
  loop_inv files0 c -> outer_step c il = Ok c' -> loop_inv files0 c'.
Proof.
  unfold outer_step. apply (foldM_invariant _ (loop_inv files0)).
  intros s a s' _. apply inner_step_inv.
Qed.

(* ------------------------------------------------------------------ *)
(** ** One method through the loops *)

Section OneMethod.
Variables (jm m : string) (mi : method_info).
Hypothesis Hm : In (m, mi) (methods_of files0 jm).
Hypothesis Hget : is_interface_getter m = false.
Hypothesis Hrel : endswith m "_Release" = false.

Lemma inner_step_pending (il jl : string) (c c' : cstate) :
  jl <> jm
  \/ first_handle_arg (Dict.keys (handles_of files0 il)) mi.(args) = None ->
  loop_inv files0 c -> pending jm m mi c ->
  inner_step il c jl = Ok c' -> pending jm m mi c'.
Proof.
  intros Hcase (IK & IH & IM & IN) [Pm Po] Hstep.
  destruct (inner_step_spec il jl c c' (IN jl) Hstep)
    as (_ & _ & SO & SM & _).
  split.
  - apply SM. split; [exact Pm|]. intros ->.
    destruct Hcase as [Hne | Hnone]; [congruence|].
    unfold removed. now rewrite IH, Hnone, Hget, Hrel.
  - intros k h Ho. apply SO in Ho. destruct Ho as [Ho | [-> [xi [Hin Hc]]]].
    + exact (Po k h Ho).
    + destruct (wf_method_unique _ _ _ _ _ (IM _ _ _ Hin) Hm) as [-> ->].
      destruct Hcase as [Hne | Hnone]; [congruence|].
      unfold claimed_by in Hc. rewrite IH, Hnone, Hget in Hc. discriminate.
Qed.

Lemma inner_step_settles (il h : string) (c c' : cstate) :
  first_handle_arg (Dict.keys (handles_of files0 il)) mi.(args) = Some h ->
  loop_inv files0 c -> pending jm m mi c ->
  inner_step il c jm = Ok c' -> settled il h m c'.
Proof.
  intros Hsome (IK & IH & IM & IN) [Pm Po] Hstep.
  destruct (inner_step_spec il jm c c' (IN jm) Hstep)
    as (_ & _ & SO & SM & _).
  split.
  - intros k xi Hin. apply SM in Hin. destruct Hin as [Hin Hrem].
    destruct (wf_method_unique _ _ _ _ _ (IM _ _ _ Hin) Hm) as [-> ->].
    specialize (Hrem eq_refl). unfold removed in Hrem.
    rewrite IH, Hsome, Hget in Hrem. discriminate.
  - intros k h'. rewrite SO. split.
    + intros [Ho | [-> [xi [Hin Hc]]]]; [destruct (Po k h' Ho)|].
      destruct (wf_method_unique _ _ _ _ _ (IM _ _ _ Hin) Hm) as [_ ->].
      unfold claimed_by in Hc. rewrite IH, Hsome, Hget in Hc.
      injection Hc as <-. tauto.
    + intros [-> ->]. right. split; [reflexivity|]. exists mi.
      split; [exact Pm|]. unfold claimed_by. now rewrite IH, Hsome, Hget.
Qed.

Lemma inner_step_settled (il0 h0 il jl : string) (c c' : cstate) :
  loop_inv files0 c -> settled il0 h0 m c ->
  inner_step il c jl = Ok c' -> settled il0 h0 m c'.
Proof.
  intros (IK & IH & IM & IN) [Sm So] Hstep.
  destruct (inner_step_spec il jl c c' (IN jl) Hstep)
    as (_ & _ & SO & SM & _).
  split.
  - intros k xi Hin. apply SM in Hin. exact (Sm k xi (proj1 Hin)).
  - intros k h'. rewrite SO, So. split; [|tauto].
    intros [H | [_ [xi [Hin _]]]]; [exact H|]. destruct (Sm _ _ Hin).
Qed.

Lemma outer_step_pending (il : string) (c c' : cstate) :
  first_handle_arg (Dict.keys (handles_of files0 il)) mi.(args) = None ->
  loop_inv files0 c /\ pending jm m mi c ->
  outer_step c il = Ok c' ->
  loop_inv files0 c' /\ pending jm m mi c'.
Proof.
  intros Hnone. unfold outer_step.
  apply (foldM_invariant _
           (fun c => loop_inv files0 c /\ pending jm m mi c)).
  intros s jl s' _ [HI HP] Hstep. split.
  - eapply inner_step_inv; eassumption.
  - eapply inner_step_pending; try eassumption. now right.
Qed.

Lemma outer_step_settled (il0 h0 il : string) (c c' : cstate) :
  loop_inv files0 c /\ settled il0 h0 m c ->
  outer_step c il = Ok c' ->
  loop_inv files0 c' /\ settled il0 h0 m c'.
Proof.
  unfold outer_step.
  apply (foldM_invariant _
           (fun c => loop_inv files0 c /\ settled il0 h0 m c)).
  intros s jl s' _ [HI HS] Hstep. split.
  - eapply inner_step_inv; eassumption.
  - eapply inner_step_settled; eassumption.
Qed.

Lemma outer_step_settles (il h : string) (c c' : cstate) :
  first_handle_arg (Dict.keys (handles_of files0 il)) mi.(args) = Some h ->
  loop_inv files0 c /\ pending jm m mi c ->
  outer_step c il = Ok c' ->
  loop_inv files0 c' /\ settled il h m c'.
Proof.
  intros Hsome [HI HP]. unfold outer_step.
  assert (Hjm : In jm (Dict.keys files0)).
  { destruct (methods_of_in _ _ _ _ Hm) as [fi [Hfi _]].
    eapply in_keys, Hfi. }
  destruct HI as (IK & HI'). rewrite IK.
  pose proof (conj IK HI' : loop_inv files0 c) as HI.
  destruct (in_split _ _ Hjm) as (Ka & Kb & HK).
  pose proof (wf_keys _ Hwf) as Hnd. rewrite HK in Hnd.
  rewrite HK, foldM_app.
  destruct (foldM (inner_step il) Ka c) as [c1|] eqn:E1; cbn [bind];
    [|discriminate].
  cbn [foldM].
  destruct (inner_step il c1 jm) as [c2|] eqn:E2; cbn [bind];
    [|discriminate].
  intros E3.
  assert (H1 : loop_inv files0 c1 /\ pending jm m mi c1).
  { revert E1.
    apply (foldM_invariant _
             (fun c => loop_inv files0 c /\ pending jm m mi c));
      [|split; assumption].
    intros s jl s' Hjl [HI1 HP1] Hstep. split.
    - eapply inner_step_inv; eassumption.
    - eapply inner_step_pending; try eassumption. left. intros ->.
      apply NoDup_remove_2 in Hnd. apply Hnd, in_or_app. now left. }
  destruct H1 as [HI1 HP1].
  assert (H2 : loop_inv files0 c2 /\ settled il h m c2).
  { split.
    - eapply inner_step_inv; eassumption.
    - eapply inner_step_settles; eassumption. }
  revert E3.
  apply (foldM_invariant _
           (fun c => loop_inv files0 c /\ settled il h m c)); [|exact H2].
  intros s jl s' _ [HI3 HS3] Hstep. split.
  - eapply inner_step_inv; eassumption.
  - eapply inner_step_settled; eassumption.
Qed.

End OneMethod.
End Wellformed.

(* ------------------------------------------------------------------ *)
(** ** The global tables *)

Lemma fold_set_get {V : Type} (l : Dict.t V) : forall (d : Dict.t V) x,
  NoDup (Dict.keys l) ->
  Dict.get (fold_left (fun d (e : string * V) => Dict.set d (fst e) (snd e))
              l d) x
  = match Dict.get l x with
    | Some v => Some v
    | None => Dict.get d x
    end.
Proof.
  induction l as [|[k v] l IH]; intros d x Hnd; simpl; [reflexivity|].
  simpl in Hnd. inversion Hnd as [|? ? Hk Hnd']; subst.
  rewrite IH by assumption. rewrite get_set.
  destruct (String.eqb x k) eqn:E; [|reflexivity].
  apply String.eqb_eq in E. subst.
  destruct (Dict.get l k) eqn:G; [|reflexivity].
  exfalso. apply Hk. apply get_in_keys. congruence.
Qed.

Lemma fold_set_keys {V : Type} (l : Dict.t V) : forall (d : Dict.t V) x,
  In x (Dict.keys
          (fold_left (fun d (e : string * V) => Dict.set d (fst e) (snd e))
             l d)) ->
  In x (Dict.keys d) \/ In x (Dict.keys l).
Proof.
  induction l as [|[k v] l IH]; intros d x; simpl; [tauto|].
  intros H. apply IH in H. destruct H as [H | H]; [|tauto].
  apply in_keys_set in H. simpl in H.
  destruct H as [-> | H]; [right; now left | now left].
Qed.

Lemma fold_set_pattern {V : Type} (l : Dict.t V) : forall d : Dict.t V,
  fold_left (fun d '(k, v) => Dict.set d k v) l d
  = fold_left (fun d (e : string * V) => Dict.set d (fst e) (snd e)) l d.
Proof.
  induction l as [|[k v] l IH]; intros d; simpl; [reflexivity | apply IH].
Qed.

Lemma move_handles_flat (files : Dict.t file_info) :
  move_handles files
  = fold_left (fun d (e : string * handle_info) =>
                 Dict.set d (fst e) (snd e))
      (flat_map (fun entry => (snd entry).(file_handles)) files) [].
Proof.
  unfold move_handles. generalize (@nil (string * handle_info)) as d.
  induction files as [|[il fi] files IH]; intros d; simpl; [reflexivity|].
  rewrite fold_left_app, IH. f_equal. apply fold_set_pattern.
Qed.

Lemma keys_flat_handles (files : Dict.t file_info) :
  Dict.keys (flat_map (fun entry : string * file_info =>
                         (snd entry).(file_handles)) files)
  = all_handle_names files.
Proof.
  unfold all_handle_names, Dict.keys.
  induction files as [|e files IH]; simpl; [reflexivity|].
  now rewrite map_app, IH.
Qed.

Lemma all_handle_names_by_key (files : Dict.t file_info) :
  NoDup (Dict.keys files) ->
  all_handle_names files
  = flat_map (fun k => Dict.keys (handles_of files k)) (Dict.keys files).
Proof.
  unfold all_handle_names.
  induction files as [|[k fi] files IH]; intros Hnd; simpl; [reflexivity|].
  simpl in Hnd. inversion Hnd as [|? ? Hk Hnd']; subst.
  unfold handles_of at 1. simpl. rewrite String.eqb_refl. f_equal.
  rewrite IH by assumption.
  clear IH Hnd Hnd'. revert Hk. generalize (Dict.keys files) as ks.
  induction ks as [|k' ks IHks]; intros Hk; simpl; [reflexivity|].
  rewrite IHks by (simpl in Hk; tauto). f_equal.
  unfold handles_of. simpl.
  destruct (String.eqb k' k) eqn:E; [|reflexivity].
  apply String.eqb_eq in E. subst. simpl in Hk. tauto.
Qed.

Lemma move_handles_owns (files : Dict.t file_info) (h m : string) :
  NoDup (Dict.keys files) ->
  NoDup (all_handle_names files) ->
  owns (move_handles files) h m
  <-> exists k, owns (handles_of files k) h m.
Proof.
  intros Hk Hh. unfold owns. rewrite move_handles_flat.
  assert (Hflat : NoDup (Dict.keys
            (flat_map (fun entry : string * file_info =>
                         (snd entry).(file_handles)) files))).
  { now rewrite keys_flat_handles. }
  split.
  - intros [hi [G Hin]]. rewrite fold_set_get in G by assumption.
    destruct (Dict.get (flat_map _ files) h) as [hi'|] eqn:G';
      [|discriminate].
    injection G as ->. apply get_some_in in G'.
    apply in_flat_map in G'. destruct G' as [[k fi] [Hfi Hhi]].
    simpl in Hhi. exists k, hi. split; [|exact Hin].
    unfold handles_of. rewrite (in_get _ _ _ Hk Hfi).
    apply in_get; [|exact Hhi].
    apply (nodup_flat_map_each
             (fun entry : string * file_info =>
                Dict.keys (snd entry).(file_handles)) files (k, fi));
      assumption.
  - intros [k [hi [G Hin]]]. exists hi. split; [|exact Hin].
    rewrite fold_set_get by assumption.
    apply get_some_in in G.
    destruct (handles_of_in _ _ _ _ G) as [fi [Hfi Hhi]].
    assert (G' : Dict.get (flat_map (fun entry : string * file_info =>
                   (snd entry).(file_handles)) files) h = Some hi).
    { apply in_get; [assumption|]. apply in_flat_map.
      exists (k, fi). split; assumption. }
    now rewrite G'.
Qed.

Lemma enum_steps_owns interfaces (files : Dict.t file_info) hs ue hs' ue' :
  foldM (enum_step interfaces) files (hs, ue) = Ok (hs', ue') ->
  forall h m, owns hs' h m <-> owns hs h m.
Proof.
  intros Hfold.
  apply (foldM_invariant (enum_step interfaces)
           (fun acc => forall h m, owns (fst acc) h m <-> owns hs h m)
           files) with (s := (hs, ue)) (s' := (hs', ue')); [| |exact Hfold].
  - intros [hs1 ue1] [il fi] [hs2 ue2] _ HP. unfold enum_step.
    destruct (Dict.mem interfaces _).
    + destruct (subscript hs1 _); cbn [bind]; [|discriminate].
      intros [= <- <-]. intros h m. simpl. rewrite owns_put_enums.
      apply HP.
    + intros [= <- <-]. exact HP.
  - simpl. tauto.
Qed.

Lemma move_unhandled_methods (files : Dict.t file_info) (m : string) :
  In m (Dict.keys (snd (move_unhandled files))) ->
  exists k fi xi, In (k, fi) files /\ In (m, xi) fi.(file_methods).
Proof.
  unfold move_unhandled.
  assert (G : forall (l : Dict.t file_info) acc,
    In m (Dict.keys (snd
      (fold_left (fun '(unhandled_callbacks, unhandled_methods) '(il, fi) =>
         (fold_left (fun d '(cb, info) => Dict.set d cb info)
            fi.(file_callbacks) unhandled_callbacks,
          fold_left (fun d '(m, info) => Dict.set d m info)
            fi.(file_methods) unhandled_methods)) l acc))) ->
    In m (Dict.keys (snd acc))
    \/ exists k fi xi, In (k, fi) l /\ In (m, xi) fi.(file_methods)).
  { induction l as [|[k fi] l IH]; intros [cbs ms]; simpl; [tauto|].
    intros H. apply IH in H. simpl in H. destruct H as [H | H].
    - rewrite (fold_set_pattern (file_methods fi) ms) in H.
      apply fold_set_keys in H.
      destruct H as [H | H]; [now left|].
      right. apply in_map_iff in H. destruct H as [[x xi] [Hx Hin]].
      simpl in Hx. subst. exists k, fi, xi. split; [now left | exact Hin].
    - right. destruct H as (k' & fi' & xi & Hin & Hm).
      exists k', fi', xi. split; [now right | exact Hm]. }
  intros H. apply G in H. simpl in H. tauto.
Qed.

Lemma first_handle_arg_some (hs : list string) (args : list arg) :
  (exists a, In a args /\ In (_decay_eos_type a.(type)) hs)
  <-> first_handle_arg hs args <> None.
Proof.
  induction args as [|a args IH]; simpl.
  - split; [intros [? [[] _]] | congruence].
  - destruct (PyStr.mem (_decay_eos_type (type a)) hs) eqn:E.
    + split; [congruence|]. intros _. exists a.
      split; [now left | now apply mem_true_iff].
    + rewrite <- IH. split.
      * intros [b [[<- | Hb] Hin]].
        -- apply mem_false_iff in E. contradiction.
        -- now exists b.
      * intros [b [Hb Hin]]. exists b. split; [now right | exact Hin].
Qed.

Lemma owner_of_some (files : Dict.t file_info) (args : list arg) :
  (exists a, In a args
             /\ In (_decay_eos_type a.(type)) (all_handle_names files))
  <-> owner_of files args <> None.
Proof.
  unfold all_handle_names.
  induction files as [|[k fi] files IH]; simpl.
  - split; [intros [? [_ []]] | congruence].
  - destruct (first_handle_arg (Dict.keys (file_handles fi)) args) eqn:E.
    + split; [congruence|]. intros _.
      assert (H : first_handle_arg (Dict.keys (file_handles fi)) args
                  <> None) by congruence.
      apply first_handle_arg_some in H. destruct H as [a [Ha Hin]].
      exists a. split; [exact Ha|]. apply in_or_app. now left.
    + rewrite <- IH. split.
      * intros [a [Ha Hin]]. apply in_app_or in Hin.
        destruct Hin as [Hin | Hin]; [|now exists a].
        exfalso.
        assert (H : first_handle_arg (Dict.keys (file_handles fi)) args
                    <> None).
        { apply first_handle_arg_some. now exists a. }
        congruence.
      * intros [a [Ha Hin]]. exists a. split; [exact Ha|].
        apply in_or_app. now right.
Qed.

Lemma owner_of_split (files : Dict.t file_info) (args : list arg)
    (h : string) :
  owner_of files args = Some h ->
  exists F1 il fi F2,
    files = F1 ++ (il, fi) :: F2
    /\ (forall k fk, In (k, fk) F1 ->
          first_handle_arg (Dict.keys fk.(file_handles)) args = None)
    /\ first_handle_arg (Dict.keys fi.(file_handles)) args = Some h.
Proof.
  induction files as [|[k fk] files IH]; simpl; [discriminate|].
  destruct (first_handle_arg (Dict.keys (file_handles fk)) args) eqn:E.
  - intros [= ->]. exists [], k, fk, files. simpl.
    split; [reflexivity|]. split; [intros ? ? []|exact E].
  - intros H. destruct (IH H) as (F1 & il & fi & F2 & -> & Hnone & Hsome).
    exists ((k, fk) :: F1), il, fi, F2. split; [reflexivity|].
    split; [|exact Hsome].
    intros k' fk' [[= <- <-] | Hin]; [exact E | eapply Hnone, Hin].
Qed.

(* ------------------------------------------------------------------ *)
(** ** From the loops to the global tables *)

Section Consolidated.
Variable files0 : Dict.t file_info.
Hypothesis Hwf : wf_files files0.

Lemma handles_of_entry (F1 F2 : Dict.t file_info) (k : string)
    (fi : file_info) :
  files0 = F1 ++ (k, fi) :: F2 ->
  handles_of files0 k = fi.(file_handles).
Proof.
  intros E. unfold handles_of.
  rewrite (in_get files0 k fi (wf_keys _ Hwf)); [reflexivity|].
  rewrite E. apply in_or_app. right. now left.
Qed.

Lemma loops_settle (jm m h : string) (mi : method_info) (c : cstate) :
  In (m, mi) (methods_of files0 jm) ->
  is_interface_getter m = false ->
  endswith m "_Release" = false ->
  owner_of files0 mi.(args) = Some h ->
  move_methods_and_callbacks files0 = Ok c ->
  loop_inv files0 c /\ exists il, settled il h m c.
Proof.
  intros Hm Hget Hrel Hown.
  destruct (owner_of_split _ _ _ Hown)
    as (F1 & il & fi & F2 & E & Hnone & Hsome).
  unfold move_methods_and_callbacks.
  set (c0 := {| file_lower2infos := files0;
                c_interfaces := initial_interfaces; c_release := [] |}).
  assert (H0 : loop_inv files0 c0 /\ pending jm m mi c0).
  { split; [apply loop_inv_start, Hwf|].
    split; [exact Hm | intros k h0; apply wf_no_owner, Hwf]. }
  assert (EK : Dict.keys files0
               = Dict.keys F1 ++ il :: Dict.keys F2).
  { rewrite E. unfold Dict.keys. now rewrite map_app. }
  rewrite EK, foldM_app.
  destruct (foldM outer_step (Dict.keys F1) c0) as [c1|] eqn:E1;
    cbn [bind]; [|discriminate].
  cbn [foldM].
  destruct (outer_step c1 il) as [c2|] eqn:E2; cbn [bind]; [|discriminate].
  intros E3.
  assert (H1 : loop_inv files0 c1 /\ pending jm m mi c1).
  { revert E1.
    apply (foldM_invariant _
             (fun c => loop_inv files0 c /\ pending jm m mi c));
      [|exact H0].
    intros s k s' Hk HP.
    apply (outer_step_pending files0 Hwf jm m mi Hm Hget Hrel); [|exact HP].
    apply in_map_iff in Hk. destruct Hk as [[k' fk] [Hk' Hin]].
    simpl in Hk'. subst k'.
    destruct (in_split _ _ Hin) as (Fa & Fb & EF).
    rewrite (handles_of_entry Fa (Fb ++ (il, fi) :: F2) k fk).
    - eapply Hnone, Hin.
    - rewrite E, EF, <- app_assoc. reflexivity. }
  assert (H2 : loop_inv files0 c2 /\ settled il h m c2).
  { apply (outer_step_settles files0 Hwf jm m mi Hm Hget Hrel il h c1);
      [|exact H1|exact E2].
    now rewrite (handles_of_entry F1 F2 il fi E). }
  assert (H3 : loop_inv files0 c /\ settled il h m c).
  { revert E3.
    apply (foldM_invariant _
             (fun c => loop_inv files0 c /\ settled il h m c));
      [|exact H2].
    intros s k s' _. apply outer_step_settled. }
  destruct H3 as [HI HS]. split; [exact HI | now exists il].
Qed.

Lemma loop_inv_handle_names (c : cstate) :
  loop_inv files0 c ->
  NoDup (Dict.keys c.(file_lower2infos))
  /\ NoDup (all_handle_names c.(file_lower2infos)).
Proof.
  intros (IK & IH & _).
  assert (Hk : NoDup (Dict.keys c.(file_lower2infos))).
  { rewrite IK. apply (wf_keys _ Hwf). }
  split; [exact Hk|].
  rewrite all_handle_names_by_key by assumption. rewrite IK.
  assert (E : flat_map (fun k =>
                Dict.keys (handles_of (file_lower2infos c) k))
                (Dict.keys files0)
              = flat_map (fun k => Dict.keys (handles_of files0 k))
                  (Dict.keys files0)).
  { apply flat_map_ext. exact IH. }
  rewrite E, <- all_handle_names_by_key by apply (wf_keys _ Hwf).
  apply (wf_handles _ Hwf).
Qed.

(** The handle and unhandled tables at the end, in terms of the per-file
    tables the loops leave. *)
Lemma consolidate_tables (g : model) :
  consolidate files0 = Ok g ->
  exists c,
    move_methods_and_callbacks files0 = Ok c
    /\ loop_inv files0 c
    /\ g.(interfaces) = c.(c_interfaces)
    /\ (forall h m, owns g.(handles) h m
          <-> exists k, owns (handles_of c.(file_lower2infos) k) h m)
    /\ (forall m, In m (Dict.keys g.(unhandled_methods)) ->
          exists k xi, In (m, xi) (methods_of c.(file_lower2infos) k)).
Proof.
  unfold consolidate.
  destruct (move_methods_and_callbacks files0) as [c|] eqn:E1; cbn [bind];
    [|discriminate].
  assert (HI : loop_inv files0 c).
  { revert E1. unfold move_methods_and_callbacks.
    apply (foldM_invariant _ (loop_inv files0)).
    - intros s a s' _. apply outer_step_inv.
    - apply loop_inv_start, Hwf. }
  destruct (loop_inv_handle_names c HI) as [Hk Hh].
  destruct (foldM (enum_step (c_interfaces c)) (file_lower2infos c)
              (move_handles (file_lower2infos c), []))
    as [[hs' ue']|] eqn:E2; cbn [bind]; [|discriminate].
  destruct (move_unhandled (file_lower2infos c)) as [ucb um] eqn:E3.
  intros [= <-]. exists c. simpl.
  split; [reflexivity|]. split; [exact HI|]. split; [reflexivity|]. split.
  - intros h m. rewrite (enum_steps_owns _ _ _ _ _ _ E2).
    now apply move_handles_owns.
  - intros m Hm.
    assert (Hm' : In m (Dict.keys (snd (move_unhandled (file_lower2infos c)))))
      by now rewrite E3.
    apply move_unhandled_methods in Hm'.
    destruct Hm' as (k & fi & xi & Hfi & Hin).
    exists k, xi. unfold methods_of.
    now rewrite (in_get _ _ _ Hk Hfi).
Qed.

(* ------------------------------------------------------------------ *)
(** ** Interface accessors *)

Section OneGetter.
Variables (jm m : string) (mi : method_info).
Hypothesis Hm : In (m, mi) (methods_of files0 jm).
Hypothesis Hget : is_interface_getter m = true.

Lemma inner_step_getter_waits (il jl : string) (c c' : cstate) :
  jl <> jm ->
  loop_inv files0 c -> In (m, mi) (methods_of c.(file_lower2infos) jm) ->
  inner_step il c jl = Ok c' ->
  In (m, mi) (methods_of c'.(file_lower2infos) jm).
Proof.
  intros Hne (IK & IH & IM & IN) Hin Hstep.
  destruct (inner_step_spec il jl c c' (IN jl) Hstep)
    as (_ & _ & _ & SM & _).
  apply SM. split; [exact Hin | congruence].
Qed.

Lemma inner_step_getter_out (il : string) (c c' : cstate) :
  loop_inv files0 c -> In (m, mi) (methods_of c.(file_lower2infos) jm) ->
  inner_step il c jm = Ok c' -> extracted m c'.
Proof.
  intros (IK & IH & IM & IN) Hin Hstep.
  destruct (inner_step_spec il jm c c' (IN jm) Hstep)
    as (_ & _ & _ & SM & _ & _ & SG).
  split.
  - intros k xi Hk. apply SM in Hk. destruct Hk as [Hk Hrem].
    destruct (wf_method_unique files0 Hwf _ _ _ _ _ (IM _ _ _ Hk) Hm)
      as [-> ->].
    specialize (Hrem eq_refl). unfold removed in Hrem.
    rewrite Hget in Hrem. discriminate.
  - eapply SG; eassumption.
Qed.

Lemma inner_step_extracted (il jl : string) (c c' : cstate) :
  loop_inv files0 c -> extracted m c ->
  inner_step il c jl = Ok c' -> extracted m c'.
Proof.
  intros (IK & IH & IM & IN) [Xm Xi] Hstep.
  destruct (inner_step_spec il jl c c' (IN jl) Hstep)
    as (_ & _ & _ & SM & _ & SI & _).
  split.
  - intros k xi Hk. apply SM in Hk. exact (Xm k xi (proj1 Hk)).
  - apply SI, Xi.
Qed.

Lemma outer_step_extracted (il : string) (c c' : cstate) :
  loop_inv files0 c /\ extracted m c ->
  outer_step c il = Ok c' ->
  loop_inv files0 c' /\ extracted m c'.
Proof.
  unfold outer_step.
  apply (foldM_invariant _ (fun c => loop_inv files0 c /\ extracted m c)).
  intros s jl s' _ [HI HX] Hstep. split.
  - eapply inner_step_inv; eassumption.
  - eapply inner_step_extracted; eassumption.
Qed.

Lemma outer_step_extracts (il : string) (c c' : cstate) :
  loop_inv files0 c -> In (m, mi) (methods_of c.(file_lower2infos) jm) ->
  outer_step c il = Ok c' ->
  loop_inv files0 c' /\ extracted m c'.
Proof.
  intros HI Hin. unfold outer_step.
  assert (Hjm : In jm (Dict.keys files0)).
  { destruct (methods_of_in _ _ _ _ Hm) as [fi [Hfi _]].
    eapply in_keys, Hfi. }
  destruct HI as (IK & HI'). rewrite IK.
  pose proof (conj IK HI' : loop_inv files0 c) as HI.
  destruct (in_split _ _ Hjm) as (Ka & Kb & HK).
  pose proof (wf_keys _ Hwf) as Hnd. rewrite HK in Hnd.
  rewrite HK, foldM_app.
  destruct (foldM (inner_step il) Ka c) as [c1|] eqn:E1; cbn [bind];
    [|discriminate].
  cbn [foldM].
  destruct (inner_step il c1 jm) as [c2|] eqn:E2; cbn [bind];
    [|discriminate].
  intros E3.
  assert (H1 : loop_inv files0 c1
               /\ In (m, mi) (methods_of c1.(file_lower2infos) jm)).
  { revert E1.
    apply (foldM_invariant _
             (fun c => loop_inv files0 c
                       /\ In (m, mi) (methods_of c.(file_lower2infos) jm)));
      [|split; assumption].
    intros s jl s' Hjl [HI1 HP1] Hstep. split.
    - eapply inner_step_inv; eassumption.
    - eapply inner_step_getter_waits; try eassumption. intros ->.
      apply NoDup_remove_2 in Hnd. apply Hnd, in_or_app. now left. }
  destruct H1 as [HI1 HP1].
  assert (H2 : loop_inv files0 c2 /\ extracted m c2).
  { split.
    - eapply inner_step_inv; eassumption.
    - eapply inner_step_getter_out; eassumption. }
  revert E3.
  apply (foldM_invariant _ (fun c => loop_inv files0 c /\ extracted m c));
    [|exact H2].
  intros s jl s' _ [HI3 HS3] Hstep. split.
  - eapply inner_step_inv; eassumption.
  - eapply inner_step_extracted; eassumption.
Qed.

Lemma loops_extract (c : cstate) :
  move_methods_and_callbacks files0 = Ok c -> extracted m c.
Proof.
  unfold move_methods_and_callbacks.
  assert (Hjm : In jm (Dict.keys files0)).
  { destruct (methods_of_in _ _ _ _ Hm) as [fi [Hfi _]].
    eapply in_keys, Hfi. }
  destruct (Dict.keys files0) as [|il K] eqn:EK; [contradiction|].
  cbn [foldM].
  destruct (outer_step _ il) as [c1|] eqn:E1; cbn [bind]; [|discriminate].
  intros E2.
  assert (H1 : loop_inv files0 c1 /\ extracted m c1).
  { eapply outer_step_extracts; [| |exact E1].
    - apply loop_inv_start, Hwf.
    - exact Hm. }
  revert E2.
  apply (foldM_invariant _ (fun c => loop_inv files0 c /\ extracted m c));
    [exact (fun s a s' _ => outer_step_extracted a s s') | exact H1].
Qed.

End OneGetter.
End Consolidated.

(* ------------------------------------------------------------------ *)
(** ** Accessors and handle ownership after consolidation *)

Lemma accessor_extracted (files : Dict.t file_info) (g : model)
    (jm m : string) (mi : method_info) :
  wf_files files ->
  consolidate files = Ok g ->
  In (m, mi) (methods_of files jm) ->
  is_interface_getter m = true ->
  In (interface_key m) (Dict.keys g.(interfaces))
  /\ ~ In m (Dict.keys g.(unhandled_methods)).
Proof.
  intros Hwf Hrun Hm Hget.
  destruct (consolidate_tables files Hwf g Hrun)
    as (c & Hc & HI & Ei & _ & Hu).
  destruct (loops_extract files Hwf jm m mi Hm Hget c Hc) as [Xm Xi].
  split.
  - now rewrite Ei.
  - intros Hin. destruct (Hu m Hin) as (k & xi & Hk). exact (Xm k xi Hk).
Qed.

(** C5, counterexample.  With the one method [Foo_GetBarInterface()] in
    [eos_foo.h], the interface table ends with the keys [Platform] and
    [FooBar]: the token [Foo] is kept, there is no key [Bar]. *)
Lemma C5_counterexample :
  scan_headers getter_sdk
  = Ok {| s_files := getter_files; s_macros := []; s_out := [] |}
  /\ Dict.get (methods_of getter_files "foo") "Foo_GetBarInterface"
     = Some {| return_ := "EOS_HBar"; args := [] |}
  /\ consolidate getter_files = Ok getter_model
  /\ Dict.keys getter_model.(interfaces) = ["Platform"; "FooBar"]
  /\ ~ In "Bar" (Dict.keys getter_model.(interfaces)).
Proof.
  repeat (split; [reflexivity|]).
  simpl. intuition discriminate.
Qed.

Ltac nodup_strings :=
  vm_compute;
  repeat (constructor; [simpl; intuition discriminate|]); constructor.

Ltac fresh_handles :=
  let Hin := fresh "Hin" in
  let Hh := fresh "Hh" in
  intros ? ? ? ? Hin Hh; simpl in Hin;
  repeat (destruct Hin as [Hin | Hin];
          [injection Hin as <- <-; simpl in Hh;
           repeat (destruct Hh as [Hh | Hh];
                   [injection Hh as <- <-; reflexivity|]);
           contradiction|]);
  contradiction.

Lemma wf_getter_files : wf_files getter_files.
Proof.
  constructor; [nodup_strings | nodup_strings | nodup_strings | fresh_handles].
Qed.

(** C9, counterexample.  [EOS_Sessions_Attach] names the handle
    [EOS_HSessions] in its first argument and [EOS_HLobby] in its second;
    [EOS_HLobby] is declared in the header that is read first, and it is
    [EOS_HLobby] that gets the method.  The accessor
    [EOS_Platform_GetFooInterface] takes the platform handle and is given
    to no handle. *)
Lemma C9_counterexample :
  (scan_headers sessions_sdk
   = Ok {| s_files := sessions_files; s_macros := []; s_out := [] |}
   /\ consolidate sessions_files = Ok sessions_model
   /\ Dict.get (methods_of sessions_files "sessions") "EOS_Sessions_Attach"
      = Some {| return_ := "void"; args := attach_args |}
   /\ first_handle_arg (all_handle_names sessions_files) attach_args
      = Some "EOS_HSessions"
   /\ ~ owns sessions_model.(handles) "EOS_HSessions" "EOS_Sessions_Attach"
   /\ owns sessions_model.(handles) "EOS_HLobby" "EOS_Sessions_Attach")
  /\ (scan_headers platform_sdk
      = Ok {| s_files := platform_files; s_macros := []; s_out := [] |}
      /\ consolidate platform_files = Ok platform_model
      /\ first_handle_arg (all_handle_names platform_files)
           [ {| type := "EOS_HPlatform"; name := "Handle" |} ]
         = Some "EOS_HPlatform"
      /\ forall h, ~ owns platform_model.(handles) h
                     "EOS_Platform_GetFooInterface").
Proof.
  split.
  - repeat (split; [reflexivity|]). split.
    + intros [hi [G Hin]]. vm_compute in G. injection G as <-.
      exact Hin.
    + eexists. split; [reflexivity|]. simpl. tauto.
  - repeat (split; [reflexivity|]).
    intros h [hi [G Hin]]. simpl in G.
    destruct (String.eqb h "EOS_HPlatform"); [|discriminate].
    injection G as <-. exact Hin.
Qed.

(** C9, amended.  After a consolidation that completes, every method that
    is neither an interface accessor nor a release method and that has an
    argument whose decayed type is a declared handle is in the method
    table of exactly one handle.  That handle is found by going through
    the files in table order: in the first file that declares a handle
    named by one of the arguments, the first such argument wins.  The
    method is left in no per-file method table, so it is not filed as
    unhandled. *)
Theorem C9_handle_ownership (files : Dict.t file_info) (g : model)
    (jm m : string) (mi : method_info)
    (Hwf : wf_files files)
    (Hrun : consolidate files = Ok g)
    (Hm : In (m, mi) (methods_of files jm))
    (Hget : is_interface_getter m = false)
    (Hrel : endswith m "_Release" = false)
    (Harg : exists a, In a mi.(args)
              /\ In (_decay_eos_type a.(type)) (all_handle_names files)) :
  exists h, owner_of files mi.(args) = Some h
    /\ (forall h', owns g.(handles) h' m <-> h' = h)
    /\ ~ In m (Dict.keys g.(unhandled_methods)).
Proof.
  apply owner_of_some in Harg.
  destruct (owner_of files (args mi)) as [h|] eqn:Hown; [|congruence].
  exists h. split; [reflexivity|].
  destruct (consolidate_tables files Hwf g Hrun)
    as (c & Hc & _ & _ & Ho & Hu).
  destruct (loops_settle files Hwf jm m h mi c Hm Hget Hrel Hown Hc)
    as (_ & il & Sm & So).
  split.
  - intros h'. rewrite Ho. split.
    + intros [k Hk]. apply So in Hk. tauto.
    + intros ->. exists il. apply So. tauto.
  - intros Hin. destruct (Hu m Hin) as (k & xi & Hk). exact (Sm k xi Hk).
Qed.

Lemma wf_sessions_files : wf_files sessions_files.
Proof.
  constructor; [nodup_strings | nodup_strings | nodup_strings | fresh_handles].
Qed.

Lemma C9_witness :
  exists h,
    owner_of sessions_files attach_args = Some h
    /\ (forall h', owns sessions_model.(handles) h' "EOS_Sessions_Attach"
                   <-> h' = h)
    /\ ~ In "EOS_Sessions_Attach" (Dict.keys sessions_model.(unhandled_methods)).
Proof.
  apply (C9_handle_ownership sessions_files sessions_model "sessions"
           "EOS_Sessions_Attach"
           {| return_ := "void"; args := attach_args |}).
  - exact wf_sessions_files.
  - reflexivity.
  - simpl. tauto.
  - reflexivity.
  - reflexivity.
  - exists {| type := "EOS_HSessions"; name := "Handle" |}. simpl. tauto.
Defined.

(* ================================================================== *)
(** * Runs on the example headers *)
(* ================================================================== *)

(** A handle, an options struct with two fields and a method that takes
    both: the method goes to the handle, nothing is left unhandled, the
    struct is input only, gets the two to-native flags and is expanded. *)
Example run_on_h :
  parse_all_file h_sdk
  = Ok (h_model, _make_additional_method_requirements h_model, [])
  /\ owns h_model.(handles) "EOS_HH" "EOS_H_SetName"
  /\ h_model.(unhandled_methods) = []
  /\ h_model.(unhandled_callbacks) = []
  /\ own_flags h_model "EOS_H_SetNameOptions"
     = {| set_from := false; from := false; set_to := true; to := true |}
  /\ flags_of h_model "EOS_H_SetNameOptions"
     = Some {| set_from := false; from := false;
               set_to := true; to := true |}
  /\ _is_expended_struct h_model "const EOS_H_SetNameOptions*" = true.
Proof.
  split; [vm_compute; reflexivity|].
  split; [eexists; split; [reflexivity|]; simpl; tauto|].
  repeat split; vm_compute; reflexivity.
Qed.

(** The struct of [eos_players.h] as the scanner records it. *)
Example run_on_players :
  parse_all_file players_sdk
  = Ok (players_model, _make_additional_method_requirements players_model,
        [])
  /\ Dict.get players_model.(structs) "EOS_Players_List"
     = Some player_names_struct.
Proof. split; vm_compute; reflexivity. Qed.

(** The scanner on the struct block with the bad line, inside a run: the
    line is printed and the run goes on to its end. *)
Example run_on_bad_line :
  match parse_all_file (include_dir [("eos_foo.h", struct_with_bad_line)])
  with
  | Ok (g, _, out) =>
      out = [PrintError 3 (member_line "uint32_t;")]
      /\ Dict.get g.(structs) "EOS_Foo_Options"
         = Some [("ApiVersion", "int32_t"); ("Name", "const char*")]
  | Raise _ => False
  end.
Proof. vm_compute. split; reflexivity. Qed.

(** A release method whose handle is declared in the first file of the
    table is put twice on the list of methods to remove, and the second
    [pop] raises. *)
Example release_in_first_file :
  consolidate
    [("common",
      {| file_enums := [];
         file_methods :=
           [("EOS_Thing_Release",
             {| return_ := "void";
                args := [ {| type := "EOS_HThing"; name := "Handle" |} ] |})];
         file_callbacks := []; file_structs := [];
         file_handles := [("EOS_HThing", empty_handle)] |})]
  = Raise KeyError.
Proof. vm_compute. reflexivity. Qed.

(* ================================================================== *)
(** * What the scanner hands to the consolidation *)
(* ================================================================== *)

Lemma in_set {V : Type} (d : Dict.t V) (k x : string) (v v' : V) :
  In (x, v') (Dict.set d k v) -> (x = k /\ v' = v) \/ In (x, v') d.
Proof.
  induction d as [|[k0 v0] d IH]; simpl.
  - intros [[= <- <-] | []]. now left.
  - destruct (String.eqb k k0); simpl.
    + intros [[= <- <-] | H]; [now left | right; now right].
    + intros [H | H]; [right; now left|].
      destruct (IH H) as [H' | H']; [now left | right; now right].
Qed.

(** An invariant of every turn is an invariant of a loop over the
    lines. *)
Lemma scan_lines_invariant {St R : Type}
    (body : St -> nat -> string -> list string -> result (turn St R))
    (at_end : St -> result R) (P : St -> Prop) (Q : R -> Prop) :
  (forall s i line after s' i',
     P s -> body s i line after = Ok (Continue s' i') -> P s') ->
  (forall s i line after r,
     P s -> body s i line after = Ok (Break r) -> Q r) ->
  (forall s r, P s -> at_end s = Ok r -> Q r) ->
  forall rest pos i s r,
    P s -> scan_lines body at_end rest pos i s = Ok r -> Q r.
Proof.
  intros Hcont Hbreak Hend. induction rest as [|line after IH];
    intros pos i s r HP; simpl.
  - now apply Hend.
  - destruct (pos <? i)%nat; [now apply IH|].
    destruct (body s i line after) as [[s' i'|r']|e] eqn:E; cbn [bind].
    + apply IH. eapply Hcont; eassumption.
    + intros [= <-]. eapply Hbreak; eassumption.
    + discriminate.
Qed.

Lemma handles_fresh_set (hs : Dict.t handle_info) (h : string) :
  handles_fresh hs -> handles_fresh (Dict.set hs h empty_handle).
Proof.
  intros H h' hi Hin. apply in_set in Hin.
  destruct Hin as [[_ ->] | Hin]; [reflexivity | eapply H, Hin].
Qed.

Lemma file_turn_fresh (s : pstate) (i : nat) (line : string)
    (after : list string) (s' : pstate) (i' : nat) :
  handles_fresh s.(p_info).(file_handles) ->
  file_turn s i line after = Ok (Continue s' i') ->
  handles_fresh s'.(p_info).(file_handles).
Proof.
  intros Hs. unfold file_turn.
  repeat match goal with
  | |- context [if ?b then _ else _] => destruct b
  | |- (match ?r with Ok _ => _ | Raise _ => _ end) = _ -> _ =>
      destruct r; cbn [bind]
  | |- bind ?r _ = _ -> _ => destruct r; cbn [bind]
  | |- (let '(_, _) := ?p in _) = _ -> _ => destruct p
  | |- Raise _ = Ok _ -> _ => discriminate
  | |- Ok (Continue _ _) = Ok (Continue _ _) -> _ =>
      intros [= <- <-]; simpl; try assumption
  end.
  now apply handles_fresh_set.
Qed.

Lemma file_turn_no_break (s : pstate) (i : nat) (line : string)
    (after : list string) (r : pstate) :
  file_turn s i line after <> Ok (Break r).
Proof.
  unfold file_turn.
  repeat match goal with
  | |- context [if ?b then _ else _] => destruct b
  | |- (match ?r with Ok _ => _ | Raise _ => _ end) <> _ =>
      destruct r; cbn [bind]
  | |- bind ?r _ <> _ => destruct r; cbn [bind]
  | |- (let '(_, _) := ?p in _) <> _ => destruct p
  | |- _ <> _ => discriminate
  end.
Qed.

Lemma _parse_file_fresh (lines : list string) (s s' : pstate) :
  handles_fresh s.(p_info).(file_handles) ->
  _parse_file lines s = Ok s' ->
  handles_fresh s'.(p_info).(file_handles).
Proof.
  unfold _parse_file.
  apply (scan_lines_invariant file_turn (fun s => Ok s)
           (fun s => handles_fresh s.(p_info).(file_handles))
           (fun s => handles_fresh s.(p_info).(file_handles))).
  - intros. eapply file_turn_fresh; eassumption.
  - intros s0 i line after r _ E. destruct (file_turn_no_break _ _ _ _ _ E).
  - intros s0 r HP [= <-]. exact HP.
Qed.

Lemma files_fresh_set (files : Dict.t file_info) (k : string)
    (fi : file_info) :
  files_fresh files -> handles_fresh fi.(file_handles) ->
  files_fresh (Dict.set files k fi).
Proof.
  intros Hf Hfi k' fi' Hin. apply in_set in Hin.
  destruct Hin as [[_ ->] | Hin]; [exact Hfi | eapply Hf, Hin].
Qed.

Lemma scan_file_inv (s s' : scan_state) (entry : string * list string) :
  NoDup (Dict.keys s.(s_files)) /\ files_fresh s.(s_files) ->
  scan_file s entry = Ok s' ->
  NoDup (Dict.keys s'.(s_files)) /\ files_fresh s'.(s_files).
Proof.
  intros [Hnd Hfr]. destruct entry as [f lines]. unfold scan_file.
  destruct (contains f "deprecated"); [intros [= <-]; now split|].
  destruct (PyStr.mem f special_headers); [intros [= <-]; now split|].
  set (files := if Dict.mem _ _ then _ else _).
  assert (Hfiles : NoDup (Dict.keys files) /\ files_fresh files).
  { unfold files. destruct (Dict.mem _ _); [now split|]. split.
    - now apply nodup_keys_set.
    - apply files_fresh_set; [assumption | intros ? ? []]. }
  destruct Hfiles as [Hnd' Hfr'].
  destruct (subscript files _) as [fi|] eqn:E1; cbn [bind]; [|discriminate].
  destruct (_parse_file lines _) as [p|] eqn:E2; cbn [bind]; [|discriminate].
  intros [= <-]. simpl. split.
  - now apply nodup_keys_set.
  - apply files_fresh_set; [assumption|].
    eapply _parse_file_fresh; [|exact E2]. simpl.
    apply subscript_ok, get_some_in in E1. eapply Hfr', E1.
Qed.

Lemma read_enum_table_inv (key enum_type prefix : string)
    (member : string -> result string) (lines : list string)
    (files files' : Dict.t file_info) :
  NoDup (Dict.keys files) /\ files_fresh files ->
  read_enum_table key enum_type prefix member lines files = Ok files' ->
  NoDup (Dict.keys files') /\ files_fresh files'.
Proof.
  intros [Hnd Hfr]. unfold read_enum_table.
  destruct (subscript files key) as [fi|] eqn:E1; cbn [bind];
    [|discriminate].
  destruct (foldM _ lines []) as [members|]; cbn [bind]; [|discriminate].
  intros [= <-]. split.
  - now apply nodup_keys_set.
  - apply files_fresh_set; [assumption|]. simpl.
    apply subscript_ok, get_some_in in E1. eapply Hfr, E1.
Qed.

(** The tables that the scanning part builds have unique file keys, and
    their handles have no methods yet. *)
Lemma scan_headers_inv (sdk : sdk_include) (s : scan_state) :
  scan_headers sdk = Ok s ->
  NoDup (Dict.keys s.(s_files)) /\ files_fresh s.(s_files).
Proof.
  unfold scan_headers.
  destruct (foldM scan_file _ _) as [s0|] eqn:E0; cbn [bind];
    [|discriminate].
  assert (H0 : NoDup (Dict.keys s0.(s_files)) /\ files_fresh s0.(s_files)).
  { revert E0.
    apply (foldM_invariant scan_file
             (fun s => NoDup (Dict.keys s.(s_files))
                       /\ files_fresh s.(s_files))).
    - intros s1 a s2 _. apply scan_file_inv.
    - simpl. split; [repeat constructor; simpl; tauto|].
      intros k fi [[= <- <-] | []] h hi []. }
  unfold _get_EOS_EResult, _get_EOS_UI_EKeyCombination,
    _get_EOS_UI_EInputStateButtonFlags.
  destruct (read_enum_table _ _ _ _ (eos_result_h sdk) _) as [f1|] eqn:E1;
    cbn [bind]; [|discriminate].
  destruct (read_enum_table _ _ _ _ (eos_ui_keys_h sdk) _) as [f2|] eqn:E2;
    cbn [bind]; [|discriminate].
  destruct (read_enum_table _ _ _ _ (eos_ui_buttons_h sdk) _) as [f3|] eqn:E3;
    cbn [bind]; [|discriminate].
  intros [= <-]. simpl.
  eapply read_enum_table_inv; [|exact E3].
  eapply read_enum_table_inv; [|exact E2].
  eapply read_enum_table_inv; [|exact E1].
  exact H0.
Qed.

(** With every method and every handle declared once over all headers,
    the scanned tables are well formed. *)
Lemma scan_headers_wf (sdk : sdk_include) (s : scan_state) :
  scan_headers sdk = Ok s ->
  NoDup (all_method_names s.(s_files)) ->
  NoDup (all_handle_names s.(s_files)) ->
  wf_files s.(s_files).
Proof.
  intros Hscan Hm Hh. destruct (scan_headers_inv sdk s Hscan) as [Hk Hf].
  constructor; try assumption.
  intros il fi h hi Hfi Hhi. eapply Hf; eassumption.
Qed.

(* ================================================================== *)
(** * The whole run *)
(* ================================================================== *)

Lemma parse_all_file_parts (sdk : sdk_include) (g : model)
    (r : requirements) (out : list parse_print) :
  parse_all_file sdk = Ok (g, r, out) ->
  exists s,
    scan_headers sdk = Ok s
    /\ consolidate s.(s_files) = Ok g
    /\ r = _make_additional_method_requirements g
    /\ out = s.(s_out).
Proof.
  unfold parse_all_file.
  destruct (scan_headers sdk) as [s|]; cbn [bind]; [|discriminate].
  destruct (consolidate (s_files s)) as [g'|] eqn:E; cbn [bind];
    [|discriminate].
  intros [= <- <- <-]. exists s. repeat split; try reflexivity. exact E.
Qed.

(** Handle ownership for a run from the header text: when every method
    and every handle is declared once over all headers and the run
    completes, a method that is neither accessor nor release method and
    names a declared handle is owned by exactly the handle [owner_of]
    gives, and is not filed as unhandled. *)
Lemma run_handle_ownership (sdk : sdk_include) (s : scan_state) (g : model)
    (r : requirements) (out : list parse_print)
    (jm m : string) (mi : method_info) :
  scan_headers sdk = Ok s ->
  NoDup (all_method_names s.(s_files)) ->
  NoDup (all_handle_names s.(s_files)) ->
  parse_all_file sdk = Ok (g, r, out) ->
  In (m, mi) (methods_of s.(s_files) jm) ->
  is_interface_getter m = false ->
  endswith m "_Release" = false ->
  forall h, owner_of s.(s_files) mi.(args) = Some h ->
  (forall h', owns g.(handles) h' m <-> h' = h)
  /\ ~ In m (Dict.keys g.(unhandled_methods)).
Proof.
  intros Hscan Hnm Hnh Hrun Hm Hget Hrel h Hown.
  pose proof (scan_headers_wf sdk s Hscan Hnm Hnh) as Hwf.
  destruct (parse_all_file_parts sdk g r out Hrun)
    as (s' & Hscan' & Hcons & _ & _).
  rewrite Hscan in Hscan'. injection Hscan' as <-.
  destruct (consolidate_tables _ Hwf g Hcons) as (c & Hc & _ & _ & Ho & Hu).
  destruct (loops_settle _ Hwf jm m h mi c Hm Hget Hrel Hown Hc)
    as (_ & il & Sm & So).
  split.
  - intros h'. rewrite Ho. split.
    + intros [k Hk]. apply So in Hk. tauto.
    + intros ->. exists il. apply So. tauto.
  - intros Hin. destruct (Hu m Hin) as (k & xi & Hk). exact (Sm k xi Hk).
Qed.

(** Accessor extraction for a run from the header text. *)
Lemma run_accessor_extracted (sdk : sdk_include) (s : scan_state)
    (g : model) (r : requirements) (out : list parse_print)
    (jm m : string) (mi : method_info) :
  scan_headers sdk = Ok s ->
  NoDup (all_method_names s.(s_files)) ->
  NoDup (all_handle_names s.(s_files)) ->
  parse_all_file sdk = Ok (g, r, out) ->
  In (m, mi) (methods_of s.(s_files) jm) ->
  is_interface_getter m = true ->
  In (interface_key m) (Dict.keys g.(interfaces))
  /\ ~ In m (Dict.keys g.(unhandled_methods)).
Proof.
  intros Hscan Hnm Hnh Hrun Hm Hget.
  pose proof (scan_headers_wf sdk s Hscan Hnm Hnh) as Hwf.
  destruct (parse_all_file_parts sdk g r out Hrun)
    as (s' & Hscan' & Hcons & _ & _).
  rewrite Hscan in Hscan'. injection Hscan' as <-.
  eapply accessor_extracted; eassumption.
Qed.

(* ================================================================== *)
(** * More facts about the string methods *)
(* ================================================================== *)

Lemma mem_char_app (c : ascii) (a b : string) :
  mem_char c (a ++ b) = mem_char c a || mem_char c b.
Proof.
  induction a as [|d a IH]; simpl; [reflexivity|].
  now rewrite IH, orb_assoc.
Qed.

Lemma starts_with_any_app (a b s : string) :
  starts_with_any (a ++ b) s = starts_with_any a s || starts_with_any b s.
Proof. destruct s; simpl; [reflexivity | apply mem_char_app]. Qed.

Lemma ends_with_any_app (a b s : string) :
  ends_with_any (a ++ b) s = ends_with_any a s || ends_with_any b s.
Proof.
  induction s as [|c r IH]; simpl; [reflexivity|].
  destruct r; [apply mem_char_app | exact IH].
Qed.

Lemma rstrip_shortens (chars s : string) :
  ends_with_any chars s = true ->
  String.length (rstrip chars s) < String.length s.
Proof.
  induction s as [|c r IH]; simpl; [discriminate|].
  destruct r as [|d r'].
  - simpl. intros ->. simpl. lia.
  - intros H. specialize (IH H).
    destruct (rstrip chars (String d r')); [destruct (mem_char c chars)|];
      simpl in *; lia.
Qed.

(** A strip that keeps the length has found nothing to strip. *)
Lemma lstrip_same_length (chars s : string) :
  String.length (lstrip chars s) = String.length s ->
  starts_with_any chars s = false.
Proof.
  intros H. destruct (starts_with_any chars s) eqn:E; [|reflexivity].
  apply lstrip_shortens in E. lia.
Qed.

Lemma rstrip_same_length (chars s : string) :
  String.length (rstrip chars s) = String.length s ->
  ends_with_any chars s = false.
Proof.
  intros H. destruct (ends_with_any chars s) eqn:E; [|reflexivity].
  apply rstrip_shortens in E. lia.
Qed.

Lemma starts_with_any_lstrip (chars s : string) :
  starts_with_any chars (lstrip chars s) = false.
Proof.
  induction s as [|c r IH]; simpl; [reflexivity|].
  destruct (mem_char c chars) eqn:E; [exact IH|]. simpl. exact E.
Qed.

Lemma ends_with_any_rstrip (chars s : string) :
  ends_with_any chars (rstrip chars s) = false.
Proof.
  induction s as [|c r IH]; simpl; [reflexivity|].
  destruct (rstrip chars r) as [|d r'] eqn:E.
  - destruct (mem_char c chars) eqn:Ec; simpl; [reflexivity | exact Ec].
  - exact IH.
Qed.

Lemma starts_with_any_rstrip (chars chars' s : string) :
  starts_with_any chars s = false ->
  starts_with_any chars (rstrip chars' s) = false.
Proof.
  destruct s as [|c r]; simpl; [reflexivity|].
  intros H. destruct (rstrip chars' r); [destruct (mem_char c chars')|];
    simpl; auto.
Qed.

(* ================================================================== *)
(** * Type decay: what it keeps and what it returns *)
(* ================================================================== *)

(** A decay that keeps the length has found nothing to strip. *)
Lemma decay_same_length (t : string) :
  String.length (_decay_eos_type t) = String.length t ->
  starts_with_any "const " t = false /\ ends_with_any "*& " t = false.
Proof.
  change "const " with ("const" ++ " ")%string.
  change "*& " with ("*" ++ "&" ++ " ")%string.
  rewrite starts_with_any_app, !ends_with_any_app, !orb_false_iff.
  intros L. unfold _decay_eos_type in L.
  set (a1 := lstrip "const" t) in *.
  set (a2 := lstrip " " a1) in *.
  set (a3 := rstrip "*" a2) in *.
  set (a4 := rstrip "&" a3) in *.
  set (a5 := rstrip "*" a4) in *.
  set (a6 := rstrip "&" a5) in *.
  set (a7 := lstrip " " a6) in *.
  pose proof (lstrip_length "const" t) as L1.
  pose proof (lstrip_length " " a1) as L2.
  pose proof (rstrip_length "*" a2) as L3.
  pose proof (rstrip_length "&" a3) as L4.
  pose proof (rstrip_length "*" a4) as L5.
  pose proof (rstrip_length "&" a5) as L6.
  pose proof (lstrip_length " " a6) as L7.
  pose proof (rstrip_length " " a7) as L8.
  fold a1 in L1. fold a2 in L2. fold a3 in L3. fold a4 in L4.
  fold a5 in L5. fold a6 in L6. fold a7 in L7.
  assert (H1 : starts_with_any "const" t = false)
    by (apply lstrip_same_length; fold a1; lia).
  assert (E1 : a1 = t) by (apply lstrip_unchanged, H1).
  assert (H2 : starts_with_any " " a1 = false)
    by (apply lstrip_same_length; fold a2; lia).
  assert (E2 : a2 = a1) by (apply lstrip_unchanged, H2).
  assert (H3 : ends_with_any "*" a2 = false)
    by (apply rstrip_same_length; fold a3; lia).
  assert (E3 : a3 = a2) by (apply rstrip_unchanged, H3).
  assert (H4 : ends_with_any "&" a3 = false)
    by (apply rstrip_same_length; fold a4; lia).
  assert (E4 : a4 = a3) by (apply rstrip_unchanged, H4).
  assert (E5 : a5 = a4).
  { apply rstrip_unchanged, rstrip_same_length. fold a5. lia. }
  assert (E6 : a6 = a5).
  { apply rstrip_unchanged, rstrip_same_length. fold a6. lia. }
  assert (E7 : a7 = a6).
  { apply lstrip_unchanged, lstrip_same_length. fold a7. lia. }
  assert (H8 : ends_with_any " " a7 = false)
    by (apply rstrip_same_length; lia).
  assert (Et : a7 = t) by congruence.
  rewrite Et in H8.
  rewrite E1 in H2.
  assert (Et3 : a2 = t) by congruence. rewrite Et3 in H3.
  assert (Et4 : a3 = t) by congruence. rewrite Et4 in H4.
  auto.
Qed.

(** X1.  [_decay_eos_type] returns its argument unchanged exactly when the
    argument begins with none of the characters c, o, n, s, t and blank,
    and ends with none of [*], [&] and blank; every other type name comes
    back shorter. *)
Theorem decay_fixed_point (t : string) :
  (_decay_eos_type t = t
   <-> starts_with_any "const " t = false /\ ends_with_any "*& " t = false)
  /\ (_decay_eos_type t <> t ->
      String.length (_decay_eos_type t) < String.length t).
Proof.
  assert (Back : starts_with_any "const " t = false
                 /\ ends_with_any "*& " t = false ->
                 _decay_eos_type t = t).
  { change "const " with ("const" ++ " ")%string.
    change "*& " with ("*" ++ "&" ++ " ")%string.
    rewrite starts_with_any_app, !ends_with_any_app, !orb_false_iff.
    intros [[H1 H2] [H3 [H4 H5]]].
    unfold _decay_eos_type.
    rewrite (lstrip_unchanged "const" t H1).
    rewrite (lstrip_unchanged " " t H2).
    rewrite (rstrip_unchanged "*" t H3).
    rewrite (rstrip_unchanged "&" t H4).
    rewrite (rstrip_unchanged "*" t H3).
    rewrite (rstrip_unchanged "&" t H4).
    rewrite (lstrip_unchanged " " t H2).
    apply rstrip_unchanged, H5. }
  split; [split; [|exact Back]|].
  - intros E. apply decay_same_length. now rewrite E.
  - intros Hne. pose proof (_decay_eos_type_length t) as Hle.
    pose proof (lstrip_length "const" t) as Hle'.
    destruct (Nat.eq_dec (String.length (_decay_eos_type t))
                (String.length t)) as [Heq|Hlt]; [|lia].
    exfalso. apply Hne, Back, decay_same_length, Heq.
Qed.

(** X2.  Whatever the argument, the result of [_decay_eos_type] has no
    blank in front and no blank behind; a pointer mark can survive (only
    two rounds of [*] and [&] are stripped, and none behind a blank). *)
Theorem decay_result_has_no_blank_ends (t : string) :
  starts_with_any " " (_decay_eos_type t) = false
  /\ ends_with_any " " (_decay_eos_type t) = false
  /\ _decay_eos_type "int*&*&*" = "int*"
  /\ _decay_eos_type "int* " = "int*".
Proof.
  unfold _decay_eos_type. split; [|split; [|split; reflexivity]].
  - apply starts_with_any_rstrip, starts_with_any_lstrip.
  - apply ends_with_any_rstrip.
Qed.

(* ================================================================== *)
(** * Snake case *)
(* ================================================================== *)

Lemma chars_app (a b : string) :
  list_ascii_of_string (a ++ b)
  = (list_ascii_of_string a ++ list_ascii_of_string b)%list.
Proof. induction a as [|c a IH]; simpl; [reflexivity | now rewrite IH]. Qed.

(** Every character of [s.replace(old, new)] comes from [s] or from
    [new]. *)
Lemma replace_go_chars (old new : string) (c : ascii) (s : string) :
  forall skip,
    In c (list_ascii_of_string (replace_go old new skip s)) ->
    In c (list_ascii_of_string new) \/ In c (list_ascii_of_string s).
Proof.
  induction s as [|d r IH]; intros skip; [simpl; tauto|].
  cbn [replace_go]. destruct skip as [|k].
  - destruct (startswith (String d r) old).
    + rewrite chars_app, in_app_iff. intros [H|H]; [now left|].
      destruct (IH _ H); simpl; auto.
    + simpl. intros [H|H]; [auto|]. destruct (IH _ H); auto.
  - intros H. destruct (IH _ H); simpl; auto.
Qed.

Lemma lstrip_chars (chars : string) (c : ascii) (s : string) :
  In c (list_ascii_of_string (lstrip chars s)) ->
  In c (list_ascii_of_string s).
Proof.
  induction s as [|d r IH]; simpl; [tauto|].
  destruct (mem_char d chars); simpl; auto.
Qed.

Lemma lower_char_not_upper (c : ascii) : isupper (lower_char c) = false.
Proof.
  unfold lower_char. destruct (isupper c) eqn:E; [|exact E].
  unfold isupper in *. apply andb_true_iff in E. destruct E as [E1 E2].
  apply Nat.leb_le in E1, E2.
  rewrite nat_ascii_embedding by lia.
  apply andb_false_iff. right. apply Nat.leb_gt. lia.
Qed.

Lemma snake_chars_not_upper (text : string) (c : ascii) :
  In c (list_ascii_of_string (snake_chars text)) -> isupper c = false.
Proof.
  induction text as [|d r IH]; simpl; [tauto|].
  destruct (isupper d) eqn:E; simpl.
  - intros [<-|[<-|H]]; [reflexivity | apply lower_char_not_upper | auto].
  - intros [<-|H]; auto.
Qed.

(** A replacement whose new text does not begin with [chars] cannot put
    one of them in front. *)
Lemma replace_keeps_front (old new chars s : string) :
  new <> "" ->
  starts_with_any chars new = false ->
  starts_with_any chars s = false ->
  starts_with_any chars (replace old new s) = false.
Proof.
  intros Hne Hnew. unfold replace. destruct s as [|d r]; [simpl; auto|].
  cbn [replace_go]. intros Hd. destruct (startswith (String d r) old).
  - destruct new as [|e new']; [congruence|]. exact Hnew.
  - exact Hd.
Qed.

(** X3.  A name converted by [to_snake_case] contains no upper-case letter
    and does not begin with an underscore. *)
Theorem to_snake_case_is_lower (text : string) :
  (forall c, In c (list_ascii_of_string (to_snake_case text)) ->
             isupper c = false)
  /\ startswith (to_snake_case text) "_" = false.
Proof.
  unfold to_snake_case. split.
  - intros c H. unfold replace in H.
    repeat match type of H with
    | In _ (list_ascii_of_string (replace_go _ _ _ _)) =>
        apply replace_go_chars in H;
        destruct H as [H|H];
        [simpl in H;
         repeat (destruct H as [<-|H]; [reflexivity|]); contradiction |]
    end.
    apply lstrip_chars in H. eapply snake_chars_not_upper, H.
  - assert (F : forall s, startswith s "_" = starts_with_any "_" s).
    { intros [|d r]; simpl; [reflexivity|].
      rewrite orb_false_r, Ascii.eqb_sym.
      destruct r; now rewrite andb_true_r. }
    rewrite F.
    repeat (apply replace_keeps_front; [discriminate | reflexivity |]).
    apply starts_with_any_lstrip.
Qed.

(* ================================================================== *)
(** * Concatenation, suffixes and splitting *)
(* ================================================================== *)

Lemma sapp_nil_r (s : string) : (s ++ "")%string = s.
Proof. induction s as [|c s IH]; simpl; [reflexivity | now rewrite IH]. Qed.

Lemma sapp_assoc (a b c : string) :
  ((a ++ b) ++ c)%string = (a ++ (b ++ c))%string.
Proof. induction a as [|x a IH]; simpl; [reflexivity | now rewrite IH]. Qed.

Lemma slength_app (a b : string) :
  String.length (a ++ b) = String.length a + String.length b.
Proof. induction a as [|x a IH]; simpl; [reflexivity | now rewrite IH]. Qed.

Lemma sapp_cancel_r (a a' p : string) :
  (a ++ p)%string = (a' ++ p)%string -> a = a'.
Proof.
  revert a'. induction a as [|x a IH]; intros [|y a'] H; simpl in H.
  - reflexivity.
  - apply (f_equal String.length) in H. simpl in H.
    rewrite slength_app in H. lia.
  - apply (f_equal String.length) in H. simpl in H.
    rewrite slength_app in H. lia.
  - injection H as -> H. f_equal. now apply IH.
Qed.

Lemma endswith_unfold (s p : string) :
  endswith s p
  = if String.eqb s p then true
    else match s with
         | EmptyString => false
         | String _ r => endswith r p
         end.
Proof. destruct s; reflexivity. Qed.

Lemma endswith_iff (s p : string) :
  endswith s p = true <-> exists a, s = (a ++ p)%string.
Proof.
  split.
  - induction s as [|c r IH]; rewrite endswith_unfold.
    + destruct (String.eqb "" p) eqn:E; [|discriminate].
      apply String.eqb_eq in E. subst p. now exists "".
    + destruct (String.eqb (String c r) p) eqn:E.
      * apply String.eqb_eq in E. subst p. now exists "".
      * intros H. destruct (IH H) as [a ->]. now exists (String c a).
  - intros [a ->]. induction a as [|c a IH]; rewrite endswith_unfold.
    + simpl. now rewrite String.eqb_refl.
    + destruct (String.eqb _ p); [reflexivity | exact IH].
Qed.

Lemma endswith_app_r (a b p : string) :
  endswith (a ++ p) (b ++ p) = endswith a b.
Proof.
  destruct (endswith a b) eqn:E.
  - apply endswith_iff in E. destruct E as [x ->].
    apply endswith_iff. exists x. now rewrite sapp_assoc.
  - destruct (endswith (a ++ p) (b ++ p)) eqn:E'; [|reflexivity].
    apply endswith_iff in E'. destruct E' as [x Hx].
    rewrite <- sapp_assoc in Hx. apply sapp_cancel_r in Hx.
    assert (endswith a b = true) by (apply endswith_iff; now exists x).
    congruence.
Qed.

Lemma take_app (a p : string) : take (String.length a) (a ++ p) = a.
Proof. induction a as [|c a IH]; simpl; [now destruct p | now rewrite IH]. Qed.

Lemma drop_app (p r : string) : drop (String.length p) (p ++ r) = r.
Proof. induction p as [|c p IH]; simpl; [reflexivity | exact IH]. Qed.

Lemma removesuffix_app (a p : string) :
  p <> "" -> removesuffix (a ++ p) p = a.
Proof.
  intros Hp. unfold removesuffix. destruct p as [|c p]; [congruence|].
  assert (E : endswith (a ++ String c p) (String c p) = true)
    by (apply endswith_iff; now exists a).
  rewrite E, slength_app.
  replace (String.length a + String.length (String c p)
           - String.length (String c p)) with (String.length a) by lia.
  apply take_app.
Qed.

Lemma removesuffix_none (s p : string) :
  endswith s p = false -> removesuffix s p = s.
Proof. intros H. unfold removesuffix. destruct p; [reflexivity|]. now rewrite H. Qed.

Lemma removeprefix_app (p r : string) : removeprefix (p ++ r) p = r.
Proof. unfold removeprefix. rewrite startswith_app. apply drop_app. Qed.

Lemma contains_unfold (s sub : string) :
  contains s sub
  = if startswith s sub then true
    else match s with
         | EmptyString => false
         | String _ r => contains r sub
         end.
Proof. destruct s; reflexivity. Qed.

(** [old not in s]: the replacement changes nothing. *)
Lemma replace_absent (old new s : string) :
  contains s old = false -> replace old new s = s.
Proof.
  unfold replace. induction s as [|c r IH]; [reflexivity|].
  rewrite contains_unfold. cbn [replace_go].
  destruct (startswith (String c r) old); [discriminate|].
  intros H. now rewrite (IH H).
Qed.

(** [c in s] for a one-character [c], as the script writes it. *)
Lemma contains_char (c : ascii) (s : string) :
  contains s (String c "") = mem_char c s.
Proof.
  induction s as [|d r IH]; [reflexivity|].
  rewrite contains_unfold. cbn [startswith mem_char].
  rewrite startswith_nil, andb_true_r.
  destruct (Ascii.eqb c d); [reflexivity | exact IH].
Qed.

Lemma srev_app (a b : string) :
  srev (a ++ b) = (srev b ++ srev a)%string.
Proof.
  induction a as [|c a IH]; simpl; [now rewrite sapp_nil_r|].
  now rewrite IH, sapp_assoc.
Qed.

Lemma srev_involutive (s : string) : srev (srev s) = s.
Proof.
  induction s as [|c s IH]; simpl; [reflexivity|].
  rewrite srev_app, IH. reflexivity.
Qed.

Lemma mem_char_srev (c : ascii) (s : string) :
  mem_char c (srev s) = mem_char c s.
Proof.
  induction s as [|d s IH]; simpl; [reflexivity|].
  rewrite mem_char_app, IH. simpl. rewrite orb_false_r. apply orb_comm.
Qed.

(** A text without the first character of the separator is one piece. *)
Lemma split_go_absent (c0 : ascii) (sep' : string) (s : string) :
  forall n cur,
    mem_char c0 s = false ->
    split_go (String c0 sep') 0 n cur s = [(cur ++ s)%string].
Proof.
  induction s as [|d r IH]; intros n cur H.
  - simpl. now rewrite sapp_nil_r.
  - cbn [mem_char] in H. apply orb_false_iff in H. destruct H as [Hd Hr].
    cbn [split_go startswith]. rewrite Hd, andb_false_r. cbn [andb].
    rewrite (IH n _ Hr), sapp_assoc. reflexivity.
Qed.

(** Once the allowed splits are used up the rest is one piece. *)
Lemma split_go_spent (sep : string) (s : string) :
  forall cur, split_go sep 0 0 cur s = [(cur ++ s)%string].
Proof.
  induction s as [|d r IH]; intros cur.
  - simpl. now rewrite sapp_nil_r.
  - cbn [split_go]. cbn [Nat.ltb Nat.leb andb].
    rewrite IH, sapp_assoc. reflexivity.
Qed.

(** The characters of a separator that was just matched are passed
    over. *)
Lemma split_go_skip (sep p : string) :
  forall n cur r,
    split_go sep (String.length p) n cur (p ++ r)
    = split_go sep 0 n cur r.
Proof.
  induction p as [|x p IH]; intros n cur r; [reflexivity|].
  simpl. apply IH.
Qed.

(** The first piece: the text up to the first separator, when the first
    character of the separator does not occur in it. *)
Lemma split_go_first (c0 : ascii) (sep' a : string) :
  forall n cur r,
    mem_char c0 a = false ->
    split_go (String c0 sep') 0 (S n) cur (a ++ String c0 sep' ++ r)
    = (cur ++ a)%string :: split_go (String c0 sep') 0 n "" r.
Proof.
  induction a as [|d a IH]; intros n cur r H.
  - cbn [append split_go startswith]. rewrite Ascii.eqb_refl, startswith_app.
    cbn [Nat.ltb Nat.leb andb String.length].
    rewrite !Nat.sub_succ, !Nat.sub_0_r, sapp_nil_r. f_equal.
    apply split_go_skip.
  - cbn [mem_char] in H. apply orb_false_iff in H. destruct H as [Hd Ha].
    change (String d a ++ String c0 sep' ++ r)%string
      with (String d (a ++ String c0 sep' ++ r)).
    cbn [split_go startswith]. rewrite Hd, andb_false_r. cbn [andb].
    rewrite (IH n _ r Ha), sapp_assoc. reflexivity.
Qed.

(** With enough splits allowed, their number does not matter. *)
Lemma split_go_enough (sep : string) (s : string) :
  forall skip n n' cur,
    String.length s < n -> String.length s < n' ->
    split_go sep skip n cur s = split_go sep skip n' cur s.
Proof.
  induction s as [|d r IH]; intros skip n n' cur Hn Hn'; [reflexivity|].
  simpl in Hn, Hn'. cbn [split_go]. destruct skip as [|k].
  - destruct n as [|n]; [lia|]. destruct n' as [|n']; [lia|].
    cbn [Nat.ltb Nat.leb andb].
    destruct (startswith (String d r) sep).
    + f_equal. apply IH; simpl; lia.
    + apply IH; lia.
  - apply IH; lia.
Qed.

Lemma split_first (c0 : ascii) (sep' a r : string) :
  mem_char c0 a = false ->
  split (String c0 sep') None (a ++ String c0 sep' ++ r)
  = a :: split (String c0 sep') None r.
Proof.
  intros H. unfold split. rewrite (split_go_first c0 sep' a _ "" r H).
  cbn [append]. f_equal. apply split_go_enough.
  - rewrite !slength_app. cbn [String.length]. rewrite slength_app. lia.
  - lia.
Qed.

Lemma split_absent (c0 : ascii) (sep' s : string) (m : option nat) :
  mem_char c0 s = false -> split (String c0 sep') m s = [s].
Proof. intros H. unfold split. now rewrite split_go_absent. Qed.

(* ================================================================== *)
(** * Interface names of header files *)
(* ================================================================== *)

Lemma rsplit_no_directory (f : string) :
  contains f backslash = false ->
  rsplit backslash (Some 1) f = [f].
Proof.
  unfold backslash. rewrite contains_char. intros H.
  unfold rsplit. cbn [srev append].
  rewrite split_absent by now rewrite mem_char_srev.
  simpl. now rewrite srev_involutive.
Qed.

(** X4.  The two headers of an interface, [eos_X.h] and [eos_X_types.h],
    are given the same interface name [X], so their declarations go to
    one table.  This holds when [eos_X] does not end in [_types] or [.h]
    and does not contain [_sdk] (the file [eos_types.h] is named
    [platform] instead). *)
Theorem header_pair_shares_interface_name (X : string)
    (Hdir : contains X backslash = false)
    (Htypes : endswith ("eos_" ++ X) "_types" = false)
    (Hh : endswith ("eos_" ++ X) ".h" = false)
    (Hsdk : contains ("eos_" ++ X) "_sdk" = false) :
  _convert_to_interface_lower ("eos_" ++ X ++ ".h") = X
  /\ _convert_to_interface_lower ("eos_" ++ X ++ "_types.h") = X.
Proof.
  assert (Hsep : forall tail, contains tail backslash = false ->
                   contains ("eos_" ++ X ++ tail) backslash = false).
  { intros tail Ht. unfold backslash in *. rewrite contains_char in *.
    rewrite !mem_char_app, Hdir, Ht. reflexivity. }
  assert (A1 : ("eos_" ++ X ++ ".h")%string = (("eos_" ++ X) ++ ".h")%string)
    by now rewrite sapp_assoc.
  assert (A2 : ("eos_" ++ X ++ "_types.h")%string
               = (("eos_" ++ X) ++ "_types.h")%string)
    by now rewrite sapp_assoc.
  split; unfold _convert_to_interface_lower.
  - rewrite rsplit_no_directory by (apply Hsep; reflexivity).
    cbn [List.last].
    destruct (String.eqb ("eos_" ++ X ++ ".h") "eos_types.h") eqn:E.
    { apply String.eqb_eq in E.
      change "eos_types.h" with ("eos_" ++ "types" ++ ".h")%string in E.
      injection E as E. apply (sapp_cancel_r X "types" ".h") in E.
      subst X. discriminate. }
    rewrite A1.
    rewrite (removesuffix_none (("eos_" ++ X) ++ ".h") "_types.h").
    2:{ change "_types.h" with ("_types" ++ ".h")%string.
        now rewrite endswith_app_r. }
    rewrite removesuffix_app by discriminate.
    rewrite (replace_absent _ _ _ Hsdk).
    apply removeprefix_app.
  - rewrite rsplit_no_directory by (apply Hsep; reflexivity).
    cbn [List.last].
    destruct (String.eqb ("eos_" ++ X ++ "_types.h") "eos_types.h") eqn:E.
    { apply String.eqb_eq in E. apply (f_equal String.length) in E.
      rewrite !slength_app in E. simpl in E. lia. }
    rewrite A2.
    rewrite (removesuffix_app ("eos_" ++ X) "_types.h") by discriminate.
    rewrite (removesuffix_none _ _ Hh).
    rewrite (replace_absent _ _ _ Hsdk).
    apply removeprefix_app.
Qed.

Lemma header_pair_shares_interface_name_witness :
  _convert_to_interface_lower "eos_auth.h" = "auth"
  /\ _convert_to_interface_lower "eos_auth_types.h" = "auth".
Proof.
  exact (header_pair_shares_interface_name "auth"
           eq_refl eq_refl eq_refl eq_refl).
Defined.

(* ================================================================== *)
(** * Requirement derivation: what the flags can be *)
(* ================================================================== *)

Section RequirementBounds.
Variable g : model.

Lemma table_all_update (P : flags -> Prop) req k (h : flags -> flags) :
  (forall f, P f -> P (h f)) ->
  table_all P req -> table_all P (Dict.update req k h).
Proof.
  intros Hh Hreq k' f. rewrite get_update.
  destruct (String.eqb k' k).
  - destruct (Dict.get req k) as [f0|] eqn:E; simpl; [|discriminate].
    intros [= <-]. apply Hh. eapply Hreq, E.
  - apply Hreq.
Qed.

Lemma table_all_fold {A : Type} (P : flags -> Prop)
    (step : Dict.t flags -> A -> Dict.t flags) (l : list A) :
  (forall r a, table_all P r -> table_all P (step r a)) ->
  forall r, table_all P r -> table_all P (fold_left step l r).
Proof.
  intros Hstep. induction l as [|a l IH]; intros r Hr; simpl; auto.
Qed.

Lemma coherent_own (s : string) : coherent (own_flags g s).
Proof.
  unfold coherent, own_flags; simpl. split; [tauto|].
  intros ->. reflexivity.
Qed.

Lemma coherent_inherit (src dst : flags) :
  coherent src -> coherent dst -> coherent (inherit src dst).
Proof.
  unfold coherent, inherit; simpl. intros [S1 S2] [D1 D2].
  split; intros H; apply orb_true_iff in H; apply orb_true_iff;
    destruct H; auto.
Qed.

Lemma second_pass_step_coherent req s :
  table_all coherent req -> table_all coherent (second_pass_step g req s).
Proof.
  intros Hreq.
  unfold second_pass_step, __is_internal_struct, __is_internal_struct_of_arr.
  assert (H1 : table_all coherent
    (if nonempty (owners_of g false s)
     then fold_left (fun req0 s0 =>
              match Dict.get req0 s0 with
              | Some src => Dict.update req0 s (inherit src)
              | None => req0
              end) (owners_of g false s) req
     else req)).
  { destruct (nonempty (owners_of g false s)); [|exact Hreq].
    apply table_all_fold; [|exact Hreq]. intros r a Hr.
    destruct (Dict.get r a) as [src|] eqn:E; [|exact Hr].
    apply table_all_update; [|exact Hr].
    intros f Hf. apply coherent_inherit; [eapply Hr, E | exact Hf]. }
  revert H1. generalize (if nonempty (owners_of g false s)
     then fold_left (fun req0 s0 =>
              match Dict.get req0 s0 with
              | Some src => Dict.update req0 s (inherit src)
              | None => req0
              end) (owners_of g false s) req
     else req).
  intros req1 H1.
  destruct (nonempty (owners_of g true s)); [|exact H1].
  apply table_all_fold; [|exact H1]. intros r a Hr.
  assert (H2 : table_all coherent
    (if __is_input_struct g a then Dict.update r s mark_set_to else r)).
  { destruct (__is_input_struct g a); [|exact Hr].
    apply table_all_update; [|exact Hr].
    unfold coherent; simpl. tauto. }
  destruct (__is_output_struct g a || __is_arg_out_struct g a); [|exact H2].
  apply table_all_update; [|exact H2].
  unfold coherent; simpl. tauto.
Qed.

(** The second loop writes to the entry of the struct it visits and to no
    other. *)
Lemma second_pass_step_other req s k :
  k <> s ->
  Dict.get (second_pass_step g req s) k = Dict.get req k.
Proof.
  intros Hk. apply String.eqb_neq in Hk.
  assert (F : forall (A : Type) (step : Dict.t flags -> A -> Dict.t flags)
                (l : list A),
             (forall r a, Dict.get (step r a) k = Dict.get r k) ->
             forall r, Dict.get (fold_left step l r) k = Dict.get r k).
  { intros A step l Hstep. induction l as [|a l IH]; intros r; simpl;
      [reflexivity|]. now rewrite IH. }
  unfold second_pass_step, __is_internal_struct, __is_internal_struct_of_arr.
  set (req1 := if nonempty (owners_of g false s) then _ else req).
  assert (H1 : Dict.get req1 k = Dict.get req k).
  { unfold req1. destruct (nonempty (owners_of g false s)); [|reflexivity].
    apply F. intros r a. destruct (Dict.get r a); [|reflexivity].
    now rewrite get_update, Hk. }
  rewrite <- H1.
  destruct (nonempty (owners_of g true s)); [|reflexivity].
  apply F. intros r a.
  destruct (__is_output_struct g a || __is_arg_out_struct g a),
    (__is_input_struct g a);
    now rewrite ?get_update, ?Hk.
Qed.

(** A struct that no struct holds in a field is left alone by the second
    loop. *)
Lemma second_pass_step_top_level req s :
  owners_of g false s = [] -> owners_of g true s = [] ->
  second_pass_step g req s = req.
Proof.
  intros H1 H2.
  unfold second_pass_step, __is_internal_struct, __is_internal_struct_of_arr.
  now rewrite H1, H2.
Qed.

Lemma second_pass_top_level (s : string) (l : list string) :
  owners_of g false s = [] -> owners_of g true s = [] ->
  forall req,
    Dict.get (fold_left (second_pass_step g) l req) s = Dict.get req s.
Proof.
  intros H1 H2. induction l as [|x l IH]; intros req; simpl; [reflexivity|].
  rewrite IH. destruct (String.eqb_spec s x) as [<-|Hne].
  - now rewrite second_pass_step_top_level.
  - now apply second_pass_step_other.
Qed.

End RequirementBounds.

(** X5.  The flags that requirement derivation gives a struct are always
    coherent: [to] is never set without [set_to], and [from] never without
    [set_from] (the generated [to_eos] calls [set_to_eos], and [from_eos]
    calls [set_from_eos]). *)
Theorem derived_flags_are_coherent (g : model) (struct_name : string)
    (f : flags) :
  flags_of g struct_name = Some f ->
  (f.(to) = true -> f.(set_to) = true)
  /\ (f.(from) = true -> f.(set_from) = true).
Proof.
  unfold flags_of, _make_additional_method_requirements; simpl.
  unfold second_pass, first_pass. revert struct_name f.
  apply table_all_fold.
  - intros r a. apply second_pass_step_coherent.
  - intros k f. rewrite first_pass_get.
    destruct (PyStr.mem k (Dict.keys (structs g))); [|discriminate].
    intros [= <-]. apply coherent_own.
Qed.

Lemma derived_flags_are_coherent_witness :
  let f := {| set_from := false; from := false;
              set_to := true; to := true |} in
  flags_of foo_model "EOS_Foo_CopyInfoOptions" = Some f
  /\ (f.(to) = true -> f.(set_to) = true)
  /\ (f.(from) = true -> f.(set_from) = true).
Proof.
  intros f. split; [reflexivity|].
  exact (derived_flags_are_coherent foo_model "EOS_Foo_CopyInfoOptions" f
           eq_refl).
Defined.

(** X6.  The requirement table has an entry for the structs of the struct
    table and for nothing else, and a struct that no struct holds in a
    field (neither as a member nor as an array element) ends with exactly
    the flags of its own roles. *)
Theorem top_level_struct_keeps_own_flags (g : model) :
  (forall struct_name,
     flags_of g struct_name <> None
     <-> In struct_name (Dict.keys g.(structs)))
  /\ (forall struct_name,
        In struct_name (Dict.keys g.(structs)) ->
        owners_of g false struct_name = [] ->
        owners_of g true struct_name = [] ->
        flags_of g struct_name
        = Some {| set_from := __is_output_struct g struct_name
                              || __is_arg_out_struct g struct_name;
                  from := __is_output_struct g struct_name;
                  set_to := __is_input_struct g struct_name;
                  to := __is_input_struct g struct_name |}).
Proof.
  split.
  - intros s. split.
    + unfold flags_of, _make_additional_method_requirements; simpl.
      unfold second_pass. intros H.
      assert (K : forall l req,
                In s (Dict.keys (fold_left (second_pass_step g) l req)) ->
                In s (Dict.keys req)).
      { induction l as [|x l IH]; intros req; simpl; [auto|].
        intros Hin. apply IH in Hin. revert Hin.
        unfold second_pass_step, __is_internal_struct,
          __is_internal_struct_of_arr.
        assert (Fk : forall (A : Type)
                       (step : Dict.t flags -> A -> Dict.t flags)
                       (l0 : list A),
                   (forall r a, Dict.keys (step r a) = Dict.keys r) ->
                   forall r, Dict.keys (fold_left step l0 r) = Dict.keys r).
        { intros A step l0 Hstep. induction l0 as [|a l0 IH0]; intros r;
            simpl; [reflexivity|]. now rewrite IH0. }
        set (req1 := if nonempty (owners_of g false x) then _ else req).
        assert (K1 : Dict.keys req1 = Dict.keys req).
        { unfold req1. destruct (nonempty (owners_of g false x));
            [|reflexivity].
          apply Fk. intros r a. destruct (Dict.get r a); [|reflexivity].
          apply keys_update. }
        rewrite <- K1.
        destruct (nonempty (owners_of g true x)); [|auto].
        rewrite Fk; [auto|]. intros r a.
        destruct (__is_output_struct g a || __is_arg_out_struct g a),
          (__is_input_struct g a);
          now rewrite ?keys_update. }
      apply get_in_keys, K in H. apply get_in_keys in H.
      unfold first_pass in H. rewrite first_pass_get in H.
      destruct (PyStr.mem s (Dict.keys (structs g))) eqn:E.
      * now apply mem_true_iff.
      * simpl in H. congruence.
    + intros Hin. destruct (flags_of_own g s Hin) as [f [-> _]].
      discriminate.
  - intros s Hin H1 H2.
    unfold flags_of, _make_additional_method_requirements; simpl.
    unfold second_pass. rewrite (second_pass_top_level g s _ H1 H2).
    unfold first_pass. rewrite first_pass_get.
    apply mem_true_iff in Hin. now rewrite Hin.
Qed.

Lemma top_level_struct_keeps_own_flags_witness :
  flags_of foo_model "EOS_Foo_CopyInfoOptions"
  = Some {| set_from := false; from := false; set_to := true; to := true |}
  /\ flags_of foo_model "EOS_Foo_Options" = None.
Proof.
  split.
  - apply (proj2 (top_level_struct_keeps_own_flags foo_model)
             "EOS_Foo_CopyInfoOptions").
    + simpl. auto 10.
    + reflexivity.
    + reflexivity.
  - destruct (flags_of foo_model "EOS_Foo_Options") eqn:E; [|reflexivity].
    exfalso.
    assert (H : flags_of foo_model "EOS_Foo_Options" <> None)
      by (rewrite E; discriminate).
    apply (proj1 (top_level_struct_keeps_own_flags foo_model)
             "EOS_Foo_Options") in H.
    simpl in H. intuition discriminate.
Defined.

(* ================================================================== *)
(** * Count fields: what a pairing can return *)
(* ================================================================== *)

Lemma classify_candidate_count_like (splited : list string) (f : string) :
  classify_candidate splited f <> NoMatch -> is_count_like f = true.
Proof.
  unfold classify_candidate. destruct (is_count_like f); congruence.
Qed.

Lemma count_field_loop_sound (splited : list string) (fields : list string) :
  forall similars_fileds,
    match count_field_loop splited fields similars_fileds with
    | inl f => In f fields /\ is_count_like f = true
    | inr l =>
        forall f, In f l ->
          In f similars_fileds \/ (In f fields /\ is_count_like f = true)
    end.
Proof.
  induction fields as [|x rest IH]; intros sims; simpl; [auto|].
  destruct (classify_candidate splited x) eqn:E.
  - split; [now left|].
    apply (classify_candidate_count_like splited). congruence.
  - specialize (IH (sims ++ [x])%list).
    destruct (count_field_loop splited rest (sims ++ [x])) as [f|l].
    + tauto.
    + intros f Hf. destruct (IH f Hf) as [H|H]; [|tauto].
      apply in_app_iff in H. destruct H as [H|[<-|[]]]; [now left|].
      right. split; [now left|].
      apply (classify_candidate_count_like splited). congruence.
  - specialize (IH sims).
    destruct (count_field_loop splited rest sims) as [f|l]; [tauto|].
    intros f Hf. destruct (IH f Hf); tauto.
Qed.

(** X7.  The field that [_find_count_field] returns for an array field is
    always one of the fields it was given, its name ends in [Count],
    [Size], [Length], [LengthBytes] or [SizeBytes], and nothing is printed
    when a field is returned. *)
Theorem find_count_field_returns_a_count_field
    (field : string) (fields : list string) (f : string)
    (out : list printed) :
  _find_count_field field fields = (Some f, out) ->
  In f fields /\ is_count_like f = true /\ out = [].
Proof.
  unfold _find_count_field.
  pose proof (count_field_loop_sound
                (split "_" None (to_snake_case field)) fields []) as H.
  destruct (count_field_loop _ fields []) as [x|l].
  - intros [= <- <-]. tauto.
  - destruct l as [|x [|y l]]; try discriminate.
    intros [= <- <-].
    destruct (H x (or_introl eq_refl)) as [[]|[H1 H2]]. tauto.
Qed.

Lemma find_count_field_returns_a_count_field_witness :
  _find_count_field "Records" ["ApiVersion"; "Records"; "RecordsCount"]
  = (Some "RecordsCount", [])
  /\ In "RecordsCount" ["ApiVersion"; "Records"; "RecordsCount"]
  /\ is_count_like "RecordsCount" = true.
Proof.
  split; [reflexivity|].
  destruct (find_count_field_returns_a_count_field "Records"
              ["ApiVersion"; "Records"; "RecordsCount"] "RecordsCount" []
              eq_refl) as (H1 & H2 & _).
  exact (conj H1 H2).
Defined.

(* ================================================================== *)
(** * Release methods *)
(* ================================================================== *)

Lemma release_not_getter (m : string) :
  endswith m "_Release" = true -> is_interface_getter m = false.
Proof.
  intros H. unfold is_interface_getter.
  destruct (endswith m "Interface") eqn:E; [|apply andb_false_r].
  apply endswith_iff in H, E. destruct H as [a ->], E as [b E].
  apply (f_equal srev) in E. rewrite !srev_app in E. simpl in E.
  discriminate.
Qed.

Lemma keys_remove_subset {V : Type} (d : Dict.t V) (k x : string) :
  In x (Dict.keys (Dict.remove d k)) -> In x (Dict.keys d).
Proof.
  intros H. apply in_map_iff in H. destruct H as [[x' v] [<- H]].
  eapply in_keys, in_remove, H.
Qed.

Lemma pop_all_names (names : list string) : forall ms ms',
  pop_all ms names = Ok ms' ->
  forall n, In n names -> In n (Dict.keys ms).
Proof.
  unfold pop_all.
  induction names as [|n0 names IH]; intros ms ms'; simpl; [tauto|].
  unfold Dict.pop. destruct (Dict.mem ms n0) eqn:E; simpl; [|discriminate].
  intros Hpop n [<- | Hn].
  - apply mem_true_iff. exact E.
  - eapply keys_remove_subset, IH; eassumption.
Qed.

(** Every name is popped once: a name that is twice on the list makes
    [pop] raise. *)
Lemma pop_all_nodup (names : list string) : forall ms ms',
  NoDup (Dict.keys ms) ->
  pop_all ms names = Ok ms' -> NoDup names.
Proof.
  induction names as [|n0 names IH]; intros ms ms' Hnd Hpop;
    [constructor|].
  pose proof Hpop as Hpop'. unfold pop_all in Hpop. simpl in Hpop.
  unfold Dict.pop in Hpop.
  destruct (Dict.mem ms n0) eqn:E; simpl in Hpop; [|discriminate].
  constructor.
  - intros Hin.
    apply (pop_all_names names _ _ Hpop) in Hin.
    exact (not_in_keys_remove ms n0 Hnd Hin).
  - eapply IH; [apply keys_remove_nodup, Hnd | exact Hpop].
Qed.

Lemma pop_all_raises (names : list string) : forall ms e,
  pop_all ms names = Raise e -> e = KeyError.
Proof.
  unfold pop_all.
  induction names as [|n0 names IH]; intros ms e; simpl; [discriminate|].
  destruct (Dict.pop ms n0); simpl; [apply IH | congruence].
Qed.

Lemma foldM_raises {A St : Type} (body : St -> A -> result St)
    (P : error -> Prop) (l : list A) :
  (forall s a e, body s a = Raise e -> P e) ->
  forall s e, foldM body l s = Raise e -> P e.
Proof.
  intros Hbody. induction l as [|a l IH]; intros s e; simpl; [discriminate|].
  destruct (body s a) as [s1|e1] eqn:E; simpl.
  - apply IH.
  - intros [= <-]. eapply Hbody, E.
Qed.

Lemma subscript_raises {V : Type} (d : Dict.t V) (k : string) (e : error) :
  subscript d k = Raise e -> e = KeyError.
Proof. unfold subscript. destruct (Dict.get d k); congruence. Qed.

Lemma method_step_raises (s : mstate) (entry : string * method_info)
    (e : error) :
  method_step s entry = Raise e -> e = KeyError.
Proof.
  destruct entry as [x xi]. unfold method_step.
  destruct (is_interface_getter x); [discriminate|].
  destruct (endswith x "_Release"); [discriminate|].
  destruct (_ && _); [|discriminate].
  destruct (subscript _ _) eqn:E; simpl; [discriminate|].
  intros [= <-]. eapply subscript_raises, E.
Qed.

Lemma inner_step_raises (il jl : string) (c : cstate) (e : error) :
  inner_step il c jl = Raise e -> e = KeyError.
Proof.
  unfold inner_step.
  destruct (subscript _ il) eqn:E1; simpl;
    [|intros [= <-]; eapply subscript_raises, E1].
  destruct (subscript _ jl) eqn:E2; simpl;
    [|intros [= <-]; eapply subscript_raises, E2].
  destruct (foldM method_step _ _) eqn:E3; simpl.
  - destruct (pop_all _ _) eqn:E4; simpl; [discriminate|].
    intros [= <-]. eapply pop_all_raises, E4.
  - intros [= <-]. revert E3.
    apply (foldM_raises _ (fun e => e = KeyError)).
    intros ? ? ?. apply method_step_raises.
Qed.

(** Consolidation fails on a missing key and on nothing else. *)
Lemma consolidate_raises (files : Dict.t file_info) (e : error) :
  consolidate files = Raise e -> e = KeyError.
Proof.
  unfold consolidate.
  destruct (move_methods_and_callbacks files) as [c|e1] eqn:E1; simpl.
  - destruct (foldM _ _ _) as [[hs ue]|e2] eqn:E2; simpl.
    + destruct (move_unhandled _). discriminate.
    + intros [= <-]. revert E2.
      apply (foldM_raises _ (fun e => e = KeyError)).
      intros [hs' ue'] [il fi] ?. unfold enum_step.
      destruct (Dict.mem _ _); [|discriminate].
      destruct (subscript _ _) eqn:E; simpl; [discriminate|].
      intros [= <-]. eapply subscript_raises, E.
  - intros [= <-]. revert E1. unfold move_methods_and_callbacks.
    apply (foldM_raises _ (fun e => e = KeyError)).
    intros ? ? ?. unfold outer_step.
    apply (foldM_raises _ (fun e => e = KeyError)).
    intros ? ? ?. apply inner_step_raises.
Qed.

(* ------------------------------------------------------------------ *)
(** ** A release method in the loop over the methods of a file *)

Lemma method_step_appends (s s' : mstate) (entry : string * method_info) :
  method_step s entry = Ok s' ->
  (exists l, s'.(to_remove_methods) = (s.(to_remove_methods) ++ l)%list)
  /\ (forall k, In k (Dict.keys s.(m_release)) ->
                In k (Dict.keys s'.(m_release))).
Proof.
  destruct entry as [x xi]. unfold method_step.
  destruct (is_interface_getter x).
  { intros [= <-]. simpl. split; [now exists [x] | auto]. }
  set (a0 := {| a_handles := m_handles s;
                a_to_remove := to_remove_methods s;
                handle_type := ""; callback_type := "" |}).
  assert (Ha : exists l,
             a_to_remove (fold_left (arg_step x xi) (args xi) a0)
             = (to_remove_methods s ++ l)%list).
  { change (to_remove_methods s) with (a_to_remove a0).
    generalize a0. induction (args xi) as [|a l IH]; intros b; simpl.
    - exists []. now rewrite app_nil_r.
    - destruct (IH (arg_step x xi b a)) as [l1 ->].
      destruct (arg_step_fields x xi b a) as (_ & -> & _).
      destruct (_ && _).
      + exists ([x] ++ l1)%list. now rewrite <- app_assoc.
      + now exists l1. }
  destruct Ha as [l Hl].
  destruct (endswith x "_Release").
  { intros [= <-]. simpl. split.
    - exists (l ++ [x])%list. now rewrite Hl, <- app_assoc.
    - intros k Hk. apply in_keys_set. now right. }
  destruct (_ && _).
  - destruct (subscript _ _); simpl; [|discriminate].
    intros [= <-]. simpl. split; [now exists l | auto].
  - intros [= <-]. simpl. split; [now exists l | auto].
Qed.

Lemma method_step_release (s s' : mstate) (x : string) (xi : method_info) :
  ~ In x s.(to_remove_methods) ->
  endswith x "_Release" = true ->
  method_step s (x, xi) = Ok s' ->
  In x (Dict.keys s'.(m_release))
  /\ forall h,
       first_handle_arg (Dict.keys s.(m_handles)) xi.(args) = Some h ->
       s'.(to_remove_methods) = (s.(to_remove_methods) ++ [x; x])%list.
Proof.
  intros Hnin Hrel. unfold method_step.
  rewrite (release_not_getter x Hrel), Hrel.
  set (a0 := {| a_handles := m_handles s;
                a_to_remove := to_remove_methods s;
                handle_type := ""; callback_type := "" |}).
  pose proof (arg_loop_spec x xi xi.(args) a0 Hnin) as Hspec.
  simpl in Hspec.
  intros [= <-]. simpl. split; [apply in_keys_set; now left|].
  intros h Hh. rewrite Hh in Hspec. destruct Hspec as (_ & _ & -> & _).
  now rewrite <- app_assoc.
Qed.

Lemma method_loop_release (ms : Dict.t method_info) : forall s s',
  NoDup (Dict.keys ms) ->
  (forall m, In m s.(to_remove_methods) -> ~ In m (Dict.keys ms)) ->
  foldM method_step ms s = Ok s' ->
  (exists l, s'.(to_remove_methods) = (s.(to_remove_methods) ++ l)%list)
  /\ (forall k, In k (Dict.keys s.(m_release)) ->
                In k (Dict.keys s'.(m_release)))
  /\ (forall m mi, In (m, mi) ms -> endswith m "_Release" = true ->
        In m (Dict.keys s'.(m_release))
        /\ forall h,
             first_handle_arg (Dict.keys s.(m_handles)) mi.(args) = Some h ->
             ~ NoDup s'.(to_remove_methods)).
Proof.
  induction ms as [|[x xi] ms IH]; intros s s' Hnd Hfresh; cbn [foldM].
  - intros [= <-]. split; [exists []; now rewrite app_nil_r|].
    split; [auto | intros m mi []].
  - destruct (method_step s (x, xi)) as [s1|] eqn:E1; cbn [bind];
      [|discriminate].
    intros E2. simpl in Hnd. inversion Hnd as [|? ? Hx Hnd']; subst.
    assert (Hnin : ~ In x (to_remove_methods s)).
    { intros H. apply (Hfresh x H). now left. }
    destruct (method_step_spec s s1 x xi Hnin E1) as (K1 & _ & R1 & _).
    destruct (method_step_appends s s1 (x, xi) E1) as ([l1 A1] & M1).
    destruct (IH s1 s' Hnd') as ([l2 A2] & M2 & H2); [|exact E2|].
    { intros m Hm. apply R1 in Hm. destruct Hm as [Hm | [-> _]].
      - intros Hin. apply (Hfresh m Hm). now right.
      - exact Hx. }
    split; [|split].
    + exists (l1 ++ l2)%list. now rewrite A2, A1, <- app_assoc.
    + auto.
    + intros m mi [[= <- <-] | Hin] Hrel.
      * destruct (method_step_release s s1 x xi Hnin Hrel E1) as [Hr Ht].
        split; [auto|]. intros h Hh Hno.
        rewrite A2, (Ht h Hh), <- app_assoc in Hno.
        apply NoDup_remove_2 in Hno. apply Hno.
        apply in_or_app. right. now left.
      * destruct (H2 m mi Hin Hrel) as [Hr Ht]. split; [exact Hr|].
        rewrite <- K1. exact Ht.
Qed.

Lemma inner_step_release_table (il jl : string) (c c' : cstate) :
  inner_step il c jl = Ok c' ->
  exists outer infos s,
    Dict.get c.(file_lower2infos) il = Some outer
    /\ Dict.get c.(file_lower2infos) jl = Some infos
    /\ foldM method_step infos.(file_methods)
         {| m_handles := outer.(file_handles);
            m_callbacks := infos.(file_callbacks);
            m_interfaces := c.(c_interfaces);
            m_release := c.(c_release);
            to_remove_methods := [] |} = Ok s
    /\ (exists ms',
          pop_all infos.(file_methods) s.(to_remove_methods) = Ok ms')
    /\ c'.(c_release) = s.(m_release).
Proof.
  unfold inner_step.
  destruct (subscript _ il) as [outer|] eqn:E1; cbn [bind]; [|discriminate].
  destruct (subscript _ jl) as [infos|] eqn:E2; cbn [bind]; [|discriminate].
  destruct (foldM method_step _ _) as [s|] eqn:E3; cbn [bind];
    [|discriminate].
  destruct (pop_all _ _) as [ms'|] eqn:E4; cbn [bind]; [|discriminate].
  intros [= <-]. apply subscript_ok in E1, E2.
  exists outer, infos, s. simpl. repeat split; try assumption.
  now exists ms'.
Qed.

(** One file under the handles of another: the release methods of the
    file go to the table of release methods, and none of them takes a
    handle of the other file, or the step would have raised. *)
Lemma inner_step_release (il jl : string) (c c' : cstate) :
  NoDup (Dict.keys (methods_of c.(file_lower2infos) jl)) ->
  inner_step il c jl = Ok c' ->
  (forall k, In k (Dict.keys c.(c_release)) ->
             In k (Dict.keys c'.(c_release)))
  /\ (forall m mi, In (m, mi) (methods_of c.(file_lower2infos) jl) ->
        endswith m "_Release" = true ->
        In m (Dict.keys c'.(c_release))
        /\ first_handle_arg
             (Dict.keys (handles_of c.(file_lower2infos) il)) mi.(args)
           = None).
Proof.
  intros Hnd Hstep.
  destruct (inner_step_release_table il jl c c' Hstep)
    as (outer & infos & s & G1 & G2 & Hloop & [ms' Hpop] & HR).
  assert (Hms : methods_of c.(file_lower2infos) jl = infos.(file_methods)).
  { unfold methods_of. now rewrite G2. }
  assert (Hhs : handles_of c.(file_lower2infos) il = outer.(file_handles)).
  { unfold handles_of. now rewrite G1. }
  rewrite Hms in *. rewrite Hhs, HR.
  edestruct (method_loop_release infos.(file_methods))
    as (_ & M & H); [exact Hnd | | exact Hloop |]; [intros m [] |].
  cbn [m_handles m_release] in M, H.
  split; [exact M|]. intros m mi Hin Hrel.
  destruct (H m mi Hin Hrel) as [Hr Ht]. split; [exact Hr|].
  destruct (first_handle_arg _ _) as [h|] eqn:E; [|reflexivity].
  exfalso. apply (Ht h eq_refl).
  eapply pop_all_nodup; eassumption.
Qed.

(* ------------------------------------------------------------------ *)
(** ** A release method through the loops *)

Section OneRelease.
Variable files0 : Dict.t file_info.
Hypothesis Hwf : wf_files files0.
Variables (jm m : string) (mi : method_info).
Hypothesis Hm : In (m, mi) (methods_of files0 jm).
Hypothesis Hrel : endswith m "_Release" = true.

Lemma inner_step_elsewhere (il jl : string) (c c' : cstate) :
  jl <> jm ->
  loop_inv files0 c -> pending jm m mi c ->
  inner_step il c jl = Ok c' -> pending jm m mi c'.
Proof.
  intros Hne (IK & IH & IM & IN) [Pm Po] Hstep.
  destruct (inner_step_spec il jl c c' (IN jl) Hstep)
    as (_ & _ & SO & SM & _).
  split.
  - apply SM. split; [exact Pm|]. intros ->. congruence.
  - intros k h Ho. apply SO in Ho. destruct Ho as [Ho | [-> [xi [Hin Hc]]]].
    + exact (Po k h Ho).
    + destruct (wf_method_unique files0 Hwf _ _ _ _ _ (IM _ _ _ Hin) Hm)
        as [-> _].
      congruence.
Qed.

Lemma inner_step_releases (il : string) (c c' : cstate) :
  loop_inv files0 c -> pending jm m mi c ->
  inner_step il c jm = Ok c' ->
  released m c'
  /\ first_handle_arg (Dict.keys (handles_of files0 il)) mi.(args) = None.
Proof.
  intros (IK & IH & IM & IN) [Pm Po] Hstep.
  destruct (inner_step_spec il jm c c' (IN jm) Hstep)
    as (_ & _ & SO & SM & _).
  destruct (inner_step_release il jm c c' (IN jm) Hstep) as [_ HR].
  destruct (HR m mi Pm Hrel) as [Hin Hnone]. rewrite IH in Hnone.
  split; [|exact Hnone]. split; [|split; [|exact Hin]].
  - intros k xi Hx. apply SM in Hx. destruct Hx as [Hx Hrem].
    destruct (wf_method_unique files0 Hwf _ _ _ _ _ (IM _ _ _ Hx) Hm)
      as [-> ->].
    specialize (Hrem eq_refl). unfold removed in Hrem.
    rewrite Hrel, orb_true_r in Hrem. discriminate.
  - intros k h Ho. apply SO in Ho.
    destruct Ho as [Ho | [-> [xi [Hx Hc]]]]; [exact (Po k h Ho)|].
    destruct (wf_method_unique files0 Hwf _ _ _ _ _ (IM _ _ _ Hx) Hm)
      as [_ ->].
    unfold claimed_by in Hc.
    rewrite IH, Hnone, (release_not_getter m Hrel) in Hc. discriminate.
Qed.

Lemma inner_step_released (il jl : string) (c c' : cstate) :
  loop_inv files0 c -> released m c ->
  inner_step il c jl = Ok c' -> released m c'.
Proof.
  intros (IK & IH & IM & IN) (Rm & Ro & Rr) Hstep.
  destruct (inner_step_spec il jl c c' (IN jl) Hstep)
    as (_ & _ & SO & SM & _).
  destruct (inner_step_release il jl c c' (IN jl) Hstep) as [HR _].
  split; [|split; [|auto]].
  - intros k xi Hx. apply SM in Hx. exact (Rm k xi (proj1 Hx)).
  - intros k h Ho. apply SO in Ho.
    destruct Ho as [Ho | [_ [xi [Hx _]]]]; [exact (Ro k h Ho)|].
    exact (Rm _ _ Hx).
Qed.

Lemma outer_step_released (il : string) (c c' : cstate) :
  loop_inv files0 c /\ released m c ->
  outer_step c il = Ok c' ->
  loop_inv files0 c' /\ released m c'.
Proof.
  unfold outer_step.
  apply (foldM_invariant _ (fun c => loop_inv files0 c /\ released m c)).
  intros s jl s' _ [HI HS] Hstep. split.
  - eapply inner_step_inv; eassumption.
  - eapply inner_step_released; eassumption.
Qed.

(** The first turn of the outer loop that meets the method sets it
    aside. *)
Lemma outer_step_releases (il : string) (c c' : cstate) :
  loop_inv files0 c /\ pending jm m mi c ->
  outer_step c il = Ok c' ->
  (loop_inv files0 c' /\ released m c')
  /\ first_handle_arg (Dict.keys (handles_of files0 il)) mi.(args) = None.
Proof.
  intros [HI HP]. unfold outer_step.
  assert (Hjm : In jm (Dict.keys files0)).
  { destruct (methods_of_in _ _ _ _ Hm) as [fi [Hfi _]].
    eapply in_keys, Hfi. }
  destruct HI as (IK & HI'). rewrite IK.
  pose proof (conj IK HI' : loop_inv files0 c) as HI.
  destruct (in_split _ _ Hjm) as (Ka & Kb & HK).
  pose proof (wf_keys _ Hwf) as Hnd. rewrite HK in Hnd.
  rewrite HK, foldM_app.
  destruct (foldM (inner_step il) Ka c) as [c1|] eqn:E1; cbn [bind];
    [|discriminate].
  cbn [foldM].
  destruct (inner_step il c1 jm) as [c2|] eqn:E2; cbn [bind];
    [|discriminate].
  intros E3.
  assert (H1 : loop_inv files0 c1 /\ pending jm m mi c1).
  { revert E1.
    apply (foldM_invariant _
             (fun c => loop_inv files0 c /\ pending jm m mi c));
      [|split; assumption].
    intros s jl s' Hjl [HI1 HP1] Hstep. split.
    - eapply inner_step_inv; eassumption.
    - eapply inner_step_elsewhere; try eassumption. intros ->.
      apply NoDup_remove_2 in Hnd. apply Hnd, in_or_app. now left. }
  destruct H1 as [HI1 HP1].
  destruct (inner_step_releases il c1 c2 HI1 HP1 E2) as [HR2 Hnone].
  split; [|exact Hnone].
  revert E3.
  apply (foldM_invariant _ (fun c => loop_inv files0 c /\ released m c)).
  - intros s jl s' _ [HI3 HS3] Hstep. split.
    + eapply inner_step_inv; eassumption.
    + eapply inner_step_released; eassumption.
  - split; [eapply inner_step_inv; eassumption | exact HR2].
Qed.

Lemma loops_release (c : cstate) :
  move_methods_and_callbacks files0 = Ok c ->
  loop_inv files0 c /\ released m c
  /\ forall il0 fi0 rest, files0 = (il0, fi0) :: rest ->
       first_handle_arg (Dict.keys fi0.(file_handles)) mi.(args) = None.
Proof.
  unfold move_methods_and_callbacks.
  set (c0 := {| file_lower2infos := files0;
                c_interfaces := initial_interfaces; c_release := [] |}).
  assert (H0 : loop_inv files0 c0 /\ pending jm m mi c0).
  { split; [apply loop_inv_start, Hwf|].
    split; [exact Hm | intros k h0; apply wf_no_owner, Hwf]. }
  assert (Hshape : exists il0 fi0 rest, files0 = (il0, fi0) :: rest).
  { clear - Hm. destruct files0 as [|[il0 fi0] rest]; [destruct Hm|].
    now exists il0, fi0, rest. }
  destruct Hshape as (il0 & fi0 & rest & EF).
  replace (Dict.keys files0) with (il0 :: Dict.keys rest)
    by now rewrite EF.
  cbn [foldM].
  destruct (outer_step c0 il0) as [c1|] eqn:E1; cbn [bind]; [|discriminate].
  intros E2.
  destruct (outer_step_releases il0 c0 c1 H0 E1) as [H1 Hnone].
  assert (H2 : loop_inv files0 c /\ released m c).
  { revert E2.
    apply (foldM_invariant _ (fun c => loop_inv files0 c /\ released m c));
      [|exact H1].
    intros s k s' _. apply outer_step_released. }
  destruct H2 as [HI HR]. split; [exact HI|]. split; [exact HR|].
  intros il0' fi0' rest' E. rewrite EF in E. injection E as <- <- <-.
  unfold handles_of in Hnone. rewrite EF in Hnone. simpl in Hnone.
  now rewrite String.eqb_refl in Hnone.
Qed.

End OneRelease.

Lemma consolidate_release_table (files : Dict.t file_info) (g : model) :
  consolidate files = Ok g ->
  exists c,
    move_methods_and_callbacks files = Ok c
    /\ g.(release_methods) = c.(c_release).
Proof.
  unfold consolidate.
  destruct (move_methods_and_callbacks files) as [c|]; cbn [bind];
    [|discriminate].
  destruct (foldM _ _ _) as [[hs ue]|]; cbn [bind]; [|discriminate].
  destruct (move_unhandled _). intros [= <-]. now exists c.
Qed.

(** X8.  A method whose name ends in [_Release] is never given to a
    handle: when consolidation completes, every such method is in the
    table of release methods, no handle has it among its methods, and it
    is not filed as unhandled. *)
Theorem release_methods_are_set_aside (files : Dict.t file_info)
    (g : model) (jm m : string) (mi : method_info)
    (Hwf : wf_files files)
    (Hrun : consolidate files = Ok g)
    (Hm : In (m, mi) (methods_of files jm))
    (Hrel : endswith m "_Release" = true) :
  In m (Dict.keys g.(release_methods))
  /\ (forall h, ~ owns g.(handles) h m)
  /\ ~ In m (Dict.keys g.(unhandled_methods)).
Proof.
  destruct (consolidate_tables files Hwf g Hrun)
    as (c & Hc & HI & _ & Ho & Hu).
  destruct (consolidate_release_table files g Hrun) as (c' & Hc' & HR).
  assert (c' = c) by congruence. subst c'.
  destruct (loops_release files Hwf jm m mi Hm Hrel c Hc)
    as (_ & (Rm & Ro & Rr) & _).
  split; [now rewrite HR|]. split.
  - intros h H. apply Ho in H. destruct H as [k H]. exact (Ro k h H).
  - intros H. apply Hu in H. destruct H as (k & xi & H). exact (Rm k xi H).
Qed.

Lemma wf_thing_files : wf_files thing_files.
Proof.
  constructor.
  - nodup_strings.
  - nodup_strings.
  - nodup_strings.
  - fresh_handles.
Qed.

Lemma release_methods_are_set_aside_witness :
  consolidate thing_files = Ok thing_model
  /\ In "EOS_Thing_Release" (Dict.keys thing_model.(release_methods))
  /\ (forall h, ~ owns thing_model.(handles) h "EOS_Thing_Release")
  /\ ~ In "EOS_Thing_Release" (Dict.keys thing_model.(unhandled_methods)).
Proof.
  split; [vm_compute; reflexivity|].
  apply (release_methods_are_set_aside thing_files thing_model "thing"
           "EOS_Thing_Release"
           {| return_ := "void"; args := release_args |}).
  - exact wf_thing_files.
  - vm_compute. reflexivity.
  - vm_compute. auto.
  - reflexivity.
Defined.

(** X9.  When the first file of the table declares a handle and some file
    has a method ending in [_Release] that takes this handle, the method
    is put twice on the list of methods to remove and consolidation ends
    in [KeyError]. *)
Theorem release_of_first_file_handle_raises (il0 : string)
    (fi0 : file_info) (rest : Dict.t file_info) (jm m : string)
    (mi : method_info)
    (Hwf : wf_files ((il0, fi0) :: rest))
    (Hm : In (m, mi) (methods_of ((il0, fi0) :: rest) jm))
    (Hrel : endswith m "_Release" = true)
    (Harg : exists a, In a mi.(args)
              /\ In (_decay_eos_type a.(type))
                   (Dict.keys fi0.(file_handles))) :
  consolidate ((il0, fi0) :: rest) = Raise KeyError.
Proof.
  destruct (consolidate ((il0, fi0) :: rest)) as [g|e] eqn:E.
  - exfalso.
    destruct (consolidate_release_table _ g E) as (c & Hc & _).
    destruct (loops_release _ Hwf jm m mi Hm Hrel c Hc) as (_ & _ & Hnone).
    apply first_handle_arg_some in Harg. apply Harg.
    exact (Hnone il0 fi0 rest eq_refl).
  - f_equal. eapply consolidate_raises, E.
Qed.

Lemma wf_early_handle_file : wf_files [("thing", early_handle_file)].
Proof.
  constructor.
  - nodup_strings.
  - nodup_strings.
  - nodup_strings.
  - fresh_handles.
Qed.

Lemma release_of_first_file_handle_raises_witness :
  consolidate [("thing", early_handle_file)] = Raise KeyError.
Proof.
  apply (release_of_first_file_handle_raises "thing" early_handle_file []
           "thing" "EOS_Thing_Release"
           {| return_ := "void"; args := release_args |}).
  - exact wf_early_handle_file.
  - vm_compute. auto.
  - reflexivity.
  - exists {| type := "EOS_HThing"; name := "Handle" |}.
    split; [now left | vm_compute; auto].
Defined.

(* ================================================================== *)
(** * The tables that are read by their own functions *)
(* ================================================================== *)

Lemma scan_file_keys (s s' : scan_state) (f : string) (lines : list string)
    (k : string) :
  scan_file s (f, lines) = Ok s' ->
  In k (Dict.keys s'.(s_files)) ->
  In k (Dict.keys s.(s_files))
  \/ (is_scanned f = true /\ k = _convert_to_interface_lower f).
Proof.
  unfold scan_file, is_scanned.
  destruct (contains f "deprecated"); [intros [= <-]; auto|].
  destruct (PyStr.mem f special_headers); [intros [= <-]; auto|].
  set (files := if Dict.mem _ _ then _ else _).
  destruct (subscript files _) as [fi|]; cbn [bind]; [|discriminate].
  destruct (_parse_file lines _) as [p|]; cbn [bind]; [|discriminate].
  intros [= <-]. simpl. intros Hk.
  apply in_keys_set in Hk. destruct Hk as [-> | Hk]; [now right|].
  unfold files in Hk. destruct (Dict.mem _ _); [now left|].
  apply in_keys_set in Hk. destruct Hk as [-> | Hk]; [now right | now left].
Qed.

Lemma read_enum_table_keys (key enum_type prefix : string)
    (member : string -> result string) (lines : list string)
    (files files' : Dict.t file_info) :
  read_enum_table key enum_type prefix member lines files = Ok files' ->
  In key (Dict.keys files)
  /\ (forall k, In k (Dict.keys files') <-> In k (Dict.keys files))
  /\ (exists fi', Dict.get files' key = Some fi'
                  /\ In enum_type (Dict.keys fi'.(file_enums)))
  /\ (forall k fi e, Dict.get files k = Some fi ->
        In e (Dict.keys fi.(file_enums)) ->
        exists fi', Dict.get files' k = Some fi'
                    /\ In e (Dict.keys fi'.(file_enums))).
Proof.
  unfold read_enum_table.
  destruct (subscript files key) as [fi|] eqn:E1; cbn [bind];
    [|discriminate].
  destruct (foldM _ lines []) as [members|]; cbn [bind]; [|discriminate].
  intros [= <-]. apply subscript_ok in E1.
  assert (Hkey : In key (Dict.keys files))
    by (apply get_in_keys; congruence).
  split; [exact Hkey|]. split; [|split].
  - intros k. rewrite in_keys_set. split; [intros [-> | H]; auto | auto].
  - eexists. rewrite get_set, String.eqb_refl. split; [reflexivity|].
    simpl. apply in_keys_set. now left.
  - intros k fk e Hk He. rewrite get_set.
    destruct (String.eqb k key) eqn:E.
    + apply String.eqb_eq in E. subst k.
      assert (fk = fi) by congruence. subst fk.
      eexists. split; [reflexivity|]. simpl. apply in_keys_set. now right.
    + now exists fk.
Qed.

(** X10.  The run cannot complete without a header of the interface
    [ui]: when no file that the main loop scans is named [eos_ui.h] or
    [eos_ui_types.h] (or otherwise converts to [ui]), the reader of the
    key combinations finds no table to fill and the scan ends in an
    exception. *)
Theorem scan_needs_a_ui_header (sdk : sdk_include)
    (Hnone : forall f lines, In (f, lines) sdk.(listing) ->
               is_scanned f = true ->
               _convert_to_interface_lower f <> "ui") :
  scan_headers sdk = Raise KeyError \/ scan_headers sdk = Raise IndexError.
Proof.
  assert (Hnot : forall s, scan_headers sdk <> Ok s).
  { intros s. unfold scan_headers.
    destruct (foldM scan_file _ _) as [s0|] eqn:E0; cbn [bind];
      [|discriminate].
    assert (H0 : ~ In "ui" (Dict.keys s0.(s_files))).
    { revert E0.
      apply (foldM_invariant scan_file
               (fun s => ~ In "ui" (Dict.keys s.(s_files)))).
      - intros s1 [f lines] s2 Hin H1 Hstep Hui.
        destruct (scan_file_keys s1 s2 f lines "ui" Hstep Hui)
          as [H | [Hs Hf]]; [exact (H1 H)|].
        exact (Hnone f lines Hin Hs (eq_sym Hf)).
      - simpl. intros [H | []]. discriminate. }
    unfold _get_EOS_EResult, _get_EOS_UI_EKeyCombination.
    destruct (read_enum_table _ _ _ _ (eos_result_h sdk) _) as [f1|] eqn:E1;
      cbn [bind]; [|discriminate].
    destruct (read_enum_table _ _ _ _ (eos_ui_keys_h sdk) _) as [f2|] eqn:E2;
      cbn [bind]; [|discriminate].
    exfalso. apply H0.
    apply (read_enum_table_keys _ _ _ _ _ _ _ E1).
    exact (proj1 (read_enum_table_keys _ _ _ _ _ _ _ E2)). }
  destruct (scan_headers sdk) as [s|[|]]; [destruct (Hnot s eq_refl)| |];
    auto.
Qed.

Lemma scan_needs_a_ui_header_witness :
  scan_headers lone_foo_sdk = Raise KeyError
  \/ scan_headers lone_foo_sdk = Raise IndexError.
Proof.
  apply (scan_needs_a_ui_header lone_foo_sdk).
  intros f lines [[= <- <-] | []] _. vm_compute. discriminate.
Defined.

(** X11.  Whatever the headers contain, a scan that completes has the
    tables [common] and [ui], with the enum [EOS_EResult] in the first and
    the enums [EOS_UI_EKeyCombination] and [EOS_UI_EInputStateButtonFlags]
    in the second. *)
Theorem scan_fills_the_special_enums (sdk : sdk_include) (s : scan_state) :
  scan_headers sdk = Ok s ->
  exists common ui,
    Dict.get s.(s_files) "common" = Some common
    /\ Dict.get s.(s_files) "ui" = Some ui
    /\ In "EOS_EResult" (Dict.keys common.(file_enums))
    /\ In "EOS_UI_EKeyCombination" (Dict.keys ui.(file_enums))
    /\ In "EOS_UI_EInputStateButtonFlags" (Dict.keys ui.(file_enums)).
Proof.
  unfold scan_headers.
  destruct (foldM scan_file _ _) as [s0|]; cbn [bind]; [|discriminate].
  unfold _get_EOS_EResult, _get_EOS_UI_EKeyCombination,
    _get_EOS_UI_EInputStateButtonFlags.
  change (_convert_to_interface_lower "eos_common.h") with "common".
  change (_convert_to_interface_lower "eos_ui_types.h") with "ui".
  destruct (read_enum_table "common" _ _ _ _ _) as [f1|] eqn:E1;
    cbn [bind]; [|discriminate].
  destruct (read_enum_table "ui" _ _ _ (eos_ui_keys_h sdk) _) as [f2|] eqn:E2;
    cbn [bind]; [|discriminate].
  destruct (read_enum_table "ui" _ _ _ (eos_ui_buttons_h sdk) _)
    as [f3|] eqn:E3; cbn [bind]; [|discriminate].
  intros [= <-]. simpl.
  destruct (read_enum_table_keys _ _ _ _ _ _ _ E1)
    as (_ & _ & (c1 & G1 & R1) & _).
  destruct (read_enum_table_keys _ _ _ _ _ _ _ E2)
    as (_ & _ & (u2 & G2 & K2) & P2).
  destruct (read_enum_table_keys _ _ _ _ _ _ _ E3)
    as (_ & _ & (u3 & G3 & B3) & P3).
  destruct (P2 _ _ _ G1 R1) as (c2 & G1' & R2).
  destruct (P3 _ _ _ G1' R2) as (c3 & G1'' & R3).
  destruct (P3 _ _ _ G2 K2) as (u3' & G3' & K3).
  assert (u3' = u3) by congruence. subst u3'.
  exists c3, u3. auto.
Qed.

Lemma scan_fills_the_special_enums_witness :
  exists common ui,
    Dict.get (tables_of foo_sdk) "common" = Some common
    /\ Dict.get (tables_of foo_sdk) "ui" = Some ui
    /\ In "EOS_EResult" (Dict.keys common.(file_enums))
    /\ In "EOS_UI_EKeyCombination" (Dict.keys ui.(file_enums))
    /\ In "EOS_UI_EInputStateButtonFlags" (Dict.keys ui.(file_enums)).
Proof.
  assert (E : scan_headers foo_sdk
              = Ok {| s_files := tables_of foo_sdk;
                      s_macros := []; s_out := [] |})
    by (vm_compute; reflexivity).
  exact (scan_fills_the_special_enums foo_sdk _ E).
Defined.

(* ================================================================== *)
(** * Joining, splitting and replacing *)
(* ================================================================== *)

Lemma split_go_nonempty (sep : string) (s : string) :
  forall skip n cur, split_go sep skip n cur s <> [].
Proof.
  induction s as [|c r IH]; intros skip n cur; cbn [split_go];
    [discriminate|].
  destruct skip; [|apply IH].
  destruct (_ && _); [discriminate | apply IH].
Qed.

Lemma join_cons (sep x : string) (l : list string) :
  l <> [] -> join sep (x :: l) = (x ++ sep ++ join sep l)%string.
Proof. destruct l; [congruence | reflexivity]. Qed.

(** Joining the pieces of a split with the separator gives the text
    back, whatever the number of splits allowed. *)
Lemma join_split_go (c0 : ascii) (s : string) :
  forall n cur,
    join (String c0 "") (split_go (String c0 "") 0 n cur s)
    = (cur ++ s)%string.
Proof.
  induction s as [|d r IH]; intros n cur.
  - simpl. now rewrite sapp_nil_r.
  - cbn [split_go startswith]. rewrite startswith_nil, andb_true_r.
    destruct ((0 <? n)%nat && Ascii.eqb c0 d) eqn:E.
    + apply andb_true_iff in E. destruct E as [_ E].
      apply Ascii.eqb_eq in E. subst d.
      rewrite join_cons by apply split_go_nonempty.
      cbn [String.length]. rewrite IH. reflexivity.
    + rewrite IH, sapp_assoc. reflexivity.
Qed.

Lemma join_split (c0 : ascii) (s : string) :
  join (String c0 "") (split (String c0 "") None s) = s.
Proof. unfold split. apply join_split_go. Qed.

(** A first character that is not the separator stays in the first
    piece. *)
Lemma split_go_cur (sep : string) (s : string) :
  forall skip n cur,
    split_go sep skip n cur s
    = match split_go sep skip n "" s with
      | x :: l => (cur ++ x)%string :: l
      | [] => []
      end.
Proof.
  induction s as [|d r IH]; intros skip n cur; cbn [split_go].
  - now rewrite sapp_nil_r.
  - destruct skip as [|k]; [|apply IH].
    destruct (_ && _).
    + now rewrite sapp_nil_r.
    + rewrite IH. rewrite (IH 0 n ("" ++ String d "")%string).
      destruct (split_go sep 0 n "" r); [reflexivity|].
      cbn [append]. now rewrite sapp_assoc.
Qed.

Lemma split_char_cons (c0 d : ascii) (s : string) :
  Ascii.eqb c0 d = false ->
  split (String c0 "") None (String d s)
  = match split (String c0 "") None s with
    | x :: l => String d x :: l
    | [] => []
    end.
Proof.
  intros H. unfold split. cbn [split_go startswith]. rewrite H, andb_false_r.
  cbn [andb append].
  rewrite split_go_cur.
  rewrite (split_go_enough _ s 0 (S (String.length (String d s)))
             (S (String.length s)) "") by (simpl; lia).
  reflexivity.
Qed.

Lemma replace_go_skip (old new p : string) :
  forall r, replace_go old new (String.length p) (p ++ r)
            = replace_go old new 0 r.
Proof. induction p as [|x p IH]; intros r; [reflexivity | apply IH]. Qed.

Lemma contains_app_l (a p b : string) : contains (a ++ p ++ b) p = true.
Proof.
  induction a as [|c a IH]; rewrite contains_unfold.
  - cbn [append]. now rewrite startswith_app.
  - destruct (startswith _ p); [reflexivity | exact IH].
Qed.

(* ================================================================== *)
(** * Names of enums in the generated code *)
(* ================================================================== *)

(** X12.  [_convert_enum_type] on the three shapes of enum names.  A name
    [EOS_E<N>] loses the prefix [EOS_E].  A name [EOS_<I>_E<N>] becomes
    [<I>_<N>].  A name with [_E] in it that has fewer than three
    [_]-separated parts and does not begin with [EOS_E], such as
    [Foo_EBar], makes the function raise [IndexError]. *)
Theorem convert_enum_type_by_shape :
  (forall N, contains N "EOS_E" = false ->
     _convert_enum_type ("EOS_E" ++ N) = Ok (N, []))
  /\ (forall I N, mem_char "_" I = false -> startswith I "E" = false ->
        _convert_enum_type ("EOS_" ++ I ++ "_E" ++ N)
        = Ok ((I ++ "_" ++ N)%string, []))
  /\ (forall a b, mem_char "_" a = false -> mem_char "_" b = false ->
        startswith (a ++ "_E" ++ b) "EOS_E" = false ->
        _convert_enum_type (a ++ "_E" ++ b) = Raise IndexError).
Proof.
  split; [|split].
  - intros N HN. unfold _convert_enum_type.
    change (startswith ("EOS_E" ++ N) "EOS_E") with (startswith N "").
    rewrite startswith_nil. unfold replace.
    change ("EOS_E" ++ N)%string with (String "E" ("OS_E" ++ N)).
    cbn [replace_go].
    change (startswith (String "E" ("OS_E" ++ N)) "EOS_E")
      with (startswith N "").
    rewrite startswith_nil.
    change (String.length "EOS_E" - 1) with (String.length "OS_E").
    rewrite replace_go_skip. cbn [append].
    apply (f_equal (fun s => Ok (s, @nil enum_print))).
    exact (replace_absent "EOS_E" "" N HN).
  - intros I N HI HE. unfold _convert_enum_type.
    assert (H1 : startswith ("EOS_" ++ I ++ "_E" ++ N) "EOS_E" = false).
    { destruct I as [|c I]; [reflexivity|].
      cbn [startswith] in HE.
      change (startswith ("EOS_" ++ String c I ++ "_E" ++ N) "EOS_E")
        with (Ascii.eqb "E"%char c && startswith (I ++ "_E" ++ N) "").
      rewrite startswith_nil in *. exact HE. }
    rewrite H1.
    assert (H2 : contains ("EOS_" ++ I ++ "_E" ++ N) "_E" = true).
    { rewrite <- sapp_assoc. apply contains_app_l. }
    rewrite H2.
    assert (H3 : split "_" None ("EOS_" ++ I ++ "_E" ++ N)
                 = "EOS" :: I :: split "_" None ("E" ++ N)).
    { change ("EOS_" ++ I ++ "_E" ++ N)%string
        with ("EOS" ++ "_" ++ (I ++ "_" ++ ("E" ++ N)))%string.
      rewrite (split_first "_" "" "EOS") by reflexivity.
      rewrite (split_first "_" "" I) by exact HI. reflexivity. }
    rewrite H3.
    change ("E" ++ N)%string with (String "E" N).
    rewrite split_char_cons by reflexivity.
    pose proof (join_split "_" N) as HJ.
    destruct (split "_" None N) as [|n0 rest] eqn:EN.
    { exfalso. revert EN. unfold split. apply split_go_nonempty. }
    cbn [index nth_error bind set_item].
    unfold removeprefix. cbn [startswith]. rewrite startswith_nil.
    cbn [Ascii.eqb Bool.eqb andb String.length drop].
    rewrite join_cons by discriminate. now rewrite HJ.
  - intros a b Ha Hb H1. unfold _convert_enum_type. rewrite H1.
    replace (contains (a ++ "_E" ++ b) "_E") with true
      by (symmetry; apply contains_app_l).
    change (a ++ "_E" ++ b)%string with (a ++ "_" ++ ("E" ++ b))%string.
    rewrite (split_first "_" "" a) by exact Ha.
    rewrite split_absent by (simpl; exact Hb).
    reflexivity.
Qed.

Lemma convert_enum_type_by_shape_witness :
  _convert_enum_type "EOS_ELoginStatus" = Ok ("LoginStatus", [])
  /\ _convert_enum_type "EOS_UI_EKeyCombination"
     = Ok ("UI_KeyCombination", [])
  /\ _convert_enum_type "Foo_EBar" = Raise IndexError.
Proof.
  destruct convert_enum_type_by_shape as (H1 & H2 & H3).
  split; [|split].
  - exact (H1 "LoginStatus" eq_refl).
  - exact (H2 "UI" "KeyCombination" eq_refl eq_refl).
  - exact (H3 "Foo" "Bar" eq_refl eq_refl eq_refl).
Defined.

(* ================================================================== *)
(** * Types in the generated code *)
(* ================================================================== *)

Lemma simple_remap_misspelled (type : string) :
  startswith type "Union" = false ->
  Dict.get simple_remap type <> Some "Vaiant".
Proof.
  intros Hu. unfold simple_remap. cbn [Dict.get].
  repeat match goal with
  | |- (if String.eqb ?a ?b then _ else _) <> _ =>
      let E := fresh "E" in
      destruct (String.eqb a b) eqn:E;
      [ try discriminate;
        apply String.eqb_eq in E; subst; discriminate
      | clear E ]
  end.
  discriminate.
Qed.

(** X13.  [remap_type] on a type that is not a struct and begins with
    [Union] looks at the field name only, and raises [KeyError] for a
    field other than [ParamValue], [Value] and [AccountId]; on every other
    type it returns a type.  The entries of [simple_remap] whose key
    begins with [Union] are therefore never read, and the misspelled
    type [Vaiant] of one of them is never returned. *)
Theorem remap_type_fails_only_on_unions (g : model) (type field : string) :
  (forall r, remap_type g type field = Ok r -> r <> "Vaiant")
  /\ (forall e, remap_type g type field = Raise e ->
        e = KeyError
        /\ __is_struct_type g type = false
        /\ startswith type "Union" = true
        /\ ~ In field ["ParamValue"; "Value"; "AccountId"]).
Proof.
  unfold remap_type. cbn [PyStr.mem enum_types existsb].
  destruct (__is_struct_type g type).
  { split; [intros r [= <-]; discriminate | discriminate]. }
  destruct (startswith type "Union") eqn:Hu.
  - unfold subscript, uion_field_map. cbn [Dict.get].
    destruct (String.eqb field "ParamValue") eqn:E1;
      [split; [intros r [= <-]; discriminate | discriminate]|].
    destruct (String.eqb field "Value") eqn:E2;
      [split; [intros r [= <-]; discriminate | discriminate]|].
    destruct (String.eqb field "AccountId") eqn:E3;
      [split; [intros r [= <-]; discriminate | discriminate]|].
    split; [discriminate|]. intros e [= <-].
    apply String.eqb_neq in E1, E2, E3.
    repeat split; try reflexivity.
    simpl. intuition congruence.
  - split; [|destruct (Dict.get condition_remap type); discriminate].
    destruct (Dict.get condition_remap type) as [by_field|] eqn:Ec.
    + intros r [= <-]. revert Ec. unfold condition_remap. cbn [Dict.get].
      repeat match goal with
      | |- (if String.eqb ?a ?b then _ else _) = _ -> _ =>
          destruct (String.eqb a b)
      end.
      all: intros Ec; try discriminate Ec.
      all: injection Ec as <-; cbn [Dict.get].
      all: repeat match goal with
           | |- context [String.eqb ?a ?b] =>
               destruct (String.eqb a b); cbv iota
           end.
      all: discriminate.
    + pose proof (simple_remap_misspelled type Hu) as Hs.
      destruct (Dict.get simple_remap type) as [t|]; intros r [= <-].
      * intros ->. now apply Hs.
      * discriminate.
Qed.

(* ================================================================== *)
(** * The scanner on well-formed declarations *)
(* ================================================================== *)

Lemma srev_char (c0 : ascii) : srev (String c0 "") = String c0 "".
Proof. reflexivity. Qed.

(** [s.rsplit(c, 1)] cuts at the last [c]. *)
Lemma rsplit_last (c0 : ascii) (a b : string) :
  mem_char c0 b = false ->
  rsplit (String c0 "") (Some 1) (a ++ String c0 "" ++ b) = [a; b].
Proof.
  intros Hb. unfold rsplit, split. rewrite srev_char.
  rewrite srev_app. change (String c0 "" ++ b)%string with (String c0 b).
  cbn [srev]. rewrite sapp_assoc.
  rewrite (split_go_first c0 "" (srev b) 0 "" (srev a))
    by now rewrite mem_char_srev.
  rewrite split_go_spent. cbn [append map rev app].
  now rewrite !srev_involutive.
Qed.

Lemma rsplit_absent (c0 : ascii) (s : string) (m : option nat) :
  mem_char c0 s = false -> rsplit (String c0 "") m s = [s].
Proof.
  intros H. unfold rsplit. rewrite srev_char.
  rewrite split_absent by now rewrite mem_char_srev.
  cbn [map rev app]. now rewrite srev_involutive.
Qed.

(** [s.rsplit(c)] on a text with one [c]. *)
Lemma rsplit_once (c0 : ascii) (a b : string) :
  mem_char c0 a = false -> mem_char c0 b = false ->
  rsplit (String c0 "") None (a ++ String c0 "" ++ b) = [a; b].
Proof.
  intros Ha Hb. unfold rsplit. rewrite srev_char.
  rewrite srev_app. change (String c0 "" ++ b)%string with (String c0 b).
  cbn [srev]. rewrite sapp_assoc.
  rewrite (split_first c0 "" (srev b) (srev a))
    by now rewrite mem_char_srev.
  rewrite split_absent by now rewrite mem_char_srev.
  cbn [map rev app]. now rewrite !srev_involutive.
Qed.

(** [s.split(sep, 1)] cuts at the first separator. *)
Lemma split_once (c0 : ascii) (sep' a r : string) :
  mem_char c0 a = false ->
  split (String c0 sep') (Some 1) (a ++ String c0 sep' ++ r) = [a; r].
Proof.
  intros H. unfold split.
  rewrite (split_go_first c0 sep' a 0 "" r H), split_go_spent.
  reflexivity.
Qed.

Lemma ends_with_any_last (chars s : string) (c : ascii) :
  ends_with_any chars (s ++ String c "") = mem_char c chars.
Proof.
  induction s as [|d s IH]; [reflexivity|].
  cbn [append ends_with_any]. rewrite IH.
  destruct (s ++ String c "")%string eqn:E; [|reflexivity].
  destruct s; discriminate.
Qed.

Lemma ends_with_any_absent (c0 : ascii) (s : string) :
  mem_char c0 s = false -> ends_with_any (String c0 "") s = false.
Proof.
  induction s as [|d s IH]; [reflexivity|].
  cbn [mem_char ends_with_any]. intros H.
  apply orb_false_iff in H. destruct H as [Hd Hs].
  destruct s as [|e s'].
  - cbn [mem_char]. rewrite orb_false_r. rewrite Ascii.eqb_sym. exact Hd.
  - exact (IH Hs).
Qed.

(** X14.  A line [typedef struct <T>Handle* <N>;] makes the scanner record
    the handle [N], with no methods, callbacks or enums, whatever the tag
    [T] and the rest of the line are (here [T] has no [*] and [N]
    no [;]). *)
Theorem scanner_records_handle_typedef (s : pstate) (i : nat)
    (T N tail : string) (after : list string)
    (HT : mem_char "*" T = false)
    (HN : mem_char ";" N = false) :
  file_turn s i ("typedef struct " ++ T ++ "Handle* " ++ N ++ ";" ++ tail)
    after
  = Ok (Continue
          {| p_info :=
               with_handles s.(p_info)
                 (Dict.set s.(p_info).(file_handles) N empty_handle);
             api_latest_macros := s.(api_latest_macros);
             p_out := s.(p_out) |}
          (i + 1)).
Proof.
  unfold file_turn.
  set (line := ("typedef struct " ++ T ++ "Handle* " ++ N ++ ";" ++ tail)
                 %string).
  assert (H1 : startswith line "#define EOS_" = false) by reflexivity.
  assert (H2 : contains line "typedef struct " = true).
  { rewrite contains_unfold. unfold line. now rewrite startswith_app. }
  assert (H3 : contains line "Handle*" = true).
  { unfold line.
    change ("typedef struct " ++ T ++ "Handle* " ++ N ++ ";" ++ tail)%string
      with ("typedef struct " ++ T ++ "Handle*" ++ " " ++ N ++ ";" ++ tail)
             %string.
    rewrite <- sapp_assoc. apply contains_app_l. }
  rewrite H1, H2, H3. cbn [andb].
  assert (H4 : split "* " (Some 1) line
               = [("typedef struct " ++ T ++ "Handle")%string;
                  (N ++ ";" ++ tail)%string]).
  { unfold line.
    change ("typedef struct " ++ T ++ "Handle* " ++ N ++ ";" ++ tail)%string
      with ("typedef struct " ++ T ++ "Handle" ++ "* " ++ N ++ ";" ++ tail)
             %string.
    rewrite <- !sapp_assoc. rewrite !sapp_assoc.
    rewrite <- (sapp_assoc "typedef struct " T
                  ("Handle" ++ "* " ++ N ++ ";" ++ tail)).
    rewrite <- (sapp_assoc ("typedef struct " ++ T) "Handle"
                  ("* " ++ N ++ ";" ++ tail)).
    rewrite (split_once "*" " " (("typedef struct " ++ T) ++ "Handle")).
    - now rewrite !sapp_assoc.
    - rewrite !mem_char_app, HT. reflexivity. }
  rewrite H4. cbn [index nth_error bind].
  rewrite (split_once ";" "" N tail HN). cbn [index nth_error bind].
  reflexivity.
Qed.

Lemma scanner_records_handle_typedef_witness :
  file_turn start_state 0
    (header_line "typedef struct EOS_FooHandle* EOS_HFoo;") []
  = Ok (Continue
          {| p_info := with_handles empty_file [("EOS_HFoo", empty_handle)];
             api_latest_macros := []; p_out := [] |} 1).
Proof.
  exact (scanner_records_handle_typedef start_state 0 "EOS_Foo" "EOS_HFoo"
           nl [] eq_refl eq_refl).
Defined.

(** X15.  A line [#define EOS_<X>_API_LATEST <value>] adds the macro name
    [EOS_<X>_API_LATEST] at the end of the list of version macros and
    changes nothing else (here [X] has no blank). *)
Theorem scanner_records_api_latest_macro (s : pstate) (i : nat)
    (X value : string) (after : list string)
    (HX : mem_char " " X = false) :
  file_turn s i ("#define EOS_" ++ X ++ "_API_LATEST " ++ value) after
  = Ok (Continue
          {| p_info := s.(p_info);
             api_latest_macros :=
               s.(api_latest_macros) ++ [("EOS_" ++ X ++ "_API_LATEST")%string];
             p_out := s.(p_out) |}
          (i + 1)).
Proof.
  unfold file_turn.
  set (line := ("#define EOS_" ++ X ++ "_API_LATEST " ++ value)%string).
  assert (H1 : startswith line "#define EOS_" = true).
  { unfold line. apply startswith_app. }
  assert (H2 : contains line "_API_LATEST" = true).
  { unfold line.
    change ("#define EOS_" ++ X ++ "_API_LATEST " ++ value)%string
      with ("#define EOS_" ++ X ++ "_API_LATEST" ++ " " ++ value)%string.
    rewrite <- sapp_assoc. apply contains_app_l. }
  rewrite H1, H2. cbn [andb].
  assert (H3 : split " " (Some 2) line
               = ["#define"; ("EOS_" ++ X ++ "_API_LATEST")%string; value]).
  { unfold line, split.
    change ("#define EOS_" ++ X ++ "_API_LATEST " ++ value)%string
      with ("#define" ++ " " ++ "EOS_" ++ X ++ "_API_LATEST " ++ value)
             %string.
    rewrite (split_go_first " " "" "#define" 1 "") by reflexivity.
    change ("EOS_" ++ X ++ "_API_LATEST " ++ value)%string
      with ("EOS_" ++ X ++ "_API_LATEST" ++ " " ++ value)%string.
    rewrite <- (sapp_assoc X "_API_LATEST" (" " ++ value)).
    rewrite <- (sapp_assoc "EOS_" (X ++ "_API_LATEST") (" " ++ value)).
    rewrite (split_go_first " " "" ("EOS_" ++ X ++ "_API_LATEST") 0 "").
    - rewrite split_go_spent. reflexivity.
    - rewrite !mem_char_app, HX. reflexivity. }
  rewrite H3. reflexivity.
Qed.

Lemma scanner_records_api_latest_macro_witness :
  file_turn start_state 4
    (header_line "#define EOS_AUTH_LOGIN_API_LATEST 2") []
  = Ok (Continue
          {| p_info := empty_file;
             api_latest_macros := ["EOS_AUTH_LOGIN_API_LATEST"];
             p_out := [] |} 5).
Proof.
  exact (scanner_records_api_latest_macro start_state 4 "AUTH_LOGIN"
           (header_line "2") [] eq_refl).
Defined.

(* ------------------------------------------------------------------ *)
(** ** Function and callback declarations *)

Lemma split_join (c0 : ascii) (sep' : string) (l : list string) :
  l <> [] ->
  Forall (fun x => mem_char c0 x = false) l ->
  split (String c0 sep') None (join (String c0 sep') l) = l.
Proof.
  induction l as [|x l IH]; [congruence|]. intros _ Hall.
  inversion Hall as [|? ? Hx Hl]; subst.
  destruct l as [|y l].
  - simpl. now apply split_absent.
  - rewrite join_cons by discriminate.
    rewrite (split_first c0 sep' x _ Hx). f_equal.
    apply IH; [discriminate | exact Hl].
Qed.

Lemma plain_arg_spec (a : arg) :
  plain_arg a = true ->
  mem_char "," (render_arg a) = false
  /\ mem_char " " a.(name) = false
  /\ String.eqb a.(type) "void" = false.
Proof.
  unfold plain_arg, render_arg.
  rewrite !andb_true_iff, !negb_true_iff. intros [[[H1 H2] H3] H4].
  repeat split; try assumption.
  rewrite !mem_char_app, H1, H2. reflexivity.
Qed.

(** The loop of source lines 1515-1527 reads rendered arguments back. *)
Lemma parse_args_rendered (l : list arg) :
  Forall (fun a => plain_arg a = true) l ->
  forall acc,
    foldM (fun acc a =>
             if (String.length a <=? 0)%nat then Ok acc
             else
               let splited := rsplit " " (Some 1) a in
               splited0 <- index splited 0 ;;
               if String.eqb splited0 "void" then Ok acc
               else
                 splited1 <- index splited 1 ;;
                 Ok (acc ++ [{| type := splited0; name := splited1 |}]))
          (map render_arg l) acc
    = Ok (acc ++ l)%list.
Proof.
  match goal with |- context [foldM ?g _ _] => set (f := g) end.
  induction 1 as [|a l Ha Hl IH]; intros acc; cbn [map foldM].
  - now rewrite app_nil_r.
  - destruct (plain_arg_spec a Ha) as (_ & Hn & Hv).
    assert (Hstep : f acc (render_arg a) = Ok (acc ++ [a])%list).
    { unfold f.
      assert (Hlen : (String.length (render_arg a) <=? 0)%nat = false).
      { apply Nat.leb_gt. unfold render_arg. rewrite !slength_app.
        simpl. lia. }
      rewrite Hlen. unfold render_arg.
      rewrite (rsplit_last " " a.(type) a.(name) Hn).
      cbn [index nth_error bind]. rewrite Hv. cbn [bind].
      destruct a. reflexivity. }
    rewrite Hstep. cbn [bind]. rewrite IH, <- app_assoc. reflexivity.
Qed.

Lemma split_rendered_args (l : list arg) :
  Forall (fun a => plain_arg a = true) l ->
  parse_args (split ", " None (join ", " (map render_arg l))) = Ok l.
Proof.
  intros Hall. unfold parse_args. destruct l as [|a l].
  - reflexivity.
  - rewrite split_join.
    + apply (parse_args_rendered (a :: l) Hall []).
    + discriminate.
    + apply Forall_map. eapply Forall_impl; [|exact Hall].
      intros x Hx. apply (plain_arg_spec x Hx).
Qed.

(** X16.  A function declaration
    [EOS_DECLARE_FUNC(<ret>) <name>(<type> <arg>, ...);] is recorded in
    the method table of the file under [name], with the return type
    [ret] and the arguments in order, each with its type and its name.
    This holds for a return type without blank or parenthesis, a name
    without [(] that is not on the skip list, arguments without comma
    whose names have no blank, and a line that is not taken for a handle
    typedef. *)
Theorem scanner_records_function (s : pstate) (i : nat)
    (ret name : string) (args : list arg) (tail : string)
    (after : list string)
    (Hblank : mem_char " " ret = false)
    (Hopen : mem_char "(" ret = false)
    (Hclose : mem_char ")" ret = false)
    (Hname : mem_char "(" name = false)
    (Hskip : name <> "EOS_Achievements_AddNotifyAchievementsUnlocked")
    (Hargs : Forall (fun a => plain_arg a = true) args)
    (Htail : mem_char ")" tail = false)
    (Hty : is_handle_typedef (declare_func ret name args tail) = false) :
  file_turn s i (declare_func ret name args tail) after
  = Ok (Continue
          {| p_info :=
               with_methods s.(p_info)
                 (Dict.set s.(p_info).(file_methods) name
                    {| return_ := ret; args := args |});
             api_latest_macros := s.(api_latest_macros);
             p_out := s.(p_out) |}
          (i + 1)).
Proof.
  unfold file_turn. unfold is_handle_typedef in Hty.
  set (argtext := join ", " (map render_arg args)) in *.
  set (rest := (name ++ "(" ++ argtext ++ ");" ++ tail)%string).
  set (line := declare_func ret name args tail) in *.
  assert (L1 : line = (("EOS_DECLARE_FUNC(" ++ ret) ++ ") " ++ rest)%string).
  { unfold line, declare_func, rest. fold argtext.
    now rewrite !sapp_assoc. }
  assert (L2 : line
               = (("EOS_DECLARE_FUNC(" ++ ret ++ ")") ++ " " ++ rest)%string).
  { rewrite L1. rewrite !sapp_assoc. reflexivity. }
  assert (H1 : startswith line "#define EOS_" = false) by reflexivity.
  assert (H3 : startswith line "EOS_ENUM(" = false) by reflexivity.
  assert (H4 : startswith line "EOS_DECLARE_FUNC" = true) by reflexivity.
  rewrite H1, Hty, H3, H4. cbn [andb].
  assert (S1 : split ") " (Some 1) line
               = [("EOS_DECLARE_FUNC(" ++ ret)%string; rest]).
  { rewrite L1. apply split_once. rewrite mem_char_app, Hclose.
    reflexivity. }
  rewrite S1. cbn [index nth_error bind].
  assert (S2 : split "(" None rest
               = name :: split "(" None (argtext ++ ");" ++ tail)).
  { unfold rest. apply (split_first "(" "" name _ Hname). }
  rewrite S2. cbn [index nth_error bind].
  assert (Hmem : PyStr.mem name
                   ["EOS_Achievements_AddNotifyAchievementsUnlocked"]
                 = false).
  { apply mem_false_iff. intros [H | []]. now apply Hskip. }
  rewrite Hmem.
  assert (S3 : split " " (Some 1) line
               = [("EOS_DECLARE_FUNC(" ++ ret ++ ")")%string; rest]).
  { rewrite L2. apply split_once. rewrite !mem_char_app, Hblank.
    reflexivity. }
  rewrite S3. cbn [index nth_error bind].
  assert (S4 : split "(" None ("EOS_DECLARE_FUNC(" ++ ret ++ ")")
               = ["EOS_DECLARE_FUNC"; (ret ++ ")")%string]).
  { change ("EOS_DECLARE_FUNC(" ++ ret ++ ")")%string
      with ("EOS_DECLARE_FUNC" ++ "(" ++ (ret ++ ")"))%string.
    rewrite (split_first "(" "" "EOS_DECLARE_FUNC") by reflexivity.
    rewrite split_absent; [reflexivity|].
    rewrite mem_char_app, Hopen. reflexivity. }
  rewrite S4. cbn [index nth_error bind].
  assert (S5 : split "(" (Some 1) rest = [name; (argtext ++ ");" ++ tail)%string]).
  { unfold rest. apply (split_once "(" "" name _ Hname). }
  rewrite S5. cbn [index nth_error bind].
  assert (S6 : rsplit ")" (Some 1) (argtext ++ ");" ++ tail)
               = [argtext; (";" ++ tail)%string]).
  { change (argtext ++ ");" ++ tail)%string
      with (argtext ++ ")" ++ (";" ++ tail))%string.
    apply rsplit_last. simpl. exact Htail. }
  rewrite S6. cbn [index nth_error bind].
  unfold argtext. rewrite (split_rendered_args args Hargs). cbn [bind].
  rewrite (rstrip_last_in ")" ret ")") by reflexivity.
  rewrite (rstrip_unchanged ")" ret) by now apply ends_with_any_absent.
  reflexivity.
Qed.

Lemma scanner_records_function_witness :
  file_turn start_state 7
    (header_line "EOS_DECLARE_FUNC(EOS_EResult) EOS_Foo_CopyInfo(EOS_HFoo Handle, const EOS_Foo_CopyInfoOptions* Options, EOS_Foo_Info** OutInfo);")
    []
  = Ok (Continue
          {| p_info :=
               with_methods empty_file
                 [("EOS_Foo_CopyInfo",
                   {| return_ := "EOS_EResult";
                      args :=
                        [ {| type := "EOS_HFoo"; name := "Handle" |};
                          {| type := "const EOS_Foo_CopyInfoOptions*";
                             name := "Options" |};
                          {| type := "EOS_Foo_Info**";
                             name := "OutInfo" |} ] |})];
             api_latest_macros := []; p_out := [] |} 8).
Proof.
  apply (scanner_records_function start_state 7 "EOS_EResult"
           "EOS_Foo_CopyInfo"
           [ {| type := "EOS_HFoo"; name := "Handle" |};
             {| type := "const EOS_Foo_CopyInfoOptions*";
                name := "Options" |};
             {| type := "EOS_Foo_Info**"; name := "OutInfo" |} ]
           nl []); try reflexivity.
  - discriminate.
  - repeat constructor.
Defined.

(** X17.  The return type of a function declaration is read up to its
    first blank: for [EOS_DECLARE_FUNC(<r1> <r2>) <name>(...);] the
    recorded return type is [r1] alone (so [const char*] is recorded as
    [const]); the name and the arguments are read as before. *)
Theorem scanner_cuts_return_type_at_blank (s : pstate) (i : nat)
    (r1 r2 name : string) (args : list arg) (tail : string)
    (after : list string)
    (Hblank : mem_char " " r1 = false)
    (Hopen1 : mem_char "(" r1 = false)
    (Hclose1 : mem_char ")" r1 = false)
    (Hopen2 : mem_char "(" r2 = false)
    (Hclose2 : mem_char ")" r2 = false)
    (Hname : mem_char "(" name = false)
    (Hskip : name <> "EOS_Achievements_AddNotifyAchievementsUnlocked")
    (Hargs : Forall (fun a => plain_arg a = true) args)
    (Htail : mem_char ")" tail = false)
    (Hty : is_handle_typedef
             (declare_func (r1 ++ " " ++ r2) name args tail) = false) :
  file_turn s i (declare_func (r1 ++ " " ++ r2) name args tail) after
  = Ok (Continue
          {| p_info :=
               with_methods s.(p_info)
                 (Dict.set s.(p_info).(file_methods) name
                    {| return_ := r1; args := args |});
             api_latest_macros := s.(api_latest_macros);
             p_out := s.(p_out) |}
          (i + 1)).
Proof.
  unfold file_turn. unfold is_handle_typedef in Hty.
  set (argtext := join ", " (map render_arg args)) in *.
  set (rest := (name ++ "(" ++ argtext ++ ");" ++ tail)%string).
  set (line := declare_func (r1 ++ " " ++ r2) name args tail) in *.
  assert (L1 : line
               = (("EOS_DECLARE_FUNC(" ++ r1 ++ " " ++ r2) ++ ") " ++ rest)
                   %string).
  { unfold line, declare_func, rest. fold argtext.
    now rewrite !sapp_assoc. }
  assert (L2 : line
               = (("EOS_DECLARE_FUNC(" ++ r1) ++ " "
                  ++ (r2 ++ ") " ++ rest))%string).
  { rewrite L1. rewrite !sapp_assoc. reflexivity. }
  assert (H1 : startswith line "#define EOS_" = false) by reflexivity.
  assert (H3 : startswith line "EOS_ENUM(" = false) by reflexivity.
  assert (H4 : startswith line "EOS_DECLARE_FUNC" = true) by reflexivity.
  rewrite H1, Hty, H3, H4. cbn [andb].
  assert (S1 : split ") " (Some 1) line
               = [("EOS_DECLARE_FUNC(" ++ r1 ++ " " ++ r2)%string; rest]).
  { rewrite L1. apply split_once.
    rewrite !mem_char_app, Hclose1, Hclose2. reflexivity. }
  rewrite S1. cbn [index nth_error bind].
  assert (S2 : split "(" None rest
               = name :: split "(" None (argtext ++ ");" ++ tail)).
  { unfold rest. apply (split_first "(" "" name _ Hname). }
  rewrite S2. cbn [index nth_error bind].
  assert (Hmem : PyStr.mem name
                   ["EOS_Achievements_AddNotifyAchievementsUnlocked"]
                 = false).
  { apply mem_false_iff. intros [H | []]. now apply Hskip. }
  rewrite Hmem.
  assert (S3 : split " " (Some 1) line
               = [("EOS_DECLARE_FUNC(" ++ r1)%string;
                  (r2 ++ ") " ++ rest)%string]).
  { rewrite L2. apply split_once. rewrite !mem_char_app, Hblank.
    reflexivity. }
  rewrite S3. cbn [index nth_error bind].
  assert (S4 : split "(" None ("EOS_DECLARE_FUNC(" ++ r1)
               = ["EOS_DECLARE_FUNC"; r1]).
  { change ("EOS_DECLARE_FUNC(" ++ r1)%string
      with ("EOS_DECLARE_FUNC" ++ "(" ++ r1)%string.
    rewrite (split_first "(" "" "EOS_DECLARE_FUNC") by reflexivity.
    now rewrite split_absent. }
  rewrite S4. cbn [index nth_error bind].
  assert (S5 : split "(" (Some 1) (r2 ++ ") " ++ rest)
               = [(r2 ++ ") " ++ name)%string;
                  (argtext ++ ");" ++ tail)%string]).
  { unfold rest.
    rewrite <- (sapp_assoc ") " name), <- (sapp_assoc r2 (") " ++ name)).
    apply split_once. rewrite !mem_char_app, Hopen2, Hname. reflexivity. }
  rewrite S5. cbn [index nth_error bind].
  assert (S6 : rsplit ")" (Some 1) (argtext ++ ");" ++ tail)
               = [argtext; (";" ++ tail)%string]).
  { change (argtext ++ ");" ++ tail)%string
      with (argtext ++ ")" ++ (";" ++ tail))%string.
    apply rsplit_last. simpl. exact Htail. }
  rewrite S6. cbn [index nth_error bind].
  unfold argtext. rewrite (split_rendered_args args Hargs). cbn [bind].
  rewrite (rstrip_unchanged ")" r1) by now apply ends_with_any_absent.
  reflexivity.
Qed.

Lemma scanner_cuts_return_type_at_blank_witness :
  file_turn start_state 0
    (header_line "EOS_DECLARE_FUNC(const char*) EOS_EResult_ToString(EOS_EResult Result);")
    []
  = Ok (Continue
          {| p_info :=
               with_methods empty_file
                 [("EOS_EResult_ToString",
                   {| return_ := "const";
                      args := [ {| type := "EOS_EResult";
                                   name := "Result" |} ] |})];
             api_latest_macros := []; p_out := [] |} 1).
Proof.
  apply (scanner_cuts_return_type_at_blank start_state 0 "const" "char*"
           "EOS_EResult_ToString"
           [ {| type := "EOS_EResult"; name := "Result" |} ]
           nl []); try reflexivity.
  - discriminate.
  - repeat constructor.
Defined.

Lemma mem_char_join (c : ascii) (sep : string) (l : list string) :
  mem_char c sep = false ->
  Forall (fun x => mem_char c x = false) l ->
  mem_char c (join sep l) = false.
Proof.
  intros Hsep. induction 1 as [|x l Hx Hl IH]; [reflexivity|].
  destruct l as [|y l]; [exact Hx|].
  rewrite join_cons by discriminate.
  now rewrite !mem_char_app, Hx, Hsep, IH.
Qed.

(** X18.  A callback declaration
    [EOS_DECLARE_CALLBACK(<name>, <type> <arg>, ..., <type> <arg>);] is
    recorded under [name] with an empty return type and with its last
    argument only: the arguments before it are dropped. *)
Theorem scanner_keeps_last_callback_argument (s : pstate) (i : nat)
    (cb : string) (front : list arg) (a : arg) (tail : string)
    (after : list string)
    (Hcomma : mem_char "," cb = false)
    (Hclose : mem_char ")" cb = false)
    (Hargs : Forall (fun a => plain_arg a = true) (front ++ [a]))
    (Hparen : Forall (fun a => no_paren_arg a = true) (front ++ [a]))
    (Htail : mem_char ")" tail = false)
    (Hty : is_handle_typedef (declare_callback cb (front ++ [a]) tail)
           = false) :
  file_turn s i (declare_callback cb (front ++ [a]) tail) after
  = Ok (Continue
          {| p_info :=
               with_callbacks s.(p_info)
                 (Dict.set s.(p_info).(file_callbacks) cb
                    {| return_ := ""; args := [a] |});
             api_latest_macros := s.(api_latest_macros);
             p_out := s.(p_out) |}
          (i + 1)).
Proof.
  unfold file_turn. unfold is_handle_typedef in Hty.
  set (rendered := map render_arg (front ++ [a])) in *.
  set (line := declare_callback cb (front ++ [a]) tail) in *.
  assert (Hne : rendered <> []).
  { unfold rendered. rewrite map_app. now destruct (map render_arg front). }
  assert (H1 : startswith line "#define EOS_" = false) by reflexivity.
  assert (H3 : startswith line "EOS_ENUM(" = false) by reflexivity.
  assert (H4 : startswith line "EOS_DECLARE_FUNC" = false) by reflexivity.
  assert (H5 : startswith line "EOS_DECLARE_CALLBACK" = true) by reflexivity.
  assert (H6 : startswith line "EOS_DECLARE_CALLBACK_RETVALUE" = false)
    by reflexivity.
  rewrite H1, Hty, H3, H4, H5, H6. cbn [andb].
  assert (Hy : (cb ++ ", " ++ join ", " rendered)%string
               = join ", " (cb :: rendered)).
  { now rewrite join_cons. }
  assert (S1 : split "(" (Some 1) line
               = ["EOS_DECLARE_CALLBACK";
                  (join ", " (cb :: rendered) ++ ")" ++ ";" ++ tail)
                    %string]).
  { unfold line, declare_callback. fold rendered.
    rewrite <- Hy, !sapp_assoc.
    apply (split_once "(" "" "EOS_DECLARE_CALLBACK"). reflexivity. }
  rewrite S1. cbn [index nth_error bind].
  assert (Hall : Forall (fun x => mem_char "," x = false) (cb :: rendered)).
  { constructor; [exact Hcomma|]. unfold rendered. apply Forall_map.
    eapply Forall_impl; [|exact Hargs].
    intros x Hx. apply (plain_arg_spec x Hx). }
  assert (Hnop : mem_char ")" (join ", " (cb :: rendered)) = false).
  { apply mem_char_join; [reflexivity|]. constructor; [exact Hclose|].
    unfold rendered. apply Forall_map.
    eapply Forall_impl; [|exact Hparen].
    intros x. unfold no_paren_arg, render_arg.
    rewrite andb_true_iff, !negb_true_iff. intros [Ht Hn].
    now rewrite !mem_char_app, Ht, Hn. }
  rewrite (rsplit_once ")" (join ", " (cb :: rendered)) (";" ++ tail))
    by (try exact Hnop; simpl; exact Htail).
  cbn [index nth_error bind].
  rewrite (split_join "," " " (cb :: rendered)) by (try discriminate; exact Hall).
  cbn [index nth_error bind List.length].
  rewrite Nat.sub_succ, Nat.sub_0_r.
  assert (Hlast : nth_error (cb :: rendered) (List.length rendered)
                  = Some (render_arg a)).
  { unfold rendered. rewrite map_app, length_app, length_map.
    cbn [map List.length]. rewrite Nat.add_1_r. cbn [nth_error].
    rewrite nth_error_app2 by (rewrite length_map; lia).
    rewrite length_map, Nat.sub_diag. reflexivity. }
  unfold index at 1. rewrite Hlast. cbn [bind].
  assert (Ha : plain_arg a = true).
  { rewrite Forall_forall in Hargs. apply Hargs, in_or_app. right. now left. }
  destruct (plain_arg_spec a Ha) as (_ & Hn & _).
  unfold render_arg. rewrite (rsplit_last " " a.(type) a.(name) Hn).
  cbn [index nth_error bind]. destruct a. reflexivity.
Qed.

Lemma scanner_keeps_last_callback_argument_witness :
  file_turn start_state 2
    (header_line "EOS_DECLARE_CALLBACK(EOS_Foo_OnDoneCallback, void* ClientData, const EOS_Foo_DoneCallbackInfo* Data);")
    []
  = Ok (Continue
          {| p_info :=
               with_callbacks empty_file
                 [("EOS_Foo_OnDoneCallback",
                   {| return_ := "";
                      args := [ {| type := "const EOS_Foo_DoneCallbackInfo*";
                                   name := "Data" |} ] |})];
             api_latest_macros := []; p_out := [] |} 3).
Proof.
  apply (scanner_keeps_last_callback_argument start_state 2
           "EOS_Foo_OnDoneCallback"
           [ {| type := "void*"; name := "ClientData" |} ]
           {| type := "const EOS_Foo_DoneCallbackInfo*"; name := "Data" |}
           nl []); try reflexivity.
  - repeat constructor.
  - repeat constructor.
Defined.

(* ------------------------------------------------------------------ *)
(** ** Struct blocks *)

Lemma set_absent {V : Type} (d : Dict.t V) (k : string) (v : V) :
  ~ In k (Dict.keys d) -> Dict.set d k v = (d ++ [(k, v)])%list.
Proof.
  induction d as [|[k' v'] d IH]; simpl; [reflexivity|].
  intros H. destruct (String.eqb k k') eqn:E.
  - apply String.eqb_eq in E. subst. tauto.
  - rewrite IH by tauto. reflexivity.
Qed.

(** Setting keys that are new one after the other appends the entries. *)
Lemma fold_set_fresh {V : Type} (l : Dict.t V) : forall d : Dict.t V,
  NoDup (Dict.keys (d ++ l)) ->
  fold_left (fun d '(k, v) => Dict.set d k v) l d = (d ++ l)%list.
Proof.
  induction l as [|[k v] l IH]; intros d Hnd; simpl.
  - now rewrite app_nil_r.
  - assert (Hk : ~ In k (Dict.keys d)).
    { unfold Dict.keys in *. rewrite map_app in Hnd. simpl in Hnd.
      apply NoDup_remove_2 in Hnd. intros H. apply Hnd.
      apply in_or_app. now left. }
    rewrite (set_absent d k v Hk). rewrite IH.
    + now rewrite <- app_assoc.
    + now rewrite <- app_assoc.
Qed.

(** A pattern without the character [c] is tested on the text before the
    first [c]. *)
Lemma startswith_before (c : ascii) (p a r : string) :
  mem_char c p = false ->
  startswith (a ++ String c r) p = startswith a p.
Proof.
  revert a. induction p as [|x p IH]; intros a Hp.
  - now rewrite !startswith_nil.
  - cbn [mem_char] in Hp. apply orb_false_iff in Hp. destruct Hp as [Hx Hp].
    destruct a as [|y a]; cbn [append startswith].
    + rewrite Ascii.eqb_sym, Hx. reflexivity.
    + now rewrite IH.
Qed.

Lemma plain_field_spec (field field_type : string) :
  plain_field (field, field_type) = true ->
  lstrip tab (field_type ++ " " ++ field ++ ";" ++ nl)
  = (field_type ++ " " ++ field ++ ";" ++ nl)%string
  /\ is_skipped_line (field_type ++ " " ++ field ++ ";") = false
  /\ startswith (field_type ++ " " ++ field) "union" = false
  /\ mem_char ";" (field_type ++ " " ++ field) = false
  /\ mem_char " " field = false.
Proof.
  unfold plain_field.
  rewrite !andb_true_iff, !negb_true_iff.
  intros [[[[[H1 H2] H3] H4] H5] H6].
  destruct field_type as [|c t]; [discriminate|].
  cbn [starts_with_any] in H2. unfold tab in H2.
  cbn [append mem_char] in H2.
  rewrite !orb_false_iff in H2. destruct H2 as (Ht & Hs & Ha & Hb & _).
  split; [|split; [|split; [|split]]].
  - cbn [append lstrip]. unfold tab. cbn [mem_char].
    now rewrite Ht.
  - unfold is_skipped_line. cbn [append startswith String.length].
    rewrite !startswith_nil, !andb_true_r.
    rewrite (Ascii.eqb_sym "/" c), (Ascii.eqb_sym "*" c),
      (Ascii.eqb_sym " " c), Hs, Ha, Hb. reflexivity.
  - change (String c t ++ " " ++ field)%string
      with (String c t ++ String " " field)%string.
    rewrite startswith_before by reflexivity. exact H3.
  - rewrite !mem_char_app, H4, H5. reflexivity.
  - exact H6.
Qed.

Lemma struct_turn_member (acc : Dict.t string) (out : list parse_print)
    (i : nat) (field field_type : string) (after : list string) :
  plain_field (field, field_type) = true ->
  struct_turn (acc, out) i (struct_member (field, field_type)) after
  = Ok (Continue (Dict.set acc field field_type, out) (i + 1)).
Proof.
  intros Hp. destruct (plain_field_spec _ _ Hp) as (L & K & U & S & B).
  unfold struct_turn, struct_member.
  assert (H0 : startswith
                 (tab ++ field_type ++ " " ++ field ++ ";" ++ nl) "));"
               = false) by reflexivity.
  rewrite H0.
  change (lstrip tab (tab ++ field_type ++ " " ++ field ++ ";" ++ nl))
    with (lstrip tab (field_type ++ " " ++ field ++ ";" ++ nl)).
  rewrite L.
  assert (R : rstrip nl (field_type ++ " " ++ field ++ ";" ++ nl)
              = (field_type ++ " " ++ field ++ ";")%string).
  { replace (field_type ++ " " ++ field ++ ";" ++ nl)%string
      with ((field_type ++ " " ++ field ++ ";") ++ nl)%string
      by now rewrite !sapp_assoc.
    unfold nl at 1 2. rewrite rstrip_last_in by reflexivity.
    apply rstrip_unchanged.
    replace (field_type ++ " " ++ field ++ ";")%string
      with ((field_type ++ " " ++ field) ++ ";")%string
      by now rewrite !sapp_assoc.
    apply ends_with_any_last. }
  rewrite R, K.
  replace (field_type ++ " " ++ field ++ ";")%string
    with ((field_type ++ " " ++ field) ++ ";" ++ "")%string
    by now rewrite !sapp_assoc.
  rewrite (rsplit_once ";" (field_type ++ " " ++ field) "" S eq_refl).
  cbn [index nth_error bind]. rewrite U.
  rewrite (rsplit_last " " field_type field B).
  reflexivity.
Qed.

(** The loop over the lines of a struct block, from its first field to
    its terminator. *)
Lemma struct_loop (fields : struct_fields) (tail : string)
    (rest : list string) (out : list parse_print) :
  Forall (fun e => plain_field e = true) fields ->
  forall acc pos,
    scan_lines struct_turn (fun _ => Raise IndexError)
      (map struct_member fields ++ ("));" ++ tail)%string :: rest)
      pos pos (acc, out)
    = Ok (fold_left (fun d '(k, v) => Dict.set d k v) fields acc, out,
          pos + List.length fields).
Proof.
  induction 1 as [|[f t] fields Hf Hall IH]; intros acc pos.
  - cbn [map app scan_lines]. rewrite Nat.ltb_irrefl.
    unfold struct_turn.
    change (startswith ("));" ++ tail) "));") with (startswith tail "").
    rewrite startswith_nil. cbn [bind fold_left List.length].
    now rewrite Nat.add_0_r.
  - cbn [map app scan_lines]. rewrite Nat.ltb_irrefl.
    rewrite (struct_turn_member acc out pos f t _ Hf). cbn [bind].
    rewrite Nat.add_1_r, IH. cbn [fold_left List.length].
    now rewrite Nat.add_succ_r.
Qed.

(** Lines before the position at which the loop goes on are passed
    over. *)
Lemma scan_lines_pass {St R : Type}
    (body : St -> nat -> string -> list string -> result (turn St R))
    (at_end : St -> result R) (skipped rest : list string) :
  forall pos i s,
    pos + List.length skipped = i ->
    scan_lines body at_end (skipped ++ rest) pos i s
    = scan_lines body at_end rest i i s.
Proof.
  induction skipped as [|x skipped IH]; intros pos i s H.
  - simpl in H. rewrite Nat.add_0_r in H. now subst.
  - cbn [app scan_lines].
    assert (E : (pos <? i)%nat = true)
      by (apply Nat.ltb_lt; simpl in H; lia).
    rewrite E. apply IH. simpl in H. lia.
Qed.

(** X19.  Scanning the lines of a struct block
    [EOS_STRUCT(<name>, (] ... [));] whose fields are written
    [<type> <field>;] records the struct under [name] with exactly these
    fields and types, in declaration order, and changes nothing else. *)
Theorem scanner_reads_struct_block (s : pstate) (struct_name : string)
    (fields : struct_fields)
    (Hfront : starts_with_any "(" struct_name = false)
    (Hback : ends_with_any ", (" struct_name = false)
    (Hty : is_handle_typedef ("EOS_STRUCT(" ++ struct_name ++ ", (" ++ nl)
           = false)
    (Hfields : Forall (fun e => plain_field e = true) fields)
    (Hnames : NoDup (Dict.keys fields)) :
  _parse_file (struct_block struct_name fields) s
  = Ok {| p_info :=
            {| file_enums := s.(p_info).(file_enums);
               file_methods := s.(p_info).(file_methods);
               file_callbacks := s.(p_info).(file_callbacks);
               file_structs :=
                 Dict.set s.(p_info).(file_structs) struct_name fields;
               file_handles := s.(p_info).(file_handles) |};
          api_latest_macros := s.(api_latest_macros);
          p_out := s.(p_out) |}.
Proof.
  unfold _parse_file, struct_block. cbn [scan_lines]. rewrite Nat.ltb_irrefl.
  unfold file_turn at 1. unfold is_handle_typedef in Hty.
  set (header := ("EOS_STRUCT(" ++ struct_name ++ ", (" ++ nl)%string) in *.
  assert (H1 : startswith header "#define EOS_" = false) by reflexivity.
  assert (H3 : startswith header "EOS_ENUM(" = false) by reflexivity.
  assert (H4 : startswith header "EOS_DECLARE_FUNC" = false) by reflexivity.
  assert (H5 : startswith header "EOS_DECLARE_CALLBACK" = false)
    by reflexivity.
  assert (H6 : startswith header "EOS_STRUCT" = true) by reflexivity.
  rewrite H1, Hty, H3, H4, H5, H6. cbn [andb].
  assert (Hname : rstrip ", (" (rstrip nl (lstrip "("
                    (lstrip "EOS_STRUCT" header)))
                  = struct_name).
  { change (lstrip "EOS_STRUCT" header)
      with ("(" ++ struct_name ++ ", (" ++ nl)%string.
    change (lstrip "(" ("(" ++ struct_name ++ ", (" ++ nl))
      with (lstrip "(" (struct_name ++ ", (" ++ nl)).
    assert (E1 : lstrip "(" (struct_name ++ ", (" ++ nl)
                 = (struct_name ++ ", (" ++ nl)%string).
    { apply lstrip_unchanged. destruct struct_name; [reflexivity|].
      exact Hfront. }
    rewrite E1.
    replace (struct_name ++ ", (" ++ nl)%string
      with ((struct_name ++ ", (") ++ nl)%string by now rewrite sapp_assoc.
    unfold nl at 1 2. rewrite rstrip_last_in by reflexivity.
    replace (struct_name ++ ", (")%string
      with (((struct_name ++ ",") ++ " ") ++ "(")%string
      by now rewrite !sapp_assoc.
    rewrite (rstrip_unchanged (String (ascii_of_nat 10) ""))
      by apply ends_with_any_last.
    rewrite !rstrip_last_in by reflexivity.
    now apply rstrip_unchanged. }
  rewrite Hname.
  match goal with
  | |- context [scan_lines struct_turn ?e ?l ?p ?q ?a] =>
      assert (HL : scan_lines struct_turn e l p q a
                   = Ok (fold_left (fun d '(k, v) => Dict.set d k v)
                           fields [],
                         s.(p_out), 0 + 1 + List.length fields))
        by apply (struct_loop fields nl [] s.(p_out) Hfields [] (0 + 1))
  end.
  rewrite HL. cbn [bind].
  rewrite fold_set_fresh by exact Hnames. cbn [app].
  replace (map struct_member fields ++ [("));" ++ nl)%string])
    with ((map struct_member fields ++ [("));" ++ nl)%string]) ++ [])%list
    by apply app_nil_r.
  rewrite scan_lines_pass.
  - reflexivity.
  - rewrite length_app, length_map. simpl. lia.
Qed.

Lemma scanner_reads_struct_block_witness :
  _parse_file
    (struct_block "EOS_Foo_Options"
       [("ApiVersion", "int32_t"); ("Name", "const char*")])
    start_state
  = Ok {| p_info :=
            {| file_enums := []; file_methods := []; file_callbacks := [];
               file_structs :=
                 [("EOS_Foo_Options",
                   [("ApiVersion", "int32_t"); ("Name", "const char*")])];
               file_handles := [] |};
          api_latest_macros := []; p_out := [] |}.
Proof.
  apply (scanner_reads_struct_block start_state "EOS_Foo_Options"
           [("ApiVersion", "int32_t"); ("Name", "const char*")]);
    try reflexivity.
  - repeat constructor.
  - nodup_strings.
Defined.

(* ------------------------------------------------------------------ *)
(** ** Enum blocks *)

Lemma rstrip_app (chars a b : string) :
  rstrip chars (a ++ b)
  = match rstrip chars b with
    | EmptyString => rstrip chars a
    | r => (a ++ r)%string
    end.
Proof.
  induction a as [|c a IH]; cbn [append rstrip].
  - now destruct (rstrip chars b).
  - rewrite IH. destruct (rstrip chars b); [reflexivity|].
    destruct a; reflexivity.
Qed.

Lemma enum_turn_member (acc : list string) (i : nat)
    (member value : string) (after : list string) :
  plain_member member = true ->
  enum_turn acc i (enum_member (member, value)) after
  = Ok (Continue (acc ++ [member]) (i + 1)).
Proof.
  unfold plain_member. rewrite !andb_true_iff, !negb_true_iff.
  intros [[H1 H2] H3].
  destruct member as [|c m]; [discriminate|].
  cbn [starts_with_any] in H2. unfold tab in H2. cbn [append mem_char] in H2.
  rewrite !orb_false_iff in H2. destruct H2 as (Ht & Hb & Hs & _).
  unfold enum_turn, enum_member.
  assert (H0 : startswith
                 (tab ++ String c m ++ " = " ++ value ++ "," ++ nl) ");"
               = false) by reflexivity.
  rewrite H0.
  assert (L : lstrip tab (tab ++ String c m ++ " = " ++ value ++ "," ++ nl)
              = (String c m ++ " = " ++ value ++ "," ++ nl)%string).
  { unfold tab. cbn [append lstrip mem_char]. now rewrite Ht. }
  rewrite L.
  assert (R : exists w,
             rstrip "," (rstrip nl
               (String c m ++ " = " ++ value ++ "," ++ nl))
             = (String c m ++ " = " ++ w)%string).
  { replace (String c m ++ " = " ++ value ++ "," ++ nl)%string
      with ((String c m ++ " = " ++ value ++ ",") ++ nl)%string
      by now rewrite !sapp_assoc.
    unfold nl at 1 2. rewrite rstrip_last_in by reflexivity.
    replace (String c m ++ " = " ++ value ++ ",")%string
      with ((String c m ++ " = " ++ value) ++ ",")%string
      by now rewrite !sapp_assoc.
    rewrite (rstrip_unchanged (String (ascii_of_nat 10) ""))
      by apply ends_with_any_last.
    rewrite rstrip_last_in by reflexivity.
    replace (String c m ++ " = " ++ value)%string
      with ((String c m ++ " = ") ++ value)%string
      by now rewrite !sapp_assoc.
    rewrite rstrip_app.
    destruct (rstrip "," value) as [|d w] eqn:E.
    - exists "". rewrite sapp_nil_r.
      replace (String c m ++ " = ")%string
        with ((String c m ++ " =") ++ " ")%string
        by now rewrite !sapp_assoc.
      apply rstrip_unchanged, ends_with_any_last.
    - exists (String d w). now rewrite !sapp_assoc. }
  destruct R as [w ->].
  assert (K : startswith (String c m ++ " = " ++ w) " "
              || startswith (String c m ++ " = " ++ w) "/" = false).
  { cbn [append startswith]. rewrite !startswith_nil, !andb_true_r.
    now rewrite (Ascii.eqb_sym " " c), (Ascii.eqb_sym "/" c), Hb, Hs. }
  rewrite K.
  rewrite (split_first " " "= " (String c m) w H3).
  reflexivity.
Qed.

Lemma enum_loop (members : list (string * string)) (tail : string)
    (rest : list string) :
  Forall (fun e => plain_member (fst e) = true) members ->
  forall acc pos,
    scan_lines enum_turn (fun _ => Raise IndexError)
      (map enum_member members ++ (");" ++ tail)%string :: rest)
      pos pos acc
    = Ok ((acc ++ map fst members)%list, pos + List.length members).
Proof.
  induction 1 as [|[m v] members Hm Hall IH]; intros acc pos.
  - cbn [map app scan_lines]. rewrite Nat.ltb_irrefl.
    unfold enum_turn.
    change (startswith (");" ++ tail) ");") with (startswith tail "").
    rewrite startswith_nil. cbn [bind List.length].
    now rewrite Nat.add_0_r, app_nil_r.
  - cbn [map app scan_lines]. rewrite Nat.ltb_irrefl.
    rewrite (enum_turn_member acc pos m v _ Hm). cbn [bind].
    rewrite Nat.add_1_r, IH. cbn [List.length fst].
    now rewrite Nat.add_succ_r, <- app_assoc.
Qed.

(** X20.  Scanning the lines of an enum block [EOS_ENUM(<name>,] ...
    [);] whose members are written [<member> = <value>,] records the enum
    under [name] with the member names in declaration order, whatever the
    values are, and changes nothing else. *)
Theorem scanner_reads_enum_block (s : pstate) (enum_type : string)
    (members : list (string * string))
    (Hopen : mem_char "(" enum_type = false)
    (Hcomma : mem_char "," enum_type = false)
    (Hty : is_handle_typedef ("EOS_ENUM(" ++ enum_type ++ "," ++ nl)
           = false)
    (Hmembers : Forall (fun e => plain_member (fst e) = true) members) :
  _parse_file (enum_block enum_type members) s
  = Ok {| p_info :=
            {| file_enums :=
                 Dict.set s.(p_info).(file_enums) enum_type
                   (map fst members);
               file_methods := s.(p_info).(file_methods);
               file_callbacks := s.(p_info).(file_callbacks);
               file_structs := s.(p_info).(file_structs);
               file_handles := s.(p_info).(file_handles) |};
          api_latest_macros := s.(api_latest_macros);
          p_out := s.(p_out) |}.
Proof.
  unfold _parse_file, enum_block. cbn [scan_lines]. rewrite Nat.ltb_irrefl.
  unfold file_turn at 1. unfold is_handle_typedef in Hty.
  set (header := ("EOS_ENUM(" ++ enum_type ++ "," ++ nl)%string) in *.
  assert (H1 : startswith header "#define EOS_" = false) by reflexivity.
  assert (H3 : startswith header "EOS_ENUM(" = true)
    by apply startswith_app.
  assert (S1 : split "(" None header
               = ["EOS_ENUM"; (enum_type ++ "," ++ nl)%string]).
  { unfold header.
    change ("EOS_ENUM(" ++ enum_type ++ "," ++ nl)%string
      with ("EOS_ENUM" ++ "(" ++ (enum_type ++ "," ++ nl))%string.
    rewrite (split_first "(" "" "EOS_ENUM") by reflexivity.
    rewrite split_absent; [reflexivity|].
    rewrite !mem_char_app, Hopen. reflexivity. }
  rewrite H1, Hty, H3, S1. cbv iota beta.
  change (PyStr.mem "EOS_ENUM"
            ["EOS_ENUM_START"; "EOS_ENUM_END";
             "EOS_ENUM_BOOLEAN_OPERATORS"]) with false.
  cbn [andb negb index nth_error bind].
  rewrite (rsplit_once "," enum_type nl Hcomma eq_refl).
  cbn [index nth_error bind].
  match goal with
  | |- context [scan_lines enum_turn ?e ?l ?p ?q ?a] =>
      assert (HL : scan_lines enum_turn e l p q a
                   = Ok (map fst members, 0 + 1 + List.length members))
        by apply (enum_loop members nl [] Hmembers [] (0 + 1))
  end.
  rewrite HL. cbn [bind].
  replace (map enum_member members ++ [(");" ++ nl)%string])
    with ((map enum_member members ++ [(");" ++ nl)%string]) ++ [])%list
    by apply app_nil_r.
  rewrite scan_lines_pass.
  - reflexivity.
  - rewrite length_app, length_map. simpl. lia.
Qed.

Lemma scanner_reads_enum_block_witness :
  _parse_file
    (enum_block "EOS_ELoginStatus"
       [("EOS_LS_NotLoggedIn", "0"); ("EOS_LS_LoggedIn", "2")])
    start_state
  = Ok {| p_info :=
            {| file_enums :=
                 [("EOS_ELoginStatus",
                   ["EOS_LS_NotLoggedIn"; "EOS_LS_LoggedIn"])];
               file_methods := []; file_callbacks := [];
               file_structs := []; file_handles := [] |};
          api_latest_macros := []; p_out := [] |}.
Proof.
  apply (scanner_reads_enum_block start_state "EOS_ELoginStatus"
           [("EOS_LS_NotLoggedIn", "0"); ("EOS_LS_LoggedIn", "2")]);
    try reflexivity.
  repeat constructor.
Defined.

(* ================================================================== *)
(** * Class names of handles *)
(* ================================================================== *)

Lemma startswith_mem_char (c : ascii) (p s : string) :
  mem_char c p = true -> startswith s p = true -> mem_char c s = true.
Proof.
  intros Hp Hs. apply startswith_split in Hs. destruct Hs as [r ->].
  rewrite mem_char_app, Hp. reflexivity.
Qed.

(** A text without the character [c] contains no text that has it. *)
Lemma contains_needs_char (c : ascii) (p s : string) :
  mem_char c p = true -> mem_char c s = false -> contains s p = false.
Proof.
  intros Hp. induction s as [|d r IH]; intros Hs; rewrite contains_unfold.
  - destruct (startswith "" p) eqn:E; [|reflexivity].
    now rewrite (startswith_mem_char c p "" Hp E) in Hs.
  - destruct (startswith (String d r) p) eqn:E.
    + now rewrite (startswith_mem_char c p _ Hp E) in Hs.
    + apply IH. cbn [mem_char] in Hs. apply orb_false_iff in Hs. tauto.
Qed.

Lemma word_tail_cons (c : ascii) (l : string) :
  is_word_tail (String c l) ->
  isupper c = false /\ Ascii.eqb "_" c = false /\ is_word_tail l.
Proof.
  intros H. destruct (H c (or_introl eq_refl)) as [H1 H2].
  split; [exact H1|]. split.
  - apply Ascii.eqb_neq. congruence.
  - intros d Hd. apply H. now right.
Qed.

Lemma snake_chars_word (l : string) : is_word_tail l -> snake_chars l = l.
Proof.
  induction l as [|c l IH]; intros H; [reflexivity|].
  apply word_tail_cons in H. destruct H as (H1 & _ & H3).
  cbn [snake_chars]. now rewrite H1, IH.
Qed.

Lemma lower_word (l : string) : is_word_tail l -> lower l = l.
Proof.
  unfold lower. induction l as [|c l IH]; intros H; [reflexivity|].
  apply word_tail_cons in H. destruct H as (H1 & _ & H3).
  cbn [map_chars]. unfold lower_char at 1. now rewrite H1, IH.
Qed.

Lemma mem_char_word (l : string) : is_word_tail l -> mem_char "_" l = false.
Proof.
  induction l as [|c l IH]; intros H; [reflexivity|].
  apply word_tail_cons in H. destruct H as (_ & H2 & H3).
  cbn [mem_char]. now rewrite H2, IH.
Qed.

Lemma lower_char_letter (U : ascii) :
  isupper U = true ->
  Ascii.eqb "_" (lower_char U) = false /\ Ascii.eqb (lower_char U) "_" = false.
Proof.
  intros H. unfold lower_char. rewrite H.
  unfold isupper in H. apply andb_true_iff in H. destruct H as [H1 H2].
  apply Nat.leb_le in H1, H2.
  assert (N : ascii_of_nat (nat_of_ascii U + 32) <> "_"%char).
  { intros E. apply (f_equal nat_of_ascii) in E.
    rewrite nat_ascii_embedding in E by lia.
    change (nat_of_ascii "_") with 95 in E. lia. }
  split; apply Ascii.eqb_neq; congruence.
Qed.

(** [to_snake_case] on one capitalised word. *)
Lemma to_snake_case_word (U : ascii) (l : string) :
  isupper U = true -> is_word_tail l ->
  to_snake_case (String U l) = String (lower_char U) l.
Proof.
  intros HU Hl. unfold to_snake_case. cbn [snake_chars]. rewrite HU.
  rewrite (snake_chars_word l Hl).
  destruct (lower_char_letter U HU) as [N1 N2].
  assert (E : lstrip "_" (String "_" (String (lower_char U) l))
              = String (lower_char U) l).
  { cbn [lstrip mem_char]. rewrite Ascii.eqb_refl. cbn [orb].
    now rewrite N2. }
  rewrite E.
  assert (M : mem_char "_" (String (lower_char U) l) = false).
  { cbn [mem_char]. now rewrite N1, (mem_char_word l Hl). }
  assert (R : forall old new, mem_char "_" old = true ->
             replace old new (String (lower_char U) l)
             = String (lower_char U) l).
  { intros old new Ho. apply replace_absent.
    now apply (contains_needs_char "_"). }
  now rewrite !R by reflexivity.
Qed.

(** [_convert_interface_class_name] on one word. *)
Lemma class_name_of_word (w : string) :
  mem_char "_" w = false ->
  _convert_interface_class_name w = ("EOS" ++ class_name_token w)%string.
Proof.
  intros M. unfold _convert_interface_class_name.
  assert (E : removeprefix w "eos_" = w).
  { unfold removeprefix. destruct (startswith w "eos_") eqn:S; [|reflexivity].
    now rewrite (startswith_mem_char "_" "eos_" w eq_refl S) in M. }
  rewrite E, split_absent by exact M.
  cbn [map join]. reflexivity.
Qed.

(** X21.  The class of a handle [EOS_H<Word>], for a word that is one
    capital letter followed by characters other than capitals and
    underscores.  [_convert_handle_class_name], which [_gen_handle] uses,
    gives [EOS] followed by the class token of the lower-case word
    ([EOSAuth] for [EOS_HAuth]).  [_convert_interface_class_name] on the
    handle name itself, which is how [gen_enums] names its macros, gives
    [EOSEosH] followed by the lower-case word ([EOSEosHauth]). *)
Theorem handle_class_names (U : ascii) (l : string) :
  isupper U = true ->
  is_word_tail l ->
  _convert_handle_class_name ("EOS_H" ++ String U l)
  = ("EOS" ++ class_name_token (String (lower_char U) l))%string
  /\ _convert_interface_class_name ("EOS_H" ++ String U l)
     = ("EOSEosH" ++ String (lower_char U) l)%string.
Proof.
  intros HU Hl.
  destruct (lower_char_letter U HU) as [N1 N2].
  assert (HU' : Ascii.eqb "_" U = false).
  { apply Ascii.eqb_neq. intros <-. discriminate HU. }
  split.
  - unfold _convert_handle_class_name.
    rewrite removeprefix_app, (to_snake_case_word U l HU Hl).
    apply class_name_of_word. cbn [mem_char].
    now rewrite N1, (mem_char_word l Hl).
  - unfold _convert_interface_class_name.
    change (removeprefix ("EOS_H" ++ String U l) "eos_")
      with ("EOS" ++ "_" ++ String "H" (String U l))%string.
    rewrite (split_first "_" "" "EOS") by reflexivity.
    rewrite split_absent
      by (cbn [mem_char]; now rewrite HU', (mem_char_word l Hl)).
    change (map class_name_token ["EOS"; String "H" (String U l)])
      with ["Eos"; capitalize (String "H" (String U l))].
    cbn [join capitalize append]. unfold lower. cbn [map_chars].
    fold (lower l). rewrite (lower_word l Hl). reflexivity.
Qed.

Lemma handle_class_names_witness :
  _convert_handle_class_name "EOS_HAuth" = "EOSAuth"
  /\ _convert_interface_class_name "EOS_HAuth" = "EOSEosHauth".
Proof.
  apply (handle_class_names "A" "uth"); [reflexivity|].
  intros c H. simpl in H.
  repeat (destruct H as [<-|H]; [split; [reflexivity | discriminate]|]).
  contradiction.
Defined.

(* ================================================================== *)
(** * Generator of the enum bindings *)
(* ================================================================== *)

(** [_convert_enum_type] raises on the short names and on no other. *)
Lemma convert_enum_type_raises (e : string) (err : error) :
  _convert_enum_type e = Raise err
  <-> err = IndexError /\ short_enum_name e = true.
Proof.
  unfold _convert_enum_type, short_enum_name, index.
  destruct (startswith e "EOS_E"); [cbn; split; [discriminate | intros [_ H]; discriminate]|].
  destruct (contains e "_E"); [|cbn; split; [discriminate | intros [_ H]; discriminate]].
  destruct (split "_" None e) as [|a [|b [|c r]]]; cbn.
  1-3: split; [intros [= <-]; auto | intros [-> _]; reflexivity].
  split; [discriminate | intros [_ H]; discriminate].
Qed.

Lemma convert_enum_type_returns (e : string) :
  short_enum_name e = false -> exists r, _convert_enum_type e = Ok r.
Proof.
  intros H. destruct (_convert_enum_type e) as [r|err] eqn:E; [now exists r|].
  apply convert_enum_type_raises in E. destruct E as [_ E]. congruence.
Qed.

(** A loop raises exactly when one of its items makes the body raise,
    provided that this depends on the item only. *)
Lemma foldM_raise_iff {A St : Type} (body : St -> A -> result St)
    (bad : A -> bool) (err0 : error) :
  (forall s a, bad a = true -> body s a = Raise err0) ->
  (forall s a, bad a = false -> exists s', body s a = Ok s') ->
  forall l s,
    (forall err, foldM body l s = Raise err
                 <-> err = err0 /\ existsb bad l = true)
    /\ (existsb bad l = false -> exists s', foldM body l s = Ok s').
Proof.
  intros Hbad Hgood. induction l as [|a l IH]; intros s; cbn [foldM existsb].
  - split; [|intros _; now exists s].
    intros err. split; [discriminate | intros [_ H]; discriminate].
  - destruct (bad a) eqn:B.
    + rewrite (Hbad s a B). cbn [bind orb]. split; [|discriminate].
      intros err. split; [intros [= <-]; auto | intros [-> _]; reflexivity].
    + destruct (Hgood s a B) as [s' ->]. cbn [bind orb]. apply IH.
Qed.

(** The enums on which the loops of [gen_enums] stop. *)
Lemma using_step_bad (acc : list string * list enum_print)
    (entry : string * list string) :
  negb (_is_need_skip_enum_type (fst entry)) && short_enum_name (fst entry)
  = true ->
  using_step acc entry = Raise IndexError.
Proof.
  destruct acc as [lines out], entry as [e ms]. cbn [fst using_step].
  intros H. apply andb_true_iff in H. destruct H as [H1 H2].
  apply negb_true_iff in H1. rewrite H1.
  assert (X : _convert_enum_type e = Raise IndexError)
    by (apply convert_enum_type_raises; auto).
  now rewrite X.
Qed.

Lemma using_step_good (acc : list string * list enum_print)
    (entry : string * list string) :
  negb (_is_need_skip_enum_type (fst entry)) && short_enum_name (fst entry)
  = false ->
  exists s', using_step acc entry = Ok s'.
Proof.
  destruct acc as [lines out], entry as [e ms]. cbn [fst using_step].
  intros H. destruct (_is_need_skip_enum_type e); [eauto|].
  cbn [negb andb] in H.
  destruct (convert_enum_type_returns e H) as [[n p] ->]. cbn [bind]. eauto.
Qed.

Lemma cast_step_bad (h : string) (acc : list string * list enum_print)
    (entry : string * list string) :
  negb (_is_need_skip_enum_type (fst entry)) && short_enum_name (fst entry)
  = true ->
  cast_step h acc entry = Raise IndexError.
Proof.
  destruct acc as [lines out], entry as [e ms]. cbn [fst cast_step].
  intros H. apply andb_true_iff in H. destruct H as [H1 H2].
  apply negb_true_iff in H1. rewrite H1.
  assert (X : _convert_enum_type e = Raise IndexError)
    by (apply convert_enum_type_raises; auto).
  now rewrite X.
Qed.

Lemma cast_step_good (h : string) (acc : list string * list enum_print)
    (entry : string * list string) :
  negb (_is_need_skip_enum_type (fst entry)) && short_enum_name (fst entry)
  = false ->
  exists s', cast_step h acc entry = Ok s'.
Proof.
  destruct acc as [lines out], entry as [e ms]. cbn [fst cast_step].
  intros H. destruct (_is_need_skip_enum_type e); [eauto|].
  cbn [negb andb] in H.
  destruct (convert_enum_type_returns e H) as [[n p] ->]. cbn [bind]. eauto.
Qed.

Lemma gen_enums_handle_bad (acc : list string * list enum_print)
    (entry : string * handle_info) :
  existsb (fun en => negb (_is_need_skip_enum_type (fst en))
                     && short_enum_name (fst en))
    (snd entry).(enums) = true ->
  gen_enums_handle acc entry = Raise IndexError.
Proof.
  destruct acc as [lines out], entry as [h hi]. cbn [snd]. intros H.
  unfold gen_enums_handle.
  match goal with
  | |- context [foldM using_step ?l ?s] =>
      destruct (foldM_raise_iff using_step _ IndexError
                  using_step_bad using_step_good l s) as [R _];
      assert (X : foldM using_step l s = Raise IndexError)
        by (apply R; auto);
      rewrite X
  end.
  reflexivity.
Qed.

Lemma gen_enums_handle_good (acc : list string * list enum_print)
    (entry : string * handle_info) :
  existsb (fun en => negb (_is_need_skip_enum_type (fst en))
                     && short_enum_name (fst en))
    (snd entry).(enums) = false ->
  exists s', gen_enums_handle acc entry = Ok s'.
Proof.
  destruct acc as [lines out], entry as [h hi]. cbn [snd]. intros H.
  unfold gen_enums_handle.
  match goal with
  | |- context [foldM using_step ?l ?s] =>
      destruct (foldM_raise_iff using_step _ IndexError
                  using_step_bad using_step_good l s) as [_ G];
      destruct (G H) as [[lines1 out1] ->]
  end.
  cbn [bind].
  match goal with
  | |- context [foldM (cast_step h) ?l ?s] =>
      destruct (foldM_raise_iff (cast_step h) _ IndexError
                  (cast_step_bad h) (cast_step_good h) l s) as [_ G2];
      destruct (G2 H) as [[lines2 out2] ->]
  end.
  cbn [bind]. eauto.
Qed.

(** X22.  [gen_enums] stops with an exception exactly when some handle
    has an enum, not on the skip list, whose name does not begin with
    [EOS_E], contains [_E] and has fewer than three parts between
    underscores; the exception is [IndexError].  On every other table of
    handles it returns. *)
Theorem gen_enums_fails_on_short_enum_names (dir : list string) (g : model) :
  (forall err,
     gen_enums dir g = Raise err
     <-> err = IndexError
         /\ exists h hi e members,
              In (h, hi) g.(handles) /\ In (e, members) hi.(enums)
              /\ _is_need_skip_enum_type e = false
              /\ short_enum_name e = true)
  /\ ((exists text, gen_enums dir g = Ok text)
      \/ gen_enums dir g = Raise IndexError).
Proof.
  unfold gen_enums, gen_enums_lines.
  match goal with
  | |- context [foldM gen_enums_handle ?l ?s] =>
      destruct (foldM_raise_iff gen_enums_handle _ IndexError
                  gen_enums_handle_bad gen_enums_handle_good l s)
        as [R G];
      destruct (foldM gen_enums_handle l s) as [[lines out]|err0] eqn:E
  end.
  - cbn [bind]. split; [|left; eauto].
    intros err. split; [discriminate|].
    intros [-> (h & hi & e & ms & Hh & He & Hs & Hn)]. exfalso.
    assert (X : Ok (lines, out) = Raise IndexError :> result _).
    { apply R. split; [reflexivity|].
      apply existsb_exists. exists (h, hi). split; [exact Hh|].
      apply existsb_exists. exists (e, ms). split; [exact He|].
      cbn [fst]. now rewrite Hs, Hn. }
    discriminate X.
  - cbn [bind]. destruct (proj1 (R err0) eq_refl) as [-> Hex].
    split; [|now right].
    intros err. split; [|intros [-> _]; reflexivity].
    intros [= <-]. split; [reflexivity|].
    apply existsb_exists in Hex. destruct Hex as ([h hi] & Hh & Hex).
    apply existsb_exists in Hex. destruct Hex as ([e ms] & He & Hb).
    cbn [fst snd] in *. apply andb_true_iff in Hb. destruct Hb as [Hs Hn].
    apply negb_true_iff in Hs. exists h, hi, e, ms. auto.
Qed.

(* ------------------------------------------------------------------ *)
(** ** The macros that are defined *)

Lemma filter_none {A : Type} (f : A -> bool) (l : list A) :
  (forall x, In x l -> f x = false) -> filter f l = [].
Proof.
  induction l as [|x l IH]; intros H; [reflexivity|]. cbn [filter].
  rewrite (H x (or_introl eq_refl)). apply IH. intros y Hy. apply H. now right.
Qed.

Lemma bind_enum_block_headers (entry : string * list string) :
  filter is_bind_enum_header (bind_enum_block entry)
  = map (fun e => ("#define _BIND_ENUM_" ++ e ++ "()" ++ backslash)%string)
      (filter (fun e => negb (_is_need_skip_enum_type e)) [fst entry]).
Proof.
  destruct entry as [e ms]. cbn [fst filter]. unfold bind_enum_block.
  destruct (_is_need_skip_enum_type e); [reflexivity|]. cbn [negb map].
  rewrite !filter_app. cbn [filter].
  replace (is_bind_enum_header
             ("#define _BIND_ENUM_" ++ e ++ "()" ++ backslash)) with true
    by (symmetry; apply startswith_app).
  rewrite filter_none; [reflexivity|].
  intros x Hx. apply in_map_iff in Hx. destruct Hx as (m & <- & _).
  reflexivity.
Qed.

Lemma bind_enum_blocks_headers (es : Dict.t (list string)) :
  filter is_bind_enum_header (flat_map bind_enum_block es)
  = map (fun e => ("#define _BIND_ENUM_" ++ e ++ "()" ++ backslash)%string)
      (filter (fun e => negb (_is_need_skip_enum_type e)) (Dict.keys es)).
Proof.
  induction es as [|entry es IH]; [reflexivity|].
  cbn [flat_map]. rewrite filter_app, bind_enum_block_headers, IH.
  unfold Dict.keys. cbn [map filter].
  destruct (negb (_is_need_skip_enum_type (fst entry))); reflexivity.
Qed.

Lemma bind_enum_uses_headers (es : Dict.t (list string)) :
  filter is_bind_enum_header (flat_map bind_enum_use es) = [].
Proof.
  apply filter_none. intros x Hx. apply in_flat_map in Hx.
  destruct Hx as ([e ms] & _ & Hx). unfold bind_enum_use in Hx.
  destruct (_is_need_skip_enum_type e); [contradiction|].
  destruct Hx as [<-|[]]. reflexivity.
Qed.

Lemma using_loop_headers (es : Dict.t (list string)) :
  forall s s', foldM using_step es s = Ok s' ->
    filter is_bind_enum_header (fst s')
    = filter is_bind_enum_header (fst s).
Proof.
  intros s s' H.
  apply (foldM_invariant using_step
           (fun t => filter is_bind_enum_header (fst t)
                     = filter is_bind_enum_header (fst s)) es)
    with (s := s); [|reflexivity|exact H].
  intros [lines out] [e ms] t _ Hs. cbn [using_step].
  destruct (_is_need_skip_enum_type e); [now intros [= <-]|].
  destruct (_convert_enum_type e) as [[n p]|]; [|discriminate].
  cbn [bind]. intros [= <-]. cbn [fst] in *.
  rewrite filter_app, Hs. cbn [filter].
  replace (is_bind_enum_header _) with false by reflexivity.
  apply app_nil_r.
Qed.

Lemma cast_loop_headers (h : string) (es : Dict.t (list string)) :
  forall s s', foldM (cast_step h) es s = Ok s' ->
    filter is_bind_enum_header (fst s')
    = filter is_bind_enum_header (fst s).
Proof.
  intros s s' H.
  apply (foldM_invariant (cast_step h)
           (fun t => filter is_bind_enum_header (fst t)
                     = filter is_bind_enum_header (fst s)) es)
    with (s := s); [|reflexivity|exact H].
  intros [lines out] [e ms] t _ Hs. cbn [cast_step].
  destruct (_is_need_skip_enum_type e); [now intros [= <-]|].
  destruct (_convert_enum_type e) as [[n p]|]; [|discriminate].
  cbn [bind]. intros [= <-]. cbn [fst] in *.
  rewrite filter_app, Hs. cbn [filter].
  replace (is_bind_enum_header _) with false by reflexivity.
  apply app_nil_r.
Qed.

Lemma gen_enums_handle_headers (acc s' : list string * list enum_print)
    (entry : string * handle_info) :
  gen_enums_handle acc entry = Ok s' ->
  filter is_bind_enum_header (fst s')
  = (filter is_bind_enum_header (fst acc)
     ++ map (fun e =>
               ("#define _BIND_ENUM_" ++ e ++ "()" ++ backslash)%string)
          (filter (fun e => negb (_is_need_skip_enum_type e))
             (Dict.keys (snd entry).(enums))))%list.
Proof.
  destruct acc as [lines out], entry as [h hi]. unfold gen_enums_handle.
  destruct (foldM using_step _ _) as [[lines1 out1]|] eqn:E1;
    [|discriminate].
  cbn [bind].
  destruct (foldM (cast_step h) _ _) as [[lines2 out2]|] eqn:E2;
    [|discriminate].
  cbn [bind]. intros [= <-]. cbn [fst snd].
  apply cast_loop_headers in E2. apply using_loop_headers in E1.
  cbn [fst] in E1, E2.
  rewrite filter_app, E2, !filter_app, E1, !filter_app.
  rewrite bind_enum_blocks_headers, bind_enum_uses_headers.
  cbn [filter].
  repeat match goal with
  | |- context [is_bind_enum_header ?l] =>
      replace (is_bind_enum_header l) with false by reflexivity
  end.
  now rewrite !app_nil_r.
Qed.

Lemma gen_enums_handles_headers (hs : Dict.t handle_info) :
  forall s s', foldM gen_enums_handle hs s = Ok s' ->
    filter is_bind_enum_header (fst s')
    = (filter is_bind_enum_header (fst s)
       ++ map (fun e =>
                 ("#define _BIND_ENUM_" ++ e ++ "()" ++ backslash)%string)
            (flat_map (fun entry =>
                         filter (fun e => negb (_is_need_skip_enum_type e))
                           (Dict.keys (snd entry).(enums)))
               hs))%list.
Proof.
  induction hs as [|entry hs IH]; intros s s'; cbn [foldM flat_map map].
  - intros [= <-]. now rewrite app_nil_r.
  - destruct (gen_enums_handle s entry) as [s1|] eqn:E; [|discriminate].
    cbn [bind]. intros H. rewrite (IH _ _ H).
    rewrite (gen_enums_handle_headers _ _ _ E), map_app, app_assoc.
    reflexivity.
Qed.

(** X23.  The macros [_BIND_ENUM_<enum>] that [gen_enums] defines are
    those of the enums of the handles, without the enums on the skip
    list, in table order, and no other: an enum that consolidation left
    among the unhandled enums gets no macro. *)
Theorem gen_enums_binds_the_enums_of_handles (dir : list string) (g : model)
    (lines : list string) (out : list enum_print) :
  gen_enums_lines dir g = Ok (lines, out) ->
  filter is_bind_enum_header lines
  = map (fun e => ("#define _BIND_ENUM_" ++ e ++ "()" ++ backslash)%string)
      (bound_enums g).
Proof.
  unfold gen_enums_lines.
  destruct (foldM gen_enums_handle _ _) as [[lines1 out1]|] eqn:E;
    [|discriminate].
  cbn [bind]. intros [= <- <-].
  apply gen_enums_handles_headers in E. cbn [fst] in E.
  rewrite filter_app, E, !filter_app.
  rewrite (filter_none is_bind_enum_header (map _ _)).
  - replace (filter is_bind_enum_header ["} // namespace godot"; ""])
      with (@nil string) by reflexivity.
    rewrite app_nil_r. reflexivity.
  - intros x Hx. apply in_map_iff in Hx. destruct Hx as (f & <- & _).
    reflexivity.
Qed.

Lemma gen_enums_binds_the_enums_of_handles_witness :
  exists lines,
    gen_enums_lines ["eos_auth_types.h"; "eos_auth.h"] auth_model
    = Ok (lines, [])
    /\ filter is_bind_enum_header lines
       = [("#define _BIND_ENUM_EOS_ELoginStatus()" ++ backslash)%string;
          ("#define _BIND_ENUM_EOS_Auth_EScopeFlags()" ++ backslash)%string].
Proof.
  eexists. split; [vm_compute; reflexivity|].
  refine (gen_enums_binds_the_enums_of_handles
            ["eos_auth_types.h"; "eos_auth.h"] auth_model _ [] _).
  vm_compute. reflexivity.
Defined.

(* ================================================================== *)
(** * Generator of the struct classes *)
(* ================================================================== *)

Lemma gbind_fst {A B : Type} (m : gen A) (k : A -> gen B) :
  fst (gbind m k)
  = match fst m with
    | Done a => fst (k a)
    | Stopped s => Stopped s
    end.
Proof.
  destruct m as [[a|s] p]; cbn [gbind fst]; [|reflexivity].
  now destruct (k a).
Qed.

Lemma lift_fst {A : Type} (r : result A) :
  fst (lift r)
  = match r with
    | Ok a => Done a
    | Raise e => Stopped (Raised e)
    end.
Proof. now destruct r. Qed.

Lemma find_count_fst (field : string) (fields : list string) :
  fst (find_count field fields) = Done (fst (_find_count_field field fields)).
Proof. unfold find_count. now destruct (_find_count_field field fields). Qed.

Lemma gfold_app_fst {A St : Type} (body : St -> A -> gen St)
    (l1 l2 : list A) (s : St) :
  fst (gfold body (l1 ++ l2) s)
  = match fst (gfold body l1 s) with
    | Done s1 => fst (gfold body l2 s1)
    | Stopped st => Stopped st
    end.
Proof.
  revert s. induction l1 as [|a l1 IH]; intros s; [reflexivity|].
  cbn [gfold app]. rewrite !gbind_fst.
  destruct (fst (body s a)); [apply IH | reflexivity].
Qed.

(** A loop whose turns all return returns. *)
Lemma gfold_done {A St : Type} (body : St -> A -> gen St) (l : list A) :
  (forall s a, In a l -> exists s', fst (body s a) = Done s') ->
  forall s, exists s', fst (gfold body l s) = Done s'.
Proof.
  induction l as [|a l IH]; intros H s; [now exists s|].
  cbn [gfold]. rewrite gbind_fst.
  destruct (H s a (or_introl eq_refl)) as [s1 ->].
  apply IH. intros s0 a0 Ha. apply H. now right.
Qed.

(** The ways a loop stops are ways in which a turn stops. *)
Lemma gfold_stops {A St : Type} (body : St -> A -> gen St)
    (P : stop -> Prop) (l : list A) :
  (forall s a st, fst (body s a) = Stopped st -> P st) ->
  forall s st, fst (gfold body l s) = Stopped st -> P st.
Proof.
  intros H. induction l as [|a l IH]; intros s st; [discriminate|].
  cbn [gfold]. rewrite gbind_fst.
  destruct (fst (body s a)) as [s1|st1] eqn:E; [apply IH|].
  intros [= <-]. eapply H, E.
Qed.

(** An invariant of every turn that returns is an invariant of a loop
    that returns. *)
Lemma gfold_invariant {A St : Type} (body : St -> A -> gen St)
    (P : St -> Prop) (l : list A) :
  (forall s a s', In a l -> P s -> fst (body s a) = Done s' -> P s') ->
  forall s s', P s -> fst (gfold body l s) = Done s' -> P s'.
Proof.
  induction l as [|a l IH]; intros H s s' HP.
  - now intros [= <-].
  - cbn [gfold]. rewrite gbind_fst.
    destruct (fst (body s a)) as [s1|] eqn:E; [|discriminate].
    apply IH.
    + intros s0 a0 s0' Ha. apply H. now right.
    + eapply H; [now left | exact HP | exact E].
Qed.

Lemma remap_type_raises (g : model) (type field : string) (e : error) :
  remap_type g type field = Raise e -> e = KeyError.
Proof.
  unfold remap_type.
  destruct (PyStr.mem type enum_types); [discriminate|].
  destruct (__is_struct_type g type); [discriminate|].
  destruct (startswith type "Union"); [apply subscript_raises|].
  destruct (Dict.get condition_remap type); discriminate.
Qed.

Lemma macro_lookup_stops (macros : list string) (struct_type : string)
    (st : stop) :
  fst (__get_api_latest_macro macros struct_type) = Stopped st ->
  st = Exited.
Proof.
  unfold __get_api_latest_macro.
  repeat match goal with
  | |- context [if ?b then _ else _] => destruct b; [discriminate|]
  end.
  now intros [= <-].
Qed.

Lemma macro_lookup_source (macros : list string) (struct_type m : string) :
  fst (__get_api_latest_macro macros struct_type) = Done m ->
  In m macros
  \/ In struct_type ["EOS_UserInfo"; "EOS_UserInfo_CopyUserInfoOptions";
                     "EOS_SessionSearch_SetMaxResultsOptions"].
Proof.
  unfold __get_api_latest_macro.
  repeat match goal with
  | |- context [if PyStr.mem ?x macros then _ else _] =>
      let E := fresh "E" in
      destruct (PyStr.mem x macros) eqn:E;
      [intros [= <-]; left; now apply mem_true_iff|]
  end.
  destruct (PyStr.mem struct_type _) eqn:E3.
  { intros _. right. apply mem_true_iff in E3. simpl in *. tauto. }
  destruct (String.eqb_spec struct_type
              "EOS_SessionSearch_SetMaxResultsOptions") as [->|];
    [|discriminate].
  intros _. right. simpl. tauto.
Qed.

Section GenStructFacts.
Variable g : model.
Variable api_latest_macros : list string.
Variable struct_type : string.
Variable fields : struct_fields.
Variable count_fields : list (option string).
Variable variant_union_type_fileds : list string.

Lemma member_step_done (lines : list string) (entry : string * string) :
  (exists lines',
     fst (member_step g api_latest_macros struct_type count_fields
            lines entry) = Done lines')
  <-> member_ready g api_latest_macros struct_type count_fields entry.
Proof.
  destruct entry as [field field_type]. unfold member_ready, member_step.
  cbn [fst snd].
  destruct (is_deprecated_field field); [split; [intros _ H; discriminate H | intros _; now eexists]|].
  destruct (in_count_fields field count_fields);
    [split; [intros _ _ H; discriminate H | intros _; now eexists]|].
  rewrite gbind_fst, lift_fst.
  destruct (remap_type g field_type field) as [type|e].
  2:{ split; [intros [? H]; discriminate H|].
      intros H. destruct (H eq_refl eq_refl) as (? & H1 & _).
      discriminate H1. }
  rewrite gbind_fst.
  destruct (startswith type "Ref") eqn:ER.
  { cbn [gret fst]. split; [|intros _; now eexists]. intros _ _ _. exists type.
    split; [reflexivity|]. intros ->. discriminate ER. }
  destruct (String.eqb_spec type "int32_t") as [->|Hty];
    destruct (String.eqb_spec field "ApiVersion") as [->|Hf]; cbn [andb].
  - rewrite gbind_fst.
    destruct (fst (__get_api_latest_macro api_latest_macros struct_type))
      as [m|s] eqn:EM.
    + cbn [gret fst]. split; [|intros _; now eexists]. intros _ _ _. exists "int32_t".
      split; [reflexivity|]. eauto.
    + split; [intros [? H]; discriminate H|].
      intros H. destruct (H eq_refl eq_refl) as (ty & [= <-] & H2).
      destruct (H2 eq_refl eq_refl) as [m Hm]. discriminate Hm.
  - cbn [gret fst]. split; [|intros _; now eexists]. intros _ _ _. exists "int32_t".
    split; [reflexivity|]. intros _ E. contradiction.
  - cbn [gret fst]. split; [|intros _; now eexists]. intros _ _ _. exists type.
    split; [reflexivity|]. intros E. contradiction.
  - cbn [gret fst]. split; [|intros _; now eexists]. intros _ _ _. exists type.
    split; [reflexivity|]. intros E. contradiction.
Qed.

Lemma member_loop_done (l : list (string * string)) :
  forall lines,
    (exists lines',
       fst (gfold (member_step g api_latest_macros struct_type count_fields)
              l lines) = Done lines')
    <-> (forall entry, In entry l -> member_ready g api_latest_macros struct_type count_fields entry).
Proof.
  induction l as [|entry l IH]; intros lines.
  - split; [intros _ ? [] | intros _; now exists lines].
  - cbn [gfold]. rewrite gbind_fst. split.
    + intros [lines' H] entry0 [<-|Hin].
      * apply (member_step_done lines).
        destruct (fst (member_step _ _ _ _ lines entry));
          [now eexists | discriminate].
      * destruct (fst (member_step _ _ _ _ lines entry)) as [l1|];
          [|discriminate].
        apply (IH l1); eauto.
    + intros H.
      destruct (proj2 (member_step_done lines entry)
                  (H entry (or_introl eq_refl))) as [l1 ->].
      apply IH. intros entry0 Hin. apply H. now right.
Qed.

Lemma setget_step_done (lines : list string) (entry : string * string) :
  member_ready g api_latest_macros struct_type count_fields entry ->
  exists lines',
    fst (setget_step g count_fields variant_union_type_fileds lines entry)
    = Done lines'.
Proof.
  destruct entry as [field field_type]. unfold member_ready, setget_step.
  cbn [fst snd]. intros H.
  destruct (is_deprecated_field field); [now eexists|].
  destruct (in_count_fields field count_fields); [now eexists|].
  destruct (PyStr.mem field variant_union_type_fileds); [now eexists|].
  destruct (H eq_refl eq_refl) as (type & -> & _).
  rewrite gbind_fst. cbn [lift gret fst].
  destruct (String.eqb type "bool"); now eexists.
Qed.

Lemma bind_step_done (cpp : list string) (entry : string * string) :
  member_ready g api_latest_macros struct_type count_fields entry ->
  exists cpp',
    fst (bind_step g count_fields variant_union_type_fileds cpp entry)
    = Done cpp'.
Proof.
  destruct entry as [field field_type]. unfold member_ready, bind_step.
  cbn [fst snd]. intros H.
  destruct (is_deprecated_field field); [now eexists|].
  destruct (in_count_fields field count_fields); [now eexists|].
  destruct (PyStr.mem field variant_union_type_fileds); [now eexists|].
  destruct (H eq_refl eq_refl) as (type & -> & _).
  rewrite gbind_fst. cbn [lift gret fst].
  destruct (String.eqb type "bool"); now eexists.
Qed.

Lemma from_eos_step_done (cpp : list string) (entry : string * string) :
  exists cpp',
    fst (from_eos_step g fields count_fields variant_union_type_fileds
           cpp entry) = Done cpp'.
Proof.
  destruct entry as [field field_type]. unfold from_eos_step.
  repeat match goal with
  | |- context [fst (gbind _ _)] => rewrite gbind_fst
  | |- context [fst (find_count _ _)] => rewrite find_count_fst
  | |- context [if ?b then _ else _] => destruct b
  | |- context [fst (gret _)] => cbn [gret fst]
  end; now eexists.
Qed.

Lemma to_eos_step_done (cpp : list string) (entry : string * string) :
  exists cpp',
    fst (to_eos_step g fields count_fields variant_union_type_fileds
           cpp entry) = Done cpp'.
Proof.
  destruct entry as [field field_type]. unfold to_eos_step.
  repeat match goal with
  | |- context [fst (gbind _ _)] => rewrite gbind_fst
  | |- context [fst (find_count _ _)] => rewrite find_count_fst
  | |- context [if ?b then _ else _] => destruct b
  | |- context [fst (gret _)] => cbn [gret fst]
  end; now eexists.
Qed.

Lemma member_step_stops (lines : list string) (entry : string * string)
    (st : stop) :
  fst (member_step g api_latest_macros struct_type count_fields lines entry)
  = Stopped st ->
  st = Raised KeyError \/ st = Exited.
Proof.
  destruct entry as [field field_type]. unfold member_step.
  destruct (is_deprecated_field field); [discriminate|].
  destruct (in_count_fields field count_fields); [discriminate|].
  rewrite gbind_fst, lift_fst.
  destruct (remap_type g field_type field) as [type|e] eqn:E.
  2:{ intros [= <-]. left. f_equal. eapply remap_type_raises, E. }
  rewrite gbind_fst.
  destruct (startswith type "Ref"); [discriminate|].
  destruct (String.eqb type "int32_t" && String.eqb field "ApiVersion");
    [|discriminate].
  rewrite gbind_fst.
  destruct (fst (__get_api_latest_macro api_latest_macros struct_type))
    as [m|s] eqn:EM; [discriminate|].
  intros [= <-]. right. eapply macro_lookup_stops, EM.
Qed.

End GenStructFacts.

Lemma say_fst (p : list gen_print) : fst (say p) = Done tt.
Proof. reflexivity. Qed.

Section GenStructStages.
Variable g : model.
Variable api_latest_macros : list string.
Variable struct_type : string.
Variable fields : struct_fields.
Variable count_fields : list (option string).
Variable variant_union_type_fileds : list string.
Variable fl : flags.

Lemma struct_declaration_done :
  (exists lines,
     fst (struct_declaration g api_latest_macros struct_type fields
            count_fields variant_union_type_fileds fl) = Done lines)
  <-> (forall entry, In entry fields ->
         member_ready g api_latest_macros struct_type count_fields entry).
Proof.
  unfold struct_declaration. rewrite gbind_fst. split.
  - intros [lines H].
    match type of H with
    | context [gfold ?body fields ?s] =>
        destruct (fst (gfold body fields s)) as [lines1|] eqn:E1;
        [|discriminate H];
        apply (proj1 (member_loop_done g api_latest_macros struct_type
                        count_fields fields s))
    end.
    eexists. exact E1.
  - intros H.
    match goal with
    | |- context [gfold ?body fields ?s] =>
        destruct (proj2 (member_loop_done g api_latest_macros struct_type
                           count_fields fields s) H) as [lines1 ->]
    end.
    rewrite gbind_fst.
    match goal with
    | |- context [gfold ?body fields ?s0] =>
        assert (D : exists lines2, fst (gfold body fields s0) = Done lines2)
          by (apply gfold_done; intros s a Ha;
              eapply setget_step_done, H, Ha);
        destruct D as [lines2 ->]
    end.
    now eexists.
Qed.

Lemma struct_declaration_stops (st : stop) :
  fst (struct_declaration g api_latest_macros struct_type fields
         count_fields variant_union_type_fileds fl) = Stopped st ->
  st = Raised KeyError \/ st = Exited.
Proof.
  unfold struct_declaration. rewrite gbind_fst.
  destruct (fst (gfold _ fields _)) as [lines1|st1] eqn:E1.
  - intros H. exfalso. rewrite gbind_fst in H.
    assert (R : forall entry, In entry fields ->
                  member_ready g api_latest_macros struct_type count_fields
                    entry).
    { match type of E1 with
      | context [gfold ?body fields ?s] =>
          apply (proj1 (member_loop_done g api_latest_macros struct_type
                          count_fields fields s))
      end.
      eexists. exact E1. }
    match type of H with
    | context [gfold ?body fields ?s0] =>
        assert (D : exists lines2, fst (gfold body fields s0) = Done lines2)
          by (apply gfold_done; intros s a Ha;
              eapply setget_step_done, R, Ha);
        destruct D as [lines2 E2]
    end.
    rewrite E2 in H. discriminate H.
  - intros [= <-]. revert E1.
    apply (gfold_stops _ (fun st => st = Raised KeyError \/ st = Exited)).
    apply member_step_stops.
Qed.

Lemma struct_bind_methods_done (cpp : list string) :
  (forall entry, In entry fields ->
     member_ready g api_latest_macros struct_type count_fields entry) ->
  exists cpp',
    fst (struct_bind_methods g struct_type fields count_fields
           variant_union_type_fileds cpp) = Done cpp'.
Proof.
  intros H. unfold struct_bind_methods. rewrite gbind_fst.
  match goal with
  | |- context [gfold ?body fields ?s0] =>
      assert (D : exists cpp1, fst (gfold body fields s0) = Done cpp1)
        by (apply gfold_done; intros s a Ha;
            eapply bind_step_done, H, Ha);
      destruct D as [cpp1 ->]
  end.
  now eexists.
Qed.

Lemma struct_set_from_eos_done (cpp : list string) :
  exists cpp',
    fst (struct_set_from_eos g struct_type fields count_fields
           variant_union_type_fileds fl cpp) = Done cpp'.
Proof.
  unfold struct_set_from_eos. destruct (set_from fl); [|now eexists].
  rewrite gbind_fst.
  match goal with
  | |- context [gfold ?body fields ?s0] =>
      assert (D : exists cpp1, fst (gfold body fields s0) = Done cpp1)
        by (apply gfold_done; intros s a _; apply from_eos_step_done);
      destruct D as [cpp1 ->]
  end.
  now eexists.
Qed.

Lemma struct_set_to_eos_done (cpp : list string) :
  exists cpp',
    fst (struct_set_to_eos g struct_type fields count_fields
           variant_union_type_fileds fl cpp) = Done cpp'.
Proof.
  unfold struct_set_to_eos. destruct (set_to fl); [|now eexists].
  rewrite gbind_fst.
  match goal with
  | |- context [gfold ?body fields ?s0] =>
      assert (D : exists cpp1, fst (gfold body fields s0) = Done cpp1)
        by (apply gfold_done; intros s a _; apply to_eos_step_done);
      destruct D as [cpp1 ->]
  end.
  now eexists.
Qed.

End GenStructStages.

(** What is left of [_gen_struct] once the class declaration is
    written. *)
Lemma gen_struct_stages (g : model) (api_latest_macros : list string)
    (struct_type : string) (fields : struct_fields)
    (r_structs_cpp : list string) :
  fst (_gen_struct g api_latest_macros struct_type fields r_structs_cpp)
  = match flags_of g struct_type with
    | None => Stopped (Raised KeyError)
    | Some fl =>
        let count_fields := fst (collect_count_fields g fields) in
        let unions := collect_union_type_fields fields in
        match fst (struct_declaration g api_latest_macros struct_type
                     fields count_fields unions fl) with
        | Stopped st => Stopped st
        | Done lines =>
            match fst (struct_bind_methods g struct_type fields
                         count_fields unions r_structs_cpp) with
            | Stopped st => Stopped st
            | Done cpp1 =>
                match fst (struct_set_from_eos g struct_type fields
                             count_fields unions fl
                             (struct_from_eos struct_type fl cpp1)) with
                | Stopped st => Stopped st
                | Done cpp2 =>
                    match fst (struct_set_to_eos g struct_type fields
                                 count_fields unions fl cpp2) with
                    | Stopped st => Stopped st
                    | Done cpp3 => Done (lines, cpp3)
                    end
                end
            end
        end
    end.
Proof.
  unfold _gen_struct, flags_of, subscript.
  destruct (collect_count_fields g fields) as [count_fields out].
  cbn [fst]. rewrite gbind_fst, say_fst, gbind_fst, lift_fst.
  destruct (Dict.get _ struct_type) as [fl|]; [|reflexivity].
  cbv zeta. rewrite gbind_fst.
  destruct (fst (struct_declaration _ _ _ _ _ _ _)); [|reflexivity].
  rewrite gbind_fst.
  destruct (fst (struct_bind_methods _ _ _ _ _ _)); [|reflexivity].
  rewrite gbind_fst.
  destruct (fst (struct_set_from_eos _ _ _ _ _ _ _)); [|reflexivity].
  rewrite gbind_fst.
  destruct (fst (struct_set_to_eos _ _ _ _ _ _ _)); reflexivity.
Qed.

Lemma gen_struct_done_iff (g : model) (api_latest_macros : list string)
    (struct_type : string) (fields : struct_fields)
    (r_structs_cpp : list string) :
  (exists r,
     fst (_gen_struct g api_latest_macros struct_type fields r_structs_cpp)
     = Done r)
  <-> flags_of g struct_type <> None
      /\ forall entry, In entry fields ->
           member_ready g api_latest_macros struct_type
             (fst (collect_count_fields g fields)) entry.
Proof.
  rewrite gen_struct_stages.
  destruct (flags_of g struct_type) as [fl|].
  2:{ split; [intros [r H]; discriminate H | intros [H _]; congruence]. }
  cbv zeta.
  set (count_fields := fst (collect_count_fields g fields)).
  set (unions := collect_union_type_fields fields).
  pose proof (struct_declaration_done g api_latest_macros struct_type
                fields count_fields unions fl) as HD.
  split.
  - intros [r H]. split; [discriminate|]. apply HD.
    destruct (fst (struct_declaration _ _ _ _ _ _ _));
      [now eexists | discriminate H].
  - intros [_ H]. destruct (proj2 HD H) as [lines ->].
    destruct (struct_bind_methods_done g api_latest_macros struct_type
                fields count_fields unions r_structs_cpp H) as [cpp1 ->].
    destruct (struct_set_from_eos_done g struct_type fields count_fields
                unions fl (struct_from_eos struct_type fl cpp1))
      as [cpp2 ->].
    destruct (struct_set_to_eos_done g struct_type fields count_fields
                unions fl cpp2) as [cpp3 ->].
    now eexists.
Qed.

(** X24.  When [_gen_struct] completes.  It returns exactly when the
    struct has an entry in the requirement table and every field that is
    neither deprecated nor a count field has a type under [remap_type]
    and, if that type is [int32_t] and the field is [ApiVersion], a
    version macro under [__get_api_latest_macro].  When it does not
    return, it has raised [KeyError] or called [exit()].  A version macro
    that is found is one of the scanned macros, or the struct is one of
    the three that the function knows by name. *)
Theorem gen_struct_completes_iff (g : model) (api_latest_macros : list string)
    (struct_type : string) (fields : struct_fields)
    (r_structs_cpp : list string) :
  ((exists r,
      fst (_gen_struct g api_latest_macros struct_type fields r_structs_cpp)
      = Done r)
   <-> flags_of g struct_type <> None
       /\ forall entry, In entry fields ->
            member_ready g api_latest_macros struct_type
              (fst (collect_count_fields g fields)) entry)
  /\ (forall s,
        fst (_gen_struct g api_latest_macros struct_type fields r_structs_cpp)
        = Stopped s ->
        s = Raised KeyError \/ s = Exited)
  /\ (forall m,
        fst (__get_api_latest_macro api_latest_macros struct_type) = Done m ->
        In m api_latest_macros
        \/ In struct_type
             ["EOS_UserInfo"; "EOS_UserInfo_CopyUserInfoOptions";
              "EOS_SessionSearch_SetMaxResultsOptions"]).
Proof.
  split; [apply gen_struct_done_iff|].
  split; [|apply macro_lookup_source].
  rewrite gen_struct_stages.
  intros s. destruct (flags_of g struct_type) as [fl|];
    [|intros [= <-]; now left].
  cbv zeta.
  set (count_fields := fst (collect_count_fields g fields)).
  set (unions := collect_union_type_fields fields).
  destruct (fst (struct_declaration _ _ _ _ _ _ _)) as [lines|st] eqn:ED.
  2:{ intros [= <-]. eapply struct_declaration_stops, ED. }
  assert (H : forall entry, In entry fields ->
                member_ready g api_latest_macros struct_type count_fields
                  entry).
  { eapply struct_declaration_done. eexists. exact ED. }
  destruct (struct_bind_methods_done g api_latest_macros struct_type
              fields count_fields unions r_structs_cpp H) as [cpp1 ->].
  destruct (struct_set_from_eos_done g struct_type fields count_fields
              unions fl (struct_from_eos struct_type fl cpp1))
    as [cpp2 ->].
  destruct (struct_set_to_eos_done g struct_type fields count_fields
              unions fl cpp2) as [cpp3 ->].
  discriminate.
Qed.

(* ------------------------------------------------------------------ *)
(** ** The bodies of [set_from_eos] and [set_to_eos] *)

Ltac appended :=
  intros [= <-];
  first [ exists []; symmetry; apply app_nil_r
        | rewrite <- ?app_assoc; eexists; reflexivity ].

Lemma from_eos_step_appends (g : model) (fields : struct_fields)
    (count_fields : list (option string)) (unions : list string)
    (cpp cpp' : list string) (entry : string * string) :
  fst (from_eos_step g fields count_fields unions cpp entry) = Done cpp' ->
  exists added, cpp' = (cpp ++ added)%list.
Proof.
  destruct entry as [field field_type]. unfold from_eos_step.
  repeat match goal with
  | |- context [fst (gbind _ _)] => rewrite gbind_fst
  | |- context [fst (find_count _ _)] => rewrite find_count_fst
  | |- context [if ?b then _ else _] => destruct b
  | |- context [fst (gret _)] => cbn [gret fst]
  end; appended.
Qed.

Lemma to_eos_step_appends (g : model) (fields : struct_fields)
    (count_fields : list (option string)) (unions : list string)
    (cpp cpp' : list string) (entry : string * string) :
  fst (to_eos_step g fields count_fields unions cpp entry) = Done cpp' ->
  exists added, cpp' = (cpp ++ added)%list.
Proof.
  destruct entry as [field field_type]. unfold to_eos_step.
  repeat match goal with
  | |- context [fst (gbind _ _)] => rewrite gbind_fst
  | |- context [fst (find_count _ _)] => rewrite find_count_fst
  | |- context [if ?b then _ else _] => destruct b
  | |- context [fst (gret _)] => cbn [gret fst]
  end; appended.
Qed.

(** A loop whose turns append only appends. *)
Lemma gfold_appends {A B : Type} (body : list B -> A -> gen (list B))
    (l : list A) :
  (forall s a s', fst (body s a) = Done s' ->
                  exists added, s' = (s ++ added)%list) ->
  forall s s', fst (gfold body l s) = Done s' ->
               exists added, s' = (s ++ added)%list.
Proof.
  intros H s s'.
  apply (gfold_invariant body (fun t => exists added, t = (s ++ added)%list)).
  - intros t a t' _ [added ->] Ht. destruct (H _ _ _ Ht) as [added' ->].
    exists (added ++ added')%list. now rewrite app_assoc.
  - exists []. symmetry. apply app_nil_r.
Qed.

Lemma struct_set_to_eos_appends (g : model) (struct_type : string)
    (fields : struct_fields) (count_fields : list (option string))
    (unions : list string) (fl : flags) (cpp cpp' : list string) :
  fst (struct_set_to_eos g struct_type fields count_fields unions fl cpp)
  = Done cpp' ->
  exists added, cpp' = (cpp ++ added)%list.
Proof.
  unfold struct_set_to_eos. destruct (set_to fl); [|appended].
  rewrite gbind_fst.
  destruct (fst (gfold _ fields _)) as [cpp1|] eqn:E; [|discriminate].
  apply gfold_appends in E; [|intros s a s'; apply to_eos_step_appends].
  destruct E as [added ->]. appended.
Qed.

Lemma handle_type_is_no_other (field_type field : string) :
  _is_handle_type field_type field = true ->
  _is_anti_cheat_client_handle_type field_type = false
  /\ _is_requested_channel_ptr_field field_type field = false
  /\ startswith field_type "Union" = false.
Proof.
  unfold _is_handle_type, _is_anti_cheat_client_handle_type,
    _is_requested_channel_ptr_field.
  intros H. repeat split.
  - destruct (String.eqb_spec field_type "EOS_AntiCheatCommon_ClientHandle")
      as [->|]; [discriminate H | reflexivity].
  - destruct (String.eqb_spec field_type "const uint8_t*") as [->|];
      [discriminate H | reflexivity].
  - destruct (startswith field_type "Union") eqn:E; [|reflexivity].
    apply startswith_split in E. destruct E as [r ->]. discriminate H.
Qed.

(** X25.  In the body of [set_from_eos] that [_gen_struct] writes, a
    field of a handle type is copied twice: the line with the macro for
    handles is followed by the line with the macro for plain fields, the
    test for array fields of source line 2170 being an [if] where the
    loop of [set_to_eos] has an [elif]. *)
Theorem set_from_eos_copies_a_handle_twice (g : model)
    (api_latest_macros : list string) (struct_type : string)
    (fields : struct_fields) (r_structs_cpp lines cpp : list string)
    (fl : flags) (field field_type : string) :
  fst (_gen_struct g api_latest_macros struct_type fields r_structs_cpp)
  = Done (lines, cpp) ->
  flags_of g struct_type = Some fl ->
  fl.(set_from) = true ->
  In (field, field_type) fields ->
  is_left_out (fst (collect_count_fields g fields))
    (collect_union_type_fields fields) field = false ->
  _is_handle_type field_type field = true ->
  _is_arr_field g field_type field = false ->
  exists before after,
    cpp = (before
           ++ [(tab ++ "_FROM_EOS_FIELD_HANDLER(" ++ to_snake_case field
                ++ ", p_origin." ++ field ++ ");")%string;
               (tab ++ "_FROM_EOS_FIELD(" ++ to_snake_case field
                ++ ", p_origin." ++ field ++ ");")%string]
           ++ after)%list.
Proof.
  intros H Hfl Hsf Hin Hout Hh Harr.
  rewrite gen_struct_stages, Hfl in H. cbv zeta in H.
  set (count_fields := fst (collect_count_fields g fields)) in *.
  set (unions := collect_union_type_fields fields) in *.
  destruct (fst (struct_declaration _ _ _ _ _ _ _)) as [lines0|];
    [|discriminate H].
  destruct (fst (struct_bind_methods _ _ _ _ _ _)) as [cpp1|];
    [|discriminate H].
  destruct (fst (struct_set_from_eos _ _ _ _ _ _ _)) as [cpp2|] eqn:E2;
    [|discriminate H].
  destruct (fst (struct_set_to_eos _ _ _ _ _ _ _)) as [cpp3|] eqn:E3;
    [|discriminate H].
  injection H as <- <-.
  apply struct_set_to_eos_appends in E3. destruct E3 as [a3 ->].
  unfold struct_set_from_eos in E2. rewrite Hsf, gbind_fst in E2.
  apply in_split in Hin. destruct Hin as (l1 & l2 & Hsplit).
  revert E2. generalize fields at 1 as fields0. intros fields0.
  rewrite Hsplit. rewrite gfold_app_fst.
  destruct (fst (gfold _ l1 _)) as [cppA|]; [|discriminate].
  cbn [gfold]. rewrite gbind_fst.
  assert (S : fst (from_eos_step g fields0 count_fields unions cppA
                     (field, field_type))
              = Done (cppA
                      ++ [(tab ++ "_FROM_EOS_FIELD_HANDLER("
                           ++ to_snake_case field ++ ", p_origin." ++ field
                           ++ ");")%string;
                          (tab ++ "_FROM_EOS_FIELD(" ++ to_snake_case field
                           ++ ", p_origin." ++ field ++ ");")%string])%list).
  { unfold from_eos_step. unfold is_left_out in Hout.
    apply orb_false_iff in Hout. destruct Hout as [Hout H3].
    apply orb_false_iff in Hout. destruct Hout as [H1 H2].
    rewrite H1, H2, H3.
    destruct (handle_type_is_no_other _ _ Hh) as (N1 & N2 & N3).
    rewrite N1, N2, N3, Hh, gbind_fst. cbn [gret fst]. rewrite Harr.
    cbn [gret fst]. now rewrite <- app_assoc. }
  rewrite S.
  destruct (fst (gfold _ l2 _)) as [cppB|] eqn:EB; [|discriminate].
  apply gfold_appends in EB; [|intros s a s'; apply from_eos_step_appends].
  destruct EB as [a2 ->]. cbn [gret fst]. intros [= <-].
  exists cppA, (a2 ++ ["}"] ++ a3)%list.
  now rewrite <- !app_assoc.
Qed.

Lemma set_from_eos_copies_a_handle_twice_witness :
  exists lines cpp,
    fst (_gen_struct token_model token_macros "EOS_Auth_Token" token_fields
           []) = Done (lines, cpp)
    /\ exists before after,
         cpp = (before
                ++ [(tab ++ "_FROM_EOS_FIELD_HANDLER(handle, p_origin.Handle);")%string;
                    (tab ++ "_FROM_EOS_FIELD(handle, p_origin.Handle);")%string]
                ++ after)%list.
Proof.
  eexists. eexists. split; [vm_compute; reflexivity|].
  refine (set_from_eos_copies_a_handle_twice token_model token_macros
            "EOS_Auth_Token" token_fields [] _ _
            {| set_from := true; from := false; set_to := false;
               to := false |}
            "Handle" "EOS_HAuth" _ _ _ _ _ _ _).
  - vm_compute. reflexivity.
  - vm_compute. reflexivity.
  - reflexivity.
  - simpl. tauto.
  - vm_compute. reflexivity.
  - reflexivity.
  - vm_compute. reflexivity.
Defined.

(* ------------------------------------------------------------------ *)
(** ** The classes that are declared *)

Lemma member_step_headers (g : model) (api_latest_macros : list string)
    (struct_type : string) (count_fields : list (option string))
    (lines lines' : list string) (entry : string * string) :
  fst (member_step g api_latest_macros struct_type count_fields lines entry)
  = Done lines' ->
  filter is_class_header lines' = filter is_class_header lines.
Proof.
  destruct entry as [field field_type]. unfold member_step.
  destruct (is_deprecated_field field); [now intros [= <-]|].
  destruct (in_count_fields field count_fields); [now intros [= <-]|].
  rewrite gbind_fst, lift_fst.
  destruct (remap_type g field_type field) as [type|]; [|discriminate].
  rewrite gbind_fst.
  match goal with
  | |- match ?X with Done _ => _ | Stopped _ => _ end = _ -> _ =>
      destruct X as [init|]; [|discriminate]
  end.
  cbn [gret fst]. intros [= <-]. rewrite filter_app. cbn [filter].
  replace (is_class_header _) with false by reflexivity.
  apply app_nil_r.
Qed.

Lemma setget_step_headers (g : model) (count_fields : list (option string))
    (unions : list string) (lines lines' : list string)
    (entry : string * string) :
  fst (setget_step g count_fields unions lines entry) = Done lines' ->
  filter is_class_header lines' = filter is_class_header lines.
Proof.
  destruct entry as [field field_type]. unfold setget_step.
  destruct (is_deprecated_field field); [now intros [= <-]|].
  destruct (in_count_fields field count_fields); [now intros [= <-]|].
  destruct (PyStr.mem field unions); [now intros [= <-]|].
  rewrite gbind_fst, lift_fst.
  destruct (remap_type g field_type field) as [type|]; [|discriminate].
  destruct (String.eqb type "bool"); cbn [gret fst]; intros [= <-];
    rewrite filter_app; cbn [filter];
    replace (is_class_header _) with false by reflexivity;
    apply app_nil_r.
Qed.

(** The declaration of a class has one class header, its own. *)
Lemma struct_declaration_header (g : model)
    (api_latest_macros : list string) (struct_type : string)
    (fields : struct_fields) (count_fields : list (option string))
    (unions : list string) (fl : flags) (lines : list string) :
  fst (struct_declaration g api_latest_macros struct_type fields
         count_fields unions fl) = Done lines ->
  filter is_class_header lines = [class_header struct_type].
Proof.
  unfold struct_declaration. rewrite gbind_fst.
  destruct (fst (gfold _ fields _)) as [lines1|] eqn:E1; [|discriminate].
  apply (gfold_invariant _
           (fun t => filter is_class_header t = [class_header struct_type]))
    in E1.
  - rewrite gbind_fst.
    destruct (fst (gfold _ fields _)) as [lines2|] eqn:E2; [|discriminate].
    apply (gfold_invariant _
             (fun t => filter is_class_header t
                       = [class_header struct_type])) in E2.
    + cbn [gret fst]. intros [= <-].
      destruct (set_from fl), (from fl), (set_to fl), (to fl);
        rewrite !filter_app, E2; reflexivity.
    + intros s a s' _ Hs Hstep.
      now rewrite (setget_step_headers _ _ _ _ _ _ Hstep).
    + destruct (to fl); rewrite !filter_app, E1; reflexivity.
  - intros s a s' _ Hs Hstep.
    now rewrite (member_step_headers _ _ _ _ _ _ _ Hstep).
  - cbn [app filter].
    replace (is_class_header ("class " ++ _)) with true
      by (symmetry; apply startswith_app).
    reflexivity.
Qed.

Lemma gen_structs_step_headers (g : model) (api_latest_macros : list string)
    (acc acc' : list string * list string)
    (entry : string * struct_fields) :
  fst (gen_structs_step g api_latest_macros acc entry) = Done acc' ->
  filter is_class_header (fst acc')
  = (filter is_class_header (fst acc)
     ++ map class_header (filter (gets_class g) [fst entry]))%list.
Proof.
  destruct acc as [lines cpp], entry as [struct_type fields].
  unfold gen_structs_step, gets_class. cbn [fst filter].
  destruct (_is_expended_struct g struct_type).
  { intros [= <-]. cbn [negb andb map fst]. now rewrite app_nil_r. }
  destruct (_is_need_skip_struct struct_type).
  { intros [= <-]. cbn [negb andb map fst]. now rewrite app_nil_r. }
  rewrite gbind_fst, gen_struct_stages.
  destruct (flags_of g struct_type) as [fl|]; [|discriminate].
  cbv zeta.
  destruct (fst (struct_declaration _ _ _ _ _ _ _)) as [added|] eqn:ED;
    [|discriminate].
  destruct (fst (struct_bind_methods _ _ _ _ _ _)); [|discriminate].
  destruct (fst (struct_set_from_eos _ _ _ _ _ _ _)); [|discriminate].
  destruct (fst (struct_set_to_eos _ _ _ _ _ _ _)); [|discriminate].
  cbn [gret fst]. intros [= <-]. cbn [fst negb andb map].
  now rewrite filter_app, (struct_declaration_header _ _ _ _ _ _ _ _ ED).
Qed.

Lemma gen_structs_loop_headers (g : model) (api_latest_macros : list string)
    (l : Dict.t struct_fields) :
  forall acc acc',
    fst (gfold (gen_structs_step g api_latest_macros) l acc) = Done acc' ->
    filter is_class_header (fst acc')
    = (filter is_class_header (fst acc)
       ++ map class_header (filter (gets_class g) (Dict.keys l)))%list.
Proof.
  induction l as [|entry l IH]; intros acc acc'.
  - intros [= <-]. cbn. now rewrite app_nil_r.
  - cbn [gfold]. rewrite gbind_fst.
    destruct (fst (gen_structs_step g api_latest_macros acc entry))
      as [acc1|] eqn:E; [|discriminate].
    intros H. rewrite (IH _ _ H), (gen_structs_step_headers _ _ _ _ _ E).
    unfold Dict.keys. cbn [map filter].
    destruct (gets_class g (fst entry)); cbn [map app];
      now rewrite <- app_assoc.
Qed.

(** X26.  What [gen_structs] declares and registers.  The class headers in
    its lines are those of the structs that are neither expanded into
    arguments nor on the skip list, one each, in table order.  The macro
    [REGISTER_DATA_CLASSES] is the last thing written and is always
    empty: the loop that should fill it runs over a table that is never
    filled. *)
Theorem gen_structs_declares_and_registers (g : model)
    (api_latest_macros : list string)
    (r_cpp_lines lines cpp : list string) :
  fst (gen_structs_lines g api_latest_macros r_cpp_lines)
  = Done (lines, cpp) ->
  filter is_class_header lines
  = map class_header (filter (gets_class g) (Dict.keys g.(structs)))
  /\ exists body,
       lines = (body ++ ["// ====================";
                         ("#define REGISTER_DATA_CLASSES()"
                          ++ backslash)%string;
                         ""])%list.
Proof.
  unfold gen_structs_lines. rewrite gbind_fst.
  destruct (fst (gfold _ (structs g) _)) as [[lines1 cpp1]|] eqn:E;
    [|discriminate].
  apply gen_structs_loop_headers in E. cbn [fst] in E.
  change (register_lines g ?x) with x.
  cbn [gret fst]. intros [= <- <-]. split.
  - rewrite !filter_app, E. cbn [filter].
    repeat match goal with
    | |- context [is_class_header ?x] =>
        replace (is_class_header x) with false by reflexivity
    end.
    now rewrite !app_nil_r.
  - exists (lines1 ++ [""; "} // namespace godot"; ""])%list.
    now rewrite <- !app_assoc.
Qed.

Lemma gen_structs_declares_and_registers_witness :
  exists lines cpp,
    fst (gen_structs_lines token_model token_macros []) = Done (lines, cpp)
    /\ filter is_class_header lines
       = ["class EOSAuth_Token: public EOSDataClass {";
          "class EOSAuth_CopyOptions: public EOSDataClass {"].
Proof.
  eexists. eexists. split; [vm_compute; reflexivity|].
  refine (proj1 (gen_structs_declares_and_registers token_model
                   token_macros [] _ _ _)).
  vm_compute. reflexivity.
Defined.

(* ------------------------------------------------------------------ *)
(** ** When the whole generation completes *)

Lemma gfold_done_iff {A St : Type} (body : St -> A -> gen St)
    (good : A -> Prop) (l : list A) :
  (forall s a, In a l ->
     ((exists s', fst (body s a) = Done s') <-> good a)) ->
  forall s,
    (exists s', fst (gfold body l s) = Done s')
    <-> (forall a, In a l -> good a).
Proof.
  induction l as [|a l IH]; intros H s.
  - split; [intros _ ? [] | intros _; now exists s].
  - cbn [gfold]. rewrite gbind_fst.
    assert (IH' : forall s0,
              (exists s', fst (gfold body l s0) = Done s')
              <-> (forall a0, In a0 l -> good a0)).
    { apply IH. intros s0 a0 Ha. apply H. now right. }
    split.
    + intros [s' Hs] a0 [<-|Ha].
      * apply (H s a (or_introl eq_refl)).
        destruct (fst (body s a)); [now eexists | discriminate Hs].
      * destruct (fst (body s a)) as [s1|]; [|discriminate Hs].
        apply (IH' s1); [exists s'; exact Hs | exact Ha].
    + intros Hall.
      destruct (proj2 (H s a (or_introl eq_refl))
                  (Hall a (or_introl eq_refl))) as [s1 ->].
      apply IH'. intros a0 Ha. apply Hall. now right.
Qed.

(** X27.  When [gen_structs] completes.  The lookup of the requirement
    flags never fails for a struct of the table, so the generation
    returns exactly when, in every struct that gets a class, every field
    that is neither deprecated nor a count field has a type under
    [remap_type] and, if it is the version field, a version macro. *)
Theorem gen_structs_completes_iff (g : model)
    (api_latest_macros : list string) (r_cpp_lines : list string) :
  (exists r, fst (gen_structs g api_latest_macros r_cpp_lines) = Done r)
  <-> (forall struct_type fields,
         In (struct_type, fields) g.(structs) ->
         gets_class g struct_type = true ->
         forall entry, In entry fields ->
           member_ready g api_latest_macros struct_type
             (fst (collect_count_fields g fields)) entry).
Proof.
  unfold gen_structs, gen_structs_lines. rewrite !gbind_fst.
  set (good := fun e : string * struct_fields =>
         gets_class g (fst e) = true ->
         forall entry, In entry (snd e) ->
           member_ready g api_latest_macros (fst e)
             (fst (collect_count_fields g (snd e))) entry).
  assert (S : forall s a, In a g.(structs) ->
            ((exists s', fst (gen_structs_step g api_latest_macros s a)
                         = Done s') <-> good a)).
  { intros [lines cpp] [struct_type fields] Hin.
    unfold good, gen_structs_step, gets_class. cbn [fst snd].
    destruct (_is_expended_struct g struct_type);
      [split; [intros _ H; discriminate H | intros _; now eexists]|].
    destruct (_is_need_skip_struct struct_type);
      [split; [intros _ H; discriminate H | intros _; now eexists]|].
    rewrite gbind_fst. cbn [negb andb].
    pose proof (gen_struct_done_iff g api_latest_macros struct_type fields
                  cpp) as D.
    assert (F : flags_of g struct_type <> None).
    { destruct (flags_of_own g struct_type) as (f & -> & _);
        [eapply in_keys, Hin | discriminate]. }
    split.
    - intros [s' Hs] _. apply D.
      destruct (fst (_gen_struct _ _ _ _ _)); [now eexists | discriminate Hs].
    - intros Hall. destruct (proj2 D (conj F (Hall eq_refl))) as [[a b] ->].
      now eexists. }
  pose proof (gfold_done_iff (gen_structs_step g api_latest_macros) good
                g.(structs) S) as L.
  match goal with
  | |- context [gfold ?body (structs g) ?s0] => specialize (L s0)
  end.
  split.
  - intros [r Hr] struct_type fields Hin.
    apply (proj1 L) with (a := (struct_type, fields)); [|exact Hin].
    destruct (fst (gfold _ (structs g) _)) as [[a b]|];
      [now eexists | discriminate Hr].
  - intros Hall.
    destruct (proj2 L) as [[a b] ->]; [|now eexists].
    intros [struct_type fields] Hin Hc entry He.
    exact (Hall _ _ Hin Hc entry He).
Qed.

(* ================================================================== *)
(** * The handle of an interface *)
(* ================================================================== *)

Section InterfaceHandles.
Variable files0 : Dict.t file_info.
Hypothesis Hwf : wf_files files0.

(** The loops of consolidation keep the keys that the interface table
    starts with. *)
Lemma loops_keep_interfaces (c : cstate) (k : string) :
  move_methods_and_callbacks files0 = Ok c ->
  In k (Dict.keys initial_interfaces) ->
  loop_inv files0 c /\ In k (Dict.keys c.(c_interfaces)).
Proof.
  unfold move_methods_and_callbacks. intros H Hk. revert H.
  apply (foldM_invariant _
           (fun c => loop_inv files0 c /\ In k (Dict.keys c.(c_interfaces)))).
  - intros s il s' _ HP Hstep. unfold outer_step in Hstep. revert Hstep.
    apply (foldM_invariant _
             (fun c => loop_inv files0 c
                       /\ In k (Dict.keys c.(c_interfaces))));
      [|exact HP].
    intros t jl t' _ [TI Tin] Hst.
    split; [eapply inner_step_inv; eassumption|].
    destruct TI as (_ & _ & _ & TN).
    destruct (inner_step_spec il jl t t' (TN jl) Hst)
      as (_ & _ & _ & _ & _ & I & _).
    apply I, Tin.
  - split; [apply loop_inv_start, Hwf | exact Hk].
Qed.

(** The loops keep the names of the handles. *)
Lemma loop_inv_all_handle_names (c : cstate) :
  loop_inv files0 c ->
  all_handle_names c.(file_lower2infos) = all_handle_names files0.
Proof.
  intros HI. destruct (loop_inv_handle_names files0 Hwf c HI) as [Hk _].
  destruct HI as (IK & IH & _).
  rewrite all_handle_names_by_key by exact Hk.
  rewrite all_handle_names_by_key by apply (wf_keys _ Hwf).
  rewrite IK. apply flat_map_ext. exact IH.
Qed.

End InterfaceHandles.

(** The loop over the enums stops at a file whose interface is in the
    table and whose handle is not. *)
Lemma enum_fold_needs_handle (interfaces : Dict.t interface_entry)
    (il : string) :
  Dict.mem interfaces
    (removeprefix (_convert_interface_class_name il) "EOS") = true ->
  forall (files : Dict.t file_info) hs ue,
    In il (Dict.keys files) ->
    ~ In ("EOS_H" ++ removeprefix (_convert_interface_class_name il) "EOS")%string
        (Dict.keys hs) ->
    exists e, foldM (enum_step interfaces) files (hs, ue) = Raise e.
Proof.
  intros Hmem.
  induction files as [|[k fi] files IH]; intros hs ue Hin Hno;
    [destruct Hin|].
  cbn [foldM]. unfold enum_step at 1.
  destruct (String.eqb_spec k il) as [->|Hne].
  - rewrite Hmem. unfold subscript.
    destruct (Dict.get hs _) eqn:G.
    + exfalso. apply Hno. apply get_in_keys. congruence.
    + cbn [bind]. eexists. reflexivity.
  - destruct Hin as [Heq|Hin]; [simpl in Heq; congruence|].
    destruct (Dict.mem interfaces
                (removeprefix (_convert_interface_class_name k) "EOS")).
    + destruct (subscript hs _); cbn [bind]; [|eexists; reflexivity].
      apply IH; [exact Hin|]. now rewrite keys_update.
    + cbn [bind]. apply IH; assumption.
Qed.

(** X28.  A file whose interface is in the interface table needs the
    handle of that interface.  If the tables have a file whose class name
    without [EOS] is [Platform], or is the key of an accessor that some
    file declares, and no file declares the handle [EOS_H] followed by
    that name, consolidation raises [KeyError]. *)
Theorem interface_file_needs_its_handle (files : Dict.t file_info)
    (il : string) :
  wf_files files ->
  In il (Dict.keys files) ->
  (interface_of il = "Platform"
   \/ exists jm m mi,
        In (m, mi) (methods_of files jm)
        /\ is_interface_getter m = true
        /\ interface_key m = interface_of il) ->
  ~ In ("EOS_H" ++ interface_of il)%string (all_handle_names files) ->
  consolidate files = Raise KeyError.
Proof.
  intros Hwf Hil Hface Hno.
  destruct (consolidate files) as [g|e] eqn:E;
    [exfalso | f_equal; eapply consolidate_raises, E].
  unfold consolidate in E.
  destruct (move_methods_and_callbacks files) as [c|] eqn:E1; cbn [bind] in E;
    [|discriminate E].
  assert (HI : loop_inv files c
               /\ In (interface_of il)
                    (Dict.keys c.(c_interfaces))).
  { destruct Hface as [->|(jm & m & mi & Hm & Hget & <-)].
    - apply loops_keep_interfaces; [exact Hwf | exact E1 | now left].
    - split.
      + apply (loops_keep_interfaces files Hwf c "Platform" E1). now left.
      + apply (loops_extract files Hwf jm m mi Hm Hget c E1). }
  destruct HI as [HI Hk].
  destruct (enum_fold_needs_handle c.(c_interfaces) il) with
    (files := c.(file_lower2infos))
    (hs := move_handles c.(file_lower2infos))
    (ue := @nil (string * list string)) as [e He].
  - now apply mem_true_iff.
  - destruct HI as (IK & _). now rewrite IK.
  - intros Hin. rewrite move_handles_flat in Hin.
    apply fold_set_keys in Hin. destruct Hin as [[]|Hin].
    rewrite keys_flat_handles in Hin.
    rewrite (loop_inv_all_handle_names files Hwf c HI) in Hin.
    contradiction.
  - destruct (foldM _ _ _) as [[hs ue]|e0] eqn:E2 in E.
    + assert (X : Ok (hs, ue) = Raise e :> result _)
        by (rewrite <- E2; exact He).
      discriminate X.
    + discriminate E.
Qed.

Lemma interface_file_needs_its_handle_witness :
  consolidate [("platform", empty_file)] = Raise KeyError.
Proof.
  apply (interface_file_needs_its_handle [("platform", empty_file)]
           "platform").
  - split; simpl.
    + repeat constructor. simpl. tauto.
    + constructor.
    + constructor.
    + intros il fi h hi [[= <- <-]|[]] [].
  - simpl. tauto.
  - left. reflexivity.
  - simpl. tauto.
Defined.

(* ================================================================== *)
(** * Where the enums go *)
(* ================================================================== *)

Lemma enums_of_update (files : Dict.t file_info) (j k : string)
    (f : file_info -> file_info) :
  (forall fi, (f fi).(file_enums) = fi.(file_enums)) ->
  enums_of (Dict.update files j f) k = enums_of files k.
Proof.
  intros Hf. unfold enums_of. rewrite get_update.
  destruct (String.eqb_spec k j) as [->|]; [|reflexivity].
  destruct (Dict.get files j); [apply Hf | reflexivity].
Qed.

Lemma inner_step_enums (il jl : string) (c c' : cstate) :
  inner_step il c jl = Ok c' ->
  forall k, enums_of c'.(file_lower2infos) k
            = enums_of c.(file_lower2infos) k.
Proof.
  unfold inner_step.
  destruct (subscript _ il) as [outer|]; cbn [bind]; [|discriminate].
  destruct (subscript _ jl) as [infos|]; cbn [bind]; [|discriminate].
  destruct (foldM method_step _ _) as [s|]; cbn [bind]; [|discriminate].
  destruct (pop_all _ _) as [ms'|]; cbn [bind]; [|discriminate].
  intros [= <-] k. cbn [file_lower2infos].
  now rewrite !enums_of_update by reflexivity.
Qed.

(** The loops of consolidation leave the enums of every file alone. *)
Lemma loops_enums (files0 : Dict.t file_info) (c : cstate) :
  move_methods_and_callbacks files0 = Ok c ->
  forall k, enums_of c.(file_lower2infos) k = enums_of files0 k.
Proof.
  unfold move_methods_and_callbacks.
  apply (foldM_invariant _
           (fun c => forall k, enums_of c.(file_lower2infos) k
                               = enums_of files0 k)).
  - intros s il s' _ HP. unfold outer_step.
    apply (foldM_invariant _
             (fun c => forall k, enums_of c.(file_lower2infos) k
                                 = enums_of files0 k)); [|exact HP].
    intros t jl t' _ HT Hst k.
    now rewrite (inner_step_enums il jl t t' Hst).
  - reflexivity.
Qed.

Lemma fold_set_in {V : Type} (l : Dict.t V) : forall (d : Dict.t V) x,
  In x (Dict.keys d) \/ In x (Dict.keys l) ->
  In x (Dict.keys (fold_left (fun d '(k, v) => Dict.set d k v) l d)).
Proof.
  induction l as [|[k v] l IH]; intros d x; cbn [fold_left].
  - intros [H|[]]. exact H.
  - intros H. apply IH. rewrite in_keys_set. simpl in H. intuition.
Qed.

Section EnumFold.
Variable interfaces : Dict.t interface_entry.

(** The unhandled enums only grow, and take the enums of every file
    without interface. *)
Lemma enum_fold_unhandled (files : Dict.t file_info) :
  forall hs ue hs' ue' e,
    foldM (enum_step interfaces) files (hs, ue) = Ok (hs', ue') ->
    In e (Dict.keys ue)
    \/ (exists il fi, In (il, fi) files
          /\ Dict.mem interfaces (interface_of il) = false
          /\ In e (Dict.keys fi.(file_enums))) ->
    In e (Dict.keys ue').
Proof.
  induction files as [|[k fi] files IH]; intros hs ue hs' ue' e.
  - intros [= <- <-] [H|(il & fi & [] & _)]. exact H.
  - cbn [foldM]. unfold enum_step at 1. fold (interface_of k).
    destruct (Dict.mem interfaces (interface_of k)) eqn:M.
    + destruct (subscript hs _); cbn [bind]; [|discriminate].
      intros H Hin. apply (IH _ _ _ _ _ H).
      destruct Hin as [Hin|(il & fi' & [[= <- <-]|Hf] & Hm & He)];
        [now left | congruence | right; now exists il, fi'].
    + cbn [bind]. intros H Hin. apply (IH _ _ _ _ _ H).
      destruct Hin as [Hin|(il & fi' & [[= <- <-]|Hf] & Hm & He)].
      * left. apply fold_set_in. now left.
      * left. apply fold_set_in. now right.
      * right. now exists il, fi'.
Qed.

(** Once a handle holds the enums of a file of its interface, it holds
    those of such a file to the end; and a file with an interface in the
    table gives its enums to the handle. *)
Lemma enum_fold_handles (all : Dict.t file_info) (X : string)
    (files : Dict.t file_info) :
  forall hs ue hs' ue',
    (forall entry, In entry files -> In entry all) ->
    foldM (enum_step interfaces) files (hs, ue) = Ok (hs', ue') ->
    holds_enums_of all hs X
    \/ (exists il fi, In (il, fi) files /\ interface_of il = X
          /\ Dict.mem interfaces X = true) ->
    holds_enums_of all hs' X.
Proof.
  induction files as [|[k fi] files IH]; intros hs ue hs' ue' Hall.
  - intros [= <- <-] [H|(il & fi & [] & _)]. exact H.
  - cbn [foldM]. unfold enum_step at 1. fold (interface_of k).
    assert (Hall' : forall entry, In entry files -> In entry all)
      by (intros entry He; apply Hall; now right).
    destruct (Dict.mem interfaces (interface_of k)) eqn:M.
    + destruct (subscript hs _) as [hi0|] eqn:G; cbn [bind]; [|discriminate].
      apply subscript_ok in G.
      intros H Hin. apply (IH _ _ _ _ Hall' H).
      destruct (String.eqb_spec (interface_of k) X) as [EX|NX].
      * left. exists (put_enums fi.(file_enums) hi0), k, fi.
        rewrite <- EX, get_update, String.eqb_refl, G.
        repeat split. apply Hall. now left.
      * destruct Hin as [(hi & il & fi' & Hg & Hf & Hi & He)
                        |(il & fi' & [[= <- <-]|Hf] & Hi & Hm)];
          [left | congruence | right; now exists il, fi'].
        exists hi, il, fi'. rewrite get_update.
        destruct (String.eqb_spec ("EOS_H" ++ X) ("EOS_H" ++ interface_of k))
          as [E|_]; [|auto].
        exfalso. apply NX. symmetry.
        revert E. clear. simpl. now intros [= ->].
    + cbn [bind]. intros H Hin. apply (IH _ _ _ _ Hall' H).
      destruct Hin as [Hin|(il & fi' & [[= <- <-]|Hf] & Hi & Hm)];
        [now left | congruence | right; now exists il, fi'].
Qed.

End EnumFold.

(** X29.  Where consolidation puts the enums of a file.  If the interface
    name of the file is not a key of the interface table, every enum of
    the file is among the unhandled enums.  If it is, the handle
    [EOS_H<interface>] holds, as its enums, the enums of a file with that
    interface -- of the last such file, each one replacing what the
    handle held. *)
Theorem enums_follow_the_interface (files : Dict.t file_info) (g : model)
    (il : string) (fi : file_info) :
  wf_files files ->
  consolidate files = Ok g ->
  In (il, fi) files ->
  (Dict.mem g.(interfaces) (interface_of il) = false ->
   forall e, In e (Dict.keys fi.(file_enums)) ->
             In e (Dict.keys g.(unhandled_enums)))
  /\ (Dict.mem g.(interfaces) (interface_of il) = true ->
      holds_enums_of files g.(handles) (interface_of il)).
Proof.
  intros Hwf E Hin.
  destruct (consolidate_tables files Hwf g E) as (c & E1 & HI & _).
  unfold consolidate in E. rewrite E1 in E. cbn [bind] in E.
  destruct (foldM _ _ _) as [[hs ue]|] eqn:E2 in E; [|discriminate E].
  cbn [bind] in E. destruct (move_unhandled _) as [ucb um].
  injection E as <-. cbn [interfaces unhandled_enums handles].
  pose proof (loops_enums files c E1) as HE.
  destruct HI as (IK & _).
  assert (Hnd : NoDup (Dict.keys c.(file_lower2infos)))
    by (rewrite IK; apply (wf_keys _ Hwf)).
  assert (Hfi : enums_of files il = fi.(file_enums)).
  { unfold enums_of. now rewrite (in_get _ _ _ (wf_keys _ Hwf) Hin). }
  assert (Hc : exists fi', In (il, fi') c.(file_lower2infos)
                           /\ fi'.(file_enums) = fi.(file_enums)).
  { assert (Hk : In il (Dict.keys c.(file_lower2infos)))
      by (rewrite IK; eapply in_keys, Hin).
    apply get_in_keys in Hk.
    destruct (Dict.get c.(file_lower2infos) il) as [fi'|] eqn:G;
      [|congruence].
    exists fi'. split; [now apply get_some_in|].
    rewrite <- Hfi, <- HE. unfold enums_of. now rewrite G. }
  destruct Hc as (fi' & Hin' & Hen).
  split.
  - intros M e He.
    apply (enum_fold_unhandled _ _ _ _ _ _ e E2).
    right. exists il, fi'. now rewrite Hen.
  - intros M.
    assert (H : holds_enums_of c.(file_lower2infos) hs (interface_of il)).
    { apply (enum_fold_handles _ c.(file_lower2infos) (interface_of il)
               _ _ _ _ _ (fun entry H => H) E2).
      right. now exists il, fi'. }
    destruct H as (hi & il' & fj & Hg & Hj & Hi & Hh).
    assert (Hk : In il' (Dict.keys files))
      by (rewrite <- IK; eapply in_keys, Hj).
    apply get_in_keys in Hk.
    destruct (Dict.get files il') as [fj0|] eqn:G0; [|congruence].
    exists hi, il', fj0. repeat split; try assumption.
    + now apply get_some_in.
    + rewrite Hh.
      transitivity (enums_of c.(file_lower2infos) il').
      * unfold enums_of. now rewrite (in_get _ _ _ Hnd Hj).
      * rewrite HE. unfold enums_of. now rewrite G0.
Qed.

Lemma enums_follow_the_interface_witness :
  exists g,
    consolidate enum_files = Ok g
    /\ In "EOS_ELoginStatus" (Dict.keys g.(unhandled_enums))
    /\ holds_enums_of enum_files g.(handles) "Platform".
Proof.
  eexists. split; [vm_compute; reflexivity|].
  assert (Hwf : wf_files enum_files).
  { split; simpl.
    - repeat constructor; simpl; intuition discriminate.
    - constructor.
    - repeat constructor. simpl. tauto.
    - intros il fi h hi [[= <- <-]|[[= <- <-]|[]]]; simpl; [tauto|].
      intros [[= <- <-]|[]]. reflexivity. }
  split.
  - refine (proj1 (enums_follow_the_interface enum_files _ "common" _
                     Hwf _ _) _ "EOS_ELoginStatus" _).
    + vm_compute. reflexivity.
    + left. reflexivity.
    + reflexivity.
    + simpl. tauto.
  - refine (proj2 (enums_follow_the_interface enum_files _ "platform" _
                     Hwf _ _) _).
    + vm_compute. reflexivity.
    + right. left. reflexivity.
    + reflexivity.
Defined.

(* ================================================================== *)
(** * Requirement derivation: where the flags come from *)
(* ================================================================== *)

Section FlagSources.
Variable g : model.

Lemma flag_inherit (key : flag_key) (src dst : flags) :
  flag key (inherit src dst) = flag key dst || flag key src.
Proof. destruct key; reflexivity. Qed.

Lemma flag_le (key : flag_key) (a b : flags) :
  flags_le a b -> flag key a = true -> flag key b = true.
Proof. unfold flags_le. destruct key; simpl; tauto. Qed.

(** Who is on the list of owners holds the struct in a field. *)
Lemma owner_fields_hold (b : bool) (Y X : string) (fields : struct_fields)
    (P : string -> Prop) :
  (forall field ty, In (field, ty) fields ->
     _is_internal_struct_arr_field ty field = b ->
     _decay_eos_type ty = Y -> P X) ->
  forall acc, (forall z, In z acc -> P z) ->
    forall z, In z (fold_left (owner_field_step b Y X) fields acc) -> P z.
Proof.
  induction fields as [|[field ty] fields IH]; intros Hf acc Hacc z;
    cbn [fold_left]; [apply Hacc|].
  apply IH.
  - intros f t Hin. apply Hf. now right.
  - unfold owner_field_step.
    destruct (negb (PyStr.mem X acc)
              && Bool.eqb (_is_internal_struct_arr_field ty field) b
              && String.eqb (_decay_eos_type ty) Y) eqn:E; [|exact Hacc].
    apply andb_true_iff in E. destruct E as [E E3].
    apply andb_true_iff in E. destruct E as [_ E2].
    apply Bool.eqb_prop in E2. apply String.eqb_eq in E3.
    intros w Hw. apply in_app_iff in Hw. destruct Hw as [Hw|[<-|[]]].
    + now apply Hacc.
    + apply (Hf field ty); [now left | exact E2 | exact E3].
Qed.

Lemma owners_of_holds (b : bool) (Z Y : string) :
  In Z (owners_of g b Y) -> holds_field_of g b Z Y.
Proof.
  rewrite owners_of_fold.
  assert (G : forall (l : Dict.t struct_fields) acc,
            (forall e, In e l -> In e g.(structs)) ->
            (forall z, In z acc -> holds_field_of g b z Y) ->
            forall z,
              In z (fold_left
                      (fun acc (entry : string * struct_fields) =>
                         fold_left (owner_field_step b Y (fst entry))
                           (snd entry) acc) l acc) ->
              holds_field_of g b z Y).
  { induction l as [|[X fields] l IH]; intros acc Hl Hacc z;
      cbn [fold_left]; [apply Hacc|].
    apply IH; [intros e He; apply Hl; now right|].
    cbn [fst snd]. apply owner_fields_hold; [|exact Hacc].
    intros field ty Hin Harr Hty. exists fields, field, ty.
    repeat split; try assumption. apply Hl. now left. }
  apply G; [auto | intros z []].
Qed.

(** The first loop nest of one turn of the second loop: the entry of [s]
    gains flags of the owners only, the other entries stay. *)
Lemma scalar_fold_sources (s : string) (req : Dict.t flags)
    (owners : list string) (l : list string) :
  (forall z, In z l -> In z owners) ->
  forall r,
    (forall k, k <> s -> Dict.get r k = Dict.get req k) ->
    (forall f key, Dict.get r s = Some f -> flag key f = true ->
       (exists f0, Dict.get req s = Some f0 /\ flag key f0 = true)
       \/ (exists z fz, In z owners /\ Dict.get req z = Some fz
                        /\ flag key fz = true)) ->
    (forall k, k <> s ->
       Dict.get (fold_left (fun req0 s0 =>
                    match Dict.get req0 s0 with
                    | Some src => Dict.update req0 s (inherit src)
                    | None => req0
                    end) l r) k = Dict.get req k)
    /\ (forall f key,
          Dict.get (fold_left (fun req0 s0 =>
                       match Dict.get req0 s0 with
                       | Some src => Dict.update req0 s (inherit src)
                       | None => req0
                       end) l r) s = Some f ->
          flag key f = true ->
          (exists f0, Dict.get req s = Some f0 /\ flag key f0 = true)
          \/ (exists z fz, In z owners /\ Dict.get req z = Some fz
                           /\ flag key fz = true)).
Proof.
  induction l as [|a l IH]; intros Hl r H1 H2; cbn [fold_left];
    [split; assumption|].
  apply IH; [intros z Hz; apply Hl; now right | |].
  - intros k Hk. destruct (Dict.get r a); [|now apply H1].
    rewrite get_update. apply String.eqb_neq in Hk. rewrite Hk.
    apply H1. now apply String.eqb_neq.
  - intros f key. destruct (Dict.get r a) as [src|] eqn:Ga; [|apply H2].
    rewrite get_update, String.eqb_refl.
    destruct (Dict.get r s) as [d|] eqn:Gs; [|discriminate].
    cbn [option_map]. intros [= <-]. rewrite flag_inherit.
    intros Hf. apply orb_true_iff in Hf. destruct Hf as [Hf|Hf].
    + now apply (H2 d key).
    + destruct (String.eqb_spec a s) as [->|Hne].
      * assert (src = d) by congruence. subst. now apply (H2 d key).
      * right. exists a, src. rewrite <- (H1 a Hne).
        repeat split; [apply Hl; now left | exact Ga | exact Hf].
Qed.

(** The second loop nest of one turn: the entry of [s] gains the flags
    that the roles of the array owners give, the other entries stay. *)
Lemma array_fold_sources (s : string) (req : Dict.t flags)
    (owners : list string) (l : list string) :
  (forall z, In z l -> In z owners) ->
  forall r,
    (forall k, k <> s -> Dict.get r k = Dict.get req k) ->
    (forall f key, Dict.get r s = Some f -> flag key f = true ->
       (exists f0, Dict.get req s = Some f0 /\ flag key f0 = true)
       \/ (exists z, In z owners /\ flag key (element_flags g z) = true)) ->
    (forall k, k <> s ->
       Dict.get (fold_left (fun req0 s0 =>
                    let req1 :=
                      if __is_input_struct g s0
                      then Dict.update req0 s mark_set_to else req0 in
                    if __is_output_struct g s0 || __is_arg_out_struct g s0
                    then Dict.update req1 s mark_set_from_and_from
                    else req1) l r) k = Dict.get req k)
    /\ (forall f key,
          Dict.get (fold_left (fun req0 s0 =>
                       let req1 :=
                         if __is_input_struct g s0
                         then Dict.update req0 s mark_set_to else req0 in
                       if __is_output_struct g s0
                          || __is_arg_out_struct g s0
                       then Dict.update req1 s mark_set_from_and_from
                       else req1) l r) s = Some f ->
          flag key f = true ->
          (exists f0, Dict.get req s = Some f0 /\ flag key f0 = true)
          \/ (exists z, In z owners
                        /\ flag key (element_flags g z) = true)).
Proof.
  induction l as [|a l IH]; intros Hl r H1 H2; cbn [fold_left];
    [split; assumption|].
  assert (Ha : In a owners) by (apply Hl; now left).
  apply IH; [intros z Hz; apply Hl; now right | |]; cbv zeta.
  - intros k Hk. pose proof Hk as Hk'. apply String.eqb_neq in Hk'.
    destruct (__is_output_struct g a || __is_arg_out_struct g a),
      (__is_input_struct g a);
      rewrite ?get_update, ?Hk'; now apply H1.
  - intros f key.
    destruct (Dict.get r s) as [d|] eqn:Gs.
    2:{ destruct (__is_output_struct g a || __is_arg_out_struct g a),
          (__is_input_struct g a);
          rewrite ?get_update, ?String.eqb_refl, ?Gs; cbn [option_map];
          try discriminate; try (rewrite Gs; discriminate). }
    destruct (__is_output_struct g a || __is_arg_out_struct g a) eqn:Eo,
      (__is_input_struct g a) eqn:Ei;
      rewrite ?get_update, ?String.eqb_refl, ?Gs; cbn [option_map];
      try rewrite Gs; cbn [option_map];
      intros [= <-] Hf;
      try (now apply (H2 d key));
      destruct key; cbn [flag mark_set_to mark_set_from_and_from
                           set_from from set_to to] in Hf;
      try (now apply (H2 d _));
      right; exists a; (split; [exact Ha|]);
      unfold element_flags; cbn [flag set_from from set_to to];
      assumption.
Qed.

(** One turn of the second loop. *)
Lemma second_pass_step_sources (req : Dict.t flags) (s : string) :
  forall f key,
    Dict.get (second_pass_step g req s) s = Some f ->
    flag key f = true ->
    (exists f0, Dict.get req s = Some f0 /\ flag key f0 = true)
    \/ (exists z fz, In z (owners_of g false s)
                     /\ Dict.get req z = Some fz /\ flag key fz = true)
    \/ (exists z, In z (owners_of g true s)
                  /\ flag key (element_flags g z) = true).
Proof.
  unfold second_pass_step, __is_internal_struct, __is_internal_struct_of_arr.
  destruct (scalar_fold_sources s req (owners_of g false s)
              (owners_of g false s) (fun z H => H) req
              (fun k _ => eq_refl)) as [A1 A2].
  { intros f key Hf Hk. left. now exists f. }
  set (req1 := fold_left _ (owners_of g false s) req) in *.
  assert (B : (forall k, k <> s ->
                 Dict.get (if nonempty (owners_of g false s)
                           then req1 else req) k = Dict.get req k)
              /\ forall f key,
                   Dict.get (if nonempty (owners_of g false s)
                             then req1 else req) s = Some f ->
                   flag key f = true ->
                   (exists f0, Dict.get req s = Some f0
                               /\ flag key f0 = true)
                   \/ (exists z fz, In z (owners_of g false s)
                                    /\ Dict.get req z = Some fz
                                    /\ flag key fz = true)).
  { destruct (nonempty (owners_of g false s)); [split; assumption|].
    split; [reflexivity|]. intros f key Hf Hk. left. now exists f. }
  revert B. generalize (if nonempty (owners_of g false s)
                        then req1 else req).
  intros req2 [B1 B2].
  destruct (array_fold_sources s req2 (owners_of g true s)
              (owners_of g true s) (fun z H => H) req2
              (fun k _ => eq_refl)) as [C1 C2].
  { intros f key Hf Hk. left. now exists f. }
  set (req3 := fold_left _ (owners_of g true s) req2) in *.
  intros f key Hf Hk.
  assert (D : (exists f0, Dict.get req2 s = Some f0 /\ flag key f0 = true)
              \/ (exists z, In z (owners_of g true s)
                            /\ flag key (element_flags g z) = true)).
  { destruct (nonempty (owners_of g true s));
      [now apply (C2 f key) | left; now exists f]. }
  destruct D as [(f0 & G0 & K0)|D]; [|now right; right].
  destruct (B2 f0 key G0 K0) as [H|H]; [now left | right; now left].
Qed.

(** The second loop, seen from a table [T] that its result extends to. *)
Lemma second_pass_sources (T : Dict.t flags) (l : list string) :
  forall req,
    extends (fold_left (second_pass_step g) l req) T ->
    (forall k f key, Dict.get req k = Some f -> flag key f = true ->
       flag key (own_flags g k) = true
       \/ (exists z fz, In z (owners_of g false k)
                        /\ Dict.get T z = Some fz /\ flag key fz = true)
       \/ (exists z, In z (owners_of g true k)
                     /\ flag key (element_flags g z) = true)) ->
    forall k f key,
      Dict.get (fold_left (second_pass_step g) l req) k = Some f ->
      flag key f = true ->
      flag key (own_flags g k) = true
      \/ (exists z fz, In z (owners_of g false k)
                       /\ Dict.get T z = Some fz /\ flag key fz = true)
      \/ (exists z, In z (owners_of g true k)
                    /\ flag key (element_flags g z) = true).
Proof.
  induction l as [|s l IH]; intros req HT Hreq; cbn [fold_left];
    [exact Hreq|].
  cbn [fold_left] in HT. apply (IH _ HT).
  assert (E : extends req T).
  { eapply extends_trans; [apply second_pass_step_extends|].
    eapply extends_trans; [apply second_pass_extends | exact HT]. }
  intros k f key Hf Hk.
  destruct (String.eqb_spec k s) as [->|Hne].
  - destruct (second_pass_step_sources req s f key Hf Hk)
      as [(f0 & G0 & K0)|[(z & fz & Hz & Gz & Kz)|H]].
    + now apply (Hreq s f0 key).
    + right. left. destruct (E z fz Gz) as (fT & GT & LT).
      exists z, fT. repeat split; [exact Hz | exact GT|].
      eapply flag_le; eassumption.
    + right. now right.
  - rewrite (second_pass_step_other g req s k Hne) in Hf.
    now apply (Hreq k f key).
Qed.

(** Every flag a struct ends with has a source. *)
Lemma flags_have_sources (struct_name : string) (f : flags)
    (key : flag_key) :
  flags_of g struct_name = Some f ->
  flag key f = true ->
  flag_has_source g struct_name key.
Proof.
  unfold flags_of. cbn [struct2additional_method_requirements
                          _make_additional_method_requirements].
  unfold second_pass. intros Hf Hk.
  destruct (second_pass_sources
              (fold_left (second_pass_step g) (Dict.keys g.(structs))
                 (first_pass g []))
              (Dict.keys g.(structs)) (first_pass g [])
              (extends_refl _)) with (k := struct_name) (f := f) (key := key)
    as [H|[(z & fz & Hz & Gz & Kz)|(z & Hz & Kz)]];
    try assumption.
  - intros k f0 key0. unfold first_pass. rewrite first_pass_get.
    destruct (PyStr.mem k (Dict.keys (structs g))); [|discriminate].
    intros [= <-] H. now left.
  - now left.
  - right. left. exists z, fz. repeat split; try assumption.
    now apply owners_of_holds.
  - right. right. exists z. split; [now apply owners_of_holds | exact Kz].
Qed.

End FlagSources.

(* ================================================================== *)
(** * Expansion policy *)
(* ================================================================== *)



(* ================================================================== *)
(** * Flags of outputs and out-arguments *)
(* ================================================================== *)

(** C3, amended.  A struct of the table that is an output (method return
    type or callback argument) ends with [set_from] and [from] set; a
    struct that is an out-argument ends with [set_from] set.  The flag
    [from] is set for no other reason than these: the struct is an
    output, or a struct that holds it in a field has the flag, or a
    struct that holds it in an array field is an output or an
    out-argument.  Being an out-argument does not set it. *)
Theorem C3_from_flags (g : model) (struct_name : string)
    (Hin : In struct_name (Dict.keys g.(structs))) :
  exists f, flags_of g struct_name = Some f
    /\ (__is_output_struct g struct_name = true ->
        f.(set_from) = true /\ f.(from) = true)
    /\ (__is_arg_out_struct g struct_name = true -> f.(set_from) = true)
    /\ (f.(from) = true ->
        __is_output_struct g struct_name = true
        \/ (exists Z fZ,
              holds_field_of g false Z struct_name
              /\ flags_of g Z = Some fZ /\ fZ.(from) = true)
        \/ (exists Z,
              holds_field_of g true Z struct_name
              /\ (__is_output_struct g Z || __is_arg_out_struct g Z)
                 = true)).
Proof.
  destruct (flags_of_own g struct_name Hin) as [f [Hf Hle]].
  exists f. split; [exact Hf|].
  destruct Hle as [Hsf [Hfr _]]. unfold own_flags in *; simpl in *.
  split; [|split].
  - intros Hout. rewrite Hout in *. split; [apply Hsf | apply Hfr];
      reflexivity.
  - intros Harg. rewrite Harg in *. apply Hsf. apply orb_true_r.
  - intros Hfrom.
    exact (flags_have_sources g struct_name f From Hf Hfrom).
Qed.

Lemma C3_witness :
  exists f, flags_of foo_model "EOS_Foo_DoneCallbackInfo" = Some f
    /\ (__is_output_struct foo_model "EOS_Foo_DoneCallbackInfo" = true ->
        f.(set_from) = true /\ f.(from) = true)
    /\ (__is_arg_out_struct foo_model "EOS_Foo_DoneCallbackInfo" = true ->
        f.(set_from) = true)
    /\ (f.(from) = true ->
        __is_output_struct foo_model "EOS_Foo_DoneCallbackInfo" = true
        \/ (exists Z fZ,
              holds_field_of foo_model false Z "EOS_Foo_DoneCallbackInfo"
              /\ flags_of foo_model Z = Some fZ /\ fZ.(from) = true)
        \/ (exists Z,
              holds_field_of foo_model true Z "EOS_Foo_DoneCallbackInfo"
              /\ (__is_output_struct foo_model Z
                  || __is_arg_out_struct foo_model Z) = true)).
Proof.
  apply (C3_from_flags foo_model "EOS_Foo_DoneCallbackInfo").
  simpl. tauto.
Defined.

(* ================================================================== *)
(** * Flags through nesting *)
(* ================================================================== *)

(** C4, amended.  When struct [X] holds a field, not an array field of
    the fixed list, whose decayed type is [Y], then after requirement
    derivation the member [Y] has every flag that the roles of the
    container [X] give it: the member takes over from the container.
    Nothing goes the other way: every flag that a struct ends with, the
    container [X] included, is a flag of its own roles, a flag of a
    struct that holds it in a field, or a flag that the roles of a
    struct holding it in an array field give. *)
Theorem C4_member_inherits_from_container (g : model) (X Y : string)
    (HY : In Y (Dict.keys g.(structs)))
    (Hfield : holds_field_of g false X Y) :
  (exists fy, flags_of g Y = Some fy /\ flags_le (own_flags g X) fy)
  /\ (forall struct_name f key,
        flags_of g struct_name = Some f ->
        flag key f = true ->
        flag_has_source g struct_name key)
  /\ (exists fx, flags_of g X = Some fx
        /\ forall key, flag key fx = true -> flag_has_source g X key).
Proof.
  assert (HX : In X (Dict.keys g.(structs))).
  { destruct Hfield as (fields & _ & _ & H & _). eapply in_keys, H. }
  split; [|split].
  - unfold flags_of; simpl. unfold second_pass.
    set (req0 := first_pass g []).
    assert (H0 : forall k, In k (Dict.keys g.(structs)) ->
                   Dict.get req0 k = Some (own_flags g k)).
    { intros k Hk. unfold req0, first_pass. rewrite first_pass_get.
      apply mem_true_iff in Hk. now rewrite Hk. }
    destruct (in_split _ _ HY) as (l1 & l2 & Hsplit).
    rewrite Hsplit, fold_left_app. simpl.
    set (req1 := fold_left (second_pass_step g) l1 req0).
    assert (E1 : extends req0 req1) by apply second_pass_extends.
    destruct (E1 X _ (H0 X HX)) as [fx [GX LX]].
    destruct (E1 Y _ (H0 Y HY)) as [fy1 [GY1 _]].
    destruct (second_pass_step_inherits g X Y req1 Hfield) as [fy [G L]].
    + exists fx. split; assumption.
    + congruence.
    + destruct (second_pass_extends g l2 _ Y fy G) as [fy' [G' L']].
      exists fy'. split; [exact G' | eapply flags_le_trans; eassumption].
  - intros struct_name f key. apply flags_have_sources.
  - destruct (flags_of_own g X HX) as (fx & Hfx & _).
    exists fx. split; [exact Hfx|].
    intros key. now apply flags_have_sources.
Qed.

Lemma C4_witness :
  (exists fy, flags_of foo_model "EOS_Foo_Range" = Some fy
     /\ flags_le (own_flags foo_model "EOS_Foo_CopyInfoOptions") fy)
  /\ (forall struct_name f key,
        flags_of foo_model struct_name = Some f ->
        flag key f = true ->
        flag_has_source foo_model struct_name key)
  /\ (exists fx, flags_of foo_model "EOS_Foo_CopyInfoOptions" = Some fx
        /\ forall key, flag key fx = true ->
             flag_has_source foo_model "EOS_Foo_CopyInfoOptions" key).
Proof.
  apply (C4_member_inherits_from_container foo_model
           "EOS_Foo_CopyInfoOptions" "EOS_Foo_Range").
  - simpl. tauto.
  - exists [("ApiVersion", "int32_t"); ("Range", "EOS_Foo_Range")],
      "Range", "EOS_Foo_Range".
    simpl. repeat split; tauto.
Defined.

(* ================================================================== *)
(** * The key of an accessor *)
(* ================================================================== *)

(** The last token of an accessor name, [Get<X>Interface], gives [X]. *)
Lemma interface_token_get (X : string) :
  X <> "" -> interface_token ("Get" ++ X ++ "Interface") = X.
Proof.
  intros HX. unfold interface_token.
  change (PyStr.mem ("Get" ++ X ++ "Interface") ["EOS"; "Platform"])
    with false.
  cbv iota.
  replace (startswith ("Get" ++ X ++ "Interface") "Get") with true
    by (symmetry; apply startswith_app).
  rewrite removeprefix_app, removesuffix_app by discriminate.
  destruct X; [congruence | reflexivity].
Qed.

Lemma accessor_tail_plain (X : string) :
  mem_char "_" X = false ->
  mem_char "_" ("Get" ++ X ++ "Interface") = false.
Proof. intros HX. rewrite !mem_char_app, HX. reflexivity. Qed.

(** In [EOS_Platform_Get<X>Interface] the tokens [EOS] and [Platform] are
    blanked, and the key is [X]. *)
Lemma interface_key_platform (X : string) :
  mem_char "_" X = false -> X <> "" ->
  interface_key ("EOS_Platform_Get" ++ X ++ "Interface") = X.
Proof.
  intros HX Hne. unfold interface_key.
  change ("EOS_Platform_Get" ++ X ++ "Interface")%string
    with ("EOS" ++ "_" ++ ("Platform" ++ "_"
                           ++ ("Get" ++ X ++ "Interface")))%string.
  rewrite (split_first "_" "" "EOS") by reflexivity.
  rewrite (split_first "_" "" "Platform") by reflexivity.
  rewrite split_absent by (apply accessor_tail_plain, HX).
  cbn [map]. rewrite (interface_token_get X Hne).
  change (interface_token "EOS") with "".
  change (interface_token "Platform") with "".
  reflexivity.
Qed.

(** In [Foo_Get<X>Interface] the token [Foo] stays, and the key is
    [Foo<X>]. *)
Lemma interface_key_foo (X : string) :
  mem_char "_" X = false -> X <> "" ->
  interface_key ("Foo_Get" ++ X ++ "Interface") = ("Foo" ++ X)%string.
Proof.
  intros HX Hne. unfold interface_key.
  change ("Foo_Get" ++ X ++ "Interface")%string
    with ("Foo" ++ "_" ++ ("Get" ++ X ++ "Interface"))%string.
  rewrite (split_first "_" "" "Foo") by reflexivity.
  rewrite split_absent by (apply accessor_tail_plain, HX).
  cbn [map]. rewrite (interface_token_get X Hne).
  change (interface_token "Foo") with "Foo".
  reflexivity.
Qed.

Lemma accessor_name_is_getter (P X : string) :
  is_interface_getter (P ++ "_Get" ++ X ++ "Interface") = true.
Proof.
  unfold is_interface_getter. rewrite contains_app_l. cbn [andb].
  apply endswith_iff. exists (P ++ "_Get" ++ X)%string.
  now rewrite !sapp_assoc.
Qed.

(** C5, amended.  For an input whose method table contains an accessor
    [Foo_Get<X>Interface] (as [Foo_GetBarInterface]), a consolidation that
    completes has stored it in the interface table under the key
    [Foo<X>] ([FooBar]) and has removed it from the method table: the
    unhandled-methods table does not contain it.  Only the tokens [EOS]
    and [Platform] are dropped from the name: it is the accessor
    [EOS_Platform_Get<X>Interface] that is stored under the key [X]. *)
Theorem C5_accessor_extracted (files : Dict.t file_info) (g : model)
    (X : string)
    (Hwf : wf_files files)
    (Hrun : consolidate files = Ok g)
    (HX : mem_char "_" X = false)
    (Hne : X <> "") :
  (forall jm mi,
     In (("Foo_Get" ++ X ++ "Interface")%string, mi) (methods_of files jm) ->
     In ("Foo" ++ X)%string (Dict.keys g.(interfaces))
     /\ ~ In ("Foo_Get" ++ X ++ "Interface")%string
          (Dict.keys g.(unhandled_methods)))
  /\ (forall jm mi,
        In (("EOS_Platform_Get" ++ X ++ "Interface")%string, mi)
          (methods_of files jm) ->
        In X (Dict.keys g.(interfaces))
        /\ ~ In ("EOS_Platform_Get" ++ X ++ "Interface")%string
             (Dict.keys g.(unhandled_methods))).
Proof.
  split; intros jm mi Hm.
  - rewrite <- (interface_key_foo X HX Hne).
    apply (accessor_extracted files g jm _ mi Hwf Hrun Hm).
    apply (accessor_name_is_getter "Foo" X).
  - rewrite <- (interface_key_platform X HX Hne) at 1.
    apply (accessor_extracted files g jm _ mi Hwf Hrun Hm).
    apply (accessor_name_is_getter "EOS_Platform" X).
Qed.

Lemma wf_platform_files : wf_files platform_files.
Proof.
  constructor; [nodup_strings | nodup_strings | nodup_strings | fresh_handles].
Qed.

Lemma C5_witness :
  (In "FooBar" (Dict.keys getter_model.(interfaces))
   /\ ~ In "Foo_GetBarInterface"
        (Dict.keys getter_model.(unhandled_methods)))
  /\ (In "Foo" (Dict.keys platform_model.(interfaces))
      /\ ~ In "EOS_Platform_GetFooInterface"
           (Dict.keys platform_model.(unhandled_methods))).
Proof.
  split.
  - apply (proj1 (C5_accessor_extracted getter_files getter_model "Bar"
                    wf_getter_files eq_refl eq_refl
                    ltac:(discriminate))
             "foo" {| return_ := "EOS_HBar"; args := [] |}).
    vm_compute. tauto.
  - apply (proj2 (C5_accessor_extracted platform_files platform_model "Foo"
                    wf_platform_files eq_refl eq_refl
                    ltac:(discriminate))
             "platform"
             {| return_ := "EOS_HFoo";
                args := [{| type := "EOS_HPlatform"; name := "Handle" |}] |}).
    vm_compute. tauto.
Defined.
